(* ===== verification/_CoqProject ===== *)
-Q . S2P
Prelude.v
Text.v
Errors.v
Core.v
BalancerApi.v
Weighted.v
LeastConn.v
ConsistentHash.v
Health.v
Selector.v
F64.v
Limiter.v
ClusterLimiter.v
Breaker.v
Adaptive.v
Retry.v
RouteMatcher.v
Plugin.v
Access.v
TrafficControl.v
TraceId.v
ServerAuth.v
Telemetry.v
Effects.v
HttpHandler.v
TlsSni.v
Config.v
Tunnel.v
WsTunnel.v
TcpHandler.v
Gateway.v
Assembly.v
Reload.v
Bridge.v
HttpPlugins.v
AuthPlugin.v
Builtins.v
Storage.v
Migrations.v
Repositories.v
Versions.v
Snapshot.v
RouteStore.v
Reports.v
ConfigCache.v
Control.v
Api.v
OpenApi.v
Rollback.v
Listings.v
Seed.v
HttpLoader.v
Ingest.v
Modes.v
Propagation.v
EndToEnd.v
Lifecycle.v
Serve.v
Commands.v
Tasks.v
