(* ===== verification/Prelude.v ===== *)
(** * A verification of the conrogate gateway

    conrogate is an API gateway in Rust: a data plane that routes HTTP, WebSocket
    and TCP traffic to upstream nodes, and a control plane that keeps the
    configuration in a database, publishes versions of it and collects what the
    gateways report. This development models both as executable functions on
    explicit states and as programs over the services they call, and proves what
    they promise. Paths below are relative to [src/crates/].

    ** How a request goes through the data plane

    The bridge receives a request from the HTTP server, answers probes, limits the
    body and hands it to the protocol handler (Bridge). The route table picks a
    route (RouteMatcher); the blacklist and the plugin chain of the route may stop
    the request (Access, Plugin, HttpPlugins, AuthPlugin); the traffic control
    limits rates and asks the circuit breaker of the route and node
    (TrafficControl, over Limiter, Breaker and Health); the concurrency limiter
    hands out a permit (Adaptive); the selector asks the balancer of the route's
    upstream for a node (Selector, over BalancerApi, Weighted, LeastConn,
    ConsistentHash and Health); a failed attempt may be retried within a budget
    (Retry); results feed the breaker and the health checker back; metrics are
    aggregated and written (Telemetry). Every answer carries a trace id (TraceId)
    and, for an error, a code (Errors). HttpHandler puts these steps in order for
    one request and TcpHandler for one tunnel; both are programs in the language
    of Effects. Gateway builds the components from the configuration (Config) and
    Reload replaces the running configuration.

    ** How a change goes through the control plane

    A request passes the trace and the authentication middleware (Api, over
    ServerAuth and TraceId), its handler checks the role and calls a service
    (Control), which calls the repositories (Repositories, Versions, Snapshot,
    Reports) and writes the audit log. The repositories are statements on the
    tables (Storage). Publishing freezes the live rows as a version and writes it
    to the cache (ConfigCache); rolling back writes an older version to the tables
    again (Snapshot, Rollback). A gateway on another machine reads the
    configuration through the API (HttpLoader) and sends heartbeats; the requests
    that take metrics and events are modelled too (Ingest). How a publication
    reaches the gateways through the cache, with everything that may happen in
    between, is in Propagation; what that means for single requests in EndToEnd.

    ** Files

    - Prelude: results, panics as values, machine integers, clocks, stable
      sorting, the iterator extrema, sums; tactics and the hint database.
    - Text: the string functions of the Rust standard library that the code
      uses, on byte strings. Case mapping is ASCII: the code compares header
      values, methods and hosts.
    - Errors: [ConrogateError] (conrogate-core/src/error.rs) and the envelope of
      error responses (response.rs).
    - Core: protocols, algorithms, match conditions, the construction of the
      matching input, the DTOs (protocol.rs, balancer.rs, dto.rs).
    - BalancerApi: the [LoadBalancer] trait as a class, what its implementations
      promise as another ([LoadBalancerOk]), and round robin
      (conrogate-balancer/src/round_robin.rs).
    - Weighted, LeastConn, ConsistentHash: the other balancers (weighted.rs,
      least_conn.rs, consistent_hash.rs), each discharging [LoadBalancerOk].
    - Health: passive and active health (conrogate-gateway/src/health.rs,
      health_check.rs).
    - Selector: the registry and [UpstreamSelectorImpl] (conrogate-core/src/
      balancer.rs, conrogate-balancer/src/registry.rs, conrogate-gateway/src/
      pool.rs), proved against the interface.
    - F64: binary64 arithmetic from the standard library's [SpecFloat], and its
      exactness on integers.
    - Limiter: the [Limiter] trait and the three limiters (conrogate-traffic/src/
      limiter.rs), with the promise [LimiterOk] to their client.
    - ClusterLimiter: the script of the token bucket in Redis, run by any number of
      gateways (limiter.rs), over the class [RedisServer].
    - Breaker, Adaptive, Retry: breaker.rs, adaptive.rs, retry_budget.rs,
      retry.rs and timeout.rs of conrogate-traffic.
    - RouteMatcher: conrogate-gateway/src/route.rs.
    - Plugin: the plugin trait, registry, loader and pipeline
      (conrogate-plugins/src/framework/).
    - Access: the blacklist (conrogate-security/src/blacklist.rs) and the
      ip_allow_deny plugin.
    - TrafficControl: the adapter (conrogate-gateway/src/filter.rs), with the token
      bucket of the gateway and against [LimiterOk].
    - TraceId: the id generator (conrogate-core/src/response.rs).
    - ServerAuth: bearer tokens and roles (conrogate-server/src/auth.rs).
    - Telemetry: metric aggregation (conrogate-gateway/src/telemetry.rs).
    - Effects: programs that call services, their traces, their execution.
    - HttpHandler: the HTTP handler in its buffered and streamed modes, with the
      forwarding and the upgrade test (conrogate-protocol/src/http.rs, proxy.rs,
      upgrade.rs), as programs over the services of conrogate-core/src/
      gateway.rs.
    - TlsSni: the server name of a ClientHello (conrogate-protocol/src/tls.rs).
    - Config: structures, defaults, environment, validation (conrogate-core/src/
      config.rs).
    - Tunnel: the DNS cache, the throttled copy and the WebSocket handshake
      (conrogate-protocol/src/dns.rs, proxy.rs, upgrade.rs).
    - WsTunnel: the request the handshake sends with a parser for it, and the relay
      of an open tunnel, direction by direction (upgrade.rs).
    - TcpHandler: the TCP tunnel and the registry of protocols (tcp.rs,
      handler.rs).
    - Gateway, Reload, Bridge: the gateway server (conrogate-gateway/src/
      server.rs): construction and admission, reloading, the HTTP bridge.
    - Assembly: what the separate gateway and the merged process are made of, and
      sequences of selections and results on them (server.rs, bootstrap.rs).
    - HttpPlugins, AuthPlugin: the plugins cors, header_rewrite and auth
      (conrogate-plugins/src/).
    - Builtins: the four official plugins as implementations of the plugin trait,
      the registry the processes fill with them (lib.rs, bootstrap.rs), and what a
      chain built from bindings guards.
    - Storage: the tables, the statements on them, transactions, the connection
      to Redis, and the two predicates on queries the later files use: what a
      query leaves alone ([keeps]) and that it keeps the constraints ([sound]).
    - Repositories, Versions, Snapshot, Reports: the repositories
      (conrogate-storage/src/repository/, convert.rs); Versions is the history of
      configuration versions, Snapshot is [apply_snapshot].
    - RouteStore: the traits of the route repository (conrogate-core/src/
      storage.rs) as an abstract machine over a map, refined by the database.
    - ConfigCache: the class of configuration caches, its promise, the caches on
      the database and on Redis (config_cache.rs).
    - Control: the services and the audit log (conrogate-server/src/service.rs,
      audit.rs).
    - Api: requests, roles, handlers and middlewares (api.rs, handler.rs,
      trace.rs).
    - OpenApi: the document of conrogate-server/src/openapi.rs and the table of
      routes of api.rs, compared.
    - Rollback: publishing and rolling back as a whole.
    - Propagation: publishers, readers and edits over one Redis, one command at a
      time, and the reload loop of a gateway next to them (config_cache.rs,
      conrogate-gateway/src/server.rs).
    - EndToEnd: from a publication to the requests of a route: what a published
      binding of the auth plugin means for what is sent upstream.
    - HttpLoader: the loader of a separate gateway (conrogate-cli/src/
      http_config_loader.rs), against any server and against Api.
    - Ingest: what the tables hold after a report.
    - Migrations: the schema (conrogate-storage/src/migration/) as data, what its
      statements do, and that [db_ok] of Storage is what it enforces.
    - Listings, Seed: what the listings read in full, and the demonstration data
      (conrogate-storage/src/seed.rs).
    - Modes: what each process loads when it starts and when it reloads, over HTTP
      and from the database (conrogate-cli/src/cmd_gate.rs, bootstrap.rs,
      conrogate-gateway/src/server.rs).
    - Lifecycle: listening, TLS (conrogate-gateway/src/tls.rs), one connection as a
      program, and the accept loop with its shutdown as a step relation.
    - Serve: the main task of the merged process (cmd_serve.rs, bootstrap.rs) next to
      the server of Lifecycle.
    - Commands: what each command of conrogate-cli starts and what makes it fail
      (main.rs, cmd_gate.rs, cmd_serve.rs, cmd_control.rs, cmd_migrate.rs).
    - Tasks: the channel and the consumer of events, the task manager, the static
      resolver, what plugin calls report (conrogate-gateway/src/telemetry.rs,
      task_manager.rs, discovery.rs, conrogate-protocol/src/handler.rs).

    ** Conventions

    A method on [&self] with interior mutability is a function from a state to a
    state and a result. A mutex that is held for the whole method makes the
    method one step; where the code gives up a lock or uses atomics, the model
    shows it: the ring cache is read and written in two steps between which other
    callers may write (ConsistentHash), permits are a step relation over any
    number of threads (Adaptive), publishers and rollbacks of versions interleave
    (Versions), and the results of the breaker's clock are separate inputs
    (Breaker). [Instant], [Duration] and [DateTime] are numbers of nanoseconds, and
    a reading of the clock is an argument; theorems about time assume that the
    readings do not decrease. Integers are [Z] with the wrap-around of the release
    profile written out ([u64_wrap], [i32_wrap], ...); an index out of range, a
    division by zero or an unwrap of nothing is the outcome [Panic]. A [HashMap] is
    a [gmap]; where its iteration order could matter, the order is a parameter.
    [f64] is binary64, rounding included. An asynchronous handler is a program of
    service calls; its theorems speak about all traces such a program can have, so
    they hold whatever the services and the upstream answer and however other
    requests are interleaved with it. A query of the control plane is a function
    from the world (tables, Redis, number of readings and statements so far) to
    the world and a result; every statement may fail, at any moment, and a failed
    transaction leaves the tables as they were. A command to Redis that fails may
    have been carried out all the same.

    Recursion is structural wherever the code's is: on the list of requests or
    events, or on the number of attempts (three in [attempt_upsert] and
    [write_retrying], [max_retries + 1] in [attempts], as in the code). Two loops
    of the code have no bound of their own and take fuel: the parser of a
    ClientHello, for which running out is a panic and [extract_sni_roundtrip]
    with its lemma [extract_sni_total] shows that it never happens, and the pages
    of [HttpLoader.load_pages], for which [load_routes_complete] gives the number
    of pages that is enough and the case in which no number is.

    Code that is not part of the repository is a parameter: the hash function of
    the ring (any function into the integers), the regex engine (a compiler and a
    matcher), the IP address library (its laws are the class [IpLibOk]), the store
    behind the cluster breaker (INCRBY and MGET), the commands of a Redis
    server that the token-bucket script calls ([RedisServer]), the deserialisation of a plugin's configuration, header maps and URIs
    (laws in [HttpLibOk]), SHA-1, SHA-256 and base64, the JWT library, the lookup
    of names, the parsing of floating-point text, JSON as text and the
    (de)serialisation of DTOs ([Serde], [Encode]), the database's choice of ids,
    its LIKE, its clock and what a column keeps of a time ([DbEnv]). Where a theorem needs a law of such a
    parameter, the law is a named hypothesis and the theorem's witness
    instantiates it.

    ** What the theorems show

    - The request as a whole: which gates it passes, when its node is released and
      what the client is answered ([request_lifecycle]); how often it is sent
      upstream ([attempts_bounded]); which client address and which credentials
      reach the upstream ([client_identity]); what the bridge answers
      ([bridge_answers], [upgrade_hand_over]); the same for tunnels
      ([tunnel_lifecycle]) and for an upgraded connection, from the handshake to the
      last byte relayed ([websocket_relays]).
    - The configuration as a whole: a rollback restores what was published
      ([rollback_restores_published], [apply_snapshot_restores]), as long as no two
      upstreams have one name ([one_of_a_name]); versions form a
      chain under concurrent publishers ([versions_chain]); a publication is cached
      ([publication_is_cached]), what readers are given is a version of the history
      however they and the publishers interleave ([cache_never_lies], though it may
      be an older one, [cache_goes_back]), and a gateway serves what was published, if
      it can build its plugins, after at most two turns of its loop and one wait ([published_is_served]), a
      loop that goes on whatever fails ([loop_goes_on]); a reload
      replaces all or nothing ([reload_all_or_nothing]); the loader collects every
      route ([load_routes_complete]); reloading over HTTP and from the database
      leads to the same configuration ([modes_agree]); the schema enforces the
      constraints the tables are modelled with ([constraints_enforced]), and over
      them the repository of routes is a map ([route_repo_refines]).
    - The processes: the life of the gateway server and of its connections, for
      every interleaving ([server_life], [connection_as_configured]), the shutdown
      of the merged process, which never comes ([serve_never_drains]), what makes the
      commands stop ([gate_lives], [control_serves]), the plugin
      chains a process starts with ([startup_chains]), background tasks
      ([shutdown_bounded]), seeding ([seed_idempotent]).
    - Who may do what: tokens ([auth_requires_token]), roles ([api_authorized]),
      the audit log ([api_audited]), the auth plugin ([auth_admits]) and the routes it
      guards from their publication on, whatever else is bound to them
      ([published_guard], by [guarded_route] for one chain), address
      rules ([ip_allow_deny_decision]), cross-origin grants ([cors_grants]).
    - Balancing: round robin and weighted round robin are exactly fair over a
      period ([round_robin_cycle], [weighted_period_fair]); least connections
      implements the multiset of open connections ([least_conn_refinement]);
      consistent hashing keeps keys on their nodes ([consistent_hash_affinity],
      [consistent_hash_minimal_disruption]); selection answers an enabled
      node, a healthy one if there is one, and never panics while no address has a bar
      ([select_upstream_sound], [bar_panics]); in the
      merged process results steer later selections, in a gateway of its own they
      do not ([results_steer_selection]).
    - Limits: rates up to the three levels of the traffic control
      (bursts with the token bucket of the gateway, [burst_cut]; any limiter that keeps
      the promise of the interface, [counted_bounded]; one limiter,
      [sliding_window_bound]), the bucket shared through Redis
      ([cluster_bucket_resets]), permits under every
      interleaving ([permits_exact], [gateway_limit_static]), the breaker
      ([breaker_open_isolates], [breaker_recovers]).
    - Routing: the matched route is the best eligible one ([match_route_best]).
    - Reports: metrics are neither lost nor invented by the aggregation
      ([metrics_conserved]), events keep their order from the channel to the table
      ([events_flow]); a report sent twice is stored once ([events_once],
      [metrics_once]).
    - Input: the server name ([extract_sni_roundtrip]), the environment
      ([from_env_type], [gateway_builds]), the header fields
      ([apply_section_values]), cached addresses ([resolve_fresh]).
    - Description: the OpenAPI document and the router describe the same requests,
      up to three routes and one field ([openapi_agrees]).

    Beside these, each file proves the laws its clients use and the behaviours
    listed as findings (for instance [token_bucket_double_rate],
    [unrouted_metric_added], [diff_unchanged_modified]).

    ** What is not modelled

    Collations of the database (names are compared byte by byte), the precision of
    the time columns except for the key of the events, commits whose confirmation is
    lost, sockets, the TLS handshake and the streaming of bodies (an exchange with the
    upstream is one call of the handler), the text of SQL statements, the
    connection pools, the routing of paths and the parsing of bodies by the web
    framework, the set-up of logging,
    the parsing of command lines and of the .env file and the dashboard. *)
From Stdlib Require Import ZArith Lia Ascii String.
From stdpp Require Import base tactics option list list_numbers sorting gmap strings pretty.

#[global] Open Scope Z_scope.

(** ** Results, panics and fallible steps *)

(** Rust's [Result<A, E>]. *)
Inductive result (A E : Type) : Type :=
| Ok (a : A)
| Err (e : E).
Arguments Ok {A E} a.
Arguments Err {A E} e.

(** The outcome of a Rust computation that may panic (an index out of range,
    a division by zero); a panic is a value of the model, never a stuck term. *)
Inductive outcome (A : Type) : Type :=
| Ret (a : A)
| Panic.
Arguments Ret {A} a.
Arguments Panic {A}.

Declare Scope rust_scope.
Delimit Scope rust_scope with rust.

(** The [?] operator: propagate an error, otherwise continue. *)
Notation "'let?' x := c 'in' k" :=
  (match c with Ok x => k | Err e => Err e end)
  (at level 10, x pattern, c at level 200, k at level 200)
  : rust_scope.
(** A step that may panic, then the rest. *)
Notation "'let!' x := c 'in' k" :=
  (match c with Ret x => k | Panic => Panic end)
  (at level 10, x pattern, c at level 200, k at level 200)
  : rust_scope.
#[global] Open Scope rust_scope.

Definition is_ok {A E} (r : result A E) : bool :=
  match r with Ok _ => true | Err _ => false end.

(** ** Machine integers: the release profile has no overflow checks, so the
    arithmetic operators wrap around *)

Definition u64_wrap (z : Z) : Z := z mod 2 ^ 64.
Definition u32_wrap (z : Z) : Z := z mod 2 ^ 32.
Definition i32_wrap (z : Z) : Z := (z + 2 ^ 31) mod 2 ^ 32 - 2 ^ 31.
Definition i64_wrap (z : Z) : Z := (z + 2 ^ 63) mod 2 ^ 64 - 2 ^ 63.

(** [saturating_sub] on an unsigned type. *)
Definition saturating_sub (a b : Z) : Z := Z.max 0 (a - b).

(** ** Clocks: an [Instant] and a [Duration] are numbers of nanoseconds;
    [Instant::duration_since] saturates at zero *)

Definition duration_since (now earlier : Z) : Z := Z.max 0 (now - earlier).
Definition from_secs (s : Z) : Z := s * 1000000000.
Definition from_millis (ms : Z) : Z := ms * 1000000.
Definition as_millis (d : Z) : Z := d / 1000000.
Definition as_secs (d : Z) : Z := d / 1000000000.

Lemma u64_wrap_small z : 0 <= z < 2 ^ 64 → u64_wrap z = z.
Proof. intros H. unfold u64_wrap. by apply Z.mod_small. Qed.

Lemma u64_wrap_range z : 0 <= u64_wrap z < 2 ^ 64.
Proof. unfold u64_wrap. by apply Z.mod_pos_bound. Qed.

Lemma i32_wrap_small z : - 2 ^ 31 <= z < 2 ^ 31 → i32_wrap z = z.
Proof. intros H. unfold i32_wrap. rewrite Z.mod_small; lia. Qed.

Lemma i64_wrap_small z : - 2 ^ 63 <= z < 2 ^ 63 → i64_wrap z = z.
Proof. intros H. unfold i64_wrap. rewrite Z.mod_small; lia. Qed.

Lemma duration_since_nonneg now earlier : 0 <= duration_since now earlier.
Proof. unfold duration_since. lia. Qed.

(** The casts [as i64] and [as u64] are inverse on the values both types hold
    and wrap otherwise; they are mutually inverse bijections. *)
Lemma u64_i64_roundtrip z : 0 <= z < 2 ^ 64 → u64_wrap (i64_wrap z) = z.
Proof.
  intros H. unfold u64_wrap, i64_wrap.
  rewrite Zminus_mod_idemp_l. replace (z + 2 ^ 63 - 2 ^ 63) with z by lia.
  by apply Z.mod_small.
Qed.

(** ** Lists *)

Lemma filter_elem_of {A} (P : A → bool) (x : A) l :
  x ∈ List.filter P l ↔ x ∈ l ∧ P x = true.
Proof. rewrite !list_elem_of_In. apply filter_In. Qed.

Lemma NoDup_map_inj {A B} (f : A → B) l x y : NoDup (map f l) → x ∈ l → y ∈ l → f x = f y → x = y.
Proof.
  intros Hnd [i Hi]%list_elem_of_lookup [j Hj]%list_elem_of_lookup E.
  assert (i = j) as -> by (eapply (NoDup_lookup (map f l)); [done|by rewrite list_lookup_fmap, Hi|by rewrite list_lookup_fmap, Hj, E]).
  congruence.
Qed.

Lemma NoDup_map_by {A B C} (f : A → B) (g : A → C) l :
  NoDup (map g l) → (∀ x y, x ∈ l → y ∈ l → f x = f y → g x = g y) → NoDup (map f l).
Proof.
  induction l as [|a l IH]; simpl; intros Hnd Hinj; [constructor|]. apply NoDup_cons in Hnd as [Ha Hnd].
  apply NoDup_cons. split; [|apply IH; [done|intros x y Hx Hy E; apply Hinj; [by right|by right|done]]].
  intros (x & E & Hx)%list_elem_of_fmap. apply Ha. apply list_elem_of_fmap. exists x. split; [|done].
  apply Hinj; [by left|by right|done].
Qed.

Lemma NoDup_map_omap {A B C D} (f : A → option B) (g : A → D) (h : B → C) l :
  NoDup (map g l) → (∀ x x' y y', x ∈ l → x' ∈ l → f x = Some y → f x' = Some y' → h y = h y' → g x = g x') →
  NoDup (map h (omap f l)).
Proof.
  induction l as [|a l IH]; simpl; intros Hnd Hinj; [constructor|]. apply NoDup_cons in Hnd as [Ha Hnd].
  assert (NoDup (map h (omap f l))) as Hl.
  { apply IH; [done|]. intros x x' y y' Hx Hx'. apply (Hinj x x' y y'); by right. }
  destruct (f a) as [b|] eqn:Eb; [|done]. simpl. apply NoDup_cons. split; [|done].
  intros (y & E & (x & Hx & Ex)%list_elem_of_omap)%list_elem_of_fmap. apply Ha. apply list_elem_of_fmap. exists x. split; [|done].
  apply (Hinj a x b y); [by left|by right|done..].
Qed.

Lemma NoDup_map_filter {A B} (f : A → B) (p : A → bool) l : NoDup (map f l) → NoDup (map f (List.filter p l)).
Proof.
  induction l as [|a l IH]; simpl; [done|]. intros [Ha Hnd]%NoDup_cons. destruct (p a); simpl; [|by apply IH].
  apply NoDup_cons. split; [|by apply IH]. intros (x & E & [Hx _]%filter_elem_of)%list_elem_of_fmap.
  apply Ha. apply list_elem_of_fmap. by exists x.
Qed.

Lemma filter_filter {A} (p q : A → bool) l : List.filter p (List.filter q l) = List.filter (λ x, p x && q x) l.
Proof.
  induction l as [|a l IH]; simpl; [done|]. destruct (q a); simpl; [by destruct (p a); simpl; rewrite IH|].
  by rewrite andb_false_r.
Qed.

#[global] Instance filter_Permutation {A} (p : A → bool) : Proper (Permutation ==> Permutation) (List.filter p).
Proof.
  induction 1 as [|x l1 l2 _ IH|x y l|l1 l2 l3 _ IH1 _ IH2]; simpl; [done| | |by etrans].
  - destruct (p x); [by f_equiv|done].
  - destruct (p x), (p y); [apply Permutation_swap|done..].
Qed.

Lemma find_elem_of {A} (P : A → bool) l :
  match List.find P l with
  | Some x => x ∈ l ∧ P x = true
  | None => ∀ x, x ∈ l → P x = false
  end.
Proof.
  destruct (List.find P l) as [x|] eqn:E.
  - apply find_some in E as [Hx HP]. by rewrite list_elem_of_In.
  - intros x Hx. apply (find_none _ _ E). by apply list_elem_of_In.
Qed.

(** ** Tactics and hint databases *)

Create HintDb rust.
#[export] Hint Resolve u64_wrap_range duration_since_nonneg : rust.

(** Case analysis on every boolean comparison of integers in sight. *)
Ltac case_Z :=
  repeat match goal with
  | |- context [Z.leb ?a ?b] => destruct (Z.leb_spec a b)
  | |- context [Z.ltb ?a ?b] => destruct (Z.ltb_spec a b)
  | |- context [Z.eqb ?a ?b] => destruct (Z.eqb_spec a b)
  | H : context [Z.leb ?a ?b] |- _ => destruct (Z.leb_spec a b)
  | H : context [Z.ltb ?a ?b] |- _ => destruct (Z.ltb_spec a b)
  | H : context [Z.eqb ?a ?b] |- _ => destruct (Z.eqb_spec a b)
  end.

(** Break the goal and the hypotheses at their innermost [match]. *)
Ltac break :=
  repeat (case_match; simplify_eq/=; try done).

(** ** Stable sort: Rust's [slice::sort_by] and [sort_by_key] are stable *)

Section StableSort.
Context {A : Type} (leb : A → A → bool).

Fixpoint insert_sorted (x : A) (l : list A) : list A :=
  match l with
  | [] => [x]
  | y :: l' => if leb x y then x :: y :: l' else y :: insert_sorted x l'
  end.

Definition stable_sort (l : list A) : list A := foldr insert_sorted [] l.

Lemma insert_sorted_perm x l : insert_sorted x l ≡ₚ x :: l.
Proof.
  induction l as [|y l IH]; simpl; [done|].
  destruct (leb x y); [done|]. rewrite IH. apply Permutation_swap.
Qed.

Lemma stable_sort_perm l : stable_sort l ≡ₚ l.
Proof. induction l as [|x l IH]; simpl; [done|]. by rewrite insert_sorted_perm, IH. Qed.

Context (leb_total : ∀ x y, leb x y = false → leb y x = true).
Context (leb_trans : ∀ x y z, leb x y = true → leb y z = true → leb x z = true).

Lemma insert_sorted_sorted x l :
  StronglySorted (λ a b, leb a b = true) l →
  StronglySorted (λ a b, leb a b = true) (insert_sorted x l).
Proof.
  induction 1 as [|y l Hs IH Hy]; simpl; [repeat constructor|].
  destruct (leb x y) eqn:E.
  - constructor; [by constructor|]. constructor; [done|].
    eapply Forall_impl; [exact Hy|]. simpl. eauto.
  - constructor; [done|]. rewrite insert_sorted_perm. constructor; eauto.
Qed.

Lemma stable_sort_sorted l : StronglySorted (λ a b, leb a b = true) (stable_sort l).
Proof. induction l; simpl; [constructor|]. by apply insert_sorted_sorted. Qed.

(** Stability: the elements of one equivalence class of the order keep their
    relative order. *)
Lemma insert_sorted_filter_other (P : A → bool) x l :
  P x = false → List.filter P (insert_sorted x l) = List.filter P l.
Proof.
  intros Hx. induction l as [|y l IH]; simpl; [by rewrite Hx|].
  destruct (leb x y); simpl; [by rewrite Hx|]. by rewrite IH.
Qed.

Lemma insert_sorted_filter_class (P : A → bool) x l :
  P x = true → (∀ y, P y = true → leb x y = true) →
  List.filter P (insert_sorted x l) = x :: List.filter P l.
Proof.
  intros Hx Hcl. induction l as [|y l IH]; simpl; [by rewrite Hx|].
  destruct (leb x y) eqn:E; simpl; [by rewrite Hx|].
  destruct (P y) eqn:Py; [specialize (Hcl y Py); congruence|]. done.
Qed.

Lemma stable_sort_stable (P : A → bool) l :
  (∀ x y, P x = true → P y = true → leb x y = true) →
  List.filter P (stable_sort l) = List.filter P l.
Proof.
  intros Hcl. induction l as [|x l IH]; simpl; [done|].
  destruct (P x) eqn:Px.
  - rewrite insert_sorted_filter_class; [by rewrite IH|done|eauto].
  - by rewrite insert_sorted_filter_other.
Qed.
End StableSort.

(** ** Selection by key, as in [Iterator::max_by_key] (the last maximum wins)
    and [Iterator::min_by_key] (the first minimum wins) *)

Section SelectByKey.
Context {A : Type} (key : A → Z).

Definition max_by_key (l : list A) : option A :=
  match l with
  | [] => None
  | x :: l' => Some (foldl (λ a y, if key a <=? key y then y else a) x l')
  end.

Definition min_by_key (l : list A) : option A :=
  match l with
  | [] => None
  | x :: l' => Some (foldl (λ a y, if key y <? key a then y else a) x l')
  end.

Lemma max_by_key_fold l x :
  let m := foldl (λ a y, if key a <=? key y then y else a) x l in
  m ∈ x :: l ∧ ∀ y, y ∈ x :: l → key y <= key m.
Proof.
  revert x. induction l as [|y l IH]; intros x; simpl.
  - split; [left|]. intros y Hy. apply list_elem_of_singleton in Hy as ->. lia.
  - destruct (key x <=? key y) eqn:E.
    + destruct (IH y) as [Hin Hmax]. split; [by right|].
      intros z Hz. apply elem_of_cons in Hz as [->|Hz]; [|eauto].
      specialize (Hmax y ltac:(left)). lia.
    + destruct (IH x) as [Hin Hmax]. split; [set_solver|].
      intros z Hz. specialize (Hmax x ltac:(left)) as Hx.
      apply elem_of_cons in Hz as [->|Hz]; [lia|].
      apply elem_of_cons in Hz as [->|Hz]; [lia|]. apply Hmax. by right.
Qed.

Lemma max_by_key_spec l m :
  max_by_key l = Some m → m ∈ l ∧ ∀ y, y ∈ l → key y <= key m.
Proof. destruct l; simpl; intros; simplify_eq. apply max_by_key_fold. Qed.

Lemma min_by_key_fold l x :
  let m := foldl (λ a y, if key y <? key a then y else a) x l in
  m ∈ x :: l ∧ ∀ y, y ∈ x :: l → key m <= key y.
Proof.
  revert x. induction l as [|y l IH]; intros x; simpl.
  - split; [left|]. intros y Hy. apply list_elem_of_singleton in Hy as ->. lia.
  - destruct (key y <? key x) eqn:E.
    + destruct (IH y) as [Hin Hmin]. split; [by right|].
      intros z Hz. apply elem_of_cons in Hz as [->|Hz]; [|eauto].
      specialize (Hmin y ltac:(left)). lia.
    + destruct (IH x) as [Hin Hmin]. split; [set_solver|].
      intros z Hz. specialize (Hmin x ltac:(left)) as Hx.
      apply elem_of_cons in Hz as [->|Hz]; [lia|].
      apply elem_of_cons in Hz as [->|Hz]; [lia|]. apply Hmin. by right.
Qed.

Lemma min_by_key_spec l m :
  min_by_key l = Some m → m ∈ l ∧ ∀ y, y ∈ l → key m <= key y.
Proof. destruct l; simpl; intros; simplify_eq. apply min_by_key_fold. Qed.
End SelectByKey.

(** ** Sums of integers *)

Definition sumZ (l : list Z) : Z := foldr Z.add 0 l.

Lemma sumZ_nonneg l : Forall (λ z, 0 <= z) l → 0 <= sumZ l.
Proof. induction 1; simpl; lia. Qed.

Lemma sumZ_app l k : sumZ (l ++ k) = sumZ l + sumZ k.
Proof. induction l as [|x l IH]; simpl; [done|]. unfold sumZ in *. lia. Qed.

#[global] Instance sumZ_perm : Proper ((≡ₚ) ==> (=)) sumZ.
Proof. intros l k H. induction H; simpl; unfold sumZ in *; simpl in *; lia. Qed.

Lemma sumZ_insert l i x y :
  l !! i = Some x → sumZ (<[i:=y]> l) = sumZ l - x + y.
Proof.
  revert i. induction l as [|z l IH]; intros [|i] H; simplify_eq/=; [lia|].
  rewrite (IH i H). lia.
Qed.

Lemma sumZ_zip_add l k :
  length l = length k → sumZ (zip_with Z.add l k) = sumZ l + sumZ k.
Proof.
  revert k. induction l as [|x l IH]; intros [|y k] H; simplify_eq/=; [done|].
  rewrite IH by done. lia.
Qed.

Lemma sumZ_replicate n x : sumZ (replicate n x) = Z.of_nat n * x.
Proof. induction n as [|n IH]; [done|]. simpl replicate. simpl sumZ. rewrite IH. lia. Qed.

(** An element is bounded by the sum and a lower bound on the others. *)
Lemma sumZ_upper l b i x :
  0 <= b → Forall (λ z, - b <= z) l → l !! i = Some x →
  x <= sumZ l + (Z.of_nat (length l) - 1) * b.
Proof.
  intros Hb Hl. revert i. induction Hl as [|z l Hz Hl IH]; intros [|i] H; simplify_eq/=.
  - assert (- (Z.of_nat (length l) * b) <= sumZ l); [|lia].
    clear IH Hz. induction Hl; simpl; lia.
  - specialize (IH i H). lia.
Qed.

(** Some element is positive when the sum is. *)
Lemma sumZ_pos_elem l : 0 < sumZ l → ∃ x, x ∈ l ∧ 0 < x.
Proof.
  induction l as [|z l IH]; simpl; [lia|]. intros H.
  destruct (decide (0 < z)) as [Hz|Hz]; [exists z; split; [left|done]|].
  destruct IH as (x & Hx & Hp); [lia|]. exists x. split; [by right|done].
Qed.

(** A list of nonnegative numbers that sums to zero is a list of zeros. *)
Lemma sumZ_zero l : Forall (λ z, 0 <= z) l → sumZ l = 0 → l = replicate (length l) 0.
Proof.
  induction 1 as [|z l Hz Hl IH]; simpl; [done|]. intros Hs.
  pose proof (sumZ_nonneg l Hl). f_equal; [lia|]. apply IH. lia.
Qed.
