(* ===== verification/Text.v ===== *)
(** Rust's [str] operations, on byte strings.

    A Rust string is a sequence of bytes; a model string is a sequence of
    8-bit characters. The operations are the ones the sources call:
    [starts_with], [strip_prefix], [contains], [split(char)], [join],
    [eq_ignore_ascii_case], [to_ascii_lowercase], [to_uppercase] (on ASCII
    text: HTTP methods and algorithm names), [trim] (the ASCII white space)
    and the decimal formatting of integers. *)
From Stdlib Require Import ZArith Lia Ascii String.
From stdpp Require Import base tactics option list list_numbers gmap strings pretty.
From S2P Require Import Prelude.
#[local] Open Scope Z_scope.

Fixpoint starts_with (p s : string) : bool :=
  match p, s with
  | EmptyString, _ => true
  | String a p', String b s' => bool_decide (a = b) && starts_with p' s'
  | String _ _, EmptyString => false
  end.

Fixpoint strip_prefix (p s : string) : option string :=
  match p, s with
  | EmptyString, _ => Some s
  | String a p', String b s' => if bool_decide (a = b) then strip_prefix p' s' else None
  | String _ _, EmptyString => None
  end.

Fixpoint contains (sub s : string) : bool :=
  starts_with sub s ||
  match s with EmptyString => false | String _ s' => contains sub s' end.

Definition is_upper (c : ascii) : bool :=
  let n := N_of_ascii c in (65 <=? n)%N && (n <=? 90)%N.
Definition is_lower (c : ascii) : bool :=
  let n := N_of_ascii c in (97 <=? n)%N && (n <=? 122)%N.
Definition is_digit (c : ascii) : bool :=
  let n := N_of_ascii c in (48 <=? n)%N && (n <=? 57)%N.

Definition lower_char (c : ascii) : ascii :=
  if is_upper c then ascii_of_N (N_of_ascii c + 32) else c.
Definition upper_char (c : ascii) : ascii :=
  if is_lower c then ascii_of_N (N_of_ascii c - 32) else c.

Fixpoint map_string (f : ascii → ascii) (s : string) : string :=
  match s with EmptyString => EmptyString | String c s' => String (f c) (map_string f s') end.

Definition to_lowercase : string → string := map_string lower_char.
Definition to_uppercase : string → string := map_string upper_char.
Definition eq_ignore_ascii_case (a b : string) : bool :=
  bool_decide (to_lowercase a = to_lowercase b).

Definition is_space (c : ascii) : bool :=
  let n := N_of_ascii c in ((9 <=? n)%N && (n <=? 13)%N) || (n =? 32)%N.

Fixpoint trim_start (s : string) : string :=
  match s with
  | EmptyString => EmptyString
  | String c s' => if is_space c then trim_start s' else s
  end.

Fixpoint trim_end (s : string) : string :=
  match s with
  | EmptyString => EmptyString
  | String c s' =>
      match trim_end s' with
      | EmptyString => if is_space c then EmptyString else String c EmptyString
      | t => String c t
      end
  end.

Definition trim (s : string) : string := trim_end (trim_start s).

(** [s.split(c)]: always at least one piece. *)
Fixpoint split_on (c : ascii) (s : string) : list string :=
  match s with
  | EmptyString => [EmptyString]
  | String a s' =>
      if bool_decide (a = c) then EmptyString :: split_on c s'
      else match split_on c s' with
           | [] => [String a EmptyString]
           | p :: ps => String a p :: ps
           end
  end.

Fixpoint join (sep : string) (l : list string) : string :=
  match l with
  | [] => EmptyString
  | [x] => x
  | x :: l' => x +:+ sep +:+ join sep l'
  end.

Fixpoint count_char (c : ascii) (s : string) : nat :=
  match s with
  | EmptyString => 0
  | String a s' => (if bool_decide (a = c) then 1 else 0) + count_char c s'
  end.

Definition is_empty (s : string) : bool :=
  match s with EmptyString => true | _ => false end.

Definition str_len (s : string) : nat := String.length s.

(** The order of [str]: lexicographic on bytes (what [Vec<String>::sort] uses). *)
Fixpoint str_leb (a b : string) : bool :=
  match a, b with
  | EmptyString, _ => true
  | String _ _, EmptyString => false
  | String x a', String y b' =>
      if (N_of_ascii x <? N_of_ascii y)%N then true
      else if (N_of_ascii y <? N_of_ascii x)%N then false
      else str_leb a' b'
  end.

(** ** Lemmas *)

Lemma app_nil_string s : EmptyString +:+ s = s.
Proof. done. Qed.

Lemma app_cons_string c a b : String c a +:+ b = String c (a +:+ b).
Proof. done. Qed.

Ltac simpl_str := simpl; rewrite ?app_nil_string, ?app_cons_string; simpl.

Lemma strip_prefix_starts_with p s : is_Some (strip_prefix p s) ↔ starts_with p s = true.
Proof.
  revert s. induction p as [|a p IH]; intros [|b s]; simpl.
  - split; [done|]. eauto.
  - split; [done|]. eauto.
  - split; [intros [? ?]; done|done].
  - case_bool_decide; simpl; [apply IH|]. split; [intros [? ?]; done|done].
Qed.

Lemma strip_prefix_app p s t : strip_prefix p s = Some t ↔ s = p +:+ t.
Proof.
  revert s. induction p as [|a p IH]; intros s; simpl_str.
  - split; congruence.
  - destruct s as [|b s]; [split; congruence|].
    case_bool_decide; simplify_eq; [|split; congruence].
    rewrite IH. split; congruence.
Qed.

Lemma starts_with_app p s : starts_with p s = true ↔ ∃ t, s = p +:+ t.
Proof.
  rewrite <-strip_prefix_starts_with. unfold is_Some.
  split; intros [t Ht]; exists t; by apply strip_prefix_app.
Qed.

Lemma eq_ignore_ascii_case_refl s : eq_ignore_ascii_case s s = true.
Proof. by apply bool_decide_eq_true_2. Qed.

Lemma count_char_app c a b : count_char c (a +:+ b) = (count_char c a + count_char c b)%nat.
Proof. induction a as [|x a IH]; simpl_str; [done|]. rewrite IH. lia. Qed.

Lemma split_on_nonempty c s : split_on c s ≠ [].
Proof. destruct s as [|a s]; simpl; [done|]. case_bool_decide; [done|]. by case_match. Qed.

Lemma split_on_length c s : length (split_on c s) = S (count_char c s).
Proof.
  induction s as [|a s IH]; simpl; [done|].
  case_bool_decide; simpl; [by rewrite IH|].
  pose proof (split_on_nonempty c s). by destruct (split_on c s).
Qed.

Lemma join_cons sep x y l : join sep (x :: y :: l) = x +:+ sep +:+ join sep (y :: l).
Proof. done. Qed.

Lemma string_app_nil_r s : s +:+ EmptyString = s.
Proof. induction s as [|c s IH]; simpl_str; [done|]. by rewrite IH. Qed.

(** Joining pieces of which none holds the separator gives a string with one
    separator fewer than there are pieces. *)
Lemma count_char_join c l :
  l ≠ [] → Forall (λ s, count_char c s = 0%nat) l →
  S (count_char c (join (String c EmptyString) l)) = length l.
Proof.
  induction l as [|x l IH]; [done|]. intros _ Hl. inversion Hl as [|? ? Hx Hl']; subst.
  destruct l as [|y l]; [simpl; by rewrite Hx|].
  rewrite join_cons, !count_char_app, Hx. simpl (count_char c (String c EmptyString)).
  rewrite bool_decide_true by done. specialize (IH ltac:(done) Hl'). cbn [length] in *. lia.
Qed.

(** Splitting is the inverse of joining pieces that do not hold the separator. *)
Lemma split_on_app c a b :
  count_char c a = 0%nat →
  split_on c (a +:+ String c b) = a :: split_on c b.
Proof.
  induction a as [|x a IH]; simpl_str; [intros _; by rewrite bool_decide_true|].
  case_bool_decide; simpl; [done|]. intros Ha. rewrite IH; done.
Qed.

Lemma split_on_none c a : count_char c a = 0%nat → split_on c a = [a].
Proof.
  induction a as [|x a IH]; simpl; [done|].
  case_bool_decide; simpl; [done|]. intros Ha. by rewrite IH.
Qed.

Lemma split_join c l :
  l ≠ [] → Forall (λ s, count_char c s = 0%nat) l →
  split_on c (join (String c EmptyString) l) = l.
Proof.
  induction l as [|x l IH]; [done|]. intros _ Hl. inversion Hl as [|? ? Hx Hl']; subst.
  destruct l as [|y l]; [by apply split_on_none|].
  rewrite join_cons, app_cons_string, app_nil_string. rewrite split_on_app by done. by rewrite IH.
Qed.

(** No character of the decimal form of a number is outside the digits (and
    the sign): the separators of the formatted keys never come from a number. *)
Definition sep_char (c : ascii) : Prop := is_digit c = false ∧ c ≠ "-"%char.

Lemma pretty_N_char_digit (n : N) : is_digit (pretty_N_char (n `mod` 10)) = true.
Proof.
  assert (n `mod` 10 < 10)%N as H by (apply N.mod_lt; done).
  destruct (n `mod` 10)%N as [|p]; [done|].
  do 4 (destruct p as [p|p|]; try done).
Qed.

Lemma count_char_pretty_N_go c (n : N) s :
  sep_char c → count_char c (pretty_N_go n s) = count_char c s.
Proof.
  intros [Hc _]. revert s. induction (N.lt_wf_0 n) as [n _ IH]; intros s.
  destruct (decide (n = 0%N)) as [->|Hn]; [by rewrite pretty_N_go_0|].
  rewrite pretty_N_go_step by lia.
  rewrite IH by (apply N.div_lt; lia). simpl.
  rewrite bool_decide_false; [done|]. intros <-. by rewrite pretty_N_char_digit in Hc.
Qed.

Lemma count_char_pretty_N c (n : N) : sep_char c → count_char c (pretty n) = 0%nat.
Proof.
  intros Hc. unfold pretty, pretty_N. case_decide.
  - simpl. rewrite bool_decide_false; [done|]. intros <-. by destruct Hc.
  - by rewrite count_char_pretty_N_go.
Qed.

Lemma count_char_pretty_Z c (z : Z) : sep_char c → count_char c (pretty z) = 0%nat.
Proof.
  intros Hc. destruct z as [|p|p]; unfold pretty, pretty_Z.
  - simpl. rewrite bool_decide_false; [done|]. intros <-. by destruct Hc.
  - by apply count_char_pretty_N.
  - simpl. rewrite bool_decide_false by (intros <-; by destruct Hc).
    by apply count_char_pretty_N.
Qed.

(** ** The order on strings *)

Lemma str_leb_total a b : str_leb a b = false → str_leb b a = true.
Proof.
  revert b. induction a as [|x a IH]; intros [|y b]; simpl; try done.
  destruct (N.ltb_spec (N_of_ascii x) (N_of_ascii y)), (N.ltb_spec (N_of_ascii y) (N_of_ascii x)); try done.
  apply IH.
Qed.

Lemma str_leb_antisym a b : str_leb a b = true → str_leb b a = true → a = b.
Proof.
  revert b. induction a as [|x a IH]; intros [|y b]; simpl; try done.
  destruct (N.ltb_spec (N_of_ascii x) (N_of_ascii y)), (N.ltb_spec (N_of_ascii y) (N_of_ascii x));
    try done; [lia|].
  intros H1 H2. rewrite (IH b H1 H2). f_equal.
  rewrite <-(ascii_N_embedding x), <-(ascii_N_embedding y). f_equal. lia.
Qed.

Lemma string_app_assoc a b c : a +:+ b +:+ c = (a +:+ b) +:+ c.
Proof. induction a as [|x a IH]; [done|]. rewrite !app_cons_string. by rewrite IH. Qed.

(** ** The last character *)

Fixpoint last_char (s : string) : option ascii :=
  match s with
  | EmptyString => None
  | String c EmptyString => Some c
  | String _ s' => last_char s'
  end.

Lemma last_char_app a c b : last_char (a +:+ String c b) = last_char (String c b).
Proof.
  induction a as [|x a IH]; [done|]. rewrite app_cons_string.
  destruct a; [done|]. rewrite app_cons_string in *. exact IH.
Qed.

(** Splitting and joining again gives the text back. *)
Lemma join_split c s : join (String c EmptyString) (split_on c s) = s.
Proof.
  induction s as [|x s IH]; [done|]. cbn [split_on].
  pose proof (split_on_nonempty c s) as Hne.
  destruct (bool_decide (x = c)) eqn:E.
  - apply bool_decide_eq_true in E as ->. destruct (split_on c s) as [|y l]; [done|].
    rewrite join_cons, IH. by rewrite app_nil_string, app_cons_string, app_nil_string.
  - destruct (split_on c s) as [|y [|z l]]; [done|..].
    + simpl in *. by rewrite IH.
    + rewrite join_cons in *. rewrite app_cons_string. by rewrite IH.
Qed.

(** ** The standard library's parsing of unsigned integers *)

Definition digit_value (c : ascii) : Z := Z.of_N (N_of_ascii c) - 48.

Fixpoint parse_digits (max acc : Z) (s : string) : option Z :=
  match s with
  | EmptyString => Some acc
  | String c r =>
      if is_digit c then
        let acc := acc * 10 + digit_value c in
        if max <? acc then None else parse_digits max acc r
      else None
  end.

(** [str::parse] for an unsigned type with the largest value [max]: an optional
    plus sign, then at least one digit, without overflow. *)
Definition parse_uint (max : Z) (s : string) : option Z :=
  match s with
  | EmptyString => None
  | String c r =>
      if (c =? "+")%char then match r with EmptyString => None | _ => parse_digits max 0 r end
      else parse_digits max 0 s
  end.

Definition u16_max : Z := 2 ^ 16 - 1.
Definition u32_max : Z := 2 ^ 32 - 1.
Definition u64_max : Z := 2 ^ 64 - 1.

Lemma parse_digits_range max acc s n : 0 <= acc <= max → parse_digits max acc s = Some n → 0 <= n <= max.
Proof.
  revert acc. induction s as [|c s IH]; intros acc Ha; simpl; [intros; simplify_eq; done|].
  destruct (is_digit c) eqn:Ed; [|done]. case_Z; [done|]. apply IH.
  split; [|done]. unfold is_digit, digit_value in *. apply andb_prop in Ed as [Ed _]. apply N.leb_le in Ed. lia.
Qed.

Lemma parse_uint_range max s n : 0 <= max → parse_uint max s = Some n → 0 <= n <= max.
Proof.
  intros Hm. destruct s as [|c s]; [done|]. unfold parse_uint. destruct (c =? "+")%char.
  - destruct s; [done|]. by apply parse_digits_range.
  - by apply parse_digits_range.
Qed.

(** Numbers written in decimal are read back. *)
Lemma digit_value_pretty (n : N) : digit_value (pretty_N_char (n `mod` 10)) = Z.of_N (n `mod` 10).
Proof.
  assert (n `mod` 10 < 10)%N as H by (apply N.mod_lt; done).
  destruct (n `mod` 10)%N as [|p]; [done|]. do 4 (destruct p as [p|p|]; try done).
Qed.

Lemma parse_digits_pretty max (n : N) s :
  0 <= max →
  parse_digits max 0 (pretty_N_go n s) = if max <? Z.of_N n then None else parse_digits max (Z.of_N n) s.
Proof.
  intros Hm. revert s. induction (N.lt_wf_0 n) as [n _ IH]; intros s.
  destruct (decide (n = 0%N)) as [->|Hn]; [rewrite pretty_N_go_0; simpl; case_Z; (done || lia)|].
  rewrite pretty_N_go_step, IH by (lia || (apply N.div_lt; lia)).
  pose proof (Z.div_mod (Z.of_N n) 10 ltac:(done)) as Hdm. pose proof (Z.mod_pos_bound (Z.of_N n) 10 ltac:(done)).
  cbn [parse_digits]. rewrite pretty_N_char_digit, digit_value_pretty.
  rewrite N2Z.inj_div, N2Z.inj_mod. change (Z.of_N 10) with 10.
  replace (Z.of_N n / 10 * 10 + Z.of_N n mod 10) with (Z.of_N n) by lia.
  case_Z; (done || lia).
Qed.

Lemma parse_uint_digits max c s : is_digit c = true → parse_uint max (String c s) = parse_digits max 0 (String c s).
Proof. intros Hc. unfold parse_uint. destruct (Ascii.eqb_spec c "+"); [by subst|done]. Qed.

(** The decimal form of a number starts with a digit. *)
Lemma pretty_N_go_head (n : N) c s :
  is_digit c = true → ∃ c' s', pretty_N_go n (String c s) = String c' s' ∧ is_digit c' = true.
Proof.
  revert c s. induction (N.lt_wf_0 n) as [n _ IH]; intros c s Hc.
  destruct (decide (n = 0%N)) as [->|Hn]; [rewrite pretty_N_go_0; eauto|].
  rewrite pretty_N_go_step by lia. apply IH; [apply N.div_lt; lia|]. apply pretty_N_char_digit.
Qed.

Lemma parse_uint_pretty max (n : N) :
  0 <= max → parse_uint max (pretty n) = if max <? Z.of_N n then None else Some (Z.of_N n).
Proof.
  intros Hm. unfold pretty, pretty_N. case_decide as Hn.
  { subst. by rewrite parse_uint_digits. }
  pose proof (parse_digits_pretty max n EmptyString Hm) as Hp. revert Hp.
  rewrite pretty_N_go_step by lia.
  destruct (pretty_N_go_head (n / 10) (pretty_N_char (n mod 10)) EmptyString (pretty_N_char_digit n)) as (c & s & -> & Hc).
  intros Hp. rewrite parse_uint_digits by done. exact Hp.
Qed.

Lemma parse_uint_pretty_Z max z : 0 <= z <= max → parse_uint max (pretty z) = Some z.
Proof.
  intros Hz. assert (pretty z = pretty (Z.to_N z)) as ->.
  { destruct z as [|p|p]; [done|done|lia]. }
  rewrite parse_uint_pretty, Z2N.id by lia. destruct (Z.ltb_spec max z); [lia|done].
Qed.

(** ** Splitting and replacing *)

(** [s.rsplit_once(c)]: at the last [c]. *)
Fixpoint rsplit_once (c : ascii) (s : string) : option (string * string) :=
  match s with
  | EmptyString => None
  | String a r =>
      match rsplit_once c r with
      | Some (h, t) => Some (String a h, t)
      | None => if bool_decide (a = c) then Some (EmptyString, r) else None
      end
  end.

Lemma rsplit_once_spec c s h t :
  rsplit_once c s = Some (h, t) → s = h +:+ String c t ∧ count_char c t = 0%nat.
Proof.
  revert h t. induction s as [|a s IH]; intros h t; simpl; [done|].
  assert (rsplit_once c s = None → count_char c s = 0%nat) as Hn.
  { clear. induction s as [|a s IH]; simpl; [done|]. destruct (rsplit_once c s) as [[]|]; [done|].
    case_bool_decide; [done|]. intros _. by apply IH. }
  destruct (rsplit_once c s) as [[h' t']|]; [|case_bool_decide; [|done]]; intros; simplify_eq.
  - destruct (IH h' t) as [-> H]; [done|]. done.
  - split; [done|]. by apply Hn.
Qed.

(** The text up to the end of the first [pat], and the rest. *)
Fixpoint split_after (pat s : string) : option (string * string) :=
  match strip_prefix pat s with
  | Some t => Some (pat, t)
  | None =>
      match s with
      | EmptyString => None
      | String a r => match split_after pat r with Some (h, t) => Some (String a h, t) | None => None end
      end
  end.

Lemma split_after_app pat s h t : split_after pat s = Some (h, t) → s = h +:+ t.
Proof.
  revert h t. induction s as [|a s IH]; intros h t; cbn [split_after].
  - destruct (strip_prefix pat "") as [u|] eqn:E; [|done]. intros; simplify_eq. by apply strip_prefix_app in E.
  - destruct (strip_prefix pat (String a s)) as [u|] eqn:E; [intros; simplify_eq; by apply strip_prefix_app in E|].
    destruct (split_after pat s) as [[h' t']|]; [|done]. intros; simplify_eq. by rewrite (IH h' t).
Qed.

Lemma split_after_contains pat s : contains pat s = true ↔ is_Some (split_after pat s).
Proof.
  induction s as [|a s IH]; cbn [split_after contains].
  - pose proof (strip_prefix_starts_with pat "") as H. destruct (strip_prefix pat ""), (starts_with pat ""); simpl;
      split; intros; naive_solver.
  - pose proof (strip_prefix_starts_with pat (String a s)) as H.
    destruct (strip_prefix pat (String a s)); [rewrite (proj1 H) by eauto; naive_solver|].
    destruct (starts_with pat (String a s)); [destruct (proj2 H eq_refl); done|]. simpl. rewrite IH.
    destruct (split_after pat s) as [[]|]; naive_solver.
Qed.

Lemma strip_prefix_extend p s t u : strip_prefix p s = Some t → strip_prefix p (s +:+ u) = Some (t +:+ u).
Proof. rewrite !strip_prefix_app. intros ->. by rewrite string_app_assoc. Qed.

Lemma strip_prefix_shrink p s u :
  (String.length p <= String.length s)%nat → strip_prefix p s = None → strip_prefix p (s +:+ u) = None.
Proof.
  revert s. induction p as [|a p IH]; intros [|b s]; simpl; [done|done|lia|].
  case_bool_decide; [|done]. intros Hl. apply IH. lia.
Qed.

Lemma length_append a b : String.length (a +:+ b) = (String.length a + String.length b)%nat.
Proof. induction a as [|x a IH]; [done|]. rewrite app_cons_string. simpl. by rewrite IH. Qed.

(** The head ends with the pattern, and more text after the first occurrence
    does not move it. *)
Lemma split_after_head pat s h t : split_after pat s = Some (h, t) → ∃ h', h = h' +:+ pat.
Proof.
  revert h t. induction s as [|a s IH]; intros h t; cbn [split_after].
  - destruct (strip_prefix pat ""); [|done]. intros; simplify_eq. by exists EmptyString.
  - destruct (strip_prefix pat (String a s)); [intros; simplify_eq; by exists EmptyString|].
    destruct (split_after pat s) as [[h' t']|]; [|done]. intros; simplify_eq.
    destruct (IH h' t eq_refl) as [h'' ->]. by exists (String a h'').
Qed.

Lemma split_after_extend pat s h t u : split_after pat s = Some (h, t) → split_after pat (s +:+ u) = Some (h, t +:+ u).
Proof.
  revert h t. induction s as [|a s IH]; intros h t; cbn [split_after].
  - destruct (strip_prefix pat "") as [v|] eqn:E; [|done]. intros; simplify_eq.
    apply (strip_prefix_extend _ _ _ u) in E. rewrite app_nil_string in *. destruct u; simpl in *; by rewrite E.
  - destruct (strip_prefix pat (String a s)) as [v|] eqn:E.
    + intros; simplify_eq. apply (strip_prefix_extend _ _ _ u) in E. rewrite app_cons_string in *. cbn [split_after]. by rewrite E.
    + destruct (split_after pat s) as [[h' t']|] eqn:Es; [|done]. intros; simplify_eq.
      pose proof (split_after_app _ _ _ _ Es) as Ha. destruct (split_after_head _ _ _ _ Es) as [h'' Hh].
      assert (String.length pat <= String.length s)%nat by (rewrite Ha, Hh, !length_append; lia).
      apply (strip_prefix_shrink _ _ u) in E; [|simpl; lia]. rewrite app_cons_string in *. cbn [split_after].
      by rewrite E, (IH h' t eq_refl).
Qed.

Lemma split_on_head c a b :
  count_char c a ≠ 0%nat → head (split_on c (a +:+ b)) = head (split_on c a).
Proof.
  induction a as [|x a IH]; [done|]. rewrite app_cons_string. cbn [split_on count_char].
  case_bool_decide; [done|]. intros Ha. specialize (IH Ha).
  pose proof (split_on_nonempty c (a +:+ b)). pose proof (split_on_nonempty c a).
  destruct (split_on c (a +:+ b)), (split_on c a); simpl in *; try done. by simplify_eq.
Qed.

(** [s.replace(pat, to)] for a pattern that is not empty: left to right, without
    looking at what was put in. *)
Fixpoint replace_from (pat to : string) (skip : nat) (s : string) : string :=
  match s with
  | EmptyString => EmptyString
  | String c r =>
      match skip with
      | S k => replace_from pat to k r
      | O => if starts_with pat s then to +:+ replace_from pat to (String.length pat - 1) r
             else String c (replace_from pat to 0 r)
      end
  end.
Definition replace (pat to s : string) : string := replace_from pat to 0 s.

Lemma replace_none pat to s : contains pat s = false → replace pat to s = s.
Proof.
  unfold replace. induction s as [|c s IH]; [done|]. cbn [contains replace_from].
  intros [-> H]%orb_false_iff. by rewrite IH.
Qed.
