(* ===== verification/Errors.v ===== *)
(** The error type of the whole workspace and the response envelope built
    from it.

    [ConrogateError] is the enum of crates/conrogate-core/src/error.rs with its
    [Display] text, [code] and [is_internal]; [err], [error_body_with_trace] and
    [message] are crates/conrogate-core/src/response.rs. *)
From Stdlib Require Import ZArith Lia Ascii String.
From stdpp Require Import base tactics option list gmap strings.
From S2P Require Import Prelude Text.
#[local] Open Scope Z_scope.

Inductive ConrogateError : Type :=
| BadRequest (detail : string)
| Unauthorized
| Forbidden
| NotFound (detail : string)
| Conflict (detail : string)
| RateLimited
| PayloadTooLarge
| Business (biz_code : Z) (detail : string)
| RouteNotFound (detail : string)
| UpstreamNotFound (detail : string)
| PluginConfigInvalid (detail : string)
| PluginNotFound (detail : string)
| PluginRuntime (detail : string)
| ConfigInvalid (detail : string)
| ConfigConcurrencyConflict
| DatabaseInternal
| DataMapping (detail : string)
| Migration (detail : string)
| NetworkInternal
| UpstreamTimeout
| UpstreamConnectFailed (detail : string)
| UpstreamBadResponse (detail : string)
| ProtocolNotSupported (detail : string)
| GatewayInternal
| CircuitBreakerOpen
| Limited
| RetryExhausted (detail : string)
| Overloaded
| RetryBudgetExhausted
| ConfigLoad (detail : string)
| Init (detail : string)
| Internal (detail : string).

#[global] Instance ConrogateError_eq_dec : EqDecision ConrogateError.
Proof. solve_decision. Defined.

(** ** Business codes *)

Definition OK_CODE : Z := 0.
Definition ERR_BODY_READ : Z := 10008.
Definition ERR_BODY_READ_TIMEOUT : Z := 10009.
Definition ERR_BAD_REQUEST : Z := 10001.
Definition ERR_UNAUTHORIZED : Z := 10002.
Definition ERR_FORBIDDEN : Z := 10003.
Definition ERR_NOT_FOUND : Z := 10004.
Definition ERR_CONFLICT : Z := 10005.
Definition ERR_RATE_LIMITED : Z := 10006.
Definition ERR_PAYLOAD_TOO_LARGE : Z := 10007.
Definition ERR_ROUTE_NOT_FOUND : Z := 20001.
Definition ERR_UPSTREAM_NOT_FOUND : Z := 20002.
Definition ERR_PLUGIN_CONFIG_INVALID : Z := 20003.
Definition ERR_PLUGIN_NOT_FOUND : Z := 20004.
Definition ERR_PLUGIN_RUNTIME : Z := 20005.
Definition ERR_CONFIG_INVALID : Z := 20006.
Definition ERR_CONFIG_CONCURRENCY_CONFLICT : Z := 20007.
Definition ERR_DATABASE_INTERNAL : Z := 30001.
Definition ERR_DATA_MAPPING : Z := 30002.
Definition ERR_MIGRATION : Z := 30003.
Definition ERR_NETWORK_INTERNAL : Z := 40001.
Definition ERR_UPSTREAM_TIMEOUT : Z := 40002.
Definition ERR_UPSTREAM_CONNECT_FAILED : Z := 40003.
Definition ERR_UPSTREAM_BAD_RESPONSE : Z := 40004.
Definition ERR_PROTOCOL_NOT_SUPPORTED : Z := 40005.
Definition ERR_GATEWAY_INTERNAL : Z := 40006.
Definition ERR_CIRCUIT_BREAKER_OPEN : Z := 40007.
Definition ERR_LIMITED : Z := 40008.
Definition ERR_RETRY_EXHAUSTED : Z := 40009.
Definition ERR_OVERLOADED : Z := 40010.
Definition ERR_RETRY_BUDGET_EXHAUSTED : Z := 40011.
Definition ERR_CONFIG_LOAD : Z := 50001.
Definition ERR_INIT : Z := 50002.
Definition ERR_INTERNAL : Z := 59999.

(** [ConrogateError::code]. *)
Definition code (e : ConrogateError) : Z :=
  match e with
  | BadRequest _ => ERR_BAD_REQUEST
  | Unauthorized => ERR_UNAUTHORIZED
  | Forbidden => ERR_FORBIDDEN
  | NotFound _ => ERR_NOT_FOUND
  | Conflict _ => ERR_CONFLICT
  | RateLimited => ERR_RATE_LIMITED
  | PayloadTooLarge => ERR_PAYLOAD_TOO_LARGE
  | Business c _ => c
  | RouteNotFound _ => ERR_ROUTE_NOT_FOUND
  | UpstreamNotFound _ => ERR_UPSTREAM_NOT_FOUND
  | PluginConfigInvalid _ => ERR_PLUGIN_CONFIG_INVALID
  | PluginNotFound _ => ERR_PLUGIN_NOT_FOUND
  | PluginRuntime _ => ERR_PLUGIN_RUNTIME
  | ConfigInvalid _ => ERR_CONFIG_INVALID
  | ConfigConcurrencyConflict => ERR_CONFIG_CONCURRENCY_CONFLICT
  | DatabaseInternal => ERR_DATABASE_INTERNAL
  | DataMapping _ => ERR_DATA_MAPPING
  | Migration _ => ERR_MIGRATION
  | NetworkInternal => ERR_NETWORK_INTERNAL
  | UpstreamTimeout => ERR_UPSTREAM_TIMEOUT
  | UpstreamConnectFailed _ => ERR_UPSTREAM_CONNECT_FAILED
  | UpstreamBadResponse _ => ERR_UPSTREAM_BAD_RESPONSE
  | ProtocolNotSupported _ => ERR_PROTOCOL_NOT_SUPPORTED
  | GatewayInternal => ERR_GATEWAY_INTERNAL
  | CircuitBreakerOpen => ERR_CIRCUIT_BREAKER_OPEN
  | Limited => ERR_LIMITED
  | RetryExhausted _ => ERR_RETRY_EXHAUSTED
  | Overloaded => ERR_OVERLOADED
  | RetryBudgetExhausted => ERR_RETRY_BUDGET_EXHAUSTED
  | ConfigLoad _ => ERR_CONFIG_LOAD
  | Init _ => ERR_INIT
  | Internal _ => ERR_INTERNAL
  end.

(** [ConrogateError::is_internal]. *)
Definition is_internal (e : ConrogateError) : bool :=
  match e with
  | DatabaseInternal
  | DataMapping _
  | Migration _
  | NetworkInternal
  | GatewayInternal
  | ConfigLoad _
  | Init _
  | Internal _ => true
  | _ => false
  end.

(** The [Display] text derived from the [#[error]] attributes. *)
Definition display (e : ConrogateError) : string :=
  match e with
  | BadRequest d => "参数非法: " +:+ d
  | Unauthorized => "未认证"
  | Forbidden => "无权限"
  | NotFound d => "资源不存在: " +:+ d
  | Conflict d => "资源已存在: " +:+ d
  | RateLimited => "请求过于频繁"
  | PayloadTooLarge => "请求体过大"
  | Business _ d => "业务处理失败: " +:+ d
  | RouteNotFound d => "路由不存在: " +:+ d
  | UpstreamNotFound d => "上游不存在: " +:+ d
  | PluginConfigInvalid d => "插件配置非法: " +:+ d
  | PluginNotFound d => "插件未找到: " +:+ d
  | PluginRuntime d => "插件运行时异常: " +:+ d
  | ConfigInvalid d => "配置校验失败: " +:+ d
  | ConfigConcurrencyConflict => "配置发布并发冲突"
  | DatabaseInternal => "数据库错误"
  | DataMapping d => "数据转换错误: " +:+ d
  | Migration d => "数据库迁移错误: " +:+ d
  | NetworkInternal => "网络/代理内部错误"
  | UpstreamTimeout => "上游连接超时"
  | UpstreamConnectFailed d => "上游连接失败: " +:+ d
  | UpstreamBadResponse d => "上游响应异常: " +:+ d
  | ProtocolNotSupported d => "协议不支持: " +:+ d
  | GatewayInternal => "网关内部错误"
  | CircuitBreakerOpen => "服务熔断中"
  | Limited => "请求被限流拦截"
  | RetryExhausted d => "请求重试耗尽: " +:+ d
  | Overloaded => "并发过载保护：服务暂时不可用"
  | RetryBudgetExhausted => "重试预算耗尽"
  | ConfigLoad d => "配置加载失败: " +:+ d
  | Init d => "初始化失败: " +:+ d
  | Internal d => "内部错误: " +:+ d
  end.

(** ** The response envelope *)

(** [response::message]: internal errors do not expose their details. *)
Definition message (e : ConrogateError) : string :=
  if is_internal e then "internal error" else display e.

(** The envelope [{"code","msg","data":null,"trace_id"}] of an error. *)
Record ErrorBody := mkErrorBody {
  eb_code : Z;
  eb_msg : string;
  eb_trace_id : string;
}.

(** [response::error_body_with_trace]. *)
Definition error_body_with_trace (trace_id : string) (c : Z) (msg : string) : ErrorBody :=
  mkErrorBody c msg trace_id.

(** [response::err]: the HTTP status and the body; the trace id is the one
    [generate_trace_id] returned for this call. *)
Definition err (fresh_trace_id : string) (e : ConrogateError) : Z * ErrorBody :=
  let http_status :=
    match e with
    | Unauthorized => 401
    | _ => if is_internal e then 500 else 200
    end in
  (http_status, error_body_with_trace fresh_trace_id (code e) (message e)).

(** The constructor of an error, without its payload. *)
Definition tag (e : ConrogateError) : nat :=
  match e with
  | BadRequest _ => 0
  | Unauthorized => 1
  | Forbidden => 2
  | NotFound _ => 3
  | Conflict _ => 4
  | RateLimited => 5
  | PayloadTooLarge => 6
  | Business _ _ => 7
  | RouteNotFound _ => 8
  | UpstreamNotFound _ => 9
  | PluginConfigInvalid _ => 10
  | PluginNotFound _ => 11
  | PluginRuntime _ => 12
  | ConfigInvalid _ => 13
  | ConfigConcurrencyConflict => 14
  | DatabaseInternal => 15
  | DataMapping _ => 16
  | Migration _ => 17
  | NetworkInternal => 18
  | UpstreamTimeout => 19
  | UpstreamConnectFailed _ => 20
  | UpstreamBadResponse _ => 21
  | ProtocolNotSupported _ => 22
  | GatewayInternal => 23
  | CircuitBreakerOpen => 24
  | Limited => 25
  | RetryExhausted _ => 26
  | Overloaded => 27
  | RetryBudgetExhausted => 28
  | ConfigLoad _ => 29
  | Init _ => 30
  | Internal _ => 31
  end%nat.

(** The codes tell the variants apart: two errors with the same code are the
    same variant, a [Business] error (which carries its own code) aside. *)
Lemma code_determines_tag e1 e2 :
  (∀ c d, e1 ≠ Business c d) → (∀ c d, e2 ≠ Business c d) →
  code e1 = code e2 → tag e1 = tag e2.
Proof.
  intros H1 H2 Hc.
  destruct e1; try (exfalso; eapply H1; reflexivity);
    destruct e2; try (exfalso; eapply H2; reflexivity);
    try reflexivity; discriminate Hc.
Qed.
