(* ===== verification/Core.v ===== *)
(** The shared vocabulary of the workspace: the enums and data transfer
    objects of conrogate-core (protocol.rs, balancer.rs, dto.rs, plugin.rs),
    with the string forms the configuration uses and the construction of the
    matching information of a request. *)
From Stdlib Require Import ZArith Lia Ascii String.
From stdpp Require Import base tactics option list gmap strings pretty.
From S2P Require Import Prelude Text Errors.
#[local] Open Scope Z_scope.

(** ** Protocols *)

Inductive ProtocolId : Type := Http | WebSocket | TcpTunnel.

#[global] Instance ProtocolId_eq_dec : EqDecision ProtocolId.
Proof. solve_decision. Defined.

#[global] Instance ProtocolId_countable : Countable ProtocolId.
Proof.
  refine (inj_countable'
    (λ p, match p with Http => 0 | WebSocket => 1 | TcpTunnel => 2 end)
    (λ n, match n with 0 => Http | 1 => WebSocket | _ => TcpTunnel end) _)%nat.
  by intros [].
Defined.

(** [impl Display for ProtocolId]. *)
Definition protocol_display (p : ProtocolId) : string :=
  match p with Http => "http" | WebSocket => "websocket" | TcpTunnel => "tcp_tunnel" end.

(** [impl FromStr for ProtocolId]. *)
Definition protocol_from_str (s : string) : result ProtocolId ConrogateError :=
  if bool_decide (s = "http") then Ok Http
  else if bool_decide (s = "websocket") then Ok WebSocket
  else if bool_decide (s = "tcp_tunnel") || bool_decide (s = "tcp") then Ok TcpTunnel
  else Err (ProtocolNotSupported s).

(** ** Balancing algorithms *)

Inductive BalancerAlgorithm : Type :=
  RoundRobin | WeightedRoundRobin | LeastConnections | ConsistentHash.

#[global] Instance BalancerAlgorithm_eq_dec : EqDecision BalancerAlgorithm.
Proof. solve_decision. Defined.

#[global] Instance BalancerAlgorithm_countable : Countable BalancerAlgorithm.
Proof.
  refine (inj_countable'
    (λ a, match a with RoundRobin => 0 | WeightedRoundRobin => 1
          | LeastConnections => 2 | ConsistentHash => 3 end)
    (λ n, match n with 0 => RoundRobin | 1 => WeightedRoundRobin
          | 2 => LeastConnections | _ => ConsistentHash end) _)%nat.
  by intros [].
Defined.

(** [impl Display for BalancerAlgorithm]. *)
Definition algorithm_display (a : BalancerAlgorithm) : string :=
  match a with
  | RoundRobin => "round_robin"
  | WeightedRoundRobin => "weighted_round_robin"
  | LeastConnections => "least_connections"
  | ConsistentHash => "consistent_hash"
  end.

(** [impl FromStr for BalancerAlgorithm]. *)
Definition algorithm_from_str (s : string) : result BalancerAlgorithm ConrogateError :=
  if bool_decide (s = "round_robin") then Ok RoundRobin
  else if bool_decide (s = "weighted_round_robin") then Ok WeightedRoundRobin
  else if bool_decide (s = "least_connections") then Ok LeastConnections
  else if bool_decide (s = "consistent_hash") then Ok ConsistentHash
  else Err (BadRequest ("unknown algorithm: " +:+ s)).

(** ** Matching conditions *)

Inductive PathMatch : Type :=
| PathPrefix (p : string)
| PathExact (p : string)
| PathRegex (p : string).

Inductive MatchOp : Type := OpExact | OpPrefix | OpRegex | OpNotEmpty.

#[global] Instance MatchOp_eq_dec : EqDecision MatchOp.
Proof. solve_decision. Defined.

Record HeaderMatch := mkHeaderMatch { hm_key : string; hm_op : MatchOp; hm_value : string }.
Record QueryMatch := mkQueryMatch { qm_key : string; qm_op : MatchOp; qm_value : string }.

Record RouteMatchConditions := mkConditions {
  rc_path : PathMatch;
  rc_methods : option (list string);
  rc_host : option string;
  rc_headers : list HeaderMatch;
  rc_query_params : list QueryMatch;
}.

(** [impl Default for RouteMatchConditions]. *)
Definition default_conditions : RouteMatchConditions :=
  mkConditions (PathPrefix "/") None None [] [].

Record RouteMatchInfo := mkMatchInfo {
  mi_path : string;
  mi_method : option string;
  mi_host : option string;
  mi_headers : list (string * string);
  mi_query_params : list (string * string);
}.

(** What the matching code reads of an [http] request: its method, the path and
    query of its URI, and of each header field the name and the value as text
    ([HeaderValue::to_str], [None] when the value is not text). [HeaderMap::get]
    is the first field of that name. *)
Record HttpView := mkHttpView {
  hv_method : string;
  hv_path : string;
  hv_query : option string;
  hv_headers : list (string * option string);
}.

Definition hv_get (v : HttpView) (name : string) : option string :=
  match list_find (λ kv, kv.1 = name) (hv_headers v) with
  | Some (_, (_, value)) => value
  | None => None
  end.

(** One [key=value] pair of a query string: [pair.splitn(2, '=')]. *)
Fixpoint split_once_eq (s : string) : string * option string :=
  match s with
  | EmptyString => (EmptyString, None)
  | String c s' =>
      if bool_decide (c = "="%char) then (EmptyString, Some s')
      else let '(k, v) := split_once_eq s' in (String c k, v)
  end.

Definition parse_query (q : string) : list (string * string) :=
  map (λ pair, let '(k, v) := split_once_eq pair in (k, default EmptyString v))
      (split_on "&" q).

(** [RouteMatchInfo::from_http_request]. *)
Definition from_http_request (v : HttpView) (include_headers : bool) : RouteMatchInfo :=
  {| mi_path := hv_path v;
     mi_method := Some (hv_method v);
     mi_host := hv_get v "host";
     mi_headers :=
       if include_headers
       then omap (λ kv, (λ t, (kv.1, t)) <$> kv.2) (hv_headers v)
       else [];
     mi_query_params := from_option parse_query [] (hv_query v) |}.

(** [RouteMatchInfo::from_tunnel]. *)
Definition from_tunnel (listen_addr : string) (sni : option string) : RouteMatchInfo :=
  mkMatchInfo listen_addr None sni [] [].

(** ** Data transfer objects *)

(** A [serde_json::Value]; a number is kept as its literal. *)
Unset Elimination Schemes.
Inductive Value : Type :=
| VNull
| VBool (b : bool)
| VNumber (literal : string)
| VString (s : string)
| VArray (l : list Value)
| VObject (l : list (string * Value)).
Set Elimination Schemes.

Definition is_null (v : Value) : bool := match v with VNull => true | _ => false end.

Record UpstreamNodeDto := mkNode {
  n_id : Z;
  n_upstream_id : Z;
  n_address : string;
  n_weight : Z;
  n_enabled : bool;
}.

#[global] Instance UpstreamNodeDto_eq_dec : EqDecision UpstreamNodeDto.
Proof. solve_decision. Defined.

Record UpstreamDto := mkUpstream {
  u_id : Z;
  u_name : string;
  u_algorithm : BalancerAlgorithm;
  u_retry_enabled : bool;
  u_nodes : list UpstreamNodeDto;
  u_created_at : Z;
  u_updated_at : Z;
}.

Record PluginBindingDto := mkBinding {
  b_id : Z;
  b_route_id : Z;
  b_plugin_name : string;
  b_config : Value;
  b_order : Z;
  b_blocking : bool;
  b_enabled : bool;
}.

Record RouteDto := mkRoute {
  r_id : Z;
  r_name : string;
  r_protocol : ProtocolId;
  r_match_conditions : RouteMatchConditions;
  r_priority : Z;
  r_upstream_id : option Z;
  r_host_header : option string;
  r_allow_retry_non_idempotent : bool;
  r_ws_strip_sensitive_headers : bool;
  r_enabled : bool;
  r_created_at : Z;
  r_updated_at : Z;
}.

Record RouteSnapshot := mkSnapshot {
  s_id : Z;
  s_protocol : ProtocolId;
  s_upstream_id : option Z;
  s_host_header : option string;
  s_allow_retry_non_idempotent : bool;
  s_ws_strip_sensitive_headers : bool;
  s_plugin_chain : list PluginBindingDto;
  s_requires_body : bool;
}.

Record IpBlacklistDto := mkIpBlacklist {
  bl_id : Z;
  bl_ip_or_cidr : string;
  bl_reason : option string;
  bl_expires_at : option Z;
  bl_created_by : option string;
  bl_created_at : Z;
}.

(** What is published, cached and loaded as one. *)
Record ConfigSnapshot := mkConfigSnapshot {
  cs_routes : list RouteDto;
  cs_upstreams : list UpstreamDto;
  cs_plugin_bindings : list PluginBindingDto;
}.

(** ** Round trips of the textual forms *)

Lemma protocol_from_str_display p : protocol_from_str (protocol_display p) = Ok p.
Proof. by destruct p. Qed.

Lemma algorithm_from_str_display a : algorithm_from_str (algorithm_display a) = Ok a.
Proof. by destruct a. Qed.

(** A query string printed as [k1=v1&k2=v2&...]. *)
Definition print_query (l : list (string * string)) : string :=
  join "&" (map (λ kv, kv.1 +:+ "=" +:+ kv.2) l).

Lemma split_once_eq_app k v :
  count_char "=" k = 0%nat → split_once_eq (k +:+ String "=" v) = (k, Some v).
Proof.
  induction k as [|c k IH]; simpl_str; [done|].
  case_bool_decide; simpl; [done|]. intros Hk. by rewrite IH.
Qed.

(** Every list of pairs whose keys hold neither [=] nor [&] and whose values
    hold no [&] is read back from its query string. *)
Lemma parse_print_query l :
  l ≠ [] →
  Forall (λ kv, count_char "=" kv.1 = 0%nat ∧ count_char "&" kv.1 = 0%nat
                ∧ count_char "&" kv.2 = 0%nat) l →
  parse_query (print_query l) = l.
Proof.
  intros Hne Hl. unfold parse_query, print_query.
  rewrite split_join; [|by destruct l|].
  - rewrite map_map. rewrite <-(map_id l) at 2. apply map_ext_in.
    intros [k v] Hin. rewrite Forall_forall in Hl. apply list_elem_of_In in Hin.
    destruct (Hl _ Hin) as (Hk & _). simpl in *.
    rewrite app_cons_string, app_nil_string, split_once_eq_app by done. done.
  - apply Forall_map. eapply Forall_impl; [exact Hl|]. intros [k v] (H1 & H2 & H3). simpl in *.
    rewrite !count_char_app, H2, H3. done.
Qed.
