(* ===== verification/BalancerApi.v ===== *)
(** The load balancer trait (conrogate-core/src/balancer.rs) as an interface,
    and the round robin algorithm.

    [LoadBalancer] is the trait: [select] and [release] on the balancer's
    state. [LoadBalancerOk] states what an implementation promises to the
    upstream selector: on the node lists it admits, [select] does not panic,
    keeps the state invariant, answers one of the given nodes that is eligible,
    and fails only when none is. *)
From Stdlib Require Import ZArith Lia Ascii String.
From stdpp Require Import base tactics option list list_numbers gmap strings pretty.
From S2P Require Import Prelude Text Errors Core.
#[local] Open Scope Z_scope.

(** ** The trait *)

Class LoadBalancer (S : Type) : Type := {
  lb_algorithm : S → BalancerAlgorithm;
  lb_select : S → list UpstreamNodeDto → option string →
              outcome (S * result UpstreamNodeDto ConrogateError);
  lb_release : S → UpstreamNodeDto → option string → S;
}.

Class LoadBalancerOk (S : Type) `{LoadBalancer S} : Type := {
  lb_inv : S → Prop;
  lb_admits : list UpstreamNodeDto → Prop;
  lb_eligible : UpstreamNodeDto → bool;
  lb_eligible_enabled n : lb_eligible n = true → n_enabled n = true;
  lb_select_sound s nodes key :
    lb_inv s → lb_admits nodes →
    ∃ s' r, lb_select s nodes key = Ret (s', r) ∧ lb_inv s' ∧
      match r with
      | Ok n => n ∈ nodes ∧ lb_eligible n = true
      | Err e => List.filter lb_eligible nodes = [] ∧ ∃ d, e = UpstreamNotFound d
      end;
  lb_release_inv s n key : lb_inv s → lb_inv (lb_release s n key);
}.

(** [k] consecutive selections on one node list, with the results in order. *)
Fixpoint run_selects {S} `{LoadBalancer S} (k : nat) (s : S)
    (nodes : list UpstreamNodeDto) (key : option string) :
    outcome (S * list (result UpstreamNodeDto ConrogateError)) :=
  match k with
  | O => Ret (s, [])
  | Datatypes.S k' =>
      match lb_select s nodes key with
      | Ret (s', r) =>
          match run_selects k' s' nodes key with
          | Ret (s'', rs) => Ret (s'', r :: rs)
          | Panic => Panic
          end
      | Panic => Panic
      end
  end.

Definition enabled_nodes (nodes : list UpstreamNodeDto) : list UpstreamNodeDto :=
  List.filter n_enabled nodes.

Lemma elem_of_enabled n nodes : n ∈ enabled_nodes nodes ↔ n ∈ nodes ∧ n_enabled n = true.
Proof. unfold enabled_nodes. rewrite !list_elem_of_In. apply filter_In. Qed.

(** ** Node-set signatures: sorted parts joined with [|] *)

Definition bar : ascii := "|".

Lemma bar_sep : sep_char bar.
Proof. split; [done|discriminate]. Qed.

(** Addresses (host names, IP addresses, ports, schemes) hold no [|]. *)
Definition no_bar (n : UpstreamNodeDto) : Prop := count_char bar (n_address n) = 0%nat.

(** A signature whose parts hold no [|] fixes the number of nodes. *)
Lemma sorted_join_count (part : UpstreamNodeDto → string) nodes :
  nodes ≠ [] → Forall (λ n, count_char bar (part n) = 0%nat) nodes →
  S (count_char bar (join "|" (stable_sort str_leb (map part nodes)))) = length nodes.
Proof.
  intros Hne Hnb. rewrite count_char_join.
  - rewrite (Permutation_length (stable_sort_perm str_leb (map part nodes))). apply length_map.
  - intros E. pose proof (Permutation_length (stable_sort_perm str_leb (map part nodes))) as P.
    rewrite E, length_map in P. by destruct nodes.
  - rewrite stable_sort_perm. by apply Forall_map.
Qed.

(** ** Round robin (conrogate-balancer/src/round_robin.rs) *)

Module RoundRobinLB.

Record RoundRobin := mkRoundRobin { counter : Z }.

Definition new : RoundRobin := mkRoundRobin 0.

(** [RoundRobin::select]: [fetch_add] returns the old value and wraps. *)
Definition select (st : RoundRobin) (nodes : list UpstreamNodeDto) (key : option string) :
    outcome (RoundRobin * result UpstreamNodeDto ConrogateError) :=
  match nodes with
  | [] => Ret (st, Err (UpstreamNotFound "no nodes available"))
  | _ =>
      let enabled := enabled_nodes nodes in
      match enabled with
      | [] => Ret (st, Err (UpstreamNotFound "no enabled nodes"))
      | _ =>
          let idx := counter st mod Z.of_nat (length enabled) in
          let st' := mkRoundRobin (u64_wrap (counter st + 1)) in
          match enabled !! Z.to_nat idx with
          | Some n => Ret (st', Ok n)
          | None => Panic
          end
      end
  end.

(** [release] is the trait's default: nothing. *)
Definition release (st : RoundRobin) (node : UpstreamNodeDto) (key : option string) : RoundRobin := st.

#[export] Instance round_robin : LoadBalancer RoundRobin :=
  {| lb_algorithm _ := Core.RoundRobin; lb_select := select; lb_release := release |}.

Lemma idx_lt c (l : list UpstreamNodeDto) :
  0 <= c → l ≠ [] → (Z.to_nat (c mod Z.of_nat (length l)) < length l)%nat.
Proof.
  intros Hc Hl. assert (0 < Z.of_nat (length l)) by (destruct l; simpl; [done|lia]).
  pose proof (Z.mod_pos_bound c (Z.of_nat (length l))). lia.
Qed.

(** The behaviour of [select] on every branch. *)
Lemma select_enabled st nodes key :
  0 <= counter st → enabled_nodes nodes ≠ [] →
  ∃ n, enabled_nodes nodes !! Z.to_nat (counter st mod Z.of_nat (length (enabled_nodes nodes))) = Some n
     ∧ select st nodes key = Ret (mkRoundRobin (u64_wrap (counter st + 1)), Ok n).
Proof.
  intros Hc Hen. destruct (lookup_lt_is_Some_2 (enabled_nodes nodes) _ (idx_lt (counter st) _ Hc Hen)) as [n Hn].
  exists n. split; [done|]. unfold select.
  destruct nodes as [|m ms]; [done|]. destruct (enabled_nodes (m :: ms)) eqn:E; [done|]. by rewrite Hn.
Qed.

Lemma select_disabled st nodes key :
  enabled_nodes nodes = [] → ∃ d, select st nodes key = Ret (st, Err (UpstreamNotFound d)).
Proof. intros E. unfold select. destruct nodes; [by eexists|]. rewrite E. by eexists. Qed.

#[export, refine] Instance round_robin_ok : LoadBalancerOk RoundRobin :=
  {| lb_inv st := 0 <= counter st; lb_admits _ := True; lb_eligible := n_enabled |}.
Proof.
  - done.
  - intros st nodes key Hst _. destruct (enabled_nodes nodes) as [|x xs] eqn:E.
    + destruct (select_disabled st nodes key E) as [d Hd].
      exists st, (Err (UpstreamNotFound d)). eauto.
    + destruct (select_enabled st nodes key Hst) as (n & Hn & Hs); [by rewrite E|].
      eexists _, _. split; [exact Hs|]. split; [apply u64_wrap_range|].
      apply elem_of_enabled. by apply list_elem_of_lookup_2 in Hn.
  - done.
Defined.

Lemma run_selects_lookup k st nodes key :
  0 <= counter st → counter st + Z.of_nat k <= 2 ^ 64 → enabled_nodes nodes ≠ [] →
  ∃ st' rs, run_selects k st nodes key = Ret (st', rs) ∧ length rs = k ∧
    ∀ i, (i < k)%nat →
      rs !! i = Ok <$> enabled_nodes nodes !! Z.to_nat
                  ((counter st + Z.of_nat i) mod Z.of_nat (length (enabled_nodes nodes))).
Proof.
  revert st. induction k as [|k IH]; intros st Hc Hk Hen.
  { exists st, []. split_and!; [done|done|lia]. }
  destruct (select_enabled st nodes key Hc Hen) as (n & Hn & Hs).
  destruct (decide (k = 0%nat)) as [->|Hk0].
  { exists (mkRoundRobin (u64_wrap (counter st + 1))), [Ok n]. simpl. rewrite Hs.
    split_and!; [done|done|]. intros [|i] Hi; [|lia]. simpl. by rewrite Z.add_0_r, Hn. }
  assert (u64_wrap (counter st + 1) = counter st + 1) as Hw by (apply u64_wrap_small; lia).
  destruct (IH (mkRoundRobin (u64_wrap (counter st + 1)))) as (st' & rs & Hrun & Hlen & Hrs);
    simpl; rewrite ?Hw; [lia|lia|done|].
  exists st', (Ok n :: rs). simpl. rewrite Hs, Hrun. split_and!; [done|simpl; lia|].
  intros [|i] Hi; simpl; [by rewrite Z.add_0_r, Hn|].
  rewrite Hrs by lia. simpl. rewrite Hw. do 4 f_equal. lia.
Qed.

(** C31. Round robin is fair over every cycle: as long as the 64-bit counter does
    not wrap, [n] consecutive selections on a list with [n] enabled nodes return
    exactly the enabled nodes, each once, in list order starting from the position
    the counter points at. *)
Theorem round_robin_cycle st nodes key :
  0 <= counter st →
  counter st + Z.of_nat (length (enabled_nodes nodes)) <= 2 ^ 64 →
  enabled_nodes nodes ≠ [] →
  ∃ st', run_selects (length (enabled_nodes nodes)) st nodes key =
    Ret (st', Ok <$> rotate (Z.to_nat (counter st mod Z.of_nat (length (enabled_nodes nodes))))
                            (enabled_nodes nodes)).
Proof.
  intros Hc Hmax Hen. set (en := enabled_nodes nodes) in *.
  destruct (run_selects_lookup (length en) st nodes key Hc Hmax Hen) as (st' & rs & Hrun & Hlen & Hrs).
  exists st'. rewrite Hrun. do 2 f_equal. pose proof (idx_lt (counter st) en Hc Hen) as Hidx.
  apply list_eq_same_length with (n := length en); [by rewrite length_fmap, length_rotate|done|].
  intros i x y Hi Hx Hy. rewrite Hrs in Hx by done.
  rewrite list_lookup_fmap, lookup_rotate_r in Hy by lia.
  enough (rotate_nat_add (Z.to_nat (counter st mod Z.of_nat (length en))) i (length en) =
          Z.to_nat ((counter st + Z.of_nat i) mod Z.of_nat (length en))) as E.
  { rewrite E in Hy. fold en in Hx. congruence. }
  unfold rotate_nat_add. apply Z2Nat.inj_iff; [apply Z.mod_pos_bound; lia..|].
  rewrite Z2Nat.id by (apply Z.mod_pos_bound; lia). by rewrite Zplus_mod_idemp_l.
Qed.

Definition demo_nodes : list UpstreamNodeDto :=
  [mkNode 1 1 "10.0.0.1:80" 1 true; mkNode 2 1 "10.0.0.2:80" 1 false; mkNode 3 1 "10.0.0.3:80" 1 true].

Lemma round_robin_cycle_witness :
  ∃ st', run_selects 2 (mkRoundRobin 7) demo_nodes None =
    Ret (st', [Ok (mkNode 3 1 "10.0.0.3:80" 1 true); Ok (mkNode 1 1 "10.0.0.1:80" 1 true)]).
Proof. apply (round_robin_cycle (mkRoundRobin 7) demo_nodes None); [simpl; lia|vm_compute; discriminate|done]. Defined.
End RoundRobinLB.
