(* ===== verification/Weighted.v ===== *)
(** Smooth weighted round robin (conrogate-balancer/src/weighted.rs).

    The state maps the signature of a node set to its vector of current
    weights. The main theorem is exact fairness: over a period of total-weight
    selections every node is chosen exactly as often as its weight says and the
    vector is back at zero. *)
From Stdlib Require Import ZArith Lia Ascii String.
From stdpp Require Import base tactics option list list_numbers gmap strings pretty.
From S2P Require Import Prelude Text Errors Core BalancerApi.
#[local] Open Scope Z_scope.

Module WeightedLB.

(** The bound on the number of vectors kept. *)
Definition MAX_STATES : nat := 1024.

Record WeightedRoundRobin := mkWeighted { states : gmap string (list Z) }.

Definition new : WeightedRoundRobin := mkWeighted ∅.

(** [signature]: the sorted [address:weight] parts joined with [|]. *)
Definition part (n : UpstreamNodeDto) : string :=
  n_address n +:+ ":" +:+ pretty (n_weight n).
Definition signature (nodes : list UpstreamNodeDto) : string :=
  join "|" (stable_sort str_leb (map part nodes)).

Definition eligible (n : UpstreamNodeDto) : bool := n_enabled n && (0 <? n_weight n).

(** [for (i, node) in enabled.iter().enumerate() { current_weights[i] += node.weight }]. *)
Fixpoint add_weights (cw : list Z) (enabled : list UpstreamNodeDto) : outcome (list Z) :=
  match enabled, cw with
  | [], _ => Ret cw
  | n :: ns, c :: cs =>
      match add_weights cs ns with
      | Ret r => Ret (i32_wrap (c + n_weight n) :: r)
      | Panic => Panic
      end
  | _ :: _, [] => Panic
  end.

(** [enabled.iter().map(|n| n.weight).sum::<i32>()]. *)
Definition total_weight (enabled : list UpstreamNodeDto) : Z :=
  foldl (λ acc n, i32_wrap (acc + n_weight n)) 0 enabled.

(** The index of the maximum: [max_by_key] keeps the last one. *)
Definition max_idx (cw : list Z) : nat :=
  from_option fst 0%nat (max_by_key snd (imap (λ i w, (i, w)) cw)).

(** The body of [select] after the vector is found: add, choose, subtract. *)
Definition choose (cw : list Z) (enabled : list UpstreamNodeDto) :
    outcome (list Z * UpstreamNodeDto) :=
  match add_weights cw enabled with
  | Panic => Panic
  | Ret cw1 =>
      let i := max_idx cw1 in
      match cw1 !! i, enabled !! i with
      | Some c, Some n => Ret (<[i := i32_wrap (c - total_weight enabled)]> cw1, n)
      | _, _ => Panic
      end
  end.

(** [WeightedRoundRobin::select]. *)
Definition select (st : WeightedRoundRobin) (nodes : list UpstreamNodeDto) (key : option string) :
    outcome (WeightedRoundRobin * result UpstreamNodeDto ConrogateError) :=
  let enabled := List.filter eligible nodes in
  match enabled with
  | [] => Ret (st, Err (UpstreamNotFound "no enabled weighted nodes"))
  | _ =>
      let sig := signature enabled in
      let sts :=
        if bool_decide (MAX_STATES <= size (states st))%nat
           && negb (bool_decide (is_Some (states st !! sig)))
        then ∅ else states st in
      let cw := default (replicate (length enabled) 0) (sts !! sig) in
      match choose cw enabled with
      | Panic => Panic
      | Ret (cw', n) => Ret (mkWeighted (<[sig := cw']> sts), Ok n)
      end
  end.

Definition release (st : WeightedRoundRobin) (node : UpstreamNodeDto) (key : option string) :
    WeightedRoundRobin := st.

#[export] Instance weighted : LoadBalancer WeightedRoundRobin :=
  {| lb_algorithm _ := Core.WeightedRoundRobin; lb_select := select; lb_release := release |}.

(** ** The signature fixes the number of nodes *)

Lemma part_no_bar n : no_bar n → count_char bar (part n) = 0%nat.
Proof.
  intros H. unfold part. rewrite !count_char_app, H.
  rewrite (count_char_pretty_Z bar) by apply bar_sep. done.
Qed.

Lemma signature_count nodes :
  nodes ≠ [] → Forall no_bar nodes →
  S (count_char bar (signature nodes)) = length nodes.
Proof. intros Hne Hnb. apply sorted_join_count; [done|]. eapply Forall_impl; [exact Hnb|]. apply part_no_bar. Qed.

(** ** Invariant: the vector kept under a signature has one entry per node *)

Definition wf (st : WeightedRoundRobin) : Prop :=
  map_Forall (λ sig cw, length cw = S (count_char bar sig)) (states st).

Lemma add_weights_ret cw enabled :
  length cw = length enabled →
  ∃ r, add_weights cw enabled = Ret r ∧ length r = length enabled.
Proof.
  revert cw. induction enabled as [|n ns IH]; intros [|c cs] H; simplify_eq/=; [eauto|].
  destruct (IH cs H) as (r & -> & Hr). eexists. split; [done|]. simpl. lia.
Qed.

Lemma max_idx_spec cw :
  cw ≠ [] → ∃ c, cw !! max_idx cw = Some c ∧ ∀ x, x ∈ cw → x <= c.
Proof.
  intros Hne. unfold max_idx.
  destruct (max_by_key snd (imap (λ i w, (i, w)) cw)) as [[i c]|] eqn:E.
  - apply max_by_key_spec in E as [Hin Hmax]. simpl.
    apply elem_of_lookup_imap_1 in Hin as (j & w & Hj & Hw). simplify_eq.
    exists w. split; [done|]. intros x [k Hk]%list_elem_of_lookup.
    apply (Hmax (k, x)). apply elem_of_lookup_imap. eauto.
  - destruct cw; [done|]. simpl in E. by destruct (imap _ _).
Qed.

Lemma choose_ret cw enabled :
  enabled ≠ [] → length cw = length enabled →
  ∃ cw' n, choose cw enabled = Ret (cw', n) ∧ n ∈ enabled ∧ length cw' = length enabled.
Proof.
  intros Hne Hlen. unfold choose. destruct (add_weights_ret cw enabled Hlen) as (r & -> & Hr).
  destruct (max_idx_spec r) as (c & Hc & _); [by destruct r, enabled|].
  destruct (lookup_lt_is_Some_2 enabled (max_idx r)) as [n Hn].
  { rewrite <-Hr. by eapply lookup_lt_Some. }
  rewrite Hc, Hn. eexists _, n. split; [done|]. split; [by eapply list_elem_of_lookup_2|].
  by rewrite length_insert.
Qed.

(** The map of vectors [select] works on: cleared when it is full and the
    signature is new. *)
Definition active_states (st : WeightedRoundRobin) (sig : string) : gmap string (list Z) :=
  if bool_decide (MAX_STATES <= size (states st))%nat
     && negb (bool_decide (is_Some (states st !! sig)))
  then ∅ else states st.

Lemma active_states_lookup st sig : active_states st sig !! sig = states st !! sig.
Proof.
  unfold active_states. case_bool_decide; [|done]. case_bool_decide as Hs; [done|]. simpl.
  rewrite lookup_empty. destruct (states st !! sig) eqn:E; [exfalso; apply Hs; eauto|done].
Qed.

Lemma active_states_wf st sig : wf st → wf (mkWeighted (active_states st sig)).
Proof. unfold wf, active_states. intros H. case_match; simpl; [apply map_Forall_empty|done]. Qed.

Lemma select_eligible st nodes key cw' n :
  let enabled := List.filter eligible nodes in
  let sig := signature enabled in
  enabled ≠ [] →
  choose (default (replicate (length enabled) 0) (states st !! sig)) enabled = Ret (cw', n) →
  select st nodes key = Ret (mkWeighted (<[sig := cw']> (active_states st sig)), Ok n).
Proof.
  intros enabled sig Hne Hch. unfold select. fold enabled. destruct enabled eqn:E; [done|].
  fold sig. fold (active_states st sig). rewrite active_states_lookup, Hch. done.
Qed.

Lemma current_length st enabled :
  wf st → enabled ≠ [] → Forall no_bar enabled →
  length (default (replicate (length enabled) 0) (states st !! signature enabled)) = length enabled.
Proof.
  intros Hwf Hne Hnb. destruct (states st !! signature enabled) as [cw|] eqn:E; simpl.
  - rewrite (Hwf _ _ E). by apply signature_count.
  - apply length_replicate.
Qed.

#[export, refine] Instance weighted_ok : LoadBalancerOk WeightedRoundRobin :=
  {| lb_inv := wf; lb_admits nodes := Forall no_bar nodes; lb_eligible := eligible |}.
Proof.
  - intros n [H _]%andb_prop. done.
  - intros st nodes key Hwf Hnb. destruct (List.filter eligible nodes) as [|x xs] eqn:E.
    { exists st, (Err (UpstreamNotFound "no enabled weighted nodes")). simpl. unfold select. rewrite E. eauto. }
    assert (List.filter eligible nodes ≠ []) as Hne by (by rewrite E).
    assert (Forall no_bar (List.filter eligible nodes)) as Hnb'.
    { rewrite Forall_forall in *. intros n [Hn _]%filter_elem_of. eauto. }
    destruct (choose_ret _ _ Hne (current_length st _ Hwf Hne Hnb')) as (cw' & n & Hch & Hn & Hlen).
    eexists _, _. split; [by apply select_eligible|]. split.
    + apply map_Forall_insert_2; [|by apply active_states_wf].
      rewrite Hlen. symmetry. by apply signature_count.
    + by apply filter_elem_of in Hn.
  - done.
Defined.

(** ** Fairness *)

Section Fairness.
Context (enabled : list UpstreamNodeDto).
Abbreviation weights := (map n_weight enabled).
Abbreviation W := (sumZ weights).

Context (Hpos : Forall (λ n, 0 < n_weight n) enabled).
Context (Hbound : Z.of_nat (length enabled) * W < 2 ^ 31).
Context (Hne : enabled ≠ []).

Lemma W_pos : 0 < W.
Proof.
  destruct Hpos as [|n l Hn Hl]; [done|]. simpl.
  assert (0 <= sumZ (map n_weight l)); [|lia].
  apply sumZ_nonneg, Forall_map. eapply Forall_impl; [exact Hl|]. simpl. lia.
Qed.

Lemma W_small : W < 2 ^ 31.
Proof. pose proof W_pos. destruct enabled; [done|]. cbn [length] in Hbound. nia. Qed.

Lemma total_weight_sum : total_weight enabled = W.
Proof.
  unfold total_weight. pose proof W_small as Hw.
  assert (∀ l acc, Forall (λ n, 0 < n_weight n) l → 0 <= acc →
            acc + sumZ (map n_weight l) < 2 ^ 31 →
            foldl (λ a n, i32_wrap (a + n_weight n)) acc l = acc + sumZ (map n_weight l)) as H.
  { induction l as [|n l IH]; intros acc Hl Ha Hs; simpl; [lia|].
    inversion Hl as [|? ? Hn Hl']; subst. simpl in Hs.
    assert (0 <= sumZ (map n_weight l)).
    { apply sumZ_nonneg, Forall_map. eapply Forall_impl; [exact Hl'|]. simpl. lia. }
    rewrite i32_wrap_small by lia. rewrite IH; [lia|done|lia|lia]. }
  rewrite H; [done|done|lia|lia].
Qed.

(** A vector between two selections: one entry per node, summing to zero, each
    above [- W]. *)
Record balanced (cw : list Z) : Prop := {
  bal_length : length cw = length enabled;
  bal_sum : sumZ cw = 0;
  bal_low : Forall (λ c, 1 - W <= c) cw;
}.

Lemma balanced_zero : balanced (replicate (length enabled) 0).
Proof.
  pose proof W_pos. split; [apply length_replicate| |].
  - rewrite sumZ_replicate. lia.
  - apply Forall_replicate. lia.
Qed.

Lemma balanced_high cw : balanced cw → Forall (λ c, - 2 ^ 31 <= c <= 2 ^ 31 - 1 - W) cw.
Proof.
  intros [Hlen Hsum Hlow]. pose proof W_pos as Hw. apply Forall_lookup. intros i c Hc.
  rewrite Forall_lookup in Hlow. pose proof (Hlow i c Hc).
  assert (0 < length enabled)%nat by (destruct enabled; simpl; [done|lia]).
  pose proof (sumZ_upper cw (W - 1) i c) as Hup. rewrite Hsum, Hlen in Hup.
  split; [pose proof W_small; lia|].
  assert (c <= 0 + (Z.of_nat (length enabled) - 1) * (W - 1)); [|nia].
  apply Hup; [lia| |done]. apply Forall_lookup. intros j d Hd. specialize (Hlow j d Hd). lia.
Qed.

Lemma add_weights_exact cw l b :
  length cw = length l →
  Forall (λ c, - 2 ^ 31 <= c <= 2 ^ 31 - 1 - b) cw → Forall (λ n, 0 < n_weight n <= b) l →
  add_weights cw l = Ret (zip_with Z.add cw (map n_weight l)).
Proof.
  revert cw. induction l as [|n l IH]; intros [|c cw] Hlen Hcw Hl; simplify_eq/=; [done|].
  inversion Hcw; inversion Hl; subst. rewrite IH by done. rewrite i32_wrap_small by lia. done.
Qed.

Lemma weight_le_total i n : enabled !! i = Some n → n_weight n <= W.
Proof.
  intros Hi. assert (weights !! i = Some (n_weight n)) as Hw by (by rewrite list_lookup_fmap, Hi).
  revert Hw. generalize (n_weight n). assert (Forall (λ z, 0 <= z) weights) as Hf.
  { apply Forall_map. eapply Forall_impl; [exact Hpos|]. simpl. lia. }
  clear -Hf. revert i. induction Hf as [|z l Hz Hl IH]; intros [|i] x Hx; simplify_eq/=.
  - pose proof (sumZ_nonneg l Hl). lia.
  - specialize (IH i x Hx). lia.
Qed.

Lemma weights_le_total : Forall (λ n, 0 < n_weight n <= W) enabled.
Proof.
  apply Forall_lookup. intros i n Hi. split; [|by eapply weight_le_total].
  exact (proj1 (Forall_lookup _ _) Hpos i n Hi).
Qed.

(** One selection: the chosen node pays the total weight, the others keep what
    they were given, and the vector is balanced again. *)
Lemma choose_balanced cw :
  balanced cw →
  ∃ i n, enabled !! i = Some n ∧
    let cw1 := zip_with Z.add cw weights in
    let cw' := <[i := default 0 (cw1 !! i) - W]> cw1 in
    choose cw enabled = Ret (cw', n) ∧ balanced cw'.
Proof.
  intros Hb. pose proof Hb as [Hlen Hsum Hlow]. pose proof W_pos as Hw. pose proof W_small as Hws.
  pose proof (balanced_high cw Hb) as Hhigh.
  set (cw1 := zip_with Z.add cw weights).
  assert (length cw1 = length enabled) as Hlen1.
  { unfold cw1. rewrite length_zip_with_r_eq; rewrite length_map; lia. }
  assert (sumZ cw1 = W) as Hsum1.
  { unfold cw1. rewrite sumZ_zip_add by (by rewrite length_map). lia. }
  assert (Forall (λ c, 1 - W <= c <= 2 ^ 31 - 1) cw1) as Hcw1.
  { apply Forall_lookup. intros j d Hd. unfold cw1 in Hd.
    apply lookup_zip_with_Some in Hd as (c & w & -> & Hc & Hwj).
    rewrite list_lookup_fmap in Hwj. destruct (enabled !! j) as [m|] eqn:Em; simplify_eq/=.
    pose proof (proj1 (Forall_lookup _ _) weights_le_total j m Em).
    pose proof (proj1 (Forall_lookup _ _) Hlow j c Hc).
    pose proof (proj1 (Forall_lookup _ _) Hhigh j c Hc). simpl in *. lia. }
  destruct (max_idx_spec cw1) as (c & Hc & Hmax).
  { intros E. rewrite E in Hlen1. by destruct enabled. }
  destruct (sumZ_pos_elem cw1) as (x & Hx & Hx0); [lia|]. specialize (Hmax x Hx).
  destruct (lookup_lt_is_Some_2 enabled (max_idx cw1)) as [n Hn].
  { rewrite <-Hlen1. by eapply lookup_lt_Some. }
  pose proof (proj1 (Forall_lookup _ _) Hcw1 _ _ Hc) as Hcb.
  exists (max_idx cw1), n. split; [done|]. simpl. fold cw1. rewrite Hc. simpl. split.
  - unfold choose. rewrite (add_weights_exact cw enabled W Hlen Hhigh weights_le_total). fold cw1.
    rewrite Hc, Hn, total_weight_sum. rewrite i32_wrap_small by (simpl in *; lia). done.
  - split; [by rewrite length_insert| |].
    + rewrite (sumZ_insert _ _ c) by done. lia.
    + apply Forall_insert; [|lia]. eapply Forall_impl; [exact Hcw1|]. simpl. lia.
Qed.
End Fairness.

(** The multiset of answers in which node [i] of [l] occurs [ks !! i] times. *)
Definition tally (ks : list nat) (l : list UpstreamNodeDto) :
    list (result UpstreamNodeDto ConrogateError) :=
  concat (zip_with (λ k n, replicate k (Ok n)) ks l).

Lemma tally_zero l : tally (replicate (length l) 0%nat) l = [].
Proof. unfold tally. induction l as [|n l IH]; [done|]. simpl. exact IH. Qed.

Lemma tally_incr ks l i k n :
  ks !! i = Some k → l !! i = Some n → tally (<[i := S k]> ks) l ≡ₚ Ok n :: tally ks l.
Proof.
  unfold tally. revert l i. induction ks as [|k0 ks IH]; intros [|m l] [|i] Hk Hn; simplify_eq/=; [done|].
  rewrite (IH l i Hk Hn). by rewrite Permutation_middle.
Qed.

(** ** Runs of selections *)

Section Run.
Context (nodes : list UpstreamNodeDto) (key : option string).
Abbreviation enabled := (List.filter eligible nodes).
Abbreviation weights := (map n_weight enabled).
Abbreviation W := (sumZ weights).

Context (Hbound : Z.of_nat (length enabled) * W < 2 ^ 31).
Context (Hne : enabled ≠ []).

Lemma eligible_pos : Forall (λ n, 0 < n_weight n) enabled.
Proof.
  apply Forall_forall. intros n [_ He]%filter_elem_of.
  apply andb_prop in He as [_ He%Z.ltb_lt]. done.
Qed.

(** The vector the next selection on these nodes starts from. *)
Definition vector (st : WeightedRoundRobin) : list Z :=
  default (replicate (length enabled) 0) (states st !! signature enabled).

(** What [t] selections do to the vector: node [j], chosen [ks !! j] times, is
    given [t] times its weight and pays the total weight for each choice. *)
Lemma run_selects_balanced t st :
  balanced enabled (vector st) →
  ∃ st' rs ks,
    run_selects t st nodes key = Ret (st', rs) ∧ rs ≡ₚ tally ks enabled ∧
    length ks = length enabled ∧ sumZ (Z.of_nat <$> ks) = Z.of_nat t ∧
    balanced enabled (vector st') ∧
    ∀ j c w k, vector st !! j = Some c → weights !! j = Some w → ks !! j = Some k →
      vector st' !! j = Some (c + Z.of_nat t * w - W * Z.of_nat k).
Proof.
  revert st. induction t as [|t IH]; intros st Hb.
  { exists st, [], (replicate (length enabled) 0%nat).
    rewrite tally_zero, fmap_replicate, sumZ_replicate, length_replicate.
    split_and!; [done|done|done|lia|done|].
    intros j c w k Hc Hw [-> _]%lookup_replicate. rewrite Hc. f_equal. lia. }
  destruct (choose_balanced enabled eligible_pos Hbound Hne _ Hb) as (i & n & Hn & Hch & Hb').
  set (cw1 := zip_with Z.add (vector st) weights) in *.
  set (cw' := <[i := default 0 (cw1 !! i) - W]> cw1) in *.
  pose proof (select_eligible st nodes key cw' n Hne Hch) as Hsel.
  set (st1 := mkWeighted _) in Hsel.
  assert (vector st1 = cw') as Hv by (unfold vector, st1; simpl; by rewrite lookup_insert_eq).
  destruct (IH st1) as (st' & rs & ks & Hrun & Hrs & Hlen & Hsum & Hbal & Hvec); [by rewrite Hv|].
  destruct (lookup_lt_is_Some_2 ks i) as [k Hk]; [rewrite Hlen; by eapply lookup_lt_Some|].
  exists st', (Ok n :: rs), (<[i := S k]> ks). split_and!.
  - simpl. rewrite Hsel. simpl in Hrun. by rewrite Hrun.
  - rewrite (tally_incr ks _ i k n) by done. by rewrite Hrs.
  - by rewrite length_insert.
  - rewrite list_fmap_insert, (sumZ_insert _ _ (Z.of_nat k)) by (by rewrite list_lookup_fmap, Hk). lia.
  - done.
  - intros j c w k' Hc Hw Hk'.
    assert (cw1 !! j = Some (c + w)) as Hcw1.
    { unfold cw1. apply lookup_zip_with_Some. eauto. }
    destruct (decide (j = i)) as [->|Hji].
    + rewrite list_lookup_insert_eq in Hk' by (by eapply lookup_lt_Some). injection Hk' as <-.
      rewrite (Hvec i (c + w - W) w k); [f_equal; lia| |done|done].
      rewrite Hv. unfold cw'. rewrite list_lookup_insert_eq by (by eapply lookup_lt_Some).
      by rewrite Hcw1.
    + rewrite list_lookup_insert_ne in Hk' by done.
      rewrite (Hvec j (c + w) w k'); [f_equal; lia| |done|done].
      rewrite Hv. unfold cw'. by rewrite list_lookup_insert_ne.
Qed.
End Run.

(** After [W] selections from the zero vector the counts are the weights. *)
Lemma period_counts (W : Z) (ws : list Z) (ks : list nat) (v : list Z) :
  0 < W → sumZ ws = W → sumZ (Z.of_nat <$> ks) = W → length ks = length ws → length v = length ws →
  Forall (λ c, 1 - W <= c) v →
  (∀ j w k, ws !! j = Some w → ks !! j = Some k → v !! j = Some (W * w - W * Z.of_nat k)) →
  Z.of_nat <$> ks = ws.
Proof.
  intros HW Hws Hks Hlk Hlv Hlow Hv.
  set (d := zip_with Z.sub ws (Z.of_nat <$> ks)).
  assert (length d = length ws) as Hld.
  { unfold d. rewrite length_zip_with_l_eq; rewrite ?length_fmap; lia. }
  assert (Forall (λ z, 0 <= z) d) as Hd.
  { apply Forall_lookup. intros j z Hz. unfold d in Hz.
    apply lookup_zip_with_Some in Hz as (w & kz & -> & Hw & Hk).
    rewrite list_lookup_fmap in Hk. destruct (ks !! j) as [k|] eqn:Ek; simplify_eq/=.
    pose proof (proj1 (Forall_lookup _ _) Hlow j _ (Hv j w k Hw Ek)). simpl in *. nia. }
  assert (sumZ d = 0) as Hs.
  { assert (∀ a b, length b = length a → sumZ (zip_with Z.sub a b) = sumZ a - sumZ b) as Hsub.
    { induction a as [|x a IH]; intros [|y b] Hl; simplify_eq/=; [done|]. rewrite IH by done. lia. }
    unfold d. rewrite Hsub by (rewrite length_fmap; lia). lia. }
  apply sumZ_zero in Hs; [|done].
  apply list_eq_same_length with (n := length ws); [done|by rewrite length_fmap|].
  intros j x y Hj Hx Hy.
  assert (d !! j = Some (y - x)) as Hdj by (unfold d; apply lookup_zip_with_Some; eauto).
  rewrite Hs in Hdj. apply lookup_replicate in Hdj as [? _]. lia.
Qed.

(** C32. Exact fairness of smooth weighted round robin: starting from a fresh
    vector, one period of total-weight selections answers every eligible node
    exactly as often as its weight and leaves the vector at zero, so that the
    next period repeats it. The bound keeps the 32-bit arithmetic exact. *)
Theorem weighted_period_fair st nodes key :
  let enabled := List.filter eligible nodes in
  let W := sumZ (map n_weight enabled) in
  enabled ≠ [] →
  Z.of_nat (length enabled) * W < 2 ^ 31 →
  vector nodes st = replicate (length enabled) 0 →
  ∃ st' rs,
    run_selects (Z.to_nat W) st nodes key = Ret (st', rs) ∧
    rs ≡ₚ concat (map (λ n, replicate (Z.to_nat (n_weight n)) (Ok n)) enabled) ∧
    vector nodes st' = replicate (length enabled) 0.
Proof.
  intros enabled W Hne Hbound Hv0.
  pose proof (W_pos enabled (eligible_pos nodes) Hbound Hne) as HW. fold W in HW.
  destruct (run_selects_balanced nodes key Hbound Hne (Z.to_nat W) st)
    as (st' & rs & ks & Hrun & Hrs & Hlen & Hsum & Hbal & Hvec).
  { rewrite Hv0. exact (balanced_zero enabled (eligible_pos nodes) Hbound Hne). }
  fold enabled in Hlen, Hvec, Hbal, Hrs. fold W in Hvec. rewrite Z2Nat.id in Hsum, Hvec by lia.
  assert (∀ j, (j < length enabled)%nat → vector nodes st !! j = Some 0) as Hz.
  { intros j Hj. rewrite Hv0. by apply lookup_replicate_2. }
  assert (∀ j w k, map n_weight enabled !! j = Some w → ks !! j = Some k →
            vector nodes st' !! j = Some (W * w - W * Z.of_nat k)) as Hdrift.
  { intros j w k Hw Hk. rewrite (Hvec j 0 w k); [f_equal; lia| |done|done].
    apply Hz. rewrite <-Hlen. by eapply lookup_lt_Some. }
  destruct Hbal as [Hbl Hbs Hblow]. fold enabled in Hbl.
  assert (Z.of_nat <$> ks = map n_weight enabled) as Hks.
  { apply (period_counts W _ _ (vector nodes st')); rewrite ?length_map; done. }
  exists st', rs. split_and!; [done| |].
  - rewrite Hrs. unfold tally. match goal with |- ?a ≡ₚ ?b => enough (a = b) as -> by done end. f_equal.
    clear -Hks. revert ks Hks. induction enabled as [|n l IH]; intros [|k ks] Hk; simplify_eq/=; [done|].
    f_equal; [by rewrite <-H, Nat2Z.id|by apply IH].
  - apply list_eq_same_length with (n := length enabled); [apply length_replicate|done|].
    intros j x y Hj Hx [-> _]%lookup_replicate.
    destruct (lookup_lt_is_Some_2 ks j) as [k Hk]; [lia|].
    assert (map n_weight enabled !! j = Some (Z.of_nat k)) as Hw by (by rewrite <-Hks, list_lookup_fmap, Hk).
    rewrite (Hdrift j _ k Hw Hk) in Hx. simplify_eq. lia.
Qed.

(** An address with a bar breaks the signature: the list of one node and the list of two
    have the same, and the vector of the one is too short for the other. *)
Lemma bar_panics :
  let one := [mkNode 1 1 "10.0.0.1:80:1|10.0.0.2:80" 1 true] in
  let two := [mkNode 1 1 "10.0.0.1:80" 1 true; mkNode 2 1 "10.0.0.2:80" 1 true] in
  signature one = signature two ∧
  match select new one None with Ret (st, Ok _) => select st two None = Panic | _ => False end.
Proof. split; vm_compute; reflexivity. Qed.

Definition demo_nodes : list UpstreamNodeDto :=
  [mkNode 1 1 "10.0.0.1:80" 5 true; mkNode 2 1 "10.0.0.2:80" 3 false;
   mkNode 3 1 "10.0.0.3:80" 0 true; mkNode 4 1 "10.0.0.4:80" 1 true].

Lemma weighted_period_fair_witness :
  ∃ st' rs, run_selects 6 new demo_nodes None = Ret (st', rs) ∧
    rs ≡ₚ replicate 5 (Ok (mkNode 1 1 "10.0.0.1:80" 5 true)) ++ [Ok (mkNode 4 1 "10.0.0.4:80" 1 true)] ∧
    vector demo_nodes st' = [0; 0].
Proof. apply (weighted_period_fair new demo_nodes None); [done|done|vm_compute; reflexivity]. Defined.
End WeightedLB.

