(* ===== verification/LeastConn.v ===== *)
(** Least connections (conrogate-balancer/src/least_conn.rs).

    The state counts, per upstream, the connections open on each address.
    [refines] relates it to the abstract view, the list of the connections the
    balancer knows to be open; [select] opens one on a least loaded node and
    [release] closes one. *)
From Stdlib Require Import ZArith Lia Ascii String.
From stdpp Require Import base tactics option list list_numbers gmap strings.
From S2P Require Import Prelude Text Errors Core BalancerApi.
#[local] Open Scope Z_scope.

Module LeastConnLB.

Record LeastConnections := mkLeastConn { connections : gmap Z (gmap string Z) }.

Definition new : LeastConnections := mkLeastConn ∅.

(** [inner.get(&addr).copied().unwrap_or(0)]. *)
Definition inner_count (inner : gmap string Z) (addr : string) : Z := default 0 (inner !! addr).

(** [inner.retain(|addr, _| current_addrs.contains(addr))]. *)
Definition retain (addrs : list string) (inner : gmap string Z) : gmap string Z :=
  filter (λ kv, kv.1 ∈ addrs) inner.

(** [LeastConnections::select]. *)
Definition select (st : LeastConnections) (nodes : list UpstreamNodeDto) (key : option string) :
    outcome (LeastConnections * result UpstreamNodeDto ConrogateError) :=
  match enabled_nodes nodes with
  | [] => Ret (st, Err (UpstreamNotFound "no enabled nodes"))
  | (first :: _) as enabled =>
      let upstream_id := n_upstream_id first in
      let inner := retain (map n_address enabled) (default ∅ (connections st !! upstream_id)) in
      match min_by_key (λ n, inner_count inner (n_address n)) enabled with
      | None => Panic
      | Some selected =>
          let a := n_address selected in
          let inner' := <[a := u64_wrap (inner_count inner a + 1)]> inner in
          Ret (mkLeastConn (<[upstream_id := inner']> (connections st)), Ok selected)
      end
  end.

(** [LeastConnections::release]. *)
Definition release (st : LeastConnections) (node : UpstreamNodeDto) (key : option string) :
    LeastConnections :=
  match connections st !! n_upstream_id node with
  | None => st
  | Some inner =>
      let inner' :=
        match inner !! n_address node with
        | None => inner
        | Some count =>
            let count' := saturating_sub count 1 in
            if count' =? 0 then delete (n_address node) inner
            else <[n_address node := count']> inner
        end in
      mkLeastConn (if bool_decide (inner' = ∅)
                   then delete (n_upstream_id node) (connections st)
                   else <[n_upstream_id node := inner']> (connections st))
  end.

#[export] Instance least_conn : LoadBalancer LeastConnections :=
  {| lb_algorithm _ := Core.LeastConnections; lb_select := select; lb_release := release |}.

(** The count of one address of one upstream. *)
Definition count (st : LeastConnections) (uid : Z) (addr : string) : Z :=
  inner_count (default ∅ (connections st !! uid)) addr.

(** ** [select] and [release] as updates of the counts *)

Lemma retain_count addrs inner a :
  inner_count (retain addrs inner) a = if decide (a ∈ addrs) then inner_count inner a else 0.
Proof.
  unfold inner_count, retain. destruct (decide (a ∈ addrs)) as [Ha|Ha].
  - destruct (inner !! a) as [c|] eqn:E.
    + by rewrite (map_lookup_filter_Some_2 _ _ _ _ E).
    + rewrite map_lookup_filter_None_2; [done|by left].
  - rewrite map_lookup_filter_None_2; [done|]. right. by intros x _ ?.
Qed.

(** What remains of the counts when the upstream's enabled nodes are [enabled]. *)
Definition kept (st : LeastConnections) (uid : Z) (addrs : list string) (u : Z) (a : string) : Z :=
  if decide (u = uid) then (if decide (a ∈ addrs) then count st u a else 0) else count st u a.

Lemma inner_count_insert inner a c b :
  inner_count (<[a := c]> inner) b = if decide (a = b) then c else inner_count inner b.
Proof.
  unfold inner_count. destruct (decide (a = b)) as [->|];
    [by rewrite lookup_insert_eq|by rewrite lookup_insert_ne].
Qed.

Lemma count_insert m uid inner u a :
  count (mkLeastConn (<[uid := inner]> m)) u a =
  if decide (uid = u) then inner_count inner a else count (mkLeastConn m) u a.
Proof.
  unfold count. simpl. destruct (decide (uid = u)) as [->|];
    [by rewrite lookup_insert_eq|by rewrite lookup_insert_ne].
Qed.

Lemma select_spec st nodes key first rest :
  enabled_nodes nodes = first :: rest →
  let uid := n_upstream_id first in
  let addrs := map n_address (first :: rest) in
  ∃ st' n, select st nodes key = Ret (st', Ok n) ∧ n ∈ first :: rest ∧
    (∀ m, m ∈ first :: rest → count st uid (n_address n) <= count st uid (n_address m)) ∧
    (∀ u a, count st' u a =
       if decide (u = uid ∧ a = n_address n) then u64_wrap (count st u a + 1)
       else kept st uid addrs u a).
Proof.
  intros E uid addrs. unfold select. rewrite E. fold uid addrs.
  set (inner := default ∅ (connections st !! uid)).
  assert (∀ m, m ∈ first :: rest →
    inner_count (retain addrs inner) (n_address m) = count st uid (n_address m)) as Hin.
  { intros m Hm. rewrite retain_count, decide_True; [done|].
    unfold addrs. apply list_elem_of_In, in_map. by apply list_elem_of_In. }
  destruct (min_by_key (λ n, inner_count (retain addrs inner) (n_address n)) (first :: rest))
    as [n|] eqn:M; [|done].
  apply min_by_key_spec in M as [Hn Hmin].
  eexists _, n. split; [reflexivity|]. split; [done|]. split.
  { intros m Hm. rewrite <-!Hin by done. by apply Hmin. }
  intros u a. rewrite count_insert, inner_count_insert.
  unfold kept. destruct (decide (uid = u)) as [<-|Hu].
  - destruct (decide (n_address n = a)) as [<-|Ha].
    + rewrite decide_True by done. by rewrite Hin.
    + rewrite decide_False, decide_True by naive_solver. apply retain_count.
  - rewrite !decide_False by naive_solver. by destruct st.
Qed.

Lemma count_delete m uid u a :
  count (mkLeastConn (delete uid m)) u a =
  if decide (uid = u) then 0 else count (mkLeastConn m) u a.
Proof.
  unfold count. simpl. destruct (decide (uid = u)) as [->|];
    [by rewrite lookup_delete_eq|by rewrite lookup_delete_ne].
Qed.

Lemma inner_count_delete inner a b :
  inner_count (delete a inner) b = if decide (a = b) then 0 else inner_count inner b.
Proof.
  unfold inner_count. destruct (decide (a = b)) as [->|];
    [by rewrite lookup_delete_eq|by rewrite lookup_delete_ne].
Qed.

Lemma release_spec st n key u a :
  (∀ u a, 0 <= count st u a) →
  count (release st n key) u a =
  if decide (u = n_upstream_id n ∧ a = n_address n) then saturating_sub (count st u a) 1
  else count st u a.
Proof.
  intros Hnn. unfold release. destruct (connections st !! n_upstream_id n) as [inner|] eqn:E.
  2: { case_decide as Hd; [|done]. destruct Hd as [-> ->]. unfold count. by rewrite E. }
  set (inner' := match inner !! n_address n with Some _ => _ | None => _ end).
  assert (∀ b, inner_count inner' b =
    if decide (b = n_address n) then saturating_sub (inner_count inner b) 1
    else inner_count inner b) as Hi.
  { intros b. unfold inner'. destruct (inner !! n_address n) as [c|] eqn:Ec.
    - assert (inner_count inner (n_address n) = c) as Hc by (unfold inner_count; by rewrite Ec).
      destruct (Z.eqb_spec (saturating_sub c 1) 0) as [E0|E0].
      + rewrite inner_count_delete. repeat case_decide; subst; naive_solver.
      + rewrite inner_count_insert. repeat case_decide; subst; naive_solver.
    - case_decide; [subst b|done]. unfold inner_count. by rewrite Ec. }
  assert (∀ b, count st (n_upstream_id n) b = inner_count inner b) as Hco.
  { intros b. unfold count. by rewrite E. }
  assert (st = mkLeastConn (connections st)) as Hst by (by destruct st).
  assert (count (mkLeastConn (if bool_decide (inner' = ∅)
            then delete (n_upstream_id n) (connections st)
            else <[n_upstream_id n := inner']> (connections st))) u a =
          if decide (n_upstream_id n = u) then inner_count inner' a else count st u a) as ->.
  { case_bool_decide as Hemp.
    - rewrite count_delete, <-Hst. case_decide; [|done]. rewrite Hemp. done.
    - by rewrite count_insert, <-Hst. }
  rewrite Hi. repeat case_decide; subst; rewrite ?Hco; naive_solver.
Qed.

(** ** Refinement of the list of open connections *)

(** An open connection: an upstream and an address. *)
Abbreviation conn := (Z * string)%type.

Definition occ (l : list conn) (c : conn) : Z :=
  Z.of_nat (length (filter (λ d, d = c) l)).

Definition refines (st : LeastConnections) (l : list conn) : Prop :=
  ∀ u a, count st u a = occ l (u, a).

(** Connections of the upstream to addresses no longer enabled are forgotten. *)
Definition keep_spec (uid : Z) (addrs : list string) (l : list conn) : list conn :=
  filter (λ c : conn, c.1 = uid → c.2 ∈ addrs) l.

Definition open_spec (uid : Z) (a : string) (addrs : list string) (l : list conn) : list conn :=
  (uid, a) :: keep_spec uid addrs l.

(** Close one connection if one is open. *)
Fixpoint close_spec (c : conn) (l : list conn) : list conn :=
  match l with
  | [] => []
  | d :: l' => if decide (d = c) then l' else d :: close_spec c l'
  end.

Lemma occ_cons d l c : occ (d :: l) c = (if decide (d = c) then 1 else 0) + occ l c.
Proof. unfold occ. rewrite filter_cons. case_decide; simpl; lia. Qed.

Lemma occ_nonneg l c : 0 <= occ l c.
Proof. unfold occ. lia. Qed.

Lemma occ_length l c : occ l c <= Z.of_nat (length l).
Proof. unfold occ. pose proof (length_filter (λ d, d = c) l). lia. Qed.

Lemma occ_keep uid addrs l u a :
  occ (keep_spec uid addrs l) (u, a) =
  if decide (u = uid) then (if decide (a ∈ addrs) then occ l (u, a) else 0) else occ l (u, a).
Proof.
  unfold keep_spec. induction l as [|[u' a'] l IH]; [by repeat case_match|].
  rewrite filter_cons. destruct (decide ((u', a').1 = uid → (u', a').2 ∈ addrs)) as [Hk|Hk]; simpl in Hk;
    rewrite ?occ_cons, IH; repeat case_decide; simplify_eq; try lia; naive_solver.
Qed.

Lemma occ_close c l d :
  occ (close_spec c l) d = if decide (d = c) then saturating_sub (occ l d) 1 else occ l d.
Proof.
  unfold saturating_sub. induction l as [|e l IH]; [by destruct (decide (d = c))|]. cbn [close_spec].
  pose proof (occ_nonneg l d).
  destruct (decide (e = c)) as [->|Hec]; rewrite ?occ_cons, ?IH.
  - destruct (decide (d = c)) as [->|Hdc].
    + rewrite decide_True by done. lia.
    + rewrite decide_False by congruence. lia.
  - destruct (decide (d = c)) as [->|Hdc]; [|done].
    rewrite decide_False by done. lia.
Qed.

Lemma refines_new : refines new [].
Proof. done. Qed.

Lemma refines_release st l n key :
  refines st l → refines (release st n key) (close_spec (n_upstream_id n, n_address n) l).
Proof.
  intros H u a. rewrite release_spec by (intros; rewrite H; apply occ_nonneg).
  rewrite occ_close, H. repeat case_decide; naive_solver.
Qed.

Lemma refines_select st l nodes key first rest :
  let uid := n_upstream_id first in
  let addrs := map n_address (first :: rest) in
  enabled_nodes nodes = first :: rest → refines st l → Z.of_nat (length l) < 2 ^ 64 - 1 →
  ∃ st' n, select st nodes key = Ret (st', Ok n) ∧ n ∈ first :: rest ∧
    (∀ m, m ∈ first :: rest → occ l (uid, n_address n) <= occ l (uid, n_address m)) ∧
    refines st' (open_spec uid (n_address n) addrs l).
Proof.
  intros uid addrs E H Hlen.
  destruct (select_spec st nodes key first rest E) as (st' & n & Hs & Hn & Hmin & Hc).
  exists st', n. split; [done|]. split; [done|]. split.
  { intros m Hm. rewrite <-!H. by apply Hmin. }
  assert (n_address n ∈ addrs) as Ha by (apply list_elem_of_In, in_map; by apply list_elem_of_In).
  intros u a. rewrite Hc. unfold open_spec. rewrite occ_cons, occ_keep. unfold kept. rewrite !H.
  pose proof (occ_length l (u, a)). pose proof (occ_nonneg l (u, a)).
  fold uid addrs. destruct (decide (u = uid ∧ a = n_address n)) as [[-> ->]|Hd].
  - rewrite u64_wrap_small by lia. rewrite !decide_True by done. lia.
  - rewrite (decide_False (P := (uid, n_address n) = (u, a))) by naive_solver.
    repeat case_decide; done.
Qed.

#[export, refine] Instance least_conn_ok : LoadBalancerOk LeastConnections :=
  {| lb_inv st := ∀ u a, 0 <= count st u a; lb_admits _ := True; lb_eligible := n_enabled |}.
Proof.
  - done.
  - intros st nodes key Hst _. destruct (enabled_nodes nodes) as [|x xs] eqn:E.
    + exists st, (Err (UpstreamNotFound "no enabled nodes")). simpl. unfold select. rewrite E. eauto.
    + destruct (select_spec st nodes key x xs E) as (st' & n & Hs & Hn & _ & Hc).
      exists st', (Ok n). split; [exact Hs|]. split.
      * intros u a. rewrite Hc. unfold kept.
        case_decide; [apply u64_wrap_range|]. repeat case_decide; done.
      * rewrite <-E in Hn. by apply elem_of_enabled.
  - intros st n key Hst u a. simpl. rewrite release_spec by done.
    case_decide; [unfold saturating_sub; lia|done].
Defined.

(** C33. Least connections implements the list of open connections: if the counts
    represent the list [l], a selection answers an enabled node on which fewest
    connections of [l] are open and the new counts represent [l] (less the
    connections to addresses no longer enabled) with that connection added; a
    release of any node removes one of its connections, and a release of the
    node just selected undoes the selection. *)
Theorem least_conn_refinement st l nodes key first rest :
  let uid := n_upstream_id first in
  let addrs := map n_address (first :: rest) in
  enabled_nodes nodes = first :: rest → refines st l → Z.of_nat (length l) < 2 ^ 64 - 1 →
  ∃ st' n, select st nodes key = Ret (st', Ok n) ∧ n ∈ first :: rest ∧
    (∀ m, m ∈ first :: rest → occ l (uid, n_address n) <= occ l (uid, n_address m)) ∧
    refines st' (open_spec uid (n_address n) addrs l) ∧
    (∀ m, refines (release st' m key)
            (close_spec (n_upstream_id m, n_address m) (open_spec uid (n_address n) addrs l))) ∧
    (n_upstream_id n = uid → refines (release st' n key) (keep_spec uid addrs l)).
Proof.
  intros uid addrs E H Hlen.
  destruct (refines_select st l nodes key first rest E H Hlen) as (st' & n & Hs & Hn & Hmin & Hr).
  exists st', n. split_and!; [done..| |].
  - intros m. by apply refines_release.
  - intros Hu. pose proof (refines_release _ _ n key Hr) as Hrel.
    unfold open_spec in Hrel. simpl in Hrel. rewrite decide_True in Hrel by (fold uid; by rewrite Hu). done.
Qed.

(** ** Spreading *)

Section Spread.
Context (uid : Z) (enabled : list UpstreamNodeDto).
Context (Hne : enabled ≠ []) (Huid : Forall (λ n, n_upstream_id n = uid) enabled).

(** The counts of any two enabled nodes differ by at most one. *)
Definition spread (st : LeastConnections) : Prop :=
  ∀ a b, a ∈ enabled → b ∈ enabled → count st uid (n_address a) <= count st uid (n_address b) + 1.

Definition total (st : LeastConnections) : Z := sumZ (map (λ n, count st uid (n_address n)) enabled).
End Spread.

Lemma sumZ_bump (f g : string → Z) (l : list UpstreamNodeDto) a :
  NoDup (map n_address l) → a ∈ map n_address l →
  (∀ b, b ∈ map n_address l → g b = if decide (b = a) then f b + 1 else f b) →
  sumZ (map (λ n, g (n_address n)) l) = sumZ (map (λ n, f (n_address n)) l) + 1.
Proof.
  induction l as [|n l IH]; simpl; intros Hnd Ha Hg; [by apply elem_of_nil in Ha|].
  apply NoDup_cons in Hnd as [Hn Hnd].
  rewrite (Hg (n_address n)) by left.
  destruct (decide (n_address n = a)) as [<-|Hna].
  - assert (map (λ n, g (n_address n)) l = map (λ n, f (n_address n)) l) as ->; [|lia].
    apply map_ext_in. intros m Hm.
    assert (n_address m ∈ map n_address l) by (by apply list_elem_of_In, in_map).
    rewrite Hg by (by right). rewrite decide_False; [done|]. intros Eq; rewrite Eq in *; done.
  - rewrite IH; [lia|done| |].
    + by apply elem_of_cons in Ha as [->|].
    + intros b Hb. apply Hg. by right.
Qed.

Lemma select_spread st nodes key uid first rest :
  let enabled := first :: rest in
  enabled_nodes nodes = enabled → Forall (λ n, n_upstream_id n = uid) enabled →
  NoDup (map n_address enabled) → (∀ u a, 0 <= count st u a) → spread uid enabled st →
  total uid enabled st < 2 ^ 64 - 1 →
  ∃ st' n, select st nodes key = Ret (st', Ok n) ∧ (∀ u a, 0 <= count st' u a) ∧
    spread uid enabled st' ∧ total uid enabled st' = total uid enabled st + 1.
Proof.
  intros enabled E Hu Hnd Hnn Hsp Htot.
  destruct (select_spec st nodes key first rest E) as (st' & n & Hs & Hn & Hmin & Hc).
  assert (n_upstream_id first = uid) as Hf by (by apply Forall_inv in Hu). rewrite Hf in *.
  assert (∀ m, m ∈ enabled → count st uid (n_address m) <= total uid enabled st) as Hle.
  { intros m Hm. unfold total. clear -Hm Hnn. induction Hm as [m l|m b l Hm IH]; simpl.
    - assert (0 <= sumZ (map (λ n, count st uid (n_address n)) l)); [|lia].
      apply sumZ_nonneg, Forall_map, Forall_forall. simpl. auto.
    - pose proof (Hnn uid (n_address b)). lia. }
  assert (∀ b, b ∈ map n_address enabled → count st' uid b =
    if decide (b = n_address n) then count st uid b + 1 else count st uid b) as Hcb.
  { intros b Hb. rewrite Hc. unfold kept. destruct (decide (b = n_address n)) as [->|Hbn].
    - rewrite decide_True by done. pose proof (Hnn uid (n_address n)). specialize (Hle n Hn).
      apply u64_wrap_small. lia.
    - rewrite decide_False by naive_solver. rewrite !decide_True by done. done. }
  assert (∀ m, m ∈ enabled → n_address m ∈ map n_address enabled) as Hma.
  { intros m Hm. apply list_elem_of_In, in_map. by apply list_elem_of_In. }
  exists st', n. split_and!; [done| | |].
  - intros u a. rewrite Hc. unfold kept. case_decide; [apply u64_wrap_range|]. repeat case_decide; done.
  - intros a b Ha Hb. rewrite !Hcb by auto.
    pose proof (Hsp a b Ha Hb). specialize (Hmin b Hb).
    destruct (decide (n_address a = n_address n)) as [Ean|Ean].
    + rewrite Ean in *. case_decide; lia.
    + case_decide; lia.
  - unfold total. apply (sumZ_bump (count st uid) (count st' uid) _ (n_address n)); auto.
Qed.

Lemma run_selects_spread k st nodes key uid first rest :
  let enabled := first :: rest in
  enabled_nodes nodes = enabled → Forall (λ n, n_upstream_id n = uid) enabled →
  NoDup (map n_address enabled) → (∀ u a, 0 <= count st u a) → spread uid enabled st →
  total uid enabled st + Z.of_nat k < 2 ^ 64 →
  ∃ st' rs, run_selects k st nodes key = Ret (st', rs) ∧ length rs = k ∧
    spread uid enabled st' ∧ total uid enabled st' = total uid enabled st + Z.of_nat k.
Proof.
  intros enabled E Hu Hnd. revert st. induction k as [|k IH]; intros st Hnn Hsp Htot.
  { exists st, []. split_and!; [done|done|done|lia]. }
  destruct (select_spread st nodes key uid first rest E Hu Hnd Hnn Hsp) as (st1 & n & Hs & Hnn1 & Hsp1 & Ht1);
    [fold enabled; lia|]. fold enabled in Ht1.
  destruct (IH st1 Hnn1 Hsp1) as (st' & rs & Hrun & Hl & Hsp' & Ht'); [lia|].
  exists st', (Ok n :: rs). split_and!; [|simpl; lia|done|lia].
  simpl. rewrite Hs. by rewrite Hrun.
Qed.

(** Least connections spreads evenly: after [k] selections without a release
    on the nodes of one upstream with distinct addresses, [k] connections are
    counted in all and the counts of any two enabled nodes differ by at most
    one. *)
Theorem least_conn_spread k nodes key uid :
  let enabled := enabled_nodes nodes in
  enabled ≠ [] → Forall (λ n, n_upstream_id n = uid) enabled →
  NoDup (map n_address enabled) → Z.of_nat k < 2 ^ 64 →
  ∃ st' rs, run_selects k new nodes key = Ret (st', rs) ∧ length rs = k ∧
    total uid enabled st' = Z.of_nat k ∧ spread uid enabled st'.
Proof.
  intros enabled Hne Hu Hnd Hk. destruct enabled as [|first rest] eqn:E; [done|].
  assert (total uid (first :: rest) new = 0) as Ht.
  { unfold total. clear. induction (first :: rest) as [|n l IH]; [done|]. simpl. rewrite IH. done. }
  destruct (run_selects_spread k new nodes key uid first rest E Hu Hnd) as (st' & rs & H1 & H2 & H3 & H4);
    [done|by intros a b _ _|by rewrite Ht|].
  exists st', rs. split_and!; [done|done|by rewrite H4, Ht|done].
Qed.

Definition demo_nodes : list UpstreamNodeDto :=
  [mkNode 1 7 "10.0.0.1:80" 1 true; mkNode 2 7 "10.0.0.2:80" 1 true; mkNode 3 7 "10.0.0.3:80" 1 false].

Lemma least_conn_spread_witness :
  ∃ st' rs, run_selects 5 new demo_nodes None = Ret (st', rs) ∧ length rs = 5%nat ∧
    total 7 (enabled_nodes demo_nodes) st' = 5 ∧ spread 7 (enabled_nodes demo_nodes) st'.
Proof.
  apply (least_conn_spread 5 demo_nodes None 7).
  - done.
  - by repeat constructor.
  - apply (bool_decide_eq_true_1 _). vm_compute. reflexivity.
  - done.
Defined.

Lemma least_conn_refinement_witness :
  ∃ st' n, select new demo_nodes None = Ret (st', Ok n) ∧
    refines (release st' n None) [].
Proof.
  destruct (least_conn_refinement new [] demo_nodes None
    (mkNode 1 7 "10.0.0.1:80" 1 true) [mkNode 2 7 "10.0.0.2:80" 1 true])
    as (st' & n & Hs & Hn & _ & _ & _ & Hr); [done|apply refines_new|done|].
  exists st', n. split; [done|]. apply Hr.
  apply elem_of_cons in Hn as [->|Hn]; [done|]. by apply list_elem_of_singleton in Hn as ->.
Defined.
End LeastConnLB.
