(* ===== verification/ConsistentHash.v ===== *)
(** Consistent hashing (conrogate-balancer/src/consistent_hash.rs).

    The ring is a map from points to positions of the enabled list, built with
    as many virtual nodes per node as its weight deserves and cached under the
    sorted signature of the node set. SeaHash is the parameter [hash]. *)
From Stdlib Require Import ZArith Lia Ascii String.
From stdpp Require Import base tactics option list list_numbers gmap strings pretty.
From S2P Require Import Prelude Text Errors Core BalancerApi.
#[local] Open Scope Z_scope.

Module ConsistentHashLB.

(** A [BTreeMap<u64, V>], of which the code uses insertion and the least entry
    from a bound. *)
Abbreviation btree := (gmap Z).

(** [ring.range(h..).next()]. *)
Definition range_next {V} (r : btree V) (h : Z) : option (Z * V) :=
  min_by_key fst (List.filter (λ kv, h <=? kv.1) (map_to_list r)).

(** [ring.iter().next()]. *)
Definition iter_next {V} (r : btree V) : option (Z * V) := min_by_key fst (map_to_list r).

(** [ring.range(hash..).next().or_else(|| ring.iter().next())]. *)
Definition successor {V} (r : btree V) (h : Z) : option (Z * V) :=
  match range_next r h with Some kv => Some kv | None => iter_next r end.

Record RingCache := mkRingCache { rc_signature : string; rc_ring : btree nat }.

Record ConsistentHash := mkConsistentHash { vnodes : Z; cache : option RingCache }.

Definition new : ConsistentHash := mkConsistentHash 150 None.

Definition with_vnodes (st : ConsistentHash) (v : Z) : ConsistentHash :=
  mkConsistentHash (Z.max v 1) (cache st).

Definition part (n : UpstreamNodeDto) : string :=
  pretty (n_id n) +:+ ":" +:+ n_address n +:+ ":" +:+ pretty (n_weight n).

(** [ConsistentHash::signature]. *)
Definition signature (nodes : list UpstreamNodeDto) : string :=
  join "|" (stable_sort str_leb (map part nodes)).

Definition max_weight (nodes : list UpstreamNodeDto) : Z :=
  foldr Z.max 1 (map (λ n, Z.max (n_weight n) 1) nodes).

Section WithHash.
(** [seahash::hash] on the bytes of a string. *)
Context (hash : string → Z).

(** The points of one node. *)
Definition vcount (vn maxw : Z) (n : UpstreamNodeDto) : nat :=
  Z.to_nat (Z.max (u64_wrap (vn * Z.max (n_weight n) 1) / maxw) 1).

Definition vkey (n : UpstreamNodeDto) (i : nat) : string :=
  n_address n +:+ "#" +:+ pretty (n_id n) +:+ "#" +:+ pretty (Z.of_nat i).

Definition points (vn maxw : Z) (n : UpstreamNodeDto) : list Z :=
  map (λ i, hash (vkey n i)) (seq 0 (vcount vn maxw n)).

Definition insert_points (r : btree nat) (idx : nat) (ps : list Z) : btree nat :=
  foldl (λ r p, <[p := idx]> r) r ps.

Definition ring_with (vn maxw : Z) (nodes : list UpstreamNodeDto) : btree nat :=
  foldl (λ r (e : nat * UpstreamNodeDto), insert_points r e.1 (points vn maxw e.2)) ∅
        (imap pair nodes).

(** [ConsistentHash::build_ring]. *)
Definition build_ring (vn : Z) (nodes : list UpstreamNodeDto) : btree nat :=
  ring_with vn (max_weight nodes) nodes.

(** The ring a selection works with, and the cache it leaves. The cache is
    read once, and again under a second lock after a ring was built outside it:
    [c1] and [c2] are its contents at the two reads. *)
Definition get_ring (vn : Z) (c1 c2 : option RingCache) (enabled : list UpstreamNodeDto) :
    option RingCache * btree nat :=
  let sig := signature enabled in
  match c1 with
  | Some c => if bool_decide (rc_signature c = sig) then (c1, rc_ring c) else
      match c2 with
      | Some c' => if bool_decide (rc_signature c' = sig) then (c2, rc_ring c')
                   else let r := build_ring vn enabled in (Some (mkRingCache sig r), r)
      | None => let r := build_ring vn enabled in (Some (mkRingCache sig r), r)
      end
  | None =>
      match c2 with
      | Some c' => if bool_decide (rc_signature c' = sig) then (c2, rc_ring c')
                   else let r := build_ring vn enabled in (Some (mkRingCache sig r), r)
      | None => let r := build_ring vn enabled in (Some (mkRingCache sig r), r)
      end
  end.

(** The position the ring gives to a key. *)
Definition ring_index (r : btree nat) (key : string) : nat :=
  from_option snd 0%nat (successor r (hash key)).

(** [ConsistentHash::select] when another selection may have replaced the cache
    by [c2] between its two lock regions. *)
Definition select_racing (st : ConsistentHash) (c2 : option RingCache)
    (nodes : list UpstreamNodeDto) (key : option string) :
    outcome (ConsistentHash * result UpstreamNodeDto ConrogateError) :=
  match enabled_nodes nodes with
  | [] => Ret (st, Err (UpstreamNotFound "no enabled nodes"))
  | (first :: _) as enabled =>
      match key with
      | None => Ret (st, Ok first)
      | Some k =>
          if is_empty k then Ret (st, Ok first) else
          let '(c, r) := get_ring (vnodes st) (cache st) c2 enabled in
          let st' := mkConsistentHash (vnodes st) c in
          if bool_decide (r = ∅) then Ret (st', Ok first) else
          match enabled !! ring_index r k with
          | Some n => Ret (st', Ok n)
          | None => Panic
          end
      end
  end.

(** Without a race both reads see the same cache. *)
Definition select (st : ConsistentHash) (nodes : list UpstreamNodeDto) (key : option string) :=
  select_racing st (cache st) nodes key.

Definition release (st : ConsistentHash) (n : UpstreamNodeDto) (key : option string) : ConsistentHash := st.

#[local] Instance consistent_hash : LoadBalancer ConsistentHash :=
  {| lb_algorithm _ := Core.ConsistentHash; lb_select := select; lb_release := release |}.

(** ** The ring *)

Lemma insert_points_lookup r idx ps h :
  insert_points r idx ps !! h = if decide (h ∈ ps) then Some idx else r !! h.
Proof.
  unfold insert_points. revert r. induction ps as [|p ps IH]; intros r; cbn [foldl].
  - by rewrite decide_False by apply not_elem_of_nil.
  - rewrite IH. destruct (decide (h ∈ ps)); [by rewrite decide_True by (by right)|].
    destruct (decide (h = p)) as [->|Hne].
    + rewrite decide_True by left. by rewrite lookup_insert_eq.
    + rewrite decide_False by (rewrite elem_of_cons; naive_solver). by rewrite lookup_insert_ne.
Qed.

Lemma ring_with_snoc vn maxw nodes n h :
  ring_with vn maxw (nodes ++ [n]) !! h =
  if decide (h ∈ points vn maxw n) then Some (length nodes) else ring_with vn maxw nodes !! h.
Proof.
  unfold ring_with. rewrite imap_app, foldl_app. simpl.
  rewrite Nat.add_0_r. apply insert_points_lookup.
Qed.

(** The owner of a point is the last node that has it among its points. *)
Definition point_owner (vn maxw : Z) (nodes : list UpstreamNodeDto) (h : Z) : option UpstreamNodeDto :=
  last (filter (λ n, h ∈ points vn maxw n) nodes).

Lemma ring_with_owner vn maxw nodes h :
  ring_with vn maxw nodes !! h ≫= (nodes !!.) = point_owner vn maxw nodes h ∧
  (is_Some (ring_with vn maxw nodes !! h) → is_Some (point_owner vn maxw nodes h)).
Proof.
  unfold point_owner. induction nodes as [|n nodes IH] using rev_ind.
  - split; [done|]. unfold ring_with. simpl. rewrite lookup_empty. by intros [].
  - rewrite ring_with_snoc, filter_app, filter_cons, filter_nil.
    destruct (decide (h ∈ points vn maxw n)) as [Hp|Hp].
    + simpl. rewrite list_lookup_middle, last_snoc by done. eauto.
    + rewrite app_nil_r. destruct IH as [IH IHs]. split; [|done]. rewrite <-IH.
      destruct (ring_with vn maxw nodes !! h) as [i|] eqn:Er; [|done]. simpl in *.
      destruct (nodes !! i) as [m|] eqn:Ei; [by rewrite (lookup_app_l_Some _ _ _ _ Ei)|].
      destruct IHs as [m Hm]; [done|]. rewrite Hm in IH. done.
Qed.

Lemma ring_with_bound vn maxw nodes h i :
  ring_with vn maxw nodes !! h = Some i → (i < length nodes)%nat.
Proof.
  intros Hi. destruct (ring_with_owner vn maxw nodes h) as [E Hs].
  rewrite Hi in E. simpl in E. destruct Hs as [m Hm]; [by rewrite Hi|].
  rewrite Hm in E. by eapply lookup_lt_Some.
Qed.

(** ** Successors *)

Lemma map_filter_elem {V} (r : btree V) (P : Z * V → bool) k v :
  (k, v) ∈ List.filter P (map_to_list r) ↔ r !! k = Some v ∧ P (k, v) = true.
Proof. by rewrite filter_elem_of, elem_of_map_to_list. Qed.

Lemma min_by_key_None {A} (f : A → Z) l : min_by_key f l = None ↔ l = [].
Proof. by destruct l. Qed.

(** [successor] is the least entry from [h] on, or the least of all. *)
Definition is_successor {V} (r : btree V) (h k : Z) (v : V) : Prop :=
  r !! k = Some v ∧
  ((h <= k ∧ ∀ k', is_Some (r !! k') → h <= k' → k <= k') ∨
   ((∀ k', is_Some (r !! k') → k' < h) ∧ ∀ k', is_Some (r !! k') → k <= k')).

Lemma successor_spec {V} (r : btree V) h k v :
  successor r h = Some (k, v) → is_successor r h k v.
Proof.
  unfold successor, range_next, iter_next.
  destruct (min_by_key fst (List.filter _ _)) as [[k0 v0]|] eqn:E; intros H; simplify_eq.
  - apply min_by_key_spec in E as [Hin Hmin]. apply map_filter_elem in Hin as [Hk Hle].
    split; [done|]. left. split; [simpl in Hle; lia|]. intros k' [v' Hv'] Hh.
    apply (Hmin (k', v')). apply map_filter_elem. simpl. split; [done|lia].
  - apply min_by_key_spec in H as [Hin Hmin]. apply elem_of_map_to_list in Hin.
    split; [done|]. right. split.
    + intros k' [v' Hv']. destruct (decide (k' < h)); [done|].
      apply min_by_key_None in E.
      assert ((k', v') ∈ List.filter (λ kv, h <=? kv.1) (map_to_list r)) as Hc
        by (apply map_filter_elem; simpl; split; [done|lia]).
      rewrite E in Hc. by apply not_elem_of_nil in Hc.
    + intros k' [v' Hv']. apply (Hmin (k', v')). by apply elem_of_map_to_list.
Qed.

Lemma successor_total {V} (r : btree V) h : r ≠ ∅ → is_Some (successor r h).
Proof.
  intros Hr. unfold successor. destruct (range_next r h); [eauto|]. unfold iter_next.
  destruct (map_to_list r) eqn:E; [|simpl; eauto]. apply map_to_list_empty_iff in E. done.
Qed.

Lemma is_successor_unique {V} (r : btree V) h k1 v1 k2 v2 :
  is_successor r h k1 v1 → is_successor r h k2 v2 → k1 = k2.
Proof.
  intros [H1 C1] [H2 C2].
  destruct C1 as [[L1 M1]|[L1 M1]], C2 as [[L2 M2]|[L2 M2]].
  - pose proof (M1 k2 ltac:(eauto) L2). pose proof (M2 k1 ltac:(eauto) L1). lia.
  - pose proof (L2 k1 ltac:(eauto)). lia.
  - pose proof (L1 k2 ltac:(eauto)). lia.
  - pose proof (M1 k2 ltac:(eauto)). pose proof (M2 k1 ltac:(eauto)). lia.
Qed.

(** Shrinking the set of points keeps a successor that is still there. *)
Lemma is_successor_mono {V W} (r : btree V) (r' : btree W) h k v w :
  (∀ k', is_Some (r !! k') → is_Some (r' !! k')) →
  is_successor r' h k w → r !! k = Some v → is_successor r h k v.
Proof.
  intros Hsub [_ Hc] Hk. split; [done|].
  destruct Hc as [[L M]|[L M]]; [left|right]; split; auto.
Qed.

(** ** The node a key belongs to *)

(** The node the ring of [enabled] gives to a key. *)
Definition ring_node (vn : Z) (enabled : list UpstreamNodeDto) (key : string) : option UpstreamNodeDto :=
  enabled !! ring_index (build_ring vn enabled) key.

Lemma vcount_pos vn maxw n : (0 < vcount vn maxw n)%nat.
Proof. unfold vcount. lia. Qed.

Lemma build_ring_nonempty vn maxw nodes : nodes ≠ [] → ring_with vn maxw nodes ≠ ∅.
Proof.
  intros Hne. destruct (exists_last Hne) as (l & n & ->).
  pose proof (vcount_pos vn maxw n) as Hc.
  intros E. assert (ring_with vn maxw (l ++ [n]) !! hash (vkey n 0) = None) as Hn by (by rewrite E).
  rewrite ring_with_snoc, decide_True in Hn; [done|].
  apply list_elem_of_In, (in_map (λ i, hash (vkey n i))), in_seq. lia.
Qed.

(** The entry of the ring a key falls on. *)
Lemma ring_successor vn enabled key :
  enabled ≠ [] →
  ∃ k i n, is_successor (build_ring vn enabled) (hash key) k i ∧
    ring_index (build_ring vn enabled) key = i ∧ enabled !! i = Some n ∧
    ring_node vn enabled key = Some n ∧
    point_owner vn (max_weight enabled) enabled k = Some n.
Proof.
  intros Hne.
  destruct (successor_total (build_ring vn enabled) (hash key)) as [[k i] E].
  { by apply build_ring_nonempty. }
  pose proof (successor_spec _ _ _ _ E) as Hs. pose proof (proj1 Hs) as Hk.
  destruct (lookup_lt_is_Some_2 enabled i) as [n Hn]; [by eapply ring_with_bound|].
  assert (ring_index (build_ring vn enabled) key = i) as Hi by (unfold ring_index; by rewrite E).
  exists k, i, n. split_and!; [done|done|done| |].
  - unfold ring_node. by rewrite Hi.
  - destruct (ring_with_owner vn (max_weight enabled) enabled k) as [Ho _].
    unfold build_ring in Hk. rewrite Hk in Ho. simpl in Ho. by rewrite <-Ho.
Qed.

Lemma max_weight_insert l1 n l2 :
  n_weight n <= max_weight (l1 ++ l2) → max_weight (l1 ++ n :: l2) = max_weight (l1 ++ l2).
Proof.
  unfold max_weight. rewrite !map_app, !foldr_app. simpl. intros H.
  assert (∀ ws x y, 1 <= y → x <= foldr Z.max y ws →
            foldr Z.max (Z.max x y) ws = foldr Z.max y ws) as Hf.
  { induction ws as [|w ws IH]; simpl; intros x y Hy Hx; [lia|].
    destruct (decide (x <= foldr Z.max y ws)); [by rewrite IH by lia|].
    assert (foldr Z.max (Z.max x y) ws <= Z.max x (foldr Z.max y ws)) as Hub
      by (clear; induction ws; simpl; lia).
    assert (foldr Z.max y ws <= foldr Z.max (Z.max x y) ws) by (clear; induction ws; simpl; lia).
    lia. }
  assert (∀ ws, 1 <= foldr Z.max 1 ws) as Hge by (induction ws; simpl; lia).
  assert (∀ ws y, 1 <= y → 1 <= foldr Z.max y ws) as Hge' by (induction ws; simpl; intros; [done|]; specialize (IHws y); lia).
  apply Hf; [apply Hge|]. pose proof (Hge' (map (λ n, Z.max (n_weight n) 1) l1) _ (Hge (map (λ n, Z.max (n_weight n) 1) l2))).
  lia.
Qed.

(** Adding a node takes points over or leaves them. *)
Lemma point_owner_insert vn maxw l1 n l2 h :
  (point_owner vn maxw (l1 ++ n :: l2) h = Some n ∨
   point_owner vn maxw (l1 ++ n :: l2) h = point_owner vn maxw (l1 ++ l2) h) ∧
  (is_Some (point_owner vn maxw (l1 ++ l2) h) → is_Some (point_owner vn maxw (l1 ++ n :: l2) h)).
Proof.
  unfold point_owner. rewrite !filter_app, filter_cons. case_decide as Hp; [|eauto].
  set (f1 := filter _ l1). set (f2 := filter _ l2).
  destruct (f2) as [|x f2' _] eqn:E using rev_ind.
  - rewrite last_snoc. eauto.
  - rewrite app_comm_cons, !app_assoc, !last_snoc. eauto.
Qed.

Lemma ring_point_owner vn nodes k :
  is_Some (build_ring vn nodes !! k) ↔ is_Some (point_owner vn (max_weight nodes) nodes k).
Proof.
  destruct (ring_with_owner vn (max_weight nodes) nodes k) as [E Hs]. split; [apply Hs|].
  rewrite <-E. unfold build_ring. destruct (ring_with _ _ _ !! k); [eauto|]. by intros [].
Qed.

Lemma ring_node_insert vn l1 n l2 key :
  l1 ++ l2 ≠ [] → n_weight n <= max_weight (l1 ++ l2) →
  ring_node vn (l1 ++ n :: l2) key = Some n ∨
  ring_node vn (l1 ++ n :: l2) key = ring_node vn (l1 ++ l2) key.
Proof.
  intros Hne Hw. pose proof (max_weight_insert l1 n l2 Hw) as Hmw.
  destruct (ring_successor vn (l1 ++ n :: l2) key) as (k' & i' & m' & Hs' & Hi' & Hn' & Hr' & Ho');
    [by destruct l1|].
  destruct (ring_successor vn (l1 ++ l2) key Hne) as (k & i & m & Hs & Hi & Hn & Hr & Ho).
  rewrite Hmw in Ho'.
  destruct (point_owner_insert vn (max_weight (l1 ++ l2)) l1 n l2 k') as [[E|E] _].
  - left. rewrite Hr', <-Ho'. done.
  - right. rewrite E in Ho'.
    assert (is_Some (build_ring vn (l1 ++ l2) !! k')) as [j Hj] by (apply ring_point_owner; eauto).
    assert (is_successor (build_ring vn (l1 ++ l2)) (hash key) k' j) as Hs2.
    { eapply is_successor_mono; [|exact Hs'|exact Hj]. intros q Hq.
      apply ring_point_owner. rewrite Hmw. apply point_owner_insert. by apply ring_point_owner. }
    pose proof (is_successor_unique _ _ _ _ _ _ Hs Hs2) as <-. congruence.
Qed.

(** ** Coherent caches *)

(** The cache holds the ring of an enabled list of the family [L]. *)
Definition coherent (L : list UpstreamNodeDto → Prop) (vn : Z) (c : option RingCache) : Prop :=
  match c with
  | None => True
  | Some rc => ∃ nodes, L nodes ∧ rc_signature rc = signature nodes ∧ rc_ring rc = build_ring vn nodes
  end.

Lemma get_ring_spec L vn c1 c2 enabled :
  L enabled → coherent L vn c1 → coherent L vn c2 →
  ∃ nodes, L nodes ∧ signature nodes = signature enabled ∧
    (get_ring vn c1 c2 enabled).2 = build_ring vn nodes ∧
    coherent L vn (get_ring vn c1 c2 enabled).1.
Proof.
  intros HL H1 H2. unfold get_ring.
  destruct c1 as [c1|], c2 as [c2|]; repeat case_bool_decide; cbn [fst snd];
    try (exists enabled; split_and!; [done|done|done|by exists enabled]);
    match goal with
    | Hc : coherent L vn (Some ?c), Hs : rc_signature ?c = signature enabled |- _ =>
        pose proof Hc as (ns & HLns & Hsig & Hr); exists ns; split_and!; [done|congruence|done|exact Hc]
    end.
Qed.

Lemma select_ring st c2 nodes k n0 l :
  enabled_nodes nodes = n0 :: l → is_empty k = false →
  select_racing st c2 nodes (Some k) =
    let '(c, r) := get_ring (vnodes st) (cache st) c2 (n0 :: l) in
    let st' := mkConsistentHash (vnodes st) c in
    if bool_decide (r = ∅) then Ret (st', Ok n0) else
    match (n0 :: l) !! ring_index r k with Some n => Ret (st', Ok n) | None => Panic end.
Proof. intros E Hk. unfold select_racing. rewrite E, Hk. done. Qed.

Lemma ring_signature_count nodes :
  nodes ≠ [] → Forall no_bar nodes → S (count_char bar (signature nodes)) = length nodes.
Proof.
  intros Hne Hnb. apply sorted_join_count; [done|]. eapply Forall_impl; [exact Hnb|].
  intros n Hn. unfold part. rewrite !count_char_app, Hn.
  rewrite !(count_char_pretty_Z bar) by apply bar_sep. done.
Qed.

(** The order of two nodes does not change their signature. *)
Lemma signature_swap a b : signature [a; b] = signature [b; a].
Proof.
  unfold signature. f_equal. simpl.
  destruct (str_leb (part a) (part b)) eqn:E1, (str_leb (part b) (part a)) eqn:E2; try done.
  - by rewrite (str_leb_antisym _ _ E1 E2).
  - apply str_leb_total in E1. congruence.
Qed.

(** The lists a selector passes: not empty and with sane addresses. *)
Definition admitted (nodes : list UpstreamNodeDto) : Prop := nodes ≠ [] ∧ Forall no_bar nodes.

Lemma select_racing_safe st c2 nodes k n0 l :
  coherent admitted (vnodes st) (cache st) → coherent admitted (vnodes st) c2 →
  enabled_nodes nodes = n0 :: l → Forall no_bar nodes → is_empty k = false →
  ∃ st' n, select_racing st c2 nodes (Some k) = Ret (st', Ok n) ∧ n ∈ nodes ∧ n_enabled n = true ∧
    vnodes st' = vnodes st ∧ coherent admitted (vnodes st') (cache st').
Proof.
  intros Hc1 Hc2 E Hnb Hk.
  assert (admitted (n0 :: l)) as Had.
  { split; [done|]. rewrite <-E. apply Forall_forall. intros m Hm%elem_of_enabled.
    rewrite Forall_forall in Hnb. apply Hnb, Hm. }
  destruct (get_ring_spec admitted (vnodes st) (cache st) c2 (n0 :: l) Had Hc1 Hc2)
    as (ns & [Hnsne Hnsb] & Hsig & Hring & Hcoh).
  rewrite (select_ring st c2 nodes k n0 l E Hk).
  destruct (get_ring _ _ _ _) as [c r]. simpl in Hring, Hcoh. subst r.
  rewrite bool_decide_eq_false_2 by (by apply build_ring_nonempty).
  destruct (ring_successor (vnodes st) ns k Hnsne) as (q & i & m & _ & -> & Hm & _).
  assert (length ns = length (n0 :: l)) as Hlen.
  { destruct Had as [H1 H2]. rewrite <-(ring_signature_count _ Hnsne Hnsb), <-(ring_signature_count _ H1 H2).
    by rewrite Hsig. }
  destruct (lookup_lt_is_Some_2 (n0 :: l) i) as [n Hn]; [rewrite <-Hlen; by eapply lookup_lt_Some|].
  rewrite Hn. eexists _, n. split; [done|].
  apply list_elem_of_lookup_2 in Hn. rewrite <-E in Hn. apply elem_of_enabled in Hn as [? ?]. done.
Qed.

#[local, refine] Instance consistent_hash_ok : LoadBalancerOk ConsistentHash :=
  {| lb_inv st := coherent admitted (vnodes st) (cache st);
     lb_admits nodes := Forall no_bar nodes; lb_eligible := n_enabled |}.
Proof.
  - done.
  - intros st nodes key Hst Had. destruct (enabled_nodes nodes) as [|n0 l] eqn:E.
    { exists st, (Err (UpstreamNotFound "no enabled nodes")).
      split; [simpl; unfold select, select_racing; by rewrite E|]. eauto. }
    assert (n0 ∈ nodes ∧ n_enabled n0 = true) as Hn0.
    { apply elem_of_enabled. rewrite E. left. }
    destruct key as [k|]; [destruct (is_empty k) eqn:Ek|].
    + exists st, (Ok n0). split; [simpl; unfold select, select_racing; by rewrite E, Ek|done].
    + destruct (select_racing_safe st (cache st) nodes k n0 l Hst Hst E Had Ek)
        as (st' & n & Hs & Hin & Hen & Hvn & Hco).
      exists st', (Ok n). split; [exact Hs|]. done.
    + exists st, (Ok n0). split; [simpl; unfold select, select_racing; by rewrite E|done].
  - done.
Defined.

(** C34. Affinity: when the lists the balancer serves are told apart by their
    signatures, every selection with a key answers the node the ring of the
    current list gives to the key, whatever lists were served before and
    whatever other selections wrote to the cache in between; and the cache stays
    coherent. The answer is a function of the list and the key. *)
Theorem consistent_hash_affinity (L : list UpstreamNodeDto → Prop) st c2 nodes k :
  (∀ l1 l2, L l1 → L l2 → signature l1 = signature l2 → l1 = l2) →
  L (enabled_nodes nodes) → enabled_nodes nodes ≠ [] → is_empty k = false →
  coherent L (vnodes st) (cache st) → coherent L (vnodes st) c2 →
  ∃ st' n, select_racing st c2 nodes (Some k) = Ret (st', Ok n) ∧
    ring_node (vnodes st) (enabled_nodes nodes) k = Some n ∧
    vnodes st' = vnodes st ∧ coherent L (vnodes st') (cache st').
Proof.
  intros Hinj HL Hne Hk Hc1 Hc2. destruct (enabled_nodes nodes) as [|n0 l] eqn:E; [done|].
  destruct (get_ring_spec L (vnodes st) (cache st) c2 (n0 :: l) HL Hc1 Hc2)
    as (ns & HLns & Hsig & Hring & Hcoh).
  pose proof (Hinj _ _ HLns HL Hsig) as ->.
  rewrite (select_ring st c2 nodes k n0 l E Hk).
  destruct (get_ring _ _ _ _) as [c r]. simpl in Hring, Hcoh. subst r.
  rewrite bool_decide_eq_false_2 by (by apply build_ring_nonempty).
  destruct (ring_successor (vnodes st) (n0 :: l) k Hne) as (q & i & n & _ & -> & Hn & Hr & _).
  rewrite Hn. by eexists _, n.
Qed.

(** Minimal disruption: adding a node (anywhere in the list) that is no
    heavier than the heaviest present moves keys only to that node; every other
    key keeps its node. *)
Theorem consistent_hash_minimal_disruption l1 n l2 k :
  enabled_nodes (l1 ++ l2) = l1 ++ l2 → n_enabled n = true → l1 ++ l2 ≠ [] →
  n_weight n <= max_weight (l1 ++ l2) → is_empty k = false →
  ∃ st st' m m', select new (l1 ++ l2) (Some k) = Ret (st, Ok m) ∧
    select new (l1 ++ n :: l2) (Some k) = Ret (st', Ok m') ∧ (m' = n ∨ m' = m).
Proof.
  intros Hen Hn Hne Hw Hk.
  assert (enabled_nodes (l1 ++ n :: l2) = l1 ++ n :: l2) as Hen'.
  { unfold enabled_nodes in *. rewrite List.filter_app in *. simpl. rewrite Hn.
    pose proof (List.filter_length_le n_enabled l1). pose proof (List.filter_length_le n_enabled l2).
    assert (length (List.filter n_enabled l1 ++ List.filter n_enabled l2) = length (l1 ++ l2)) as Hl
      by (by rewrite Hen). rewrite !length_app in Hl.
    apply app_inj_1 in Hen as [-> ->]; [done|lia]. }
  assert (∀ l, enabled_nodes l = l → l ≠ [] → ∃ st m,
    select new l (Some k) = Ret (st, Ok m) ∧ ring_node 150 l k = Some m) as Hsel.
  { intros l El Hl. unfold select. destruct l as [|n0 l]; [done|].
    rewrite (select_ring new (cache new) (n0 :: l) k n0 l El Hk). unfold get_ring. simpl cache.
    cbn [vnodes new]. rewrite bool_decide_eq_false_2 by (by apply build_ring_nonempty).
    destruct (ring_successor 150 (n0 :: l) k Hl) as (q & i & m & _ & Hi & Hm & Hr & _).
    cbv zeta. rewrite Hi, Hm. eauto. }
  destruct (Hsel _ Hen Hne) as (st & m & H1 & R1).
  destruct (Hsel _ Hen') as (st' & m' & H2 & R2); [by destruct l1|].
  exists st, st', m, m'. split_and!; [done|done|].
  destruct (ring_node_insert 150 l1 n l2 k Hne Hw); [left|right]; congruence.
Qed.

(** The cached ring stores positions but its signature forgets the order of
    the nodes: after a selection on [[a; b]], a selection on [[b; a]] reuses the
    ring and answers the other node for the same key, whatever the hash. *)
Theorem consistent_hash_cache_order a b k :
  n_enabled a = true → n_enabled b = true → is_empty k = false →
  ∃ st st' m m', select new [a; b] (Some k) = Ret (st, Ok m) ∧
    select st [b; a] (Some k) = Ret (st', Ok m') ∧
    (m = a ∧ m' = b ∨ m = b ∧ m' = a).
Proof.
  intros Ha Hb Hk. pose proof (signature_swap a b) as Hsig.
  assert (enabled_nodes [a; b] = [a; b]) as E1 by (unfold enabled_nodes; simpl; by rewrite Ha, Hb).
  assert (enabled_nodes [b; a] = [b; a]) as E2 by (unfold enabled_nodes; simpl; by rewrite Ha, Hb).
  destruct (ring_successor 150 [a; b] k) as (q & i & m & _ & Hi & Hm & _); [done|].
  unfold select. rewrite (select_ring new (cache new) [a; b] k a [b] E1 Hk).
  unfold get_ring at 1. simpl cache. cbv zeta. cbn [vnodes new].
  rewrite bool_decide_eq_false_2 by (by apply build_ring_nonempty). rewrite Hi, Hm.
  set (st := mkConsistentHash 150 _).
  destruct (lookup_lt_is_Some_2 [b; a] i) as [m' Hm']; [by apply lookup_lt_Some in Hm|].
  exists st, st, m, m'. split; [done|]. split.
  - rewrite (select_ring st (cache st) [b; a] k b [a] E2 Hk). unfold get_ring, st. cbn [cache vnodes rc_signature rc_ring].
    rewrite bool_decide_eq_true_2 by done.
    rewrite bool_decide_eq_false_2 by (by apply build_ring_nonempty). rewrite Hi, Hm'. done.
  - destruct i as [|[|i]]; simplify_eq/=; auto.
Qed.
End WithHash.

(** A toy hash: the sum of the character codes. *)
Fixpoint sum_hash (s : string) : Z :=
  match s with
  | EmptyString => 0
  | String c s' => Z.of_nat (nat_of_ascii c) + sum_hash s'
  end.

Definition node_a : UpstreamNodeDto := mkNode 1 1 "10.0.0.1:80" 1 true.
Definition node_b : UpstreamNodeDto := mkNode 2 1 "10.0.0.2:80" 1 true.
Definition node_c : UpstreamNodeDto := mkNode 3 1 "10.0.0.3:80" 1 true.

Lemma consistent_hash_affinity_witness :
  ∃ st' n, select_racing sum_hash new None [node_a; node_b] (Some "10.1.1.1"%string) = Ret (st', Ok n) ∧
    ring_node sum_hash 150 [node_a; node_b] "10.1.1.1" = Some n.
Proof.
  destruct (consistent_hash_affinity sum_hash (λ l, l = [node_a; node_b]) new None [node_a; node_b] "10.1.1.1")
    as (st' & n & H1 & H2 & _); [by intros ?? -> ->|done|done|done|done|done|].
  exists st', n. split; [exact H1|exact H2].
Defined.

Lemma consistent_hash_minimal_disruption_witness :
  ∃ st st' m m', select sum_hash new [node_a; node_c] (Some "10.1.1.1"%string) = Ret (st, Ok m) ∧
    select sum_hash new [node_a; node_b; node_c] (Some "10.1.1.1"%string) = Ret (st', Ok m') ∧
    (m' = node_b ∨ m' = m).
Proof. apply (consistent_hash_minimal_disruption sum_hash [node_a] node_b [node_c] "10.1.1.1");
  first [reflexivity | discriminate | vm_compute; discriminate]. Defined.

Lemma consistent_hash_cache_order_witness :
  ∃ st st' m m', select sum_hash new [node_a; node_b] (Some "10.1.1.1"%string) = Ret (st, Ok m) ∧
    select sum_hash st [node_b; node_a] (Some "10.1.1.1"%string) = Ret (st', Ok m') ∧
    (m = node_a ∧ m' = node_b ∨ m = node_b ∧ m' = node_a).
Proof. apply (consistent_hash_cache_order sum_hash node_a node_b "10.1.1.1"); reflexivity. Defined.
End ConsistentHashLB.
