(* ===== verification/Health.v ===== *)
(** Health checking: the passive checker fed by request results
    (conrogate-gateway/src/health.rs) and the active checker fed by probes
    (conrogate-gateway/src/health_check.rs).

    Both are characterised by their histories: whether the passive checker lets
    a node be scheduled depends only on the results since its last success, and
    whether the active one does depends only on the last two runs of probes. *)
From Stdlib Require Import ZArith Lia Ascii String.
From stdpp Require Import base tactics option list list_numbers gmap strings pretty.
From S2P Require Import Prelude Text Errors Core BalancerApi.
#[local] Open Scope Z_scope.

Inductive NodeHealth : Type :=
| Healthy
| Degraded (reason : string)
| Unhealthy (reason : string).

Module PassiveHealth.

Record NodeState := mkNodeState { consecutive_failures : Z; last_failure : option Z }.

Record PassiveHealthChecker := mkPassive {
  states : gmap Z NodeState;
  failure_threshold : Z;
  recovery_wait : Z;
}.

Definition new (threshold wait : Z) : PassiveHealthChecker := mkPassive ∅ threshold wait.

(** [Default]: three failures, thirty seconds. *)
Definition default_checker : PassiveHealthChecker := new 3 (from_secs 30).

(** [check], at the time [now] the clock shows. *)
Definition check (hc : PassiveHealthChecker) (now : Z) (node : UpstreamNodeDto) :
    result NodeHealth ConrogateError :=
  match states hc !! n_id node with
  | None => Ok Healthy
  | Some state =>
      if failure_threshold hc <=? consecutive_failures state then
        let unhealthy := Ok (Unhealthy (pretty (consecutive_failures state) +:+ " consecutive failures")) in
        match last_failure state with
        | Some last_fail =>
            if recovery_wait hc <=? duration_since now last_fail then Ok (Degraded "recovery probe")
            else unhealthy
        | None => unhealthy
        end
      else if 0 <? consecutive_failures state then
        Ok (Degraded (pretty (consecutive_failures state) +:+ " recent failures"))
      else Ok Healthy
  end.

Definition mark_failure (hc : PassiveHealthChecker) (now : Z) (node_id : Z) : PassiveHealthChecker :=
  let state := default (mkNodeState 0 None) (states hc !! node_id) in
  mkPassive (<[node_id := mkNodeState (u32_wrap (consecutive_failures state + 1)) (Some now)]> (states hc))
            (failure_threshold hc) (recovery_wait hc).

Definition node_state (hc : PassiveHealthChecker) (node_id : Z) : NodeHealth :=
  match states hc !! node_id with
  | None => Healthy
  | Some state =>
      if failure_threshold hc <=? consecutive_failures state then
        Unhealthy (pretty (consecutive_failures state) +:+ " failures")
      else if 0 <? consecutive_failures state then
        Degraded (pretty (consecutive_failures state) +:+ " failures")
      else Healthy
  end.

Definition mark_success (hc : PassiveHealthChecker) (node_id : Z) : PassiveHealthChecker :=
  mkPassive (delete node_id (states hc)) (failure_threshold hc) (recovery_wait hc).

(** [filter_healthy]; [clock i] is the time when the [i]-th node is checked. *)
Definition filter_healthy (hc : PassiveHealthChecker) (clock : nat → Z)
    (nodes : list UpstreamNodeDto) : list UpstreamNodeDto :=
  concat (imap (λ i node,
    if negb (n_enabled node) then []
    else match check hc (clock i) node with Ok Healthy => [node] | _ => [] end) nodes).

(** ** Histories *)

(** The results fed back: a success, or a failure at a time. *)
Inductive event := Failed (node_id : Z) (at_time : Z) | Succeeded (node_id : Z).

Definition feed (hc : PassiveHealthChecker) (e : event) : PassiveHealthChecker :=
  match e with
  | Failed i t => mark_failure hc t i
  | Succeeded i => mark_success hc i
  end.

(** The failures of a node since its last success, latest first. *)
Fixpoint failures_since_success (i : Z) (latest_first : list event) : list Z :=
  match latest_first with
  | [] => []
  | Failed j t :: es =>
      if decide (j = i) then t :: failures_since_success i es else failures_since_success i es
  | Succeeded j :: es => if decide (j = i) then [] else failures_since_success i es
  end.

(** The entry of a node after a history: none, or the count and the last time. *)
Lemma feed_states hc es i :
  Z.of_nat (length es) < 2 ^ 32 → states hc = ∅ →
  states (foldr (flip feed) hc es) !! i =
    match failures_since_success i es with
    | [] => None
    | t :: ts => Some (mkNodeState (Z.of_nat (length (t :: ts))) (Some t))
    end ∧
  failure_threshold (foldr (flip feed) hc es) = failure_threshold hc ∧
  recovery_wait (foldr (flip feed) hc es) = recovery_wait hc ∧
  (length (failures_since_success i es) <= length es)%nat.
Proof.
  intros Hlen Hs. induction es as [|e es IH].
  { simpl. rewrite Hs. done. }
  destruct IH as (IHs & IHt & IHr & IHl); [simpl in Hlen; lia|].
  cbn [foldr]. unfold flip at 1 3 5. destruct e as [j t|j]; cbn [feed failures_since_success].
  - unfold mark_failure. cbn [states failure_threshold recovery_wait].
    destruct (decide (j = i)) as [->|Hj].
    + rewrite lookup_insert_eq, IHs. split_and!; [|done|done|simpl; lia].
      do 2 f_equal. cbn [length] in Hlen.
      revert IHl. destruct (failures_since_success i es) as [|t0 ts]; intros IHl; cbn [default from_option consecutive_failures];
        unfold u32_wrap; cbn [id consecutive_failures]; rewrite Z.mod_small; cbn [length] in *; lia.
    + rewrite lookup_insert_ne by done. split_and!; [done..|simpl; lia].
  - unfold mark_success. cbn [states failure_threshold recovery_wait].
    destruct (decide (j = i)) as [->|Hj].
    + rewrite lookup_delete_eq. split_and!; [done..|simpl; lia].
    + rewrite lookup_delete_ne by done. split_and!; [done..|simpl; lia].
Qed.

Lemma elem_of_filter_healthy hc clock nodes n :
  n ∈ filter_healthy hc clock nodes ↔
  ∃ i, nodes !! i = Some n ∧ n_enabled n = true ∧ check hc (clock i) n = Ok Healthy.
Proof.
  unfold filter_healthy. rewrite list_elem_of_In, in_concat. split.
  - intros (l & Hl & Hn). apply list_elem_of_In, elem_of_lookup_imap in Hl as (i & m & -> & Hi).
    exists i. destruct (n_enabled m) eqn:Em; simpl in Hn; [|done].
    destruct (check hc (clock i) m) as [[]|] eqn:Ec; simpl in Hn; try done.
    destruct Hn as [->|[]]. done.
  - intros (i & Hi & He & Hc). exists [n]. split; [|by left].
    apply list_elem_of_In, elem_of_lookup_imap. exists i, n. by rewrite He, Hc.
Qed.

(** Passive health: after any history of results, and at whatever time it
    is asked, the checker lets exactly those enabled nodes be scheduled that have
    not failed since their last success. In particular no wait readmits a node
    that failed: the recovery-probe state is reported but not scheduled. *)
Theorem passive_schedulable_iff threshold wait es clock nodes n :
  0 < threshold → Z.of_nat (length es) < 2 ^ 32 →
  n ∈ filter_healthy (foldr (flip feed) (new threshold wait) es) clock nodes ↔
  n ∈ nodes ∧ n_enabled n = true ∧ failures_since_success (n_id n) es = [].
Proof.
  intros Hth Hlen. rewrite elem_of_filter_healthy.
  destruct (feed_states (new threshold wait) es (n_id n) Hlen eq_refl) as (Hs & Ht & Hr & _).
  assert (∀ now, check (foldr (flip feed) (new threshold wait) es) now n = Ok Healthy ↔
            failures_since_success (n_id n) es = []) as Hchk.
  { intros now. unfold check. rewrite Hs, Ht.
    destruct (failures_since_success (n_id n) es) as [|t ts]; [done|].
    cbn [consecutive_failures last_failure]. rewrite Hr. simpl failure_threshold.
    split; [|done]. intros H. exfalso. revert H. case_Z; try done; simpl in *; lia. }
  split.
  - intros (i & Hi & He & Hc). apply Hchk in Hc. by apply list_elem_of_lookup_2 in Hi.
  - intros (Hn & He & Hf). apply list_elem_of_lookup in Hn as [i Hi].
    exists i. by rewrite Hchk.
Qed.

Definition node_a : UpstreamNodeDto := mkNode 1 1 "10.0.0.1:80" 1 true.
Definition node_b : UpstreamNodeDto := mkNode 2 1 "10.0.0.2:80" 1 true.

(** One failure an hour ago is enough to keep a node out, thirty seconds of
    recovery wait notwithstanding. *)
Lemma passive_schedulable_iff_witness :
  node_a ∉ filter_healthy (feed default_checker (Failed 1 0)) (λ _, from_secs 3600) [node_a; node_b].
Proof.
  intros H. apply (passive_schedulable_iff 3 (from_secs 30) [Failed 1 0] (λ _, from_secs 3600)
    [node_a; node_b] node_a) in H; [|done|done]. by destruct H as (_ & _ & ?).
Defined.
End PassiveHealth.

Module ActiveHealth.

Record ActiveHealthCheckerConfig := mkActiveConfig {
  interval : Z;
  connect_timeout : Z;
  healthy_threshold : Z;
  unhealthy_threshold : Z;
  http_path : option string;
}.

Definition default_config : ActiveHealthCheckerConfig :=
  mkActiveConfig (from_secs 10) (from_secs 3) 2 3 None.

Record NodeStatus := mkNodeStatus {
  state : NodeHealth;
  consecutive_success : Z;
  consecutive_failure : Z;
  last_check : Z;
}.

Record ActiveHealthChecker := mkActive {
  config : ActiveHealthCheckerConfig;
  nodes : gmap string NodeStatus;
}.

Definition new (c : ActiveHealthCheckerConfig) : ActiveHealthChecker := mkActive c ∅.

(** What one network attempt yields: nothing (timeout or I/O error), or what
    the first read of at most 32 bytes returned. *)
Definition http_probe (attempt : option string) : bool :=
  match attempt with
  | None => false
  | Some buf =>
      if is_empty buf then false
      else starts_with "HTTP/1.1 2" buf || starts_with "HTTP/1.0 2" buf
  end.

(** A TCP probe succeeds when the connection was made in time. *)
Definition tcp_probe (connected : bool) : bool := connected.

(** The update of a node's status by a probe result. *)
Definition step_status (c : ActiveHealthCheckerConfig) (now : Z) (success : bool) (s : NodeStatus) :
    NodeStatus :=
  if success then
    let cs := u32_wrap (consecutive_success s + 1) in
    mkNodeStatus (if healthy_threshold c <=? cs then Healthy else state s) cs 0 now
  else
    let cf := u32_wrap (consecutive_failure s + 1) in
    let reason := pretty cf +:+ " consecutive failures" in
    mkNodeStatus (if unhealthy_threshold c <=? cf then Unhealthy reason
                  else if 0 <? cf then Degraded reason else state s) 0 cf now.

(** [check_node], given whether the probe succeeded. *)
Definition check_node (st : ActiveHealthChecker) (now : Z) (success : bool) (node : UpstreamNodeDto) :
    ActiveHealthChecker * NodeHealth :=
  let addr := n_address node in
  let status := default (mkNodeStatus Healthy 0 0 now) (nodes st !! addr) in
  let status' := step_status (config st) now success status in
  (mkActive (config st) (<[addr := status']> (nodes st)), state status').

Definition get_health (st : ActiveHealthChecker) (addr : string) : NodeHealth :=
  from_option state Healthy (nodes st !! addr).

Definition is_schedulable (st : ActiveHealthChecker) (addr : string) : bool :=
  match nodes st !! addr with
  | Some s => match state s with Unhealthy _ => false | _ => true end
  | None => true
  end.

(** One round of [spawn_periodic_check]: the nodes in turn, each with the time
    and the outcome of its probe. *)
Definition check_round (st : ActiveHealthChecker) (l : list (UpstreamNodeDto * (Z * bool))) :
    ActiveHealthChecker :=
  foldl (λ st e, (check_node st e.2.1 e.2.2 e.1).1) st l.

(** ** Histories of probes *)

(** The probe results of one address, oldest first, of a sequence of checks. *)
Definition probes_of (addr : string) (l : list (UpstreamNodeDto * (Z * bool))) : list bool :=
  map (λ e, e.2.2) (filter (λ e : UpstreamNodeDto * (Z * bool), n_address e.1 = addr) l).

(** The length of the run of [b] at the head of a list and what follows it. *)
Fixpoint run_of (b : bool) (l : list bool) : nat * list bool :=
  match l with
  | x :: l' => if eqb x b then let '(k, r) := run_of b l' in (S k, r) else (0%nat, l)
  | [] => (0%nat, [])
  end.

Definition run_length (b : bool) (l : list bool) : Z := Z.of_nat (run_of b l).1.

(** A node is out when its latest probes, latest first, are fewer successes than
    the healthy threshold after at least as many failures as the unhealthy
    threshold. *)
Definition out_of_service (c : ActiveHealthCheckerConfig) (latest_first : list bool) : bool :=
  let '(j, rest) := run_of true latest_first in
  (Z.of_nat j <? healthy_threshold c) && (unhealthy_threshold c <=? run_length false rest).

Definition is_unhealthy (h : NodeHealth) : bool :=
  match h with Unhealthy _ => true | _ => false end.

Definition status_ok (c : ActiveHealthCheckerConfig) (latest_first : list bool) (s : NodeStatus) : Prop :=
  consecutive_success s = run_length true latest_first ∧
  consecutive_failure s = run_length false latest_first ∧
  is_unhealthy (state s) = out_of_service c latest_first.

Lemma run_length_le b l : run_length b l <= Z.of_nat (length l).
Proof.
  unfold run_length. induction l as [|x l IH]; simpl; [done|].
  destruct (eqb x b); simpl; [|lia]. destruct (run_of b l); simpl in *; lia.
Qed.

Lemma run_length_cons b x l : run_length b (x :: l) = if eqb x b then 1 + run_length b l else 0.
Proof. unfold run_length. simpl. destruct (eqb x b); [|done]. destruct (run_of b l). simpl. lia. Qed.

Lemma step_status_ok c now b l s :
  0 < healthy_threshold c → 0 < unhealthy_threshold c → Z.of_nat (length l) + 1 < 2 ^ 32 →
  status_ok c l s → status_ok c (b :: l) (step_status c now b s).
Proof.
  intros Hh Hu Hlen (Hs & Hf & Ho). pose proof (run_length_le true l). pose proof (run_length_le false l).
  unfold status_ok, step_status. rewrite !run_length_cons. destruct b; simpl.
  - assert (u32_wrap (consecutive_success s + 1) = 1 + run_length true l) as ->.
    { rewrite Hs. unfold u32_wrap, run_length in *. rewrite Z.mod_small; lia. }
    split_and!; [done|done|]. unfold out_of_service. simpl. unfold run_length in *.
    unfold out_of_service in Ho. destruct (run_of true l) as [j rest]. simpl in *.
    destruct (Z.leb_spec (healthy_threshold c) (1 + Z.of_nat j)).
    + simpl. symmetry. apply andb_false_intro1, Z.ltb_ge. lia.
    + rewrite Ho. unfold run_length. f_equal. case_Z; try done; lia.
  - assert (u32_wrap (consecutive_failure s + 1) = 1 + run_length false l) as ->.
    { rewrite Hf. unfold u32_wrap, run_length in *. rewrite Z.mod_small; lia. }
    split_and!; [done|done|]. unfold out_of_service. simpl.
    rewrite run_length_cons. simpl. unfold run_length in *.
    rewrite (proj2 (Z.ltb_lt (Z.of_nat 0) (healthy_threshold c))) by (simpl; lia). simpl.
    destruct (Z.leb_spec (unhealthy_threshold c) (1 + Z.of_nat (run_of false l).1)); [done|].
    destruct (Z.ltb_spec 0 (1 + Z.of_nat (run_of false l).1)); [done|lia].
Qed.

Lemma status_ok_nil c now : 0 < unhealthy_threshold c → status_ok c [] (mkNodeStatus Healthy 0 0 now).
Proof.
  intros Hu. split_and!; [done|done|]. unfold out_of_service. simpl. symmetry.
  apply andb_false_intro2, Z.leb_gt. unfold run_length. simpl. lia.
Qed.

Lemma probes_of_snoc addr l e :
  probes_of addr (l ++ [e]) =
  if decide (n_address e.1 = addr) then probes_of addr l ++ [e.2.2] else probes_of addr l.
Proof.
  unfold probes_of. rewrite filter_app, filter_cons, filter_nil, map_app.
  case_decide; simpl; [done|by rewrite app_nil_r].
Qed.

Lemma length_probes_of addr l : (length (probes_of addr l) <= length l)%nat.
Proof. unfold probes_of. rewrite length_map. apply length_filter. Qed.

Lemma check_round_snoc st l e :
  check_round st (l ++ [e]) = (check_node (check_round st l) e.2.1 e.2.2 e.1).1.
Proof. unfold check_round. by rewrite foldl_app. Qed.

Lemma check_round_status c l addr :
  0 < healthy_threshold c → 0 < unhealthy_threshold c → Z.of_nat (length l) < 2 ^ 32 →
  config (check_round (new c) l) = c ∧
  match nodes (check_round (new c) l) !! addr with
  | Some s => status_ok c (reverse (probes_of addr l)) s
  | None => probes_of addr l = []
  end.
Proof.
  intros Hh Hu. induction l as [|e l IH] using rev_ind; intros Hlen; [done|].
  rewrite length_app in Hlen. simpl in Hlen. destruct IH as [IHc IH]; [lia|].
  rewrite check_round_snoc. unfold check_node. cbn [fst config nodes]. split; [done|].
  rewrite probes_of_snoc, IHc. pose proof (length_probes_of addr l).
  destruct (decide (n_address e.1 = addr)) as [->|Hne].
  - rewrite lookup_insert_eq, reverse_snoc.
    apply step_status_ok; [done|done|rewrite length_reverse; lia|].
    destruct (nodes (check_round (new c) l) !! addr) as [s|]; cbn [default from_option]; [done|].
    rewrite IH. by apply status_ok_nil.
  - by rewrite lookup_insert_ne.
Qed.

(** Active health: after any sequence of probes of any nodes, an address is
    not schedulable exactly when its latest probes are fewer than
    [healthy_threshold] successes preceded by at least [unhealthy_threshold]
    consecutive failures. *)
Theorem active_schedulable_iff c l addr :
  0 < healthy_threshold c → 0 < unhealthy_threshold c → Z.of_nat (length l) < 2 ^ 32 →
  is_schedulable (check_round (new c) l) addr = negb (out_of_service c (reverse (probes_of addr l))).
Proof.
  intros Hh Hu Hlen. destruct (check_round_status c l addr Hh Hu Hlen) as [_ H].
  unfold is_schedulable. destruct (nodes _ !! addr) as [s|].
  - destruct H as (_ & _ & <-). by destruct (state s).
  - rewrite H. change (reverse []) with (@nil bool). destruct (status_ok_nil c 0 Hu) as (_ & _ & <-). done.
Qed.

(** ** The periodic task and the health interface *)

(** The nodes one turn of [spawn_periodic_check] probes: those of every upstream of
    the shared table, in an order of its entries that the map chooses. *)
Definition nodes_to_check {U} (entries : list (Z * (U * list UpstreamNodeDto))) : list UpstreamNodeDto :=
  concat (map (λ e, e.2.2) entries).

(** One turn: each node with the time and the outcome of its probe. *)
Definition turn {U} (st : ActiveHealthChecker) (entries : list (Z * (U * list UpstreamNodeDto))) (probe : UpstreamNodeDto → Z * bool) :
    ActiveHealthChecker :=
  check_round st (map (λ n, (n, probe n)) (nodes_to_check entries)).

(** [HealthChecker::node_state] of the active checker: the first value of the map,
    in an order the map chooses, whichever node was asked for. *)
Definition node_state (values : list NodeStatus) (node_id : Z) : NodeHealth := from_option state Healthy (head values).

(** A turn probes exactly the nodes of the table, enabled or not, as often as they
    are listed. *)
Lemma turn_probes {U} (table : gmap Z (U * list UpstreamNodeDto)) entries n :
  entries ≡ₚ map_to_list table → (n ∈ nodes_to_check entries ↔ ∃ id u, table !! id = Some u ∧ n ∈ u.2).
Proof.
  intros Hp. unfold nodes_to_check. rewrite list_elem_of_In, in_concat. split.
  - intros (l & Hl & Hn). apply in_map_iff in Hl as ([id u] & <- & Hu). apply list_elem_of_In in Hu, Hn.
    rewrite Hp in Hu. apply elem_of_map_to_list in Hu. eauto.
  - intros (id & u & Hu & Hn). exists u.2. apply list_elem_of_In in Hn. split; [|done].
    apply in_map_iff. exists (id, u). split; [done|]. apply list_elem_of_In. rewrite Hp. by apply elem_of_map_to_list.
Qed.

(** The answer of [node_state] can be the state of any node that was ever probed,
    for every id that is asked. *)
Lemma node_state_any st addr s id :
  nodes st !! addr = Some s → ∃ order, order ≡ₚ map snd (map_to_list (nodes st)) ∧ node_state order id = state s.
Proof.
  intros Hs. apply elem_of_map_to_list in Hs. apply elem_of_Permutation in Hs as [l Hl].
  exists (s :: map snd l). split; [|done]. change (s :: map snd l) with (map snd ((addr, s) :: l)). by rewrite <-Hl.
Qed.

Definition node_a : UpstreamNodeDto := mkNode 1 1 "10.0.0.1:80" 1 true.

(** Three failures take the node out; a success and one more failure, which is
    not a recovery, put it back. *)
Lemma active_schedulable_iff_witness :
  is_schedulable (check_round (new default_config)
    [(node_a, (1, false)); (node_a, (2, false)); (node_a, (3, false))]) "10.0.0.1:80" = false ∧
  is_schedulable (check_round (new default_config)
    [(node_a, (1, false)); (node_a, (2, false)); (node_a, (3, false));
     (node_a, (4, true)); (node_a, (5, false))]) "10.0.0.1:80" = true.
Proof. split; rewrite active_schedulable_iff by done; vm_compute; reflexivity. Defined.
End ActiveHealth.
