(* ===== verification/Selector.v ===== *)
(** The balancer registry (conrogate-core/src/balancer.rs, its default contents
    in conrogate-balancer/src/registry.rs) and the upstream selector that joins
    load balancing with passive health checking (conrogate-gateway/src/pool.rs).

    The registry holds trait objects: [dyn_balancer] packs a state type with its
    [LoadBalancer] implementation, and the selector's theorems use only the
    promises of [LoadBalancerOk]. *)
From Stdlib Require Import ZArith Lia Ascii String.
From stdpp Require Import base tactics option list list_numbers gmap strings pretty.
From S2P Require Import Prelude Text Errors Core BalancerApi Weighted LeastConn ConsistentHash Health.
#[local] Open Scope Z_scope.

(** ** Trait objects and the registry *)

(** [Arc<dyn LoadBalancer>] with the state behind it. *)
Record dyn_balancer := Dyn {
  dyn_T : Type;
  dyn_lb : LoadBalancer dyn_T;
  dyn_state : dyn_T;
}.

Definition dyn_algorithm (d : dyn_balancer) : BalancerAlgorithm :=
  @lb_algorithm (dyn_T d) (dyn_lb d) (dyn_state d).

Definition dyn_select (d : dyn_balancer) (nodes : list UpstreamNodeDto) (key : option string) :
    outcome (dyn_balancer * result UpstreamNodeDto ConrogateError) :=
  match @lb_select (dyn_T d) (dyn_lb d) (dyn_state d) nodes key with
  | Ret (s, r) => Ret (Dyn (dyn_T d) (dyn_lb d) s, r)
  | Panic => Panic
  end.

Definition dyn_release (d : dyn_balancer) (node : UpstreamNodeDto) (key : option string) : dyn_balancer :=
  Dyn (dyn_T d) (dyn_lb d) (@lb_release (dyn_T d) (dyn_lb d) (dyn_state d) node key).

Abbreviation BalancerRegistry := (gmap BalancerAlgorithm dyn_balancer).

(** [BalancerRegistry::register] and [get]. *)
Definition register (r : BalancerRegistry) (d : dyn_balancer) : BalancerRegistry :=
  <[dyn_algorithm d := d]> r.
Definition registry_get (r : BalancerRegistry) (algo : BalancerAlgorithm) : option dyn_balancer := r !! algo.

(** [create_default_registry]. *)
Definition create_default_registry (hash : string → Z) : BalancerRegistry :=
  register (register (register (register ∅
    (Dyn _ RoundRobinLB.round_robin RoundRobinLB.new))
    (Dyn _ WeightedLB.weighted WeightedLB.new))
    (Dyn _ LeastConnLB.least_conn LeastConnLB.new))
    (Dyn _ (ConsistentHashLB.consistent_hash hash) ConsistentHashLB.new).

(** ** The selector *)

(** [{:?}] of the algorithm enum. *)
Definition algorithm_debug (a : BalancerAlgorithm) : string :=
  match a with
  | RoundRobin => "RoundRobin"
  | WeightedRoundRobin => "WeightedRoundRobin"
  | LeastConnections => "LeastConnections"
  | ConsistentHash => "ConsistentHash"
  end.

Abbreviation UpstreamMap := (gmap Z (BalancerAlgorithm * list UpstreamNodeDto)).

Record UpstreamSelectorImpl := mkSelector {
  sel_registry : BalancerRegistry;
  sel_upstreams : UpstreamMap;
  sel_health : option PassiveHealth.PassiveHealthChecker;
}.

Definition selector_new (r : BalancerRegistry) : UpstreamSelectorImpl := mkSelector r ∅ None.

Definition selector_with_health_checker (s : UpstreamSelectorImpl) (hc : PassiveHealth.PassiveHealthChecker) :
    UpstreamSelectorImpl := mkSelector (sel_registry s) (sel_upstreams s) (Some hc).

(** [load_upstreams]: a new map, a later upstream of the same id wins. *)
Definition load_upstreams (s : UpstreamSelectorImpl) (ups : list UpstreamDto) : UpstreamSelectorImpl :=
  mkSelector (sel_registry s)
    (foldl (λ m up, <[u_id up := (u_algorithm up, u_nodes up)]> m) ∅ ups) (sel_health s).

Definition upstream_unknown (id : Z) : ConrogateError := UpstreamNotFound ("upstream " +:+ pretty id).

Definition get_algorithm (s : UpstreamSelectorImpl) (id : Z) : result BalancerAlgorithm ConrogateError :=
  match sel_upstreams s !! id with
  | Some (algo, _) => Ok algo
  | None => Err (upstream_unknown id)
  end.

(** The nodes offered to the balancer: the healthy ones, or all when none is. *)
Definition candidates (s : UpstreamSelectorImpl) (clock : nat → Z) (nodes : list UpstreamNodeDto) :
    list UpstreamNodeDto :=
  match sel_health s with
  | Some hc =>
      match PassiveHealth.filter_healthy hc clock nodes with
      | [] => nodes
      | filtered => filtered
      end
  | None => nodes
  end.

(** [select_upstream]. *)
Definition select_upstream (s : UpstreamSelectorImpl) (clock : nat → Z) (route : RouteSnapshot)
    (key : option string) : outcome (UpstreamSelectorImpl * result UpstreamNodeDto ConrogateError) :=
  match s_upstream_id route with
  | None => Ret (s, Err (UpstreamNotFound "route has no upstream"))
  | Some upstream_id =>
      match sel_upstreams s !! upstream_id with
      | None => Ret (s, Err (upstream_unknown upstream_id))
      | Some (algorithm, nodes) =>
          let healthy_nodes := candidates s clock nodes in
          match registry_get (sel_registry s) algorithm with
          | None => Ret (s, Err (Internal ("no balancer for " +:+ algorithm_debug algorithm)))
          | Some balancer =>
              match dyn_select balancer healthy_nodes key with
              | Ret (balancer', r) =>
                  Ret (mkSelector (<[algorithm := balancer']> (sel_registry s))
                                  (sel_upstreams s) (sel_health s), r)
              | Panic => Panic
              end
          end
      end
  end.

(** [release_node]. *)
Definition release_node (s : UpstreamSelectorImpl) (route : RouteSnapshot) (node : UpstreamNodeDto) :
    UpstreamSelectorImpl :=
  match s_upstream_id route with
  | None => s
  | Some upstream_id =>
      match get_algorithm s upstream_id with
      | Err _ => s
      | Ok algorithm =>
          match registry_get (sel_registry s) algorithm with
          | Some balancer =>
              mkSelector (<[algorithm := dyn_release balancer node (s_host_header route)]> (sel_registry s))
                         (sel_upstreams s) (sel_health s)
          | None => s
          end
      end
  end.

(** ** What a registered balancer promises *)

Definition sane (nodes : list UpstreamNodeDto) : Prop := Forall no_bar nodes.

(** A trait object whose implementation keeps the promises of
    [LoadBalancerOk] on sane node lists, judging nodes by [elig]. *)
Definition dyn_ok (elig : UpstreamNodeDto → bool) (d : dyn_balancer) : Prop :=
  ∃ ok : @LoadBalancerOk (dyn_T d) (dyn_lb d),
    @lb_inv _ _ ok (dyn_state d) ∧ (∀ nodes, sane nodes → @lb_admits _ _ ok nodes) ∧
    @lb_eligible _ _ ok = elig.

(** Which enabled nodes an algorithm considers. *)
Definition eligible_for (algo : BalancerAlgorithm) : UpstreamNodeDto → bool :=
  match algo with WeightedRoundRobin => WeightedLB.eligible | _ => n_enabled end.

Definition registry_ok (r : BalancerRegistry) : Prop :=
  map_Forall (λ algo d, dyn_ok (eligible_for algo) d) r.

Lemma eligible_for_enabled algo n : eligible_for algo n = true → n_enabled n = true.
Proof. destruct algo; simpl; [done| |done|done]. by intros [? _]%andb_prop. Qed.

Lemma dyn_select_ok elig d nodes key :
  dyn_ok elig d → sane nodes →
  ∃ d' r, dyn_select d nodes key = Ret (d', r) ∧ dyn_ok elig d' ∧
    match r with
    | Ok n => n ∈ nodes ∧ elig n = true
    | Err e => List.filter elig nodes = [] ∧ ∃ m, e = UpstreamNotFound m
    end.
Proof.
  intros (ok & Hinv & Had & <-) Hs. destruct d as [T lb st]. simpl in *.
  destruct (lb_select_sound st nodes key Hinv (Had _ Hs)) as (s' & r & Hsel & Hinv' & Hr).
  exists (Dyn T lb s'), r. split; [unfold dyn_select; simpl; by rewrite Hsel|].
  split; [|done]. by exists ok.
Qed.

Lemma dyn_release_ok elig d n key : dyn_ok elig d → dyn_ok elig (dyn_release d n key).
Proof.
  intros (ok & Hinv & Had & He). exists ok. split_and!; [|done|done].
  by apply (@lb_release_inv _ _ ok).
Qed.

Lemma default_registry_ok hash : registry_ok (create_default_registry hash).
Proof.
  unfold create_default_registry, register, registry_ok.
  repeat apply map_Forall_insert_2; [..|apply map_Forall_empty]; simpl.
  - exists (ConsistentHashLB.consistent_hash_ok hash). done.
  - exists LeastConnLB.least_conn_ok. done.
  - exists WeightedLB.weighted_ok. simpl. split_and!; [apply map_Forall_empty|done|done].
  - exists RoundRobinLB.round_robin_ok. done.
Qed.

(** ** The selector's contract *)

(** Every balancer keeps the promises of the interface, and no address of the table has a
    bar, on which those promises depend. *)
Definition selector_inv (s : UpstreamSelectorImpl) : Prop :=
  registry_ok (sel_registry s) ∧ map_Forall (λ _ u, sane u.2) (sel_upstreams s).

Lemma filter_healthy_incl hc clock nodes n :
  n ∈ PassiveHealth.filter_healthy hc clock nodes → n ∈ nodes ∧ n_enabled n = true.
Proof.
  intros (i & Hi & He & _)%PassiveHealth.elem_of_filter_healthy.
  apply list_elem_of_lookup_2 in Hi. done.
Qed.

Lemma candidates_incl s clock nodes n : n ∈ candidates s clock nodes → n ∈ nodes.
Proof.
  unfold candidates. destruct (sel_health s) as [hc|]; [|done].
  destruct (PassiveHealth.filter_healthy hc clock nodes) as [|m l] eqn:E; [done|].
  rewrite <-E. intros H. apply filter_healthy_incl in H. apply H.
Qed.

Lemma candidates_sane s clock nodes : sane nodes → sane (candidates s clock nodes).
Proof.
  unfold sane. rewrite !Forall_forall. intros H n Hn. apply H. by eapply candidates_incl.
Qed.

(** The healthy nodes when there are any. *)
Lemma candidates_healthy s clock nodes hc :
  sel_health s = Some hc → PassiveHealth.filter_healthy hc clock nodes ≠ [] →
  candidates s clock nodes = PassiveHealth.filter_healthy hc clock nodes.
Proof. intros E H. unfold candidates. rewrite E. by destruct (PassiveHealth.filter_healthy hc clock nodes). Qed.

(** The upstream a route resolves to. *)
Definition resolves (s : UpstreamSelectorImpl) (route : RouteSnapshot)
    (algo : BalancerAlgorithm) (nodes : list UpstreamNodeDto) : Prop :=
  ∃ uid, s_upstream_id route = Some uid ∧ sel_upstreams s !! uid = Some (algo, nodes).

(** A selection neither panics nor touches the table or the health checker, and
    answers an enabled candidate. *)
Lemma select_step s clock route key :
  selector_inv s →
  ∃ s' r, select_upstream s clock route key = Ret (s', r) ∧ selector_inv s' ∧
    sel_upstreams s' = sel_upstreams s ∧ sel_health s' = sel_health s ∧
    match r with
    | Ok n => ∃ algo nodes, resolves s route algo nodes ∧ n ∈ candidates s clock nodes ∧ n_enabled n = true
    | Err e => (∀ algo nodes, ¬ resolves s route algo nodes) ∨
        ∃ algo nodes, resolves s route algo nodes ∧
          (sel_registry s !! algo = None ∨
           List.filter (eligible_for algo) (candidates s clock nodes) = [])
    end.
Proof.
  intros [Hreg Hups]. unfold select_upstream.
  destruct (s_upstream_id route) as [uid|] eqn:Er.
  2: { eexists _, _. do 4 (split; [done|]). left. intros a l (u & ? & _). congruence. }
  destruct (sel_upstreams s !! uid) as [[algo nodes]|] eqn:Eu.
  2: { eexists _, _. do 4 (split; [done|]). left. intros a l (u & ? & ?). congruence. }
  assert (resolves s route algo nodes) as Hres by (by exists uid).
  unfold registry_get. destruct (sel_registry s !! algo) as [d|] eqn:Ed.
  2: { eexists _, _. do 4 (split; [done|]). right. eauto. }
  destruct (dyn_select_ok _ d (candidates s clock nodes) key (Hreg _ _ Ed)) as (d' & r & Hsel & Hd' & Hr).
  { apply candidates_sane. exact (Hups _ _ Eu). }
  rewrite Hsel. eexists _, r. split; [done|]. split; [split; [by apply map_Forall_insert_2|done]|]. do 2 (split; [done|]).
  destruct r as [n|e].
  - destruct Hr as [Hin He]. exists algo, nodes. split_and!; [done|done|]. by eapply eligible_for_enabled.
  - right. exists algo, nodes. split; [done|]. right. apply Hr.
Qed.

(** C25. Upstream selection is total and safe: with balancers that keep the
    interface's promises (the four of the program do) and node addresses without a
    bar ["|"], it never panics, preserves those promises, and a
    selected node is an enabled node of the route's upstream, a healthy one
    whenever any node is healthy. It fails only when the route resolves to no
    upstream, no balancer is registered for the algorithm, or no candidate is
    eligible for the algorithm. The program does not check the addresses, and with
    a bar the signatures of two lists can collide and the weighted balancer panic
    ([bar_panics]). *)
Theorem select_upstream_sound s clock route key :
  registry_ok (sel_registry s) → map_Forall (λ _ u, Forall no_bar u.2) (sel_upstreams s) →
  ∃ s' r, select_upstream s clock route key = Ret (s', r) ∧ selector_inv s' ∧
    match r with
    | Ok n => ∃ algo nodes, resolves s route algo nodes ∧ n ∈ nodes ∧ n_enabled n = true ∧
        (∀ hc, sel_health s = Some hc → PassiveHealth.filter_healthy hc clock nodes ≠ [] →
               n ∈ PassiveHealth.filter_healthy hc clock nodes)
    | Err e => (∀ algo nodes, ¬ resolves s route algo nodes) ∨
        ∃ algo nodes, resolves s route algo nodes ∧
          (sel_registry s !! algo = None ∨
           List.filter (eligible_for algo) (candidates s clock nodes) = [])
    end.
Proof.
  intros Hreg Hups. destruct (select_step s clock route key (conj Hreg Hups)) as (s' & r & Hsel & Hi & _ & _ & Hr). exists s', r.
  do 2 (split; [done|]). destruct r as [n|e]; [|done]. destruct Hr as (algo & nodes & Hres & Hin & He). exists algo, nodes.
  split_and!; [done|by eapply candidates_incl|done|]. intros hc Hhc Hne. by rewrite <-(candidates_healthy s clock nodes hc).
Qed.

Lemma load_upstreams_inv s ups :
  selector_inv s → Forall (λ u, sane (u_nodes u)) ups → selector_inv (load_upstreams s ups).
Proof.
  intros [Hreg _] Hs. split; [done|]. simpl.
  assert (∀ m : UpstreamMap, map_Forall (λ _ u, sane u.2) m →
    map_Forall (λ _ u, sane u.2)
      (foldl (λ m up, <[u_id up := (u_algorithm up, u_nodes up)]> m) m ups)) as H.
  { induction Hs as [|u ups Hu Hs IH]; intros m Hm; simpl; [done|].
    apply IH. by apply map_Forall_insert_2. }
  apply H, map_Forall_empty.
Qed.

(** The loaded table does not depend on the order of the upstreams. *)
Lemma load_upstreams_perm s ups1 ups2 :
  NoDup (map u_id ups1) → ups1 ≡ₚ ups2 → load_upstreams s ups1 = load_upstreams s ups2.
Proof.
  intros Hnd Hp. unfold load_upstreams. f_equal.
  assert (∀ m : UpstreamMap, foldl (λ m up, <[u_id up := (u_algorithm up, u_nodes up)]> m) m ups1 =
                             foldl (λ m up, <[u_id up := (u_algorithm up, u_nodes up)]> m) m ups2) as H; [|apply H].
  induction Hp as [|x l1 l2 _ IH|x y l|l1 l2 l3 H12 IH1 _ IH2]; intros m; simpl; [done| | |].
  - apply NoDup_cons in Hnd as [_ Hnd]. by apply IH.
  - simpl in Hnd. apply NoDup_cons in Hnd as [Hx _]. rewrite insert_insert_ne by (intros E; apply Hx; rewrite E; left). done.
  - rewrite IH1 by done. apply IH2. by rewrite <- (Permutation_map u_id H12).
Qed.

Lemma release_node_inv s route n : selector_inv s → selector_inv (release_node s route n).
Proof.
  intros [Hreg Hups]. unfold release_node. destruct (s_upstream_id route) as [uid|]; [|done].
  destruct (get_algorithm s uid) as [algo|e]; [|done].
  unfold registry_get. destruct (sel_registry s !! algo) as [d|] eqn:Ed; [|done].
  split; [|done]. apply map_Forall_insert_2; [|done]. apply dyn_release_ok. exact (Hreg _ _ Ed).
Qed.

Definition demo_upstream : UpstreamDto :=
  mkUpstream 1 "backend" LeastConnections true
    [mkNode 1 1 "10.0.0.1:80" 1 true; mkNode 2 1 "10.0.0.2:80" 1 true] 0 0.
Definition demo_selector : UpstreamSelectorImpl :=
  load_upstreams (selector_with_health_checker
    (selector_new (create_default_registry ConsistentHashLB.sum_hash)) PassiveHealth.default_checker)
    [demo_upstream].
Definition demo_route : RouteSnapshot := mkSnapshot 1 Http (Some 1) None false false [] false.

Lemma demo_selector_inv : selector_inv demo_selector.
Proof.
  apply load_upstreams_inv; [split; [apply default_registry_ok|apply map_Forall_empty]|].
  by repeat constructor.
Qed.

Lemma select_upstream_sound_witness :
  ∃ s' r, select_upstream demo_selector (λ _, 0) demo_route None = Ret (s', r) ∧ selector_inv s'.
Proof.
  destruct (select_upstream_sound demo_selector (λ _, 0) demo_route None (proj1 demo_selector_inv) (proj2 demo_selector_inv))
    as (s' & r & H1 & H2 & _).
  exists s', r. split; [exact H1|exact H2].
Defined.
