(* ===== verification/F64.v ===== *)
(** Rust's [f64] as the executable binary64 of the standard library's
    [SpecFloat], with the conversions and the operators the traffic components
    use. Integers below 2^53 are represented exactly: [of_Z] commutes with
    subtraction and comparison on them. *)
From Stdlib Require Import ZArith Lia SpecFloat.
From stdpp Require Import base tactics option.
From S2P Require Import Prelude.
#[local] Open Scope Z_scope.

Module F64.

Abbreviation f64 := spec_float.

Definition add (x y : f64) : f64 := SFadd 53 1024 x y.
Definition sub (x y : f64) : f64 := SFsub 53 1024 x y.
Definition mul (x y : f64) : f64 := SFmul 53 1024 x y.
Definition div (x y : f64) : f64 := SFdiv 53 1024 x y.
Definition leb (x y : f64) : bool := SFleb x y.
Definition ltb (x y : f64) : bool := SFltb x y.

(** [n as f64]: rounded to nearest, ties to even. *)
Definition of_Z (z : Z) : f64 := binary_normalize 53 1024 z 0 false.

Definition zero : f64 := S754_zero false.
Definition one : f64 := of_Z 1.

Definition is_nan (x : f64) : bool := match x with S754_nan => true | _ => false end.

(** [f64::min] and [f64::max] ignore a NaN operand. *)
Definition min (x y : f64) : f64 :=
  if is_nan x then y else if is_nan y then x else if ltb y x then y else x.
Definition max (x y : f64) : f64 :=
  if is_nan x then y else if is_nan y then x else if ltb x y then y else x.

(** [x as u64]: truncated towards zero and saturated. *)
Definition to_u64 (x : f64) : Z :=
  match x with
  | S754_zero _ | S754_nan => 0
  | S754_infinity s => if s then 0 else 2 ^ 64 - 1
  | S754_finite true _ _ => 0
  | S754_finite false m e =>
      Z.min (2 ^ 64 - 1) (if 0 <=? e then Zpos m * 2 ^ e else Zpos m / 2 ^ (- e))
  end.

(** [x as u32]. *)
Definition to_u32 (x : f64) : Z := Z.min (2 ^ 32 - 1) (to_u64 x).

(** [f64::ceil]: an exponent of zero or more means an integer already. *)
Definition ceil (x : f64) : f64 :=
  match x with
  | S754_finite s m e =>
      if 0 <=? e then x
      else if s then binary_normalize 53 1024 (- (Zpos m / 2 ^ (- e))) 0 true
      else of_Z (- ((- Zpos m) / 2 ^ (- e)))
  | _ => x
  end.

(** [Duration::as_secs_f64]. *)
Definition as_secs_f64 (d : Z) : f64 :=
  add (of_Z (d / 1000000000)) (div (of_Z (d mod 1000000000)) (of_Z 1000000000)).

(** ** Exactness on integers *)

Definition shl (k : nat) (m : positive) : positive := Nat.iter k xO m.
Definition digits (m : positive) : Z := Zpos (digits2_pos m).

(** The binary64 of a positive integer of at most 53 digits. *)
Definition fin (m : positive) : f64 := S754_finite false (shl (Z.to_nat (53 - digits m)) m) (digits m - 53).

Lemma shl_add i j m : shl i (shl j m) = shl (i + j) m.
Proof. unfold shl. by rewrite Nat.iter_add. Qed.

Lemma shl_pos d m : Pos.iter xO m d = shl (Pos.to_nat d) m.
Proof. unfold shl. apply Pos2Nat.inj_iter. Qed.

Lemma shl_value k m : Zpos (shl k m) = Zpos m * 2 ^ Z.of_nat k.
Proof.
  induction k as [|k IH]; [simpl; lia|]. change (shl (S k) m) with (xO (shl k m)).
  rewrite Pos2Z.inj_xO, IH, Nat2Z.inj_succ, Z.pow_succ_r by lia. lia.
Qed.

Lemma digits_shl k m : digits (shl k m) = digits m + Z.of_nat k.
Proof.
  induction k as [|k IH]; [simpl; lia|]. change (shl (S k) m) with (xO (shl k m)).
  change (digits (xO (shl k m))) with (Zpos (Pos.succ (digits2_pos (shl k m)))).
  unfold digits in *. lia.
Qed.

Lemma digits_bounds m : 2 ^ (digits m - 1) <= Zpos m < 2 ^ digits m.
Proof.
  unfold digits. induction m as [m IH|m IH|]; simpl digits2_pos; [..|by simpl].
  all: rewrite Pos2Z.inj_succ; replace (Z.succ (Zpos (digits2_pos m)) - 1) with (Z.succ (Zpos (digits2_pos m) - 1)) by lia;
    rewrite !Z.pow_succ_r by lia; lia.
Qed.

Lemma digits_le m k : 0 <= k → Zpos m < 2 ^ k → digits m <= k.
Proof.
  intros Hk H. destruct (digits_bounds m) as [Hl _].
  assert (2 ^ (digits m - 1) < 2 ^ k) as Hlt by lia.
  apply Z.pow_lt_mono_r_iff in Hlt; lia.
Qed.

Lemma iter_pos_nat {A} (f : A → A) p x : iter_pos f p x = Nat.iter (Pos.to_nat p) f x.
Proof.
  revert x. induction p as [p IH|p IH|]; intros x; simpl iter_pos; rewrite ?IH.
  - rewrite Pos2Nat.inj_xI, Nat.iter_succ_r, <-Nat.iter_add. f_equal. lia.
  - rewrite Pos2Nat.inj_xO, <-Nat.iter_add. f_equal. lia.
  - done.
Qed.

Lemma shr_1_iter n M :
  Nat.iter n shr_1 (Build_shr_record (Zpos (shl n M)) false false) = Build_shr_record (Zpos M) false false.
Proof.
  induction n as [|n IH]; [done|]. rewrite Nat.iter_succ_r. unfold shl in *. simpl. exact IH.
Qed.

Lemma fexp_digits m : fexp 53 1024 (digits m) = digits m - 53.
Proof. unfold fexp, emin, digits. lia. Qed.

Lemma shr_fexp_norm M n e :
  digits M = 53 → -1074 <= e →
  shr_fexp 53 1024 (Zpos (shl n M)) (e - Z.of_nat n) loc_Exact = (Build_shr_record (Zpos M) false false, e).
Proof.
  intros HM He. unfold shr_fexp. simpl Zdigits2. fold (digits (shl n M)). rewrite digits_shl, HM.
  replace (53 + Z.of_nat n + (e - Z.of_nat n)) with (53 + e) by lia.
  replace (fexp 53 1024 (53 + e)) with e by (unfold fexp, emin; lia).
  replace (e - (e - Z.of_nat n)) with (Z.of_nat n) by lia.
  destruct n as [|n]; cbn [Z.of_nat shr].
  - by rewrite Z.sub_0_r.
  - rewrite Nat2Z.inj_succ, <-Zpos_P_of_succ_nat. unfold shr. rewrite iter_pos_nat, SuccNat2Pos.id_succ.
    cbn [shr_record_of_loc]. rewrite shr_1_iter. f_equal. lia.
Qed.

(** Rounding a 53-digit significand with trailing zeros drops the zeros. *)
Lemma binary_round_aux_norm M n e :
  digits M = 53 → -1074 <= e <= 971 →
  binary_round_aux 53 1024 false (Zpos (shl n M)) (e - Z.of_nat n) loc_Exact = S754_finite false M e.
Proof.
  intros HM He. unfold binary_round_aux. rewrite shr_fexp_norm by lia.
  cbn [shr_m loc_of_shr_record round_nearest_even].
  pose proof (shr_fexp_norm M 0 e HM ltac:(lia)) as H0. cbn [Z.of_nat] in H0. rewrite Z.sub_0_r in H0.
  change (shl 0 M) with M in H0. rewrite H0. cbn [shr_m].
  by rewrite (proj2 (Z.leb_le _ _)) by lia.
Qed.

Lemma binary_round_aux_exact m n :
  digits m <= 53 →
  binary_round_aux 53 1024 false (Zpos (shl n (shl (Z.to_nat (53 - digits m)) m)))
    (digits m - 53 - Z.of_nat n) loc_Exact = fin m.
Proof.
  intros Hd. assert (1 <= digits m) by (unfold digits; lia).
  apply binary_round_aux_norm; [rewrite digits_shl|]; lia.
Qed.

(** An integer scaled by a power of two and back. *)
Lemma binary_round_shl m k :
  digits m <= 53 → binary_round 53 1024 false (shl k m) (- Z.of_nat k) = fin m.
Proof.
  intros Hd. unfold binary_round. fold (digits (shl k m)). rewrite digits_shl.
  replace (digits m + Z.of_nat k + - Z.of_nat k) with (digits m) by lia.
  rewrite fexp_digits. unfold shl_align.
  set (c := Z.to_nat (53 - digits m)).
  destruct (digits m - 53 - - Z.of_nat k) as [|p|p] eqn:E.
  - pose proof (binary_round_aux_exact m 0 Hd) as H. cbn [Z.of_nat] in H. change (shl 0 ?x) with x in H.
    replace (- Z.of_nat k) with (digits m - 53 - 0) by lia. replace k with (Z.to_nat (53 - digits m)) by lia. done.
  - pose proof (binary_round_aux_exact m (k - c) Hd) as H. rewrite shl_add in H. fold c in H.
    replace (k - c + c)%nat with k in H by lia.
    replace (digits m - 53 - Z.of_nat (k - c)) with (- Z.of_nat k) in H by lia. done.
  - rewrite shl_pos, shl_add. replace (Pos.to_nat p + k)%nat with c by lia.
    pose proof (binary_round_aux_exact m 0 Hd) as H. cbn [Z.of_nat] in H. change (shl 0 ?x) with x in H.
    by rewrite Z.sub_0_r in H.
Qed.

Lemma of_Z_pos m : digits m <= 53 → of_Z (Zpos m) = fin m.
Proof. intros Hd. exact (binary_round_shl m 0 Hd). Qed.

Lemma sub_fin a b : digits a <= 53 → (b < a)%positive → sub (fin a) (fin b) = fin (a - b).
Proof.
  intros Ha Hab. destruct (digits_bounds a) as [_ HaU]. destruct (digits_bounds b) as [HbL _].
  assert (digits b <= digits a) as Hd.
  { assert (2 ^ (digits b - 1) < 2 ^ digits a) as H by lia. apply Z.pow_lt_mono_r_iff in H; [lia|lia|unfold digits; lia]. }
  assert (digits (a - b) <= 53) as Hc.
  { apply digits_le; [lia|]. rewrite Pos2Z.inj_sub by done.
    assert (2 ^ digits a <= 2 ^ 53) by (apply Z.pow_le_mono_r; lia). lia. }
  unfold sub, fin, SFsub. rewrite Z.min_r by lia. unfold cond_Zopp.
  pose (k := Z.to_nat (53 - digits b)).
  assert (∀ m, digits b <= digits m → digits m <= 53 →
     (shl_align (shl (Z.to_nat (53 - digits m)) m) (digits m - 53) (digits b - 53)).1 = shl k m) as Hal.
  { intros m H1 H2. unfold shl_align. destruct (digits b - 53 - (digits m - 53)) as [|p|p] eqn:E; simpl; [|lia|].
    - unfold k. do 2 f_equal. lia.
    - rewrite shl_pos, shl_add. f_equal. unfold k. lia. }
  rewrite (Hal a), (Hal b) by lia. rewrite !shl_value.
  replace (Zpos a * 2 ^ Z.of_nat k - Zpos b * 2 ^ Z.of_nat k) with (Zpos (shl k (a - b)))
    by (rewrite shl_value, Pos2Z.inj_sub by done; lia).
  replace (digits b - 53) with (- Z.of_nat k) by lia.
  unfold binary_normalize. by apply binary_round_shl.
Qed.

(** Halving moves the exponent. *)
Definition half : f64 := div one (of_Z 2).

Lemma mul_half m :
  digits m <= 53 → mul (fin m) half = S754_finite false (shl (Z.to_nat (53 - digits m)) m) (digits m - 54).
Proof.
  intros Hd. assert (1 <= digits m) by (unfold digits; lia). set (M := shl (Z.to_nat (53 - digits m)) m).
  assert (digits M = 53) as HM by (unfold M; rewrite digits_shl; lia).
  change half with (S754_finite false (shl 52 1) (-53)). unfold mul, fin, SFmul. fold M. cbn [xorb].
  replace (Zpos (M * shl 52 1)) with (Zpos (shl 52 M)) by (rewrite Pos2Z.inj_mul, !shl_value; lia).
  replace (digits m - 53 + -53) with (digits m - 54 - Z.of_nat 52) by lia.
  apply binary_round_aux_norm; [done|lia].
Qed.

Lemma to_u64_of_Z k : 0 <= k < 2 ^ 53 → to_u64 (of_Z k) = k.
Proof.
  intros Hk. destruct k as [|m|]; [done| |lia]. pose proof (digits_le m 53 ltac:(lia) ltac:(lia)) as Hd.
  rewrite of_Z_pos by done. unfold fin, to_u64. rewrite shl_value, Z2Nat.id by lia.
  replace (- (digits m - 53)) with (53 - digits m) by lia.
  assert (0 < 2 ^ (53 - digits m)) by (apply Z.pow_pos_nonneg; lia).
  case_Z; rewrite ?Z.div_mul by lia; [|lia].
  assert (digits m = 53) as -> by lia. simpl. lia.
Qed.

(** Half of an integer, rounded up. *)
Lemma ceil_half k : 0 <= k < 2 ^ 53 → to_u64 (ceil (mul (of_Z k) half)) = (k + 1) / 2.
Proof.
  intros Hk. destruct k as [|m|]; [done| |lia]. pose proof (digits_le m 53 ltac:(lia) ltac:(lia)) as Hd.
  rewrite of_Z_pos, mul_half by done. unfold ceil. rewrite (proj2 (Z.leb_gt _ _)) by lia.
  rewrite shl_value, Z2Nat.id by lia.
  replace (- (digits m - 54)) with (Z.succ (53 - digits m)) by lia. rewrite Z.pow_succ_r by lia.
  assert (0 < 2 ^ (53 - digits m)) by (apply Z.pow_pos_nonneg; lia).
  rewrite <-Z.mul_opp_l, Z.div_mul_cancel_r by lia.
  rewrite to_u64_of_Z; Z.to_euclidean_division_equations; lia.
Qed.

Lemma of_Z_sub a b : 0 < b < a → a < 2 ^ 53 → sub (of_Z a) (of_Z b) = of_Z (a - b).
Proof.
  destruct a as [|a|a], b as [|b|b]; intros H Ha; try lia.
  assert (digits a <= 53) by (by apply digits_le).
  assert (digits b <= 53) by (apply digits_le; lia).
  assert (digits (a - b) <= 53) by (apply digits_le; rewrite ?Pos2Z.inj_sub; lia).
  rewrite <-Pos2Z.inj_sub by lia. rewrite !of_Z_pos by done. apply sub_fin; [done|lia].
Qed.

Lemma compare_cont_shl k a b : Pos.compare_cont Eq (shl k a) (shl k b) = Pos.compare_cont Eq a b.
Proof. induction k as [|k IH]; [done|]. unfold shl in *. simpl. exact IH. Qed.

Lemma compare_fin a b : SFcompare (fin a) (fin b) = Some (Zpos a ?= Zpos b).
Proof.
  unfold fin, SFcompare. f_equal.
  destruct (digits_bounds a) as [HaL HaU], (digits_bounds b) as [HbL HbU].
  destruct (Z.compare_spec (digits a - 53) (digits b - 53)) as [E|E|E].
  - replace (digits b) with (digits a) by lia. apply compare_cont_shl.
  - symmetry. apply Z.compare_lt_iff.
    assert (2 ^ digits a <= 2 ^ (digits b - 1)) by (apply Z.pow_le_mono_r; lia). lia.
  - symmetry. apply Z.compare_gt_iff.
    assert (2 ^ digits b <= 2 ^ (digits a - 1)) by (apply Z.pow_le_mono_r; lia). lia.
Qed.

Lemma of_Z_compare a b :
  0 <= a < 2 ^ 53 → 0 <= b < 2 ^ 53 → SFcompare (of_Z a) (of_Z b) = Some (a ?= b).
Proof.
  intros Ha Hb.
  assert (∀ p, Zpos p < 2 ^ 53 → of_Z (Zpos p) = fin p) as Hp by (intros; by apply of_Z_pos, digits_le).
  destruct a as [|a|a], b as [|b|b]; try lia; rewrite ?Hp by lia; [done|done|done|apply compare_fin].
Qed.

Lemma of_Z_leb a b : 0 <= a < 2 ^ 53 → 0 <= b < 2 ^ 53 → leb (of_Z a) (of_Z b) = (a <=? b).
Proof. intros Ha Hb. unfold leb, SFleb, Z.leb. rewrite of_Z_compare by done. by destruct (a ?= b). Qed.

Lemma of_Z_ltb a b : 0 <= a < 2 ^ 53 → 0 <= b < 2 ^ 53 → ltb (of_Z a) (of_Z b) = (a <? b).
Proof. intros Ha Hb. unfold ltb, SFltb, Z.ltb. rewrite of_Z_compare by done. by destruct (a ?= b). Qed.

Lemma of_Z_not_nan a : 0 <= a < 2 ^ 53 → is_nan (of_Z a) = false.
Proof.
  destruct a as [|a|a]; intros H; [done| |lia].
  rewrite of_Z_pos; [done|]. apply digits_le; lia.
Qed.

(** [min] does not exceed its second operand. *)
Lemma compare_swap x y : SFcompare y x = CompOpp <$> SFcompare x y.
Proof.
  destruct x as [s1|s1| |s1 m1 e1], y as [s2|s2| |s2 m2 e2]; try done;
    try (by destruct s1); try (by destruct s2); try (by destruct s1, s2).
  simpl. f_equal. rewrite (Z.compare_antisym e1 e2).
  assert (Pos.compare_cont Eq m2 m1 = CompOpp (Pos.compare_cont Eq m1 m2)) as ->
    by (rewrite Pos.compare_cont_antisym; done).
  destruct s1, s2, (e1 ?= e2); try done; by rewrite ?CompOpp_involutive.
Qed.

Lemma compare_refl x : is_nan x = false → SFcompare x x = Some Eq.
Proof.
  destruct x as [s|s| |s m e]; simpl; try done; [by destruct s|].
  rewrite Z.compare_refl, Pos.compare_cont_refl. by destruct s.
Qed.

Lemma compare_total x y : is_nan x = false → is_nan y = false → is_Some (SFcompare x y).
Proof. destruct x, y; simpl; try done; eauto. Qed.

Lemma min_le_r x y : is_nan y = false → leb (min x y) y = true.
Proof.
  intros Hy. unfold min, leb, SFleb.
  destruct (is_nan x) eqn:Ex; [by rewrite compare_refl|]. rewrite Hy. unfold ltb, SFltb.
  destruct (compare_total y x Hy Ex) as [c Hc]. rewrite Hc.
  destruct c; rewrite ?compare_refl by done; [|done|]; by rewrite (compare_swap y x), Hc.
Qed.

(** Division by one. *)
Lemma div_one m : digits m <= 53 → div (fin m) one = fin m.
Proof.
  intros Hd. set (M := shl (Z.to_nat (53 - digits m)) m).
  assert (digits M = 53) as HM by (unfold M; rewrite digits_shl; lia).
  change one with (fin 1). unfold div, fin, SFdiv. fold M. unfold SFdiv_core_binary.
  change (Zdigits2 (Zpos (shl (Z.to_nat (53 - digits 1)) 1))) with 53.
  change (Zdigits2 (Zpos M)) with (digits M). change (digits 1 - 53) with (-52). rewrite HM.
  replace (53 + (digits m - 53) - (53 + -52)) with (digits m - 1) by lia.
  assert (fexp 53 1024 (digits m - 1) = digits m - 54) as -> by (unfold fexp, emin, digits in *; lia).
  rewrite Z.min_l by lia. replace (digits m - 53 - -52 - (digits m - 54)) with 53 by lia.
  cbv iota. rewrite Z.shiftl_mul_pow2 by lia.
  change (Zpos (shl (Z.to_nat (53 - digits 1)) 1)) with (2 ^ 52).
  pose proof (Z_div_mod_full (Zpos M * 2 ^ 53) (2 ^ 52) ltac:(done)) as Hdm.
  destruct (Z.div_eucl (Zpos M * 2 ^ 53) (2 ^ 52)) as [q r]. destruct Hdm as [Hq Hr].
  assert (q = Zpos (shl 1 M) ∧ r = 0) as [-> ->].
  { rewrite shl_value. change (2 ^ Z.of_nat 1) with 2. destruct Hr as [Hr|Hr]; lia. }
  cbv iota. change (new_location (2 ^ 52) 0) with loc_Exact. simpl xorb.
  pose proof (binary_round_aux_exact m 1 Hd) as H. fold M in H.
  replace (digits m - 53 - Z.of_nat 1) with (digits m - 54) in H by lia. exact H.
Qed.

(** A number divided by itself. *)
Lemma div_self m : digits m <= 53 → div (fin m) (fin m) = one.
Proof.
  intros Hd. set (M := shl (Z.to_nat (53 - digits m)) m).
  unfold div, fin, SFdiv. fold M. unfold SFdiv_core_binary.
  rewrite !Z.sub_diag. change (Z.min (fexp 53 1024 0) 0) with (-53). change (0 - -53) with 53. cbv iota.
  rewrite Z.shiftl_mul_pow2 by lia.
  pose proof (Z_div_mod_full (Zpos M * 2 ^ 53) (Zpos M) ltac:(done)) as Hdm.
  destruct (Z.div_eucl (Zpos M * 2 ^ 53) (Zpos M)) as [q r]. destruct Hdm as [Hq Hr].
  unfold Remainder in Hr.
  assert (q = 2 ^ 53) as -> by (destruct Hr as [Hr|Hr]; nia).
  assert (r = 0) as -> by lia.
  assert (new_location (Zpos M) 0 = loc_Exact) as -> by (unfold new_location; by destruct (Z.even _)).
  vm_compute. reflexivity.
Qed.

Lemma of_Z_div_self a : 0 < a < 2 ^ 53 → div (of_Z a) (of_Z a) = one.
Proof.
  destruct a as [|a|a]; [lia| |lia]. intros H. assert (digits a <= 53) by (apply digits_le; lia).
  rewrite of_Z_pos by done. by apply div_self.
Qed.

(** A zero numerator never reaches a positive threshold. *)
Lemma zero_rate thr x : ltb zero thr = true → leb thr (div zero x) = false.
Proof. destruct thr as [[]|[]| |[]]; try done; intros _; by destruct x as [[]|[]| |[]]. Qed.

Lemma add_zero_r x : x ≠ S754_zero true → add x zero = x.
Proof. by destruct x as [[]|[]| |]. Qed.

Lemma of_Z_not_neg_zero a : 0 <= a < 2 ^ 53 → of_Z a ≠ S754_zero true.
Proof.
  destruct a as [|a|a]; intros H; [done| |lia]. rewrite of_Z_pos; [done|]. apply digits_le; lia.
Qed.
End F64.
