(* ===== verification/Limiter.v ===== *)
(** Rate limiters (conrogate-traffic/src/limiter.rs): fixed window, sliding
    window and token bucket, behind the trait of conrogate-core/src/traffic.rs.

    The limiters are judged by the times at which they grant requests of one
    key: the fixed window by its windows, the sliding window over every interval
    of the window's length, the token bucket by its bursts. *)
From Stdlib Require Import ZArith Lia Ascii String.
From stdpp Require Import base tactics option list list_numbers gmap strings sorting.
From S2P Require Import Prelude Text Errors Core F64.
#[local] Open Scope Z_scope.

Inductive LimitAlgorithm := FixedWindow | SlidingWindow | TokenBucketAlgorithm.

(** The trait; every call reads the clock once. *)
Class Limiter (S : Type) : Type := {
  limiter_algorithm : LimitAlgorithm;
  limiter_acquire : S → Z → string → Z → Z → S * result unit ConrogateError;
}.

(** The bound on the tables after which stale entries are dropped. *)
Definition MAX_ENTRIES : Z := 10000.

(** ** Runs *)

(** The times at which requests [(time, key)] of key [k] are granted, when the
    limit of a key [k'] is [lim k']. *)
Fixpoint granted {S} `{Limiter S} (lim : string → Z) (window : Z) (k : string) (s : S) (reqs : list (Z * string)) :
    list Z :=
  match reqs with
  | [] => []
  | (t, k') :: rs =>
      let '(s', r) := limiter_acquire s t k' (lim k') window in
      (if is_ok r && bool_decide (k' = k) then [t] else []) ++ granted lim window k s' rs
  end.

(** The clock does not go backwards. *)
Fixpoint clocked (t0 : Z) (reqs : list (Z * string)) : Prop :=
  match reqs with [] => True | (t, _) :: rs => t0 <= t ∧ clocked t rs end.

(** How many times fall in the interval of length [w] that starts at [a]. *)
Definition in_span (a w x : Z) : bool := (a <=? x) && (x <? a + w).
Definition span_count (a w : Z) (l : list Z) : Z := Z.of_nat (length (List.filter (in_span a w) l)).

Lemma span_count_app a w l k : span_count a w (l ++ k) = span_count a w l + span_count a w k.
Proof. unfold span_count. rewrite List.filter_app, length_app. lia. Qed.

Lemma span_count_le a w l : span_count a w l <= Z.of_nat (length l).
Proof. unfold span_count. pose proof (filter_length_le (in_span a w) l). lia. Qed.

Lemma span_count_nonneg a w l : 0 <= span_count a w l.
Proof. unfold span_count. lia. Qed.

Lemma span_count_none a w l : Forall (λ x, x < a ∨ a + w <= x) l → span_count a w l = 0.
Proof.
  unfold span_count. induction 1 as [|x l Hx Hl IH]; [done|]. simpl.
  replace (in_span a w x) with false; [done|]. unfold in_span. symmetry. apply andb_false_iff.
  destruct Hx; [left; apply Z.leb_gt|right; apply Z.ltb_ge]; lia.
Qed.

(** What a limiter promises to the traffic control: from its initial state, the
    grants of a key in any span of the window's length are bounded by a function
    of the key's limit. *)
Class LimiterOk (S : Type) `{Limiter S} : Type := {
  limiter_init : S;
  limiter_bound : Z → Z;
  limiter_span lim window k reqs t0 a :
    0 <= lim k < 2 ^ 32 → 0 < window → clocked t0 reqs →
    span_count a window (granted lim window k limiter_init reqs) <= limiter_bound (lim k);
}.

(** ** Fixed window *)

Module FixedWindowL.

Record WindowEntry := mkWindowEntry { count : Z; window_start : Z }.
Record FixedWindowLimiter := mkFixed { windows : gmap string WindowEntry }.

Definition new : FixedWindowLimiter := mkFixed ∅.

Definition expired (now window : Z) (e : WindowEntry) : bool :=
  window <=? duration_since now (window_start e).

(** [windows.retain(..)] when the table is large. *)
Definition sweep (now window : Z) (ws : gmap string WindowEntry) : gmap string WindowEntry :=
  if MAX_ENTRIES <=? Z.of_nat (size ws)
  then filter (λ kv, expired now window kv.2 = false) ws else ws.

Definition acquire (st : FixedWindowLimiter) (now : Z) (key : string) (limit window : Z) :
    FixedWindowLimiter * result unit ConrogateError :=
  let ws := sweep now window (windows st) in
  match ws !! key with
  | Some entry =>
      let entry := if expired now window entry then mkWindowEntry 0 now else entry in
      if limit <=? count entry then (mkFixed (<[key := entry]> ws), Err RateLimited)
      else (mkFixed (<[key := mkWindowEntry (u32_wrap (count entry + 1)) (window_start entry)]> ws), Ok tt)
  | None =>
      if limit =? 0 then (mkFixed ws, Err RateLimited)
      else (mkFixed (<[key := mkWindowEntry 1 now]> ws), Ok tt)
  end.

#[export] Instance fixed_limiter : Limiter FixedWindowLimiter :=
  {| limiter_algorithm := FixedWindow; limiter_acquire := acquire |}.

(** A partition of grants into windows: each has a start, at most [limit] grants
    within [window] of it, and the next starts no earlier than it ends. *)
Definition window_ok (limit window : Z) (w : Z * list Z) : Prop :=
  Z.of_nat (length w.2) <= limit ∧ Forall (λ t, w.1 <= t < w.1 + window) w.2.
Definition windows_ok (limit window : Z) (ws : list (Z * list Z)) : Prop :=
  Forall (window_ok limit window) ws ∧ StronglySorted (λ a b, a.1 + window <= b.1) ws.

Definition times (ws : list (Z * list Z)) : list Z := concat (map snd ws).

Lemma windows_ok_nil limit window : windows_ok limit window [].
Proof. split; [apply Forall_nil_2|apply SSorted_nil]. Qed.

Lemma sweep_lookup now window ws k :
  sweep now window ws !! k = ws !! k ∨
  (sweep now window ws !! k = None ∧ ∃ e, ws !! k = Some e ∧ expired now window e = true).
Proof.
  unfold sweep. destruct (MAX_ENTRIES <=? _); [|by left].
  destruct (ws !! k) as [e|] eqn:E.
  - destruct (expired now window e) eqn:Ex.
    + right. split; [|eauto]. apply map_lookup_filter_None_2. right. intros x Hx. simplify_eq. simpl. congruence.
    + left. by apply map_lookup_filter_Some_2.
  - left. apply map_lookup_filter_None_2. by left.
Qed.

(** A call for another key only sweeps. *)
Lemma acquire_other st now key limit window k :
  key ≠ k → windows (acquire st now key limit window).1 !! k = sweep now window (windows st) !! k.
Proof.
  intros Hne. unfold acquire. destruct (sweep now window (windows st) !! key) as [e|].
  - destruct (limit <=? _); cbn [fst windows]; by rewrite lookup_insert_ne.
  - destruct (limit =? 0); cbn [fst windows]; [done|by rewrite lookup_insert_ne].
Qed.

Section Partition.
Context (lim : string → Z) (limit window : Z) (k : string) (Hlim : lim k = limit).
Context (Hlimit : 0 <= limit < 2 ^ 32) (Hwindow : 0 < window).

(** What follows for key [k] from a state at time [t0]: the rest of the current
    window, then windows that start after it. *)
Definition continues (st : FixedWindowLimiter) (t0 : Z) (gs : list Z) : Prop :=
  match windows st !! k with
  | Some e => ∃ first ws, gs = first ++ times ws ∧
      count e + Z.of_nat (length first) <= Z.max limit (count e) ∧
      Forall (λ t, window_start e <= t < window_start e + window) first ∧
      windows_ok limit window ws ∧ Forall (λ w, window_start e + window <= w.1) ws
  | None => ∃ ws, gs = times ws ∧ windows_ok limit window ws ∧ Forall (λ w, t0 <= w.1) ws
  end.

Definition entry_ok (t0 : Z) (e : WindowEntry) : Prop :=
  0 <= count e <= limit ∧ window_start e <= t0.

(** A grant at [t] that opens a window. *)
Lemma opens t gs st :
  1 <= limit → windows st !! k = Some (mkWindowEntry 1 t) → continues st t gs →
  ∃ ws, t :: gs = times ws ∧ windows_ok limit window ws ∧ Forall (λ w, t <= w.1) ws.
Proof.
  intros Hl Hk. unfold continues. rewrite Hk. simpl.
  intros (first & ws & -> & Hc & Hf & [Hw1 Hw2] & Hs).
  exists ((t, t :: first) :: ws). split_and!; [done| |].
  - split; constructor; try done.
    split; simpl; [lia|]. constructor; [lia|done].
  - constructor; [simpl; lia|]. eapply Forall_impl; [exact Hs|]. simpl. lia.
Qed.

(** Dropping an expired entry, or looking again later, keeps the continuation. *)
Lemma continues_swept st st' t0 t gs :
  t0 <= t → from_option (entry_ok t0) True (windows st !! k) →
  windows st' !! k = sweep t window (windows st) !! k →
  continues st' t gs → continues st t0 gs.
Proof.
  intros Ht He Hk. unfold continues. rewrite Hk.
  destruct (sweep_lookup t window (windows st) k) as [->|(-> & e & Hke & Hex)].
  - destruct (windows st !! k) as [e|]; [done|].
    intros (ws & ? & ? & Hs). exists ws. split_and!; [done..|]. eapply Forall_impl; [exact Hs|]. simpl. lia.
  - rewrite Hke in He |- *. destruct He as [_ He].
    intros (ws & -> & Hok & Hs). exists [], ws. simpl.
    split_and!; [done|lia|done|done|]. unfold expired, duration_since in Hex. apply Z.leb_le in Hex.
    eapply Forall_impl; [exact Hs|]. simpl. intros w Hw. lia.
Qed.

(** A call for the key itself: it keeps the entry in order, and what follows it
    continues what it found after the sweep. *)
Definition own_step (t : Z) (ws : gmap string WindowEntry) (st' : FixedWindowLimiter) (r : result unit ConrogateError) : Prop :=
  from_option (entry_ok t) True (windows st' !! k) ∧
  ∀ gs, continues st' t gs → continues (mkFixed ws) t ((if is_ok r then [t] else []) ++ gs).

(** ... in a window that has ended: a new one starts at [t]. *)
Lemma own_step_expired t ws e st' r :
  ws !! k = Some e → entry_ok t e → expired t window e = true →
  (if limit <=? 0 then (mkFixed (<[k := mkWindowEntry 0 t]> ws), Err RateLimited)
   else (mkFixed (<[k := mkWindowEntry 1 t]> ws), Ok tt)) = (st', r) →
  own_step t ws st' r.
Proof using Hlimit Hwindow.
  intros Hk He Hex E. unfold expired, duration_since in Hex. apply Z.leb_le in Hex.
  destruct (Z.leb_spec limit 0); simplify_eq/=; (split; [simpl; rewrite lookup_insert_eq; unfold entry_ok; simpl; lia|]);
    intros gs Hc; unfold continues; cbn [windows]; rewrite Hk.
  - unfold continues in Hc. simpl in Hc. rewrite lookup_insert_eq in Hc.
    destruct Hc as (first & rest & -> & Hc & Hf & Hok & Hs). simpl in *.
    destruct first; [|simpl in Hc; lia]. exists [], rest. split_and!; [done|simpl; lia|done|done|].
    eapply Forall_impl; [exact Hs|]. simpl. lia.
  - destruct (opens t gs (mkFixed (<[k := mkWindowEntry 1 t]> ws))) as (rest & Hr & Hok & Hs);
      [lia|apply lookup_insert_eq|done|].
    exists [], rest. simpl app. rewrite Hr. split_and!; [done|simpl; lia|done|done|].
    eapply Forall_impl; [exact Hs|]. simpl. lia.
Qed.

(** ... in a window that goes on. *)
Lemma own_step_live t ws e st' r :
  ws !! k = Some e → entry_ok t e → expired t window e = false →
  (if limit <=? count e then (mkFixed (<[k := e]> ws), Err RateLimited)
   else (mkFixed (<[k := mkWindowEntry (u32_wrap (count e + 1)) (window_start e)]> ws), Ok tt)) = (st', r) →
  own_step t ws st' r.
Proof using Hlimit Hwindow.
  intros Hk [Hce Hse] Hex E. unfold expired, duration_since in Hex. apply Z.leb_gt in Hex.
  destruct (Z.leb_spec limit (count e)); simplify_eq/=; unfold u32_wrap; rewrite ?Z.mod_small by lia;
    (split; [simpl; rewrite lookup_insert_eq; unfold entry_ok; simpl; lia|]);
    intros gs Hc; unfold continues in Hc |- *; cbn [windows] in *; rewrite lookup_insert_eq in Hc; rewrite Hk; [done|].
  destruct Hc as (first & rest & -> & Hc & Hf & Hok & Hs). simpl in *.
  exists (t :: first), rest. split_and!; [done|simpl; lia|constructor; [lia|done]|done|done].
Qed.

Lemma acquire_own st t st' r :
  let ws := sweep t window (windows st) in
  from_option (entry_ok t) True (ws !! k) → acquire st t k limit window = (st', r) → own_step t ws st' r.
Proof using Hlimit Hwindow.
  intros ws Hws E. unfold acquire in E. fold ws in E. destruct (ws !! k) as [e|] eqn:Hk.
  - destruct (expired t window e) eqn:Hex; cbn [count window_start] in E;
      [by apply (own_step_expired t ws e)|by apply (own_step_live t ws e)].
  - destruct (Z.eqb_spec limit 0); simplify_eq/=.
    + split; [by simpl; rewrite Hk|]. done.
    + split; [simpl; rewrite lookup_insert_eq; unfold entry_ok; simpl; lia|]. intros gs Hc.
      unfold continues. cbn [windows]. rewrite Hk.
      apply (opens t gs (mkFixed (<[k := mkWindowEntry 1 t]> ws))); [lia|apply lookup_insert_eq|done].
Qed.

Lemma granted_continues st t0 reqs :
  clocked t0 reqs → from_option (entry_ok t0) True (windows st !! k) →
  continues st t0 (granted lim window k st reqs).
Proof using Hlim Hlimit Hwindow.
  revert st t0. induction reqs as [|[t k'] reqs IH]; intros st t0 Hcl He.
  { unfold continues. simpl. destruct (windows st !! k) as [e|].
    - exists [], []. split_and!; [done|simpl; lia|done|apply windows_ok_nil|done].
    - exists []. split_and!; [done|apply windows_ok_nil|done]. }
  destruct Hcl as [Ht Hcl]. cbn [granted limiter_acquire fixed_limiter].
  destruct (acquire st t k' (lim k') window) as [st' r] eqn:Eacq.
  assert (from_option (entry_ok t) True (sweep t window (windows st) !! k)) as Hews.
  { destruct (sweep_lookup t window (windows st) k) as [E|[E _]]; rewrite E; [|done].
    destruct (windows st !! k) as [e|]; [|done]. simpl in *. unfold entry_ok in *. lia. }
  destruct (decide (k' = k)) as [->|Hne].
  - rewrite (bool_decide_eq_true_2 (k = k)), andb_true_r by done. rewrite Hlim in Eacq.
    destruct (acquire_own st t st' r Hews Eacq) as [He' Hstep].
    apply (continues_swept st (mkFixed (sweep t window (windows st))) t0 t); [done..|]. by apply Hstep, IH.
  - rewrite (bool_decide_eq_false_2 (k' = k)), andb_false_r by done. simpl app.
    pose proof (acquire_other st t k' (lim k') window k Hne) as Ho. rewrite Eacq in Ho. simpl in Ho.
    apply (continues_swept st st' t0 t); [done..|]. apply IH; [done|]. by rewrite Ho.
Qed.
End Partition.

Lemma windows_span limit window a ws b :
  0 < window → 0 <= limit → windows_ok limit window ws → Forall (λ w, b <= w.1) ws →
  span_count a window (times ws) <=
    (if decide (a + window <= b) then 0 else if decide (a <= b) then limit else 2 * limit).
Proof.
  intros Hw Hl [Hok Hss]. revert b. induction Hss as [|[s ts] ws Hss IH Hs]; intros b Hb.
  { repeat case_decide; unfold times, span_count; simpl; lia. }
  apply Forall_cons in Hok as [[Hlen Hts] Hok]. apply Forall_cons in Hb as [Hbs _]. simpl in *.
  specialize (IH Hok (s + window) Hs).
  change (times ((s, ts) :: ws)) with (ts ++ times ws). rewrite span_count_app.
  pose proof (span_count_le a window ts). pose proof (span_count_nonneg a window ts).
  assert (a + window <= s ∨ s + window <= a → span_count a window ts = 0) as Hz.
  { intros Hd. apply span_count_none. eapply Forall_impl; [exact Hts|]. simpl. lia. }
  repeat case_decide; lia.
Qed.

Lemma granted_windows lim window k reqs t0 :
  0 <= lim k < 2 ^ 32 → 0 < window → clocked t0 reqs →
  (∃ ws, granted lim window k new reqs = times ws ∧ windows_ok (lim k) window ws) ∧
  ∀ a, span_count a window (granted lim window k new reqs) <= 2 * lim k.
Proof.
  intros Hl Hw Hcl.
  pose proof (granted_continues lim (lim k) window k eq_refl Hl Hw new t0 reqs Hcl I) as (ws & Hgs & Hok & Hs).
  split; [eauto|]. intros a. rewrite Hgs.
  pose proof (windows_span (lim k) window a ws t0 Hw ltac:(lia) Hok Hs) as Hb.
  repeat case_decide; lia.
Qed.

#[export] Instance fixed_limiter_ok : LimiterOk FixedWindowLimiter.
Proof.
  refine {| limiter_init := new; limiter_bound l := 2 * l |}.
  intros lim window k reqs t0 a Hl Hw Hcl. by apply (granted_windows lim window k reqs t0).
Defined.

(** Fixed windows: the grants of a key split into windows of the configured
    length, disjoint and in order, with at most [limit] grants each; so no
    interval of the window's length holds more than twice the limit. *)
Theorem fixed_window_bound lim window k reqs t0 :
  0 <= lim k < 2 ^ 32 → 0 < window → clocked t0 reqs →
  (∃ ws, granted lim window k new reqs = times ws ∧ windows_ok (lim k) window ws) ∧
  ∀ a, span_count a window (granted lim window k new reqs) <= 2 * lim k.
Proof. apply granted_windows. Qed.

(** Twice the limit is reached across the border of two windows. *)
Lemma fixed_window_bound_witness :
  let gs := granted (λ _, 2) 100 "k" new [(0, "k"); (99, "k"); (99, "j"); (99, "k"); (100, "k"); (101, "k"); (102, "k")]%string in
  gs = [0; 99; 100; 101] ∧ ∀ a, span_count a 100 gs <= 2 * 2.
Proof. split; [vm_compute; reflexivity|]. apply (fixed_window_bound (λ _, 2) 100 "k" _ 0); simpl; lia. Defined.
End FixedWindowL.

(** ** Sliding window *)

Module SlidingWindowL.

Record SlidingWindowLimiter := mkSliding { windows : gmap string (list Z) }.

Definition new : SlidingWindowLimiter := mkSliding ∅.

(** A key is idle when its last record is outside the window. *)
Definition idle (now window : Z) (v : list Z) : bool :=
  match last v with Some t => window <=? duration_since now t | None => true end.

Definition sweep (now window : Z) (ws : gmap string (list Z)) : gmap string (list Z) :=
  if MAX_ENTRIES <=? Z.of_nat (size ws) then filter (λ kv, idle now window kv.2 = false) ws else ws.

Definition acquire (st : SlidingWindowLimiter) (now : Z) (key : string) (limit window : Z) :
    SlidingWindowLimiter * result unit ConrogateError :=
  let ws := sweep now window (windows st) in
  let timestamps := default [] (ws !! key) in
  let kept := List.filter (λ t, duration_since now t <? window) timestamps in
  if limit <=? u32_wrap (Z.of_nat (length kept))
  then (mkSliding (<[key := kept]> ws), Err RateLimited)
  else (mkSliding (<[key := kept ++ [now]]> ws), Ok tt).

#[export] Instance sliding_limiter : Limiter SlidingWindowLimiter :=
  {| limiter_algorithm := SlidingWindow; limiter_acquire := acquire |}.

(** The records of a key. *)
Definition records (st : SlidingWindowLimiter) (k : string) : list Z := default [] (windows st !! k).

(** Records in order, none in the future. *)
Definition ordered (t0 : Z) (l : list Z) : Prop := StronglySorted Z.le l ∧ Forall (λ x, x <= t0) l.

Lemma ordered_last t0 l x : ordered t0 l → last l = Some x → Forall (λ y, y <= x) l.
Proof.
  intros [Hs _] Hl. apply last_Some in Hl as [l' ->].
  apply Forall_app. split; [|by constructor].
  induction l' as [|y l' IH]; [constructor|]. apply StronglySorted_inv in Hs as [Hs Hy].
  apply Forall_app in Hy as [_ Hy]. apply Forall_cons in Hy as [Hy _]. constructor; [done|auto].
Qed.

Lemma ordered_filter t0 (P : Z → bool) l : ordered t0 l → ordered t0 (List.filter P l).
Proof.
  intros [Hs Hf]. split.
  - induction Hs as [|x l Hs IH Hx]; [constructor|]. apply Forall_cons in Hf as [? Hf]. simpl.
    destruct (P x); [|auto]. constructor; [auto|].
    apply Forall_forall. intros y [Hy _]%list_elem_of_In%filter_In. rewrite Forall_forall in Hx.
    by apply Hx, list_elem_of_In.
  - apply Forall_forall. intros y [Hy _]%list_elem_of_In%filter_In. rewrite Forall_forall in Hf.
    by apply Hf, list_elem_of_In.
Qed.

Lemma ordered_later t0 t l : t0 <= t → ordered t0 l → ordered t l.
Proof. intros Ht [Hs Hf]. split; [done|]. eapply Forall_impl; [exact Hf|]. simpl. lia. Qed.

Lemma ordered_snoc t l : ordered t l → ordered t (l ++ [t]).
Proof.
  intros [Hs Hf]. split; [|apply Forall_app; split; [done|by constructor]].
  induction Hs as [|x l Hs IH Hx]; [repeat constructor|]. apply Forall_cons in Hf as [? Hf].
  constructor; [auto|]. apply Forall_app. split; [done|by repeat constructor].
Qed.

Section Bound.
Context (lim : string → Z) (limit window : Z) (k : string) (Hlim : lim k = limit).
Context (Hlimit : 0 <= limit < 2 ^ 32) (Hwindow : 0 < window).

Definition within (l : list Z) : Prop := ∀ a, span_count a window l <= limit.

(** The records still in the window at [t]. *)
Definition recent (t : Z) (l : list Z) : list Z := List.filter (λ x, duration_since t x <? window) l.

(** Forgetting what has left the window at [t] does not matter for spans that
    reach grants from [t] on. *)
Lemma within_recent t l gs :
  ordered t l → Forall (λ g, t <= g) gs → within l → within (recent t l ++ gs) → within (l ++ gs).
Proof.
  intros [_ Hl] Hgs Hwl Hw a. rewrite span_count_app.
  destruct (decide (a + window <= t)) as [Ha|Ha].
  - rewrite (span_count_none a window gs).
    + specialize (Hwl a). lia.
    + eapply Forall_impl; [exact Hgs|]. simpl. lia.
  - specialize (Hw a). rewrite span_count_app in Hw.
    assert (span_count a window (recent t l) = span_count a window l) as <-; [|lia].
    unfold span_count, recent. f_equal. f_equal. clear -Hl Ha.
    induction Hl as [|x l Hx Hl IH]; [done|]. simpl.
    destruct (Z.ltb_spec (duration_since t x) window) as [Hd|Hd]; simpl; [by rewrite IH|].
    replace (in_span a window x) with false; [done|]. symmetry. unfold in_span, duration_since in *.
    apply andb_false_iff. left. apply Z.leb_gt. lia.
Qed.

(** Dropping an idle key drops only what has left the window. *)
Lemma sweep_records t t0 st :
  t0 <= t → ordered t0 (records st k) →
  let swept := default [] (sweep t window (windows st) !! k) in
  swept = records st k ∨ (swept = [] ∧ recent t (records st k) = []).
Proof.
  intros Ht Ho swept. unfold swept, sweep, records in *. destruct (MAX_ENTRIES <=? _); [|by left].
  destruct (windows st !! k) as [v|] eqn:E.
  2: { left. by rewrite map_lookup_filter_None_2 by (by left). }
  destruct (idle t window v) eqn:Ei.
  2: { left. by rewrite (map_lookup_filter_Some_2 _ _ _ _ E). }
  right. rewrite map_lookup_filter_None_2.
  2: { right. intros x Hx. simplify_eq. simpl. congruence. }
  split; [done|]. simpl in *. unfold idle in Ei. destruct (last v) as [x|] eqn:El.
  2: { apply last_None in El as ->. done. }
  pose proof (ordered_last t0 v x Ho El) as Hle. apply Z.leb_le in Ei. clear -Hle Ei.
  unfold recent, duration_since in *. induction Hle as [|y v Hy Hv IH]; [done|]. simpl.
  destruct (Z.ltb_spec (Z.max 0 (t - y)) window); [lia|done].
Qed.

Lemma granted_ge st t0 reqs : clocked t0 reqs → Forall (λ g, t0 <= g) (granted lim window k st reqs).
Proof.
  revert st t0. induction reqs as [|[t k'] reqs IH]; intros st t0 Hcl; [constructor|].
  destruct Hcl as [Ht Hcl]. cbn [granted]. destruct (limiter_acquire st t k' (lim k') window) as [st' r].
  apply Forall_app. split.
  - destruct (is_ok r && bool_decide (k' = k)); [|constructor]. by repeat constructor.
  - eapply Forall_impl; [exact (IH st' t Hcl)|]. simpl. lia.
Qed.

(** The records of [k] after a call. *)
Lemma acquire_records st t k' :
  let swept := default [] (sweep t window (windows st) !! k) in
  let '(st', r) := acquire st t k' (lim k') window in
  records st' k =
    if decide (k' = k) then
      (if limit <=? u32_wrap (Z.of_nat (length (recent t swept))) then recent t swept
       else recent t swept ++ [t])
    else swept.
Proof.
  unfold acquire, records. destruct (decide (k' = k)) as [->|Hne].
  - rewrite Hlim. unfold recent. destruct (limit <=? _); cbn [windows]; by rewrite lookup_insert_eq.
  - destruct (lim k' <=? _); cbn [windows]; by rewrite lookup_insert_ne.
Qed.

Lemma within_nil : within [].
Proof. intros a. unfold span_count. simpl. lia. Qed.

Lemma within_filter (P : Z → bool) l : within l → within (List.filter P l).
Proof.
  intros H a. specialize (H a). unfold span_count in *.
  enough (length (List.filter (in_span a window) (List.filter P l)) <=
          length (List.filter (in_span a window) l))%nat by lia. clear.
  induction l as [|x l IH]; simpl; [done|].
  destruct (P x); simpl; destruct (in_span a window x); simpl; lia.
Qed.

Lemma within_short l : Z.of_nat (length l) <= limit → within l.
Proof. intros H a. pose proof (span_count_le a window l). lia. Qed.

(** The window at [t] holds every recent record, so there are at most [limit]. *)
Lemma recent_length t l : ordered t l → within l → Z.of_nat (length (recent t l)) <= limit.
Proof.
  intros [_ Hl] Hw. specialize (Hw (t - window + 1)). unfold span_count in Hw.
  enough (List.filter (in_span (t - window + 1) window) l = recent t l) as <- by lia.
  clear Hw. unfold recent, in_span, duration_since. induction Hl as [|x l Hx Hl IH]; [done|]. simpl.
  rewrite IH. destruct (Z.ltb_spec (Z.max 0 (t - x)) window) as [H|H].
  - rewrite (proj2 (Z.leb_le _ _)), (proj2 (Z.ltb_lt _ _)) by lia. done.
  - rewrite (proj2 (Z.leb_gt _ _)) by lia. done.
Qed.

Lemma span_count_recent a t l : span_count a window (recent t l) <= span_count a window l.
Proof.
  unfold span_count, recent. induction l as [|x l IH]; simpl; [done|].
  destruct (duration_since t x <? window); simpl; destruct (in_span a window x); simpl; lia.
Qed.

(** One call, seen from key [k]: what it keeps and grants. *)
Lemma acquire_step st t0 t k' :
  t0 <= t → ordered t0 (records st k) → within (records st k) →
  let '(st', r) := acquire st t k' (lim k') window in
  let g := if is_ok r && bool_decide (k' = k) then [t] else [] in
  ordered t (records st' k) ∧ within (records st' k) ∧
  ∀ gs, within (records st' k ++ gs) → within (recent t (records st k) ++ g ++ gs).
Proof.
  intros Ht Ho Hw. pose proof (ordered_later _ _ _ Ht Ho) as Hot.
  pose proof (acquire_records st t k') as Hrec.
  assert (let '(st', r) := acquire st t k' (lim k') window in k' = k →
    is_ok r = negb (limit <=? u32_wrap (Z.of_nat (length (recent t (default [] (sweep t window (windows st) !! k))))))) as Hr.
  { unfold acquire. fold (recent t (default [] (sweep t window (windows st) !! k'))).
    destruct (lim k' <=? _) eqn:El; intros ->; rewrite Hlim in El; by rewrite El. }
  destruct (acquire st t k' (lim k') window) as [st' r].
  set (swept := default [] (sweep t window (windows st) !! k)) in *.
  assert (recent t swept = recent t (records st k)) as Heq.
  { destruct (sweep_records t t0 st Ht Ho) as [Hs|[Hs Hs']]; fold swept in Hs; rewrite Hs; [done|]. by rewrite Hs'. }
  destruct (decide (k' = k)) as [Hk|Hk].
  - rewrite Hr, Hrec, Heq, bool_decide_eq_true_2, andb_true_r by done.
    pose proof (recent_length t _ Hot Hw) as Hlen.
    pose proof (ordered_filter t (λ x, duration_since t x <? window) _ Hot) as Hof. fold (recent t (records st k)) in Hof.
    assert (within (recent t (records st k))) as Hwr by (by apply within_short).
    destruct (Z.leb_spec limit (u32_wrap (Z.of_nat (length (recent t (records st k)))))) as [Hl|Hl]; simpl.
    + done.
    + unfold u32_wrap in Hl. rewrite Z.mod_small in Hl by lia. split_and!.
      * by apply ordered_snoc.
      * apply within_short. rewrite length_app. simpl. lia.
      * intros gs. by rewrite <-app_assoc.
  - rewrite Hrec, bool_decide_eq_false_2, andb_false_r by done. simpl app.
    destruct (sweep_records t t0 st Ht Ho) as [Hs|[Hs Hs']]; fold swept in Hs; rewrite Hs.
    + split_and!; [done..|]. intros gs Hgs a. specialize (Hgs a). rewrite span_count_app in Hgs |- *.
      pose proof (span_count_recent a t (records st k)). lia.
    + rewrite Hs'. split_and!; [repeat constructor|apply within_nil|done].
Qed.

Lemma granted_within st t0 reqs :
  clocked t0 reqs → ordered t0 (records st k) → within (records st k) →
  within (records st k ++ granted lim window k st reqs).
Proof.
  revert st t0. induction reqs as [|[t k'] reqs IH]; intros st t0 Hcl Ho Hw.
  { simpl. by rewrite app_nil_r. }
  destruct Hcl as [Ht Hcl]. pose proof (acquire_step st t0 t k' Ht Ho Hw) as Hstep.
  cbn [granted limiter_acquire sliding_limiter].
  destruct (acquire st t k' (lim k') window) as [st' r]. destruct Hstep as (Ho' & Hw' & Hgs).
  apply (within_recent t); [by eapply ordered_later| |done|].
  - apply Forall_app. split; [|by apply granted_ge].
    destruct (is_ok r && bool_decide (k' = k)); by repeat constructor.
  - apply Hgs. by apply (IH st' t).
Qed.
End Bound.

Lemma granted_spans lim window k reqs t0 a :
  0 <= lim k < 2 ^ 32 → 0 < window → clocked t0 reqs →
  span_count a window (granted lim window k new reqs) <= lim k.
Proof.
  intros Hl Hw Hcl.
  apply (granted_within lim (lim k) window k eq_refl Hl Hw new t0 reqs Hcl); [repeat constructor|by apply within_nil].
Qed.

#[export] Instance sliding_limiter_ok : LimiterOk SlidingWindowLimiter.
Proof. refine {| limiter_init := new; limiter_bound l := l |}. apply granted_spans. Defined.

(** Sliding window: no interval of the window's length, wherever it
    starts, holds more than [limit] grants of a key. *)
Theorem sliding_window_bound lim window k reqs t0 a :
  0 <= lim k < 2 ^ 32 → 0 < window → clocked t0 reqs →
  span_count a window (granted lim window k new reqs) <= lim k.
Proof. apply granted_spans. Qed.

Definition demo_requests : list (Z * string) :=
  [(0, "k"); (99, "k"); (99, "j"); (99, "k"); (100, "k"); (101, "k"); (199, "k")]%string.

Lemma sliding_window_bound_witness :
  granted (λ _, 2) 100 "k" new demo_requests = [0; 99; 100; 199] ∧
  span_count 50 100 (granted (λ _, 2) 100 "k" new demo_requests) <= 2.
Proof. split; [vm_compute; reflexivity|]. apply (sliding_window_bound (λ _, 2) 100 "k" _ 0 50); simpl; lia. Defined.
End SlidingWindowL.

(** ** Token bucket *)

Module TokenBucketL.
Import F64.

Record TokenBucket := mkBucket {
  tokens : f64;
  capacity : f64;
  refill_rate : f64;
  last_refill : Z;
}.

(** What an attempt to run the script on the Redis server gives: no connection,
    an error, or the integer the script returned. *)
Inductive redis_reply := NoConnection | EvalError | Reply (n : Z).

Record TokenBucketLimiter := mkTokenBucket {
  buckets : gmap string TokenBucket;
  redis : bool;  (* cluster mode: a [RedisClusterStore] is present *)
}.

Definition new : TokenBucketLimiter := mkTokenBucket ∅ false.
Definition with_redis (st : TokenBucketLimiter) : TokenBucketLimiter := mkTokenBucket (buckets st) true.

(** The key and the numbers [RedisClusterStore::acquire] sends to the script:
    capacity and refill per millisecond. *)
Definition redis_command (key : string) (limit window : Z) : string * (Z * f64) :=
  ("rl:" +:+ key, (limit, div (of_Z limit) (of_Z (i64_wrap (Z.max (as_millis window) 1))))).

(** [RedisClusterStore::acquire] on the reply: it fails open. *)
Definition redis_acquire (reply : redis_reply) : result unit ConrogateError :=
  match reply with
  | NoConnection | EvalError => Ok tt
  | Reply n => if n =? 1 then Ok tt else Err RateLimited
  end.

(** [limit as f64 / window_secs.max(0.001)]. *)
Definition rate_of (limit window : Z) : f64 :=
  div (of_Z limit) (max (as_secs_f64 window) (div (of_Z 1) (of_Z 1000))).

(** The bucket after its refill at [now]. *)
Definition refill (now : Z) (b : TokenBucket) : TokenBucket :=
  let elapsed := as_secs_f64 (duration_since now (last_refill b)) in
  mkBucket (min (add (tokens b) (mul elapsed (refill_rate b))) (capacity b)) (capacity b) (refill_rate b) now.

(** [acquire] in single-process mode. *)
Definition acquire_local (bs : gmap string TokenBucket) (now : Z) (key : string) (limit window : Z) :
    gmap string TokenBucket * result unit ConrogateError :=
  match bs !! key with
  | Some bucket =>
      let b := refill now bucket in
      if leb (capacity b) (tokens b) then (delete key bs, Ok tt)
      else if ltb (tokens b) one then (<[key := b]> bs, Err RateLimited)
      else (<[key := mkBucket (sub (tokens b) one) (capacity b) (refill_rate b) (last_refill b)]> bs, Ok tt)
  | None =>
      if limit =? 0 then (bs, Err RateLimited)
      else (<[key := mkBucket (sub (of_Z limit) one) (of_Z limit) (rate_of limit window) now]> bs, Ok tt)
  end.

(** [TokenBucketLimiter::acquire]; [reply] is consulted in cluster mode only. *)
Definition acquire (reply : redis_reply) (st : TokenBucketLimiter) (now : Z) (key : string) (limit window : Z) :
    TokenBucketLimiter * result unit ConrogateError :=
  if redis st then (st, redis_acquire reply)
  else let '(bs, r) := acquire_local (buckets st) now key limit window in (mkTokenBucket bs false, r).

#[export] Instance token_limiter (reply : redis_reply) : Limiter TokenBucketLimiter :=
  {| limiter_algorithm := TokenBucketAlgorithm; limiter_acquire := acquire reply |}.

(** The results of [n] requests of one key at one instant. *)
Fixpoint burst (n : nat) (bs : gmap string TokenBucket) (now : Z) (key : string) (limit window : Z) :
    list (result unit ConrogateError) :=
  match n with
  | O => []
  | S n' => let '(bs', r) := acquire_local bs now key limit window in r :: burst n' bs' now key limit window
  end.

(** ** Bursts with the one-second window the gateway uses *)

Lemma rate_one_second limit : 0 < limit < 2 ^ 53 → rate_of limit (from_secs 1) = of_Z limit.
Proof.
  intros Hl. unfold rate_of. replace (max _ _) with one by (vm_compute; reflexivity).
  destruct limit as [|p|p]; [lia| |lia]. assert (digits p <= 53) by (apply digits_le; lia).
  rewrite of_Z_pos by done. by apply div_one.
Qed.

Lemma sub_one x : 1 <= x < 2 ^ 53 → sub (of_Z x) one = of_Z (x - 1).
Proof.
  intros Hx. destruct (decide (x = 1)) as [->|Hne]; [vm_compute; reflexivity|].
  apply of_Z_sub; lia.
Qed.

(** A bucket of [x] whole tokens out of [limit], seen at its own time. *)
Definition whole (limit x now : Z) : TokenBucket := mkBucket (of_Z x) (of_Z limit) (of_Z limit) now.

Lemma refill_same limit x now :
  0 <= x < limit → limit < 2 ^ 53 → refill now (whole limit x now) = whole limit x now.
Proof.
  intros Hx Hl. unfold refill, whole. cbn [tokens capacity refill_rate last_refill].
  unfold duration_since. rewrite Z.sub_diag. change (Z.max 0 0) with 0.
  assert (mul (as_secs_f64 0) (of_Z limit) = zero) as ->.
  { replace (as_secs_f64 0) with zero by (vm_compute; reflexivity).
    destruct limit as [|p|p]; [lia| |lia]. rewrite of_Z_pos; [done|]. apply digits_le; lia. }
  rewrite add_zero_r by (apply of_Z_not_neg_zero; lia). f_equal. unfold min.
  rewrite !of_Z_not_nan by lia. rewrite of_Z_ltb by lia.
  destruct (Z.ltb_spec limit x); [lia|done].
Qed.

(** A request on a bucket of whole tokens, at the time of the bucket. *)
Lemma acquire_at_time bs now key limit window x :
  bs !! key = Some (whole limit x now) → 0 <= x < limit → limit < 2 ^ 53 →
  acquire_local bs now key limit window =
    if x =? 0 then (bs, Err RateLimited) else (<[key := whole limit (x - 1) now]> bs, Ok tt).
Proof.
  intros Hb Hx Hl. unfold acquire_local. rewrite Hb, refill_same by done.
  cbn [whole tokens capacity refill_rate last_refill]. change one with (of_Z 1).
  rewrite of_Z_leb, of_Z_ltb by lia. destruct (Z.leb_spec limit x); [lia|].
  destruct (Z.ltb_spec x 1), (Z.eqb_spec x 0); try lia.
  - by rewrite insert_id.
  - change (of_Z 1) with one. rewrite sub_one by lia. done.
Qed.

(** The first request of a key, with the window of the gateway. *)
Lemma acquire_fresh bs now key limit :
  bs !! key = None → 1 <= limit < 2 ^ 53 →
  acquire_local bs now key limit (from_secs 1) = (<[key := whole limit (limit - 1) now]> bs, Ok tt).
Proof.
  intros Hb Hl. unfold acquire_local. rewrite Hb. destruct (Z.eqb_spec limit 0); [lia|].
  by rewrite rate_one_second, sub_one by lia.
Qed.

Lemma burst_whole n bs now key limit window x :
  bs !! key = Some (whole limit x now) → 0 <= x < limit → limit < 2 ^ 53 →
  burst (Z.to_nat x + n) bs now key limit window =
    replicate (Z.to_nat x) (Ok tt) ++ replicate n (Err RateLimited).
Proof.
  intros Hb Hx Hl. remember (Z.to_nat x) as m eqn:Em. revert x bs Hb Hx Em.
  assert (∀ x bs, bs !! key = Some (whole limit x now) → 0 <= x < limit →
    acquire_local bs now key limit window =
      if x =? 0 then (bs, Err RateLimited) else (<[key := whole limit (x - 1) now]> bs, Ok tt)) as Hstep by (intros; by apply acquire_at_time).
  induction m as [|m IH]; intros x bs Hb Hx Em.
  - assert (x = 0) as -> by lia. clear Em. simpl plus. simpl replicate. simpl app.
    induction n as [|n IHn]; [done|]. cbn [burst]. rewrite (Hstep 0 bs Hb) by lia. simpl. by rewrite IHn.
  - cbn [burst Nat.add]. rewrite (Hstep x bs Hb Hx). destruct (Z.eqb_spec x 0); [lia|].
    simpl. f_equal. apply (IH (x - 1)); [by rewrite lookup_insert_eq|lia|lia].
Qed.

Lemma burst_fresh n bs now key limit :
  bs !! key = None → 1 <= limit < 2 ^ 32 →
  burst (Z.to_nat limit + n) bs now key limit (from_secs 1) =
    replicate (Z.to_nat limit) (Ok tt) ++ replicate n (Err RateLimited).
Proof.
  intros Hb Hl. replace (Z.to_nat limit) with (S (Z.to_nat (limit - 1))) by lia.
  cbn [burst Nat.add]. rewrite acquire_fresh by (done || lia). simpl replicate. simpl app. f_equal.
  apply burst_whole; [by rewrite lookup_insert_eq|lia|lia].
Qed.

(** Token bucket, capacity: from a key without a bucket, a burst at one
    instant is granted exactly [limit] requests and the rest is rejected, in
    binary64 arithmetic. *)
Theorem token_bucket_burst n bs now key limit :
  bs !! key = None → 1 <= limit < 2 ^ 32 →
  burst (Z.to_nat limit + n) bs now key limit (from_secs 1) =
    replicate (Z.to_nat limit) (Ok tt) ++ replicate n (Err RateLimited).
Proof. apply burst_fresh. Qed.

Lemma token_bucket_burst_witness :
  burst 5 ∅ 0 "k" 3 (from_secs 1) = [Ok tt; Ok tt; Ok tt; Err RateLimited; Err RateLimited].
Proof. apply (token_bucket_burst 2 ∅ 0 "k" 3); [done|lia]. Defined.

(** Token bucket, idle bucket: a request that finds the bucket refilled to
    its capacity removes the bucket without taking a token, so that the burst
    at that instant is granted one request more than the capacity. *)
Theorem token_bucket_idle_burst n bs b now key limit :
  bs !! key = Some b → leb (capacity b) (tokens (refill now b)) = true → 1 <= limit < 2 ^ 32 →
  burst (S (Z.to_nat limit) + n) bs now key limit (from_secs 1) =
    replicate (S (Z.to_nat limit)) (Ok tt) ++ replicate n (Err RateLimited).
Proof.
  intros Hb Hfull Hl. cbn [burst Nat.add]. unfold acquire_local at 1. rewrite Hb.
  change (capacity (refill now b)) with (capacity b). rewrite Hfull. simpl. f_equal.
  apply burst_fresh; [by rewrite lookup_delete_eq|done].
Qed.

(** One request, ten seconds of silence, then three requests granted at once
    with a limit of two per second. *)
Lemma token_bucket_idle_burst_witness :
  let bs := (acquire_local ∅ 0 "k" 2 (from_secs 1)).1 in
  burst 4 bs (from_secs 10) "k" 2 (from_secs 1) = [Ok tt; Ok tt; Ok tt; Err RateLimited].
Proof.
  apply (token_bucket_idle_burst 1 _ (mkBucket (of_Z 1) (of_Z 2) (of_Z 2) 0) (from_secs 10) "k" 2);
    [vm_compute; reflexivity|vm_compute; reflexivity|lia].
Defined.

(** Two requests at each of [n] instants [d] apart, the first [d] after [now]. *)
Fixpoint pairs (n : nat) (bs : gmap string TokenBucket) (now d : Z) (key : string) (limit window : Z) :
    list (result unit ConrogateError) :=
  match n with
  | O => []
  | S n' =>
      let '(bs1, r1) := acquire_local bs (now + d) key limit window in
      let '(bs2, r2) := acquire_local bs1 (now + d) key limit window in
      r1 :: r2 :: pairs n' bs2 (now + d) d key limit window
  end.

(** A pause of [d] refills a bucket that misses one token. *)
Definition refills (limit d : Z) : Prop := leb (of_Z limit) (tokens (refill d (whole limit (limit - 1) 0))) = true.

Lemma pairs_granted n bs now d key limit :
  bs !! key = Some (whole limit (limit - 1) now) → 1 <= limit < 2 ^ 32 → refills limit d →
  pairs n bs now d key limit (from_secs 1) = replicate (2 * n) (Ok tt).
Proof.
  intros Hb Hl Hd. revert bs now Hb. induction n as [|n IH]; intros bs now Hb; [done|]. cbn [pairs].
  assert (acquire_local bs (now + d) key limit (from_secs 1) = (delete key bs, Ok tt)) as ->.
  { unfold acquire_local. rewrite Hb. change (capacity (refill _ _)) with (of_Z limit).
    unfold refills, refill, whole in *. cbn [tokens capacity refill_rate last_refill] in *.
    replace (duration_since (now + d) now) with (duration_since d 0) by (unfold duration_since; f_equal; lia).
    by rewrite Hd. }
  unfold acquire_local at 1. rewrite lookup_delete_eq, (proj2 (Z.eqb_neq limit 0)) by lia.
  rewrite rate_one_second, sub_one by lia. replace (2 * S n)%nat with (S (S (2 * n))) by lia. cbn [replicate].
  do 2 f_equal. apply IH. apply lookup_insert_eq.
Qed.

(** Token bucket, sustained rate: a client that pauses just long enough for
    one token to be refilled is granted two requests after every pause, for ever:
    the first finds the bucket full and removes it for free, the second starts a
    full bucket anew. So the sustained rate is twice the configured one. *)
Theorem token_bucket_double_rate n bs now d key limit :
  bs !! key = None → 1 <= limit < 2 ^ 32 → refills limit d →
  let '(bs', r) := acquire_local bs now key limit (from_secs 1) in
  r = Ok tt ∧ pairs n bs' now d key limit (from_secs 1) = replicate (2 * n) (Ok tt).
Proof.
  intros Hb Hl Hd. unfold acquire_local. rewrite Hb, (proj2 (Z.eqb_neq limit 0)) by lia. split; [done|].
  apply pairs_granted; [|done|done]. rewrite rate_one_second, sub_one by lia. apply lookup_insert_eq.
Qed.

(** With a limit of 100 per second, 200 requests are granted in the second after
    the first one, two every ten milliseconds. *)
Lemma token_bucket_double_rate_witness :
  let '(bs', r) := acquire_local ∅ 0 "k" 100 (from_secs 1) in
  r = Ok tt ∧ pairs 100 bs' 0 (from_millis 10) "k" 100 (from_secs 1) = replicate 200 (Ok tt).
Proof.
  apply (token_bucket_double_rate 100 ∅ 0 (from_millis 10) "k" 100); [done|lia|].
  unfold refills. vm_compute. reflexivity.
Defined.
End TokenBucketL.
