(* ===== verification/ClusterLimiter.v ===== *)
(** The token bucket that several gateways share: the Lua script
    [RedisClusterStore] sends, statement by statement, and the limiter in cluster
    mode over a server that runs it (conrogate-traffic/src/limiter.rs).

    The server is a parameter: its clock, HMGET, HSET and PEXPIRE, with the
    expiry of keys. A number of Lua is a binary64; a number given to a command is
    written with seventeen digits, so what HMGET returns reads as the same
    number. A script runs alone and its clock stands still. *)
From Stdlib Require Import ZArith Lia String SpecFloat.
From stdpp Require Import base tactics option list gmap strings.
From S2P Require Import Prelude Errors F64 Limiter.
#[local] Open Scope Z_scope.

Module ClusterLimiter.
Import F64 TokenBucketL.

(** ** The server *)

(** What the script calls. [server_time] is in microseconds; [hmget] gives the
    fields 'tokens' and 'last' of a key, [None] for [nil]; [pexpire] may refuse
    its argument; [deadline] is the time in milliseconds at which a key goes.
    [untouched k r r']: the server went from [r] to [r'] while nobody sent a
    command for [k]. *)
Class RedisServer (R : Type) := {
  server_time : R → Z;
  hmget : R → string → option f64 * option f64;
  hset : R → string → f64 → f64 → R;
  pexpire : R → string → f64 → option R;
  deadline : R → string → option Z;
  untouched : string → R → R → Prop;
}.

Definition server_ms {R} `{RedisServer R} (r : R) : Z := server_time r / 1000.

(** The documented behaviour: HSET stores both fields, PEXPIRE takes a positive
    number of milliseconds and then sets the deadline, neither takes time or
    changes what it is not about, and a key whose deadline has passed is gone. *)
Class RedisServerOk (R : Type) `{RedisServer R} : Prop := {
  hset_time r k t l : server_time (hset r k t l) = server_time r;
  hmget_hset r k t l : hmget (hset r k t l) k = (Some t, Some l);
  pexpire_time r k x r' : pexpire r k x = Some r' → server_time r' = server_time r;
  hmget_pexpire r k x r' : pexpire r k x = Some r' → ltb zero x = true → hmget r' k = hmget r k;
  pexpire_ms r k n : is_Some (hmget r k).1 → 0 < n < 2 ^ 53 →
    ∃ r', pexpire r k (of_Z n) = Some r' ∧ deadline r' k = Some (server_ms r + n);
  untouched_expired k r r' d : untouched k r r' → deadline r k = Some d → d < server_ms r' → hmget r' k = (None, None);
}.

(** ** The script *)

Section Script.
Context {R : Type} `{RedisServer R}.

(** What EVAL returns: the server afterwards, and the script's integer or [None]
    for an error of a command. *)
Definition script_now (r : R) : f64 :=
  add (mul (of_Z (server_time r / 1000000)) (of_Z 1000)) (div (of_Z (server_time r mod 1000000)) (of_Z 1000)).

(** [tokens] after the refill and the capping, with the defaults for a missing
    key. *)
Definition refilled (r : R) (k : string) (cap refill_per_ms : f64) : f64 :=
  let now := script_now r in
  let tokens := default cap (hmget r k).1 in
  let last := default now (hmget r k).2 in
  let tokens := add tokens (mul (sub now last) refill_per_ms) in
  if ltb cap tokens then cap else tokens.

Definition expire (r : R) (k : string) (x : f64) (reply : Z) : R * option Z :=
  match pexpire r k x with Some r' => (r', Some reply) | None => (r, None) end.

Definition bucket_script (r : R) (k : string) (cap refill_per_ms : f64) : R * option Z :=
  let now := script_now r in
  let tokens := refilled r k cap refill_per_ms in
  if ltb tokens one then expire (hset r k tokens now) k (of_Z 1000) 0
  else
    let tokens := sub tokens one in
    expire (hset r k tokens now) k (ceil (div (sub cap tokens) refill_per_ms)) 1.

(** [RedisClusterStore::acquire]: the connection, the script with the key and the
    numbers of [redis_command], the decision on its reply. *)
Definition cluster_acquire (conn : bool) (r : R) (key : string) (limit window : Z) : R * result unit ConrogateError :=
  if negb conn then (r, redis_acquire NoConnection)
  else
    let '(k, (cap, refill)) := redis_command key limit window in
    let '(r', reply) := bucket_script r k (of_Z cap) refill in
    (r', redis_acquire (match reply with Some n => Reply n | None => EvalError end)).

(** [TokenBucketLimiter::acquire] with a server behind it. *)
Definition acquire_with (conn : bool) (st : TokenBucketLimiter) (r : R) (now : Z) (key : string) (limit window : Z) :
    TokenBucketLimiter * R * result unit ConrogateError :=
  if redis st then let '(r', res) := cluster_acquire conn r key limit window in (st, r', res)
  else let '(st', res) := acquire EvalError st now key limit window in (st', r, res).

(** ** What a rejected client gets *)

Context `{!RedisServerOk R} (key : string) (limit window : Z).

Definition rkey : string := (redis_command key limit window).1.
Definition rate : f64 := (redis_command key limit window).2.2.

(** A number that is neither infinite nor undefined. *)
Definition is_finite (x : f64) : bool := match x with S754_zero _ | S754_finite _ _ _ => true | _ => false end.

(** The numbers a bucket is asked with: a limit that is not zero, a rate and times
    to live that binary64 can hold. *)
Definition limit_ok : Prop :=
  1 <= limit < 2 ^ 32 ∧ is_finite rate = true ∧
  ∀ j, 1 <= j <= limit → ltb zero (ceil (div (of_Z j) rate)) = true.

(** The bucket holds [x] whole tokens, counted at this very time. *)
Definition holds (r : R) (x : Z) : Prop := refilled r rkey (of_Z limit) rate = of_Z x.

(** The results of [n] requests that arrive together. *)
Fixpoint cluster_burst (n : nat) (r : R) : list (result unit ConrogateError) * R :=
  match n with
  | O => ([], r)
  | S n' =>
      let '(r', res) := cluster_acquire true r key limit window in
      let '(l, r'') := cluster_burst n' r' in (res :: l, r'')
  end.

Lemma sub_self x : is_finite x = true → sub x x = zero.
Proof.
  destruct x as [[]| | |s m e]; try done. intros _. unfold sub, SFsub. rewrite Z.min_id.
  by rewrite Z.sub_diag.
Qed.

Lemma mul_zero x : is_finite x = true → mul zero x = zero ∨ mul zero x = S754_zero true.
Proof. destruct x as [[]| | |[] m e]; try done; [by right|by left|by right|by left]. Qed.

Lemma add_zero_any x z : 0 <= x < 2 ^ 53 → z = zero ∨ z = S754_zero true → add (of_Z x) z = of_Z x.
Proof.
  intros Hx [->| ->]; [by apply add_zero_r, of_Z_not_neg_zero|].
  destruct x as [|p|p]; [done| |lia]. rewrite of_Z_pos by (apply digits_le; lia). done.
Qed.

(** No time has passed since [last]: the refill adds nothing. *)
Lemma refilled_now r x :
  limit_ok → 0 <= x <= limit → is_finite (script_now r) = true →
  default (of_Z limit) (hmget r rkey).1 = of_Z x → default (script_now r) (hmget r rkey).2 = script_now r → holds r x.
Proof.
  intros (Hl & Hr & _) Hx Hn E1 E2. unfold holds, refilled. rewrite E1, E2, sub_self by done.
  rewrite add_zero_any by (lia || by apply mul_zero). rewrite of_Z_ltb by lia. destruct (Z.ltb_spec limit x); [lia|done].
Qed.

Lemma holds_fresh r : limit_ok → is_finite (script_now r) = true → hmget r rkey = (None, None) → holds r limit.
Proof. intros Hl Hn E. apply refilled_now; rewrite ?E; try done. destruct Hl; lia. Qed.

Lemma script_now_time r r' : server_time r' = server_time r → script_now r' = script_now r.
Proof. unfold script_now. by intros ->. Qed.

(** HSET and PEXPIRE leave the bucket with what HSET stored. *)
Lemma expire_holds r x ttl n r' reply :
  limit_ok → 0 <= x <= limit → is_finite (script_now r) = true → ltb zero ttl = true →
  expire (hset r rkey (of_Z x) (script_now r)) rkey ttl n = (r', reply) →
  holds r' x ∧ server_time r' = server_time r ∧ (reply = Some n ∨ reply = None).
Proof.
  intros Hl Hx Hn Ht. set (h := hset _ _ _ _). assert (server_time h = server_time r) as Eh by apply hset_time.
  assert (hmget h rkey = (Some (of_Z x), Some (script_now r))) as Ef by apply hmget_hset. unfold expire.
  assert (∀ s, server_time s = server_time h → hmget s rkey = hmget h rkey → holds s x ∧ server_time s = server_time r) as Hs.
  { intros s Es Em. assert (script_now s = script_now r) as En by (apply script_now_time; congruence).
    split; [|congruence]. by apply refilled_now; rewrite ?Em, ?Ef, ?En. }
  destruct (pexpire h rkey ttl) as [p|] eqn:E; intros [= <- <-].
  - destruct (Hs p); [by eapply pexpire_time|by eapply hmget_pexpire|auto].
  - destruct (Hs h); auto.
Qed.

(** A request of a bucket of whole tokens: granted when there is one, whether or
    not PEXPIRE went through, and rejected otherwise. *)
Lemma acquire_whole r x :
  limit_ok → 0 <= x <= limit → is_finite (script_now r) = true → holds r x →
  ∃ r', cluster_acquire true r key limit window = (r', if x =? 0 then Err RateLimited else Ok tt) ∧
    holds r' (Z.max 0 (x - 1)) ∧ server_time r' = server_time r ∧ (x = 0 → deadline r' rkey = Some (server_ms r + 1000)).
Proof.
  intros Hl Hx Hn Hh. pose proof Hl as (Hr & _ & Hd). unfold cluster_acquire. simpl negb. cbv iota.
  change (redis_command key limit window) with (rkey, (limit, rate)). cbv iota. unfold bucket_script.
  rewrite Hh. change one with (of_Z 1). rewrite of_Z_ltb by lia. destruct (Z.ltb_spec x 1).
  - assert (x = 0) as -> by lia. set (h := hset _ _ _ _).
    destruct (pexpire_ms h rkey 1000) as (p & E & Ed); [unfold h; rewrite hmget_hset; simpl; eauto|lia|].
    destruct (expire h rkey (of_Z 1000) 0) as [r' reply] eqn:Ex. pose proof Ex as Ex'. unfold expire in Ex'. rewrite E in Ex'. simplify_eq.
    apply expire_holds in Ex as (H1 & H2 & _); try done. exists r'. split_and!; [done|done|done|].
    intros _. rewrite Ed. unfold server_ms, h. by rewrite hset_time.
  - rewrite (proj2 (Z.eqb_neq x 0)) by lia. change (of_Z 1) with one. rewrite sub_one by lia.
    assert (ltb zero (ceil (div (sub (of_Z limit) (of_Z (x - 1))) rate)) = true) as Ht.
    { destruct (decide (x = 1)) as [->|]; [|rewrite of_Z_sub by lia; apply Hd; lia].
      change (of_Z (1 - 1)) with zero. replace (sub (of_Z limit) zero) with (of_Z limit); [apply Hd; lia|].
      destruct limit as [|p|p]; [lia| |lia]. rewrite of_Z_pos by (apply digits_le; lia). done. }
    destruct (expire _ _ _ 1) as [r' reply] eqn:Ex.
    apply expire_holds in Ex as (H1 & H2 & H3); try done; [|lia]. exists r'. rewrite Z.max_r by lia.
    split_and!; [by destruct H3; subst|done|done|lia].
Qed.

Lemma burst_from n r x :
  limit_ok → 0 <= x <= limit → is_finite (script_now r) = true → holds r x →
  ∃ r', cluster_burst (Z.to_nat x + n) r = (replicate (Z.to_nat x) (Ok tt) ++ replicate n (Err RateLimited), r') ∧
    server_time r' = server_time r ∧ ((0 < n)%nat → deadline r' rkey = Some (server_ms r + 1000)).
Proof.
  intros Hl. remember (Z.to_nat x) as m eqn:Em. revert x r Em. induction m as [|m IH]; intros x r Em Hx Hn Hh.
  - assert (x = 0) as -> by lia. clear Em Hx. simpl Nat.add. simpl app. revert r Hn Hh.
    induction n as [|n IHn]; intros r Hn Hh; [exists r; split_and!; [done|done|lia]|].
    destruct (acquire_whole r 0) as (r1 & E & H1 & H2 & H3); try done; [destruct Hl; lia|]. simpl in E, H1.
    destruct (IHn r1) as (r2 & E2 & H4 & H5); [by rewrite (script_now_time r)|done|].
    exists r2. cbn [cluster_burst]. rewrite E, E2. split_and!; [done|congruence|]. intros _.
    destruct n; [|rewrite H5 by lia; unfold server_ms; by rewrite H2]. simpl in E2. simplify_eq. by apply H3.
  - destruct (acquire_whole r x) as (r1 & E & H1 & H2 & _); try done. rewrite (proj2 (Z.eqb_neq x 0)) in E by lia.
    destruct (IH (x - 1) r1) as (r2 & E2 & H4 & H5); [lia|lia|by rewrite (script_now_time r)|by rewrite Z.max_r in H1 by lia|].
    exists r2. cbn [cluster_burst Nat.add]. rewrite E, E2. split_and!; [done|congruence|].
    intros H'. rewrite H5 by done. unfold server_ms. by rewrite H2.
Qed.

(** C37. A shared bucket at one instant: a key nobody used gives exactly [limit] of
    the requests that arrive together, whichever gateways they come through. But
    a rejected request leaves the bucket with a second to live, whatever the
    window: when nobody asks for that key for more than a second afterwards, the
    next burst is granted the whole limit again. *)
Theorem cluster_bucket_resets n r r1 r2 results :
  limit_ok → is_finite (script_now r) = true → hmget r rkey = (None, None) → (0 < n)%nat →
  cluster_burst (Z.to_nat limit + n) r = (results, r1) →
  results = replicate (Z.to_nat limit) (Ok tt) ++ replicate n (Err RateLimited) ∧
  (untouched rkey r1 r2 → server_ms r + 1000 < server_ms r2 → is_finite (script_now r2) = true →
   (cluster_burst (Z.to_nat limit) r2).1 = replicate (Z.to_nat limit) (Ok tt)).
Proof.
  intros Hl Hn Hf H0 E. pose proof Hl as (Hr & _ & _).
  destruct (burst_from n r limit) as (r' & E' & Ht & Hd); [done|lia|done|by apply holds_fresh|].
  rewrite E in E'. simplify_eq. split; [done|]. intros Hu Hlt Hn2.
  destruct (burst_from 0 r2 limit) as (r3 & E3 & _); [done|lia|done|apply holds_fresh; try done|].
  { by eapply untouched_expired; [|apply Hd|]. }
  rewrite Nat.add_0_r in E3. rewrite E3. simpl. by rewrite app_nil_r.
Qed.
End Script.
End ClusterLimiter.

(** ** A server that keeps the promises *)

Module ClusterDemo.
Import F64 ClusterLimiter.

Record server := mkServer { clock : Z; buckets : gmap string (f64 * f64 * option Z) }.

Definition gone (s : server) (d : option Z) : bool := match d with Some d => d <? clock s / 1000 | None => false end.

Definition fields (s : server) (k : string) : option f64 * option f64 :=
  match buckets s !! k with
  | Some (t, l, d) => if gone s d then (None, None) else (Some t, Some l)
  | None => (None, None)
  end.

Definition store (s : server) (k : string) (t l : f64) : server :=
  mkServer (clock s)
    (<[k := (t, l, match buckets s !! k with Some (_, _, d) => if gone s d then None else d | None => None end)]> (buckets s)).

(** A whole number of milliseconds, or nothing. *)
Definition expire_in (s : server) (k : string) (x : f64) : option server :=
  let n := to_u64 x in
  if (0 <? n) && leb x (of_Z n) && leb (of_Z n) x then
    match buckets s !! k with
    | Some (t, l, d) => if gone s d then Some s else Some (mkServer (clock s) (<[k := (t, l, Some (clock s / 1000 + n))]> (buckets s)))
    | None => Some s
    end
  else None.

#[export] Instance demo_server : RedisServer server := {|
  server_time := clock;
  hmget := fields;
  hset := store;
  pexpire := expire_in;
  deadline s k := match buckets s !! k with Some (_, _, d) => d | None => None end;
  untouched k s s' := clock s <= clock s' ∧ buckets s' !! k = buckets s !! k;
|}.

#[export] Instance demo_server_ok : RedisServerOk server.
Proof.
  split.
  - done.
  - intros s k t l. simpl. unfold fields, store. simpl. rewrite lookup_insert_eq. unfold gone. simpl.
    destruct (buckets s !! k) as [[[? ?] [d|]]|]; [|done..]. destruct (Z.ltb_spec d (clock s / 1000)); [done|].
    destruct (Z.ltb_spec d (clock s / 1000)); [lia|done].
  - intros s k x s'. simpl. unfold expire_in. destruct (_ && _); [|done]. destruct (buckets s !! k) as [[[? ?] d]|]; [|naive_solver].
    destruct (gone s d); naive_solver.
  - intros s k x s'. simpl. unfold expire_in, fields. destruct (_ && _) eqn:Ex; [|done].
    destruct (buckets s !! k) as [[[t l] d]|] eqn:E; [|intros [= <-] _; by rewrite E].
    destruct (gone s d) eqn:G; intros [= <-] _; [by rewrite E, G|]. simpl. rewrite lookup_insert_eq. unfold gone. simpl.
    rewrite !andb_true_iff, Z.ltb_lt in Ex. destruct (Z.ltb_spec (clock s / 1000 + to_u64 x) (clock s / 1000)); [lia|done].
  - intros s k n. simpl. unfold expire_in, fields, server_ms. simpl. intros Hk Hn. rewrite to_u64_of_Z by lia.
    rewrite !of_Z_leb, !Z.leb_refl by lia. rewrite (proj2 (Z.ltb_lt 0 n)) by lia. simpl.
    destruct (buckets s !! k) as [[[t l] d]|] eqn:E; [|by destruct Hk]. destruct (gone s d); [by destruct Hk|].
    eexists. split; [done|]. simpl. by rewrite lookup_insert_eq.
  - intros k s s' d [_ Hk]. simpl. unfold fields, server_ms. simpl. rewrite Hk.
    destruct (buckets s !! k) as [[[t l] d']|]; [|done]. intros ->. simpl. intros Hd.
    destruct (Z.ltb_spec d (clock s' / 1000)); [done|lia].
Qed.

(** Three requests a minute: three are granted and one rejected; a second and two
    milliseconds later three more are granted. *)
Definition minute : Z := from_secs 60.
Definition at_start : server := mkServer 1700000000123456 ∅.

Lemma three_a_minute : limit_ok "ip:9" 3 minute.
Proof.
  split; [lia|]. split; [vm_compute; reflexivity|]. intros j Hj.
  assert (j = 1 ∨ j = 2 ∨ j = 3) as [->|[->| ->]] by lia; vm_compute; reflexivity.
Qed.

Lemma cluster_bucket_resets_witness :
  let r1 := (cluster_burst "ip:9" 3 minute 4 at_start).2 in
  let r2 := mkServer (clock r1 + 1002000) (buckets r1) in
  (cluster_burst "ip:9" 3 minute 4 at_start).1 = [Ok tt; Ok tt; Ok tt; Err RateLimited] ∧
  (cluster_burst "ip:9" 3 minute 3 r2).1 = [Ok tt; Ok tt; Ok tt].
Proof.
  intros r1 r2.
  destruct (cluster_bucket_resets "ip:9" 3 minute 1 at_start r1 r2 (cluster_burst "ip:9" 3 minute 4 at_start).1) as [H1 H2].
  - exact three_a_minute.
  - vm_compute. reflexivity.
  - reflexivity.
  - lia.
  - apply surjective_pairing.
  - split; [exact H1|]. apply H2; [|vm_compute; reflexivity..]. split; [simpl; lia|reflexivity].
Defined.
End ClusterDemo.
