(* ===== verification/Breaker.v ===== *)
(** The circuit breaker (conrogate-traffic/src/breaker.rs): the local
    Closed/Open/HalfOpen machine with its counting window, the cluster mode that
    decides on counters shared through Redis, and the factory that keeps one
    breaker per route and node.

    Every operation takes the times its clock reads return. Redis is a
    parameter: a type of stores with the documented behaviour of [INCRBY],
    [MGET] and key expiry. *)
From Stdlib Require Import ZArith Lia Ascii String SpecFloat.
From stdpp Require Import base tactics option list gmap strings pretty.
From S2P Require Import Prelude Text Errors Core F64.
#[local] Open Scope Z_scope.

Module Breaker.
Import F64.

Inductive BreakerState := Closed | Open | HalfOpen.

#[global] Instance BreakerState_eq_dec : EqDecision BreakerState.
Proof. solve_decision. Defined.

Record BreakerInner := mkInner {
  state : BreakerState;
  failure_count : Z;
  success_count : Z;
  window_start : Z;
  last_failure_time : option Z;
}.

Record ClusterSnapshot := mkClusterSnapshot { snap_success : Z; snap_failure : Z; fetched_at : Z }.

Record BreakerConfig := mkBreakerConfig {
  window : Z;
  failure_rate_threshold : f64;
  min_requests : Z;
  wait : Z;
  half_open_max : Z;
  redis_url : option string;
}.

(** [impl Default for BreakerConfig]; 0.5 is one half exactly. *)
Definition default_breaker_config : BreakerConfig :=
  mkBreakerConfig (from_secs 10) (div (of_Z 1) (of_Z 2)) 10 (from_secs 30) 5 None.

Record BreakerImpl := mkBreaker {
  inner : BreakerInner;
  config : BreakerConfig;
  key : string;
  cluster_cache : option ClusterSnapshot;
}.

Definition new_inner (now : Z) : BreakerInner := mkInner Closed 0 0 now None.

Definition breaker_new (cfg : BreakerConfig) (k : string) (now : Z) : BreakerImpl :=
  mkBreaker (new_inner now) cfg k None.

(** The clock reads of one operation: the check of the window, its reset, and
    the later use. *)
Record clock := mkClock { c_check : Z; c_reset : Z; c_use : Z }.

(** [refresh_window]. *)
Definition refresh_window (ck : clock) (w : Z) (i : BreakerInner) : BreakerInner :=
  if w <=? duration_since (c_check ck) (window_start i)
  then mkInner (state i) 0 0 (c_reset ck) (last_failure_time i)
  else i.

(** ** The local machine *)

(** [allow] in single-process mode. *)
Definition allow_local (cfg : BreakerConfig) (ck : clock) (i : BreakerInner) :
    BreakerInner * result unit ConrogateError :=
  let i := refresh_window ck (window cfg) i in
  match state i with
  | Closed => (i, Ok tt)
  | Open =>
      match last_failure_time i with
      | Some last_failure =>
          if wait cfg <=? duration_since (c_use ck) last_failure
          then (mkInner HalfOpen 0 0 (window_start i) (last_failure_time i), Ok tt)
          else (i, Err CircuitBreakerOpen)
      | None => (i, Err CircuitBreakerOpen)
      end
  | HalfOpen =>
      if u64_wrap (success_count i + failure_count i) <? half_open_max cfg
      then (i, Ok tt) else (i, Err CircuitBreakerOpen)
  end.

(** The local part of [record_success]. *)
Definition record_success_local (cfg : BreakerConfig) (ck : clock) (i : BreakerInner) : BreakerInner :=
  let i := refresh_window ck (window cfg) i in
  let s := u64_wrap (success_count i + 1) in
  let i := mkInner (state i) (failure_count i) s (window_start i) (last_failure_time i) in
  match state i with
  | HalfOpen =>
      if half_open_max cfg <=? s
      then mkInner Closed 0 0 (window_start i) (last_failure_time i) else i
  | _ => i
  end.

(** The local part of [record_failure]. *)
Definition record_failure_local (cfg : BreakerConfig) (ck : clock) (i : BreakerInner) : BreakerInner :=
  let i := refresh_window ck (window cfg) i in
  let f := u64_wrap (failure_count i + 1) in
  let st' :=
    match state i with
    | Closed =>
        let total := u64_wrap (success_count i + f) in
        if min_requests cfg <=? total then
          if leb (failure_rate_threshold cfg) (div (of_Z f) (of_Z total)) then Open else Closed
        else Closed
    | HalfOpen => Open
    | Open => Open
    end in
  mkInner st' f (success_count i) (window_start i) (Some (c_use ck)).

Inductive op := Allow | RecordSuccess | RecordFailure.

Definition apply_op (cfg : BreakerConfig) (o : op) (ck : clock) (i : BreakerInner) :
    BreakerInner * option (result unit ConrogateError) :=
  match o with
  | Allow => let '(i', r) := allow_local cfg ck i in (i', Some r)
  | RecordSuccess => (record_success_local cfg ck i, None)
  | RecordFailure => (record_failure_local cfg ck i, None)
  end.

(** The states the machine reaches, with the time of the last operation. *)
Inductive reachable (cfg : BreakerConfig) : BreakerInner → Z → Prop :=
| reach_new t : reachable cfg (new_inner t) t
| reach_op o ck i t :
    reachable cfg i t → t <= c_check ck → c_check ck <= c_reset ck → c_reset ck <= c_use ck →
    reachable cfg (apply_op cfg o ck i).1 (c_use ck).

(** The invariant of the local machine. *)
Definition inner_ok (cfg : BreakerConfig) (i : BreakerInner) (t : Z) : Prop :=
  match state i with
  | Closed => True
  | Open => ∃ l, last_failure_time i = Some l ∧ l <= t
  | HalfOpen => failure_count i = 0 ∧ 0 <= success_count i < half_open_max cfg
  end.

Lemma refresh_state ck w i : state (refresh_window ck w i) = state i.
Proof. unfold refresh_window. by destruct (w <=? _). Qed.

Lemma refresh_last ck w i : last_failure_time (refresh_window ck w i) = last_failure_time i.
Proof. unfold refresh_window. by destruct (w <=? _). Qed.

(** A refresh keeps the counts or zeroes them. *)
Lemma refresh_counts ck w i :
  (failure_count (refresh_window ck w i) = failure_count i ∧
   success_count (refresh_window ck w i) = success_count i) ∨
  (failure_count (refresh_window ck w i) = 0 ∧ success_count (refresh_window ck w i) = 0).
Proof. unfold refresh_window. destruct (w <=? _); auto. Qed.

Section Local.
Context (cfg : BreakerConfig) (Hmax : 1 <= half_open_max cfg < 2 ^ 32).

Lemma apply_op_ok o ck i t :
  inner_ok cfg i t → t <= c_use ck → inner_ok cfg (apply_op cfg o ck i).1 (c_use ck).
Proof.
  intros Hi Ht. pose proof (refresh_counts ck (window cfg) i) as Hc.
  unfold inner_ok in *. destruct o; simpl.
  - unfold allow_local. rewrite refresh_state, refresh_last. destruct (state i) eqn:Es; simpl.
    + by rewrite refresh_state, Es.
    + destruct Hi as (l & Hl & Hle). rewrite Hl.
      destruct (wait cfg <=? _); simpl; [lia|]. rewrite refresh_state, refresh_last, Es. eauto with lia.
    + destruct (_ <? _); simpl; rewrite refresh_state, Es; lia.
  - unfold record_success_local. cbn [state success_count failure_count window_start last_failure_time].
    rewrite refresh_state, refresh_last. destruct (state i) eqn:Es; cbn [state last_failure_time].
    + done.
    + destruct Hi as (l & Hl & Hle). eauto with lia.
    + destruct (Z.leb_spec (half_open_max cfg) (u64_wrap (success_count (refresh_window ck (window cfg) i) + 1)));
        cbn [state failure_count success_count]; [done|].
      unfold u64_wrap in *. rewrite Z.mod_small in * by lia. lia.
  - unfold record_failure_local. cbn [state last_failure_time]. rewrite refresh_state.
    destruct (state i) eqn:Es; cbn [state last_failure_time].
    + destruct (min_requests cfg <=? _); [|done]. destruct (leb _ _); [|done]. eauto with lia.
    + eauto with lia.
    + eauto with lia.
Qed.

Lemma reachable_ok i t : reachable cfg i t → inner_ok cfg i t.
Proof. induction 1 as [|o ck i t Hr IH H1 H2 H3]; [done|]. eapply apply_op_ok; [exact IH|lia]. Qed.

(** The breaker's invariant: in every reachable state, an open breaker
    knows when it last failed, and a half-open one has seen no failure and fewer
    successes than [half_open_max]. Hence [allow] never rejects in the half-open
    state: the bound on trial requests counts results, not requests let through. *)
Theorem breaker_invariant i t :
  reachable cfg i t →
  inner_ok cfg i t ∧
  (state i = HalfOpen → ∀ ck, (allow_local cfg ck i).2 = Ok tt).
Proof.
  intros Hr. pose proof (reachable_ok i t Hr) as Hi. split; [done|]. intros Es ck.
  unfold inner_ok in Hi. rewrite Es in Hi. pose proof (refresh_counts ck (window cfg) i) as Hc.
  unfold allow_local. rewrite refresh_state, Es.
  destruct (Z.ltb_spec (u64_wrap (success_count (refresh_window ck (window cfg) i) +
    failure_count (refresh_window ck (window cfg) i))) (half_open_max cfg)) as [|Hge]; [done|].
  unfold u64_wrap in Hge. rewrite Z.mod_small in Hge by lia. lia.
Qed.
End Local.

(** ** The open state *)

(** A run of operations with their clocks. *)
Fixpoint run (cfg : BreakerConfig) (ops : list (op * clock)) (i : BreakerInner) :
    BreakerInner * list (result unit ConrogateError) :=
  match ops with
  | [] => (i, [])
  | (o, ck) :: rest =>
      let '(i', r) := apply_op cfg o ck i in
      let '(i'', rs) := run cfg rest i' in
      (i'', match r with Some x => x :: rs | None => rs end)
  end.

Lemma open_step cfg o ck i l :
  state i = Open → last_failure_time i = Some l → l <= c_use ck < l + wait cfg →
  let '(i', r) := apply_op cfg o ck i in
  state i' = Open ∧ r ≠ Some (Ok tt) ∧ ∃ l', last_failure_time i' = Some l' ∧ l <= l'  ∧ l' <= c_use ck.
Proof.
  intros Es El Ht. destruct o; simpl.
  - unfold allow_local. rewrite refresh_state, refresh_last, Es, El.
    destruct (Z.leb_spec (wait cfg) (duration_since (c_use ck) l)) as [H|H].
    + unfold duration_since in H. lia.
    + rewrite refresh_state, refresh_last. split_and!; [done|done|eauto with lia].
  - unfold record_success_local. simpl. rewrite refresh_state, refresh_last, Es. split_and!; [done|done|eauto with lia].
  - unfold record_failure_local. simpl. rewrite refresh_state, Es. split_and!; [done|done|eauto with lia].
Qed.

(** The operations happen in order, before [bound]. *)
Fixpoint before (t bound : Z) (ops : list (op * clock)) : Prop :=
  match ops with
  | [] => True
  | (_, ck) :: rest => t <= c_use ck < bound ∧ before (c_use ck) bound rest
  end.

Lemma open_run cfg ops i l t bound :
  state i = Open → last_failure_time i = Some l → l <= t → bound <= l + wait cfg → before t bound ops →
  state (run cfg ops i).1 = Open ∧ Forall (λ r, r = Err CircuitBreakerOpen) (run cfg ops i).2.
Proof.
  revert i l t. induction ops as [|[o ck] ops IH]; intros i l t Es El Hlt Hb Hops; [done|].
  destruct Hops as [Hck Hops]. pose proof (open_step cfg o ck i l Es El) as Hst.
  assert (∀ e, (apply_op cfg o ck i).2 = Some (Err e) → e = CircuitBreakerOpen) as He.
  { intros e. destruct o; cbn [apply_op]; [|done|done]. unfold allow_local.
    rewrite refresh_state, refresh_last, Es, El.
    destruct (wait cfg <=? duration_since (c_use ck) l); simpl; congruence. }
  cbn [run]. destruct (apply_op cfg o ck i) as [i' r]. destruct Hst as (Es' & Hr & l' & El' & Hll & Hlc); [lia|].
  destruct (IH i' l' (c_use ck) Es' El') as [H1 H2]; [lia|lia|done|].
  destruct (run cfg ops i') as [i'' rs]. simpl in *. split; [done|].
  destruct r as [[[]|e]|]; [done| |done]. constructor; [|done]. by rewrite (He e eq_refl).
Qed.

(** Isolation: until [wait] has passed since the last failure, an open
    breaker stays open and rejects every request, whatever is recorded
    meanwhile; the first request after that is let through as a trial. *)
Theorem breaker_open_isolates cfg ops i l :
  state i = Open → last_failure_time i = Some l →
  (before l (l + wait cfg) ops →
   state (run cfg ops i).1 = Open ∧ Forall (λ r, r = Err CircuitBreakerOpen) (run cfg ops i).2) ∧
  (∀ ck, l + wait cfg <= c_use ck → l <= c_use ck →
     (allow_local cfg ck i).2 = Ok tt ∧ state (allow_local cfg ck i).1 = HalfOpen).
Proof.
  intros Es El. split.
  - intros Hops. apply (open_run cfg ops i l l (l + wait cfg)); [done|done|lia|lia|done].
  - intros ck H1 H2. unfold allow_local. rewrite refresh_state, refresh_last, Es, El.
    rewrite (proj2 (Z.leb_le _ _)); [done|]. unfold duration_since. lia.
Qed.

(** ** Recovery *)

(** Successes recorded one after the other. *)
Definition success_run (cfg : BreakerConfig) (cks : list clock) (i : BreakerInner) : BreakerInner :=
  foldl (λ i ck, record_success_local cfg ck i) i cks.

Lemma success_closed cfg cks i : state i = Closed → state (success_run cfg cks i) = Closed.
Proof.
  revert i. induction cks as [|ck cks IH]; intros i Hi; [done|]. apply IH. unfold record_success_local.
  cbn [state]. rewrite refresh_state, Hi. done.
Qed.

Section Recovery.
Context (cfg : BreakerConfig) (T : Z) (Hmax : 1 <= half_open_max cfg < 2 ^ 32).

(** A half-open breaker on its way to [Closed]. *)
Definition on_trial (i : BreakerInner) (s : Z) : Prop :=
  state i = HalfOpen ∧ success_count i = s ∧ 0 <= s < half_open_max cfg.

(** The results come from [T] on, within a window's length. *)
Definition soon (ck : clock) : Prop := T <= c_check ck < T + window cfg ∧ c_check ck <= c_reset ck.

(** One more success inside the window closes the breaker or brings it a step nearer. *)
Lemma trial_step ck i s :
  on_trial (refresh_window ck (window cfg) i) s →
  state (record_success_local cfg ck i) = Closed ∨
  (on_trial (record_success_local cfg ck i) (s + 1) ∧
   window_start (record_success_local cfg ck i) = window_start (refresh_window ck (window cfg) i)).
Proof.
  intros (Es & Hs & Hb). unfold record_success_local, on_trial.
  cbn [state success_count window_start]. rewrite Es, Hs.
  unfold u64_wrap. rewrite Z.mod_small by lia.
  destruct (Z.leb_spec (half_open_max cfg) (s + 1)); simpl; [auto|right; split_and!; try done; lia].
Qed.

Lemma trial_window cks i s :
  on_trial i s → T <= window_start i → Forall soon cks → half_open_max cfg - s <= Z.of_nat (length cks) →
  state (success_run cfg cks i) = Closed.
Proof.
  revert i s. induction cks as [|ck cks IH]; intros i s Hi Hw Hcks Hn; [destruct Hi; simpl in Hn; lia|].
  apply Forall_cons in Hcks as [[Hck _] Hcks].
  assert (refresh_window ck (window cfg) i = i) as Er.
  { unfold refresh_window. rewrite (proj2 (Z.leb_gt _ _)); [done|]. unfold duration_since. lia. }
  destruct (trial_step ck i s) as [Hc|[Ht Hws]]; [by rewrite Er|by apply (success_closed cfg cks)|].
  rewrite Er in Hws. apply (IH (record_success_local cfg ck i) (s + 1)); [done|lia|done|simpl in Hn; lia].
Qed.

Lemma trial_closes cks i s :
  on_trial i s → Forall soon cks → 2 * half_open_max cfg - s - 1 <= Z.of_nat (length cks) →
  state (success_run cfg cks i) = Closed.
Proof.
  revert i s. induction cks as [|ck cks IH]; intros i s Hi Hcks Hn; [destruct Hi; simpl in Hn; lia|].
  apply Forall_cons in Hcks as [Hck Hcks]. simpl in Hn.
  destruct (Z.leb_spec (window cfg) (duration_since (c_check ck) (window_start i))) as [Hr|Hr].
  - assert (refresh_window ck (window cfg) i = mkInner HalfOpen 0 0 (c_reset ck) (last_failure_time i)) as Er.
    { unfold refresh_window. rewrite (proj2 (Z.leb_le _ _) Hr). by destruct Hi as [-> _]. }
    destruct (trial_step ck i 0) as [Hc|[Ht Hws]]; [rewrite Er; by split; [|split; simpl; lia]|by apply (success_closed cfg cks)|].
    rewrite Er in Hws. simpl in Hws. destruct Hi as (_ & _ & Hb), Hck as [Hck1 Hck2].
    apply (trial_window cks (record_success_local cfg ck i) (0 + 1)); [done|lia|done|lia].
  - assert (refresh_window ck (window cfg) i = i) as Er by (unfold refresh_window; by rewrite (proj2 (Z.leb_gt _ _) Hr)).
    destruct (trial_step ck i s) as [Hc|[Ht _]]; [by rewrite Er|by apply (success_closed cfg cks)|].
    apply (IH (record_success_local cfg ck i) (s + 1)); [done|done|lia].
Qed.
End Recovery.

(** C36. Recovery: whatever a breaker in local mode (without Redis) that allows at least
    one trial went through, a request made once [wait] has
    passed since its last operation is let through, and when the next
    [2 * half_open_max - 1] results are successes within one window's length the
    breaker is closed again (so many because the counts may be reset once meanwhile). *)
Theorem breaker_recovers cfg i t ck cks :
  1 <= half_open_max cfg < 2 ^ 32 → reachable cfg i t →
  t <= c_check ck → c_check ck <= c_reset ck → c_reset ck <= c_use ck → t + wait cfg <= c_use ck →
  Forall (soon cfg (c_use ck)) cks → 2 * half_open_max cfg - 1 <= Z.of_nat (length cks) →
  (allow_local cfg ck i).2 = Ok tt ∧ state (success_run cfg cks (allow_local cfg ck i).1) = Closed.
Proof.
  intros Hmax Hr H1 H2 H3 H4 Hcks Hn. pose proof (reachable_ok cfg Hmax i t Hr) as Hi.
  pose proof (refresh_counts ck (window cfg) i) as Hc. unfold inner_ok in Hi.
  unfold allow_local. rewrite refresh_state, refresh_last. destruct (state i) eqn:Es.
  - split; [done|]. apply success_closed. simpl. by rewrite refresh_state.
  - destruct Hi as (l & -> & Hl). rewrite (proj2 (Z.leb_le _ _)) by (unfold duration_since; lia).
    split; [done|]. apply (trial_closes cfg (c_use ck) Hmax cks _ 0); [split; [done|split; simpl; lia]|done|lia].
  - rewrite (proj2 (Z.ltb_lt _ _)) by (unfold u64_wrap; rewrite Z.mod_small; lia). split; [done|]. simpl.
    apply (trial_closes cfg (c_use ck) Hmax cks _ (success_count (refresh_window ck (window cfg) i)));
      [split; [by rewrite refresh_state|split; lia]|done|lia].
Qed.

(** ** Tripping *)

(** Failures recorded one after the other. *)
Definition fail_run (cfg : BreakerConfig) (cks : list clock) (i : BreakerInner) : BreakerInner :=
  foldl (λ i ck, record_failure_local cfg ck i) i cks.

Lemma refresh_inside ck w i :
  duration_since (c_check ck) (window_start i) < w → refresh_window ck w i = i.
Proof. intros H. unfold refresh_window. destruct (Z.leb_spec w (duration_since (c_check ck) (window_start i))); [lia|done]. Qed.

Section Trip.
Context (cfg : BreakerConfig) (t0 : Z).
Context (Hmin : 1 <= min_requests cfg) (Hthr : leb (failure_rate_threshold cfg) one = true).

Lemma fail_run_state cks :
  Forall (λ ck, t0 <= c_check ck < t0 + window cfg) cks → Z.of_nat (length cks) < 2 ^ 53 →
  let i := fail_run cfg cks (new_inner t0) in
  state i = (if min_requests cfg <=? Z.of_nat (length cks) then Open else Closed) ∧
  failure_count i = Z.of_nat (length cks) ∧ success_count i = 0 ∧ window_start i = t0.
Proof.
  induction cks as [|ck cks IH] using rev_ind; intros Hcks Hlen.
  { simpl. rewrite (proj2 (Z.leb_gt _ _)) by (simpl; lia). done. }
  apply Forall_app in Hcks as [Hcks [Hck _]%Forall_cons]. rewrite length_app in *. simpl length in *.
  destruct IH as (Hs & Hf & Hsu & Hw); [done|lia|].
  unfold fail_run in *. rewrite foldl_app. simpl foldl.
  set (i := foldl _ (new_inner t0) cks) in *. unfold record_failure_local.
  rewrite refresh_inside by (rewrite Hw; unfold duration_since; lia). cbn [state failure_count success_count window_start].
  rewrite Hf, Hsu. unfold u64_wrap. rewrite !Z.mod_small by (rewrite ?Z.mod_small; lia).
  split_and!; [|lia|done|done]. rewrite Hs.
  replace (Z.of_nat (length cks + 1)) with (Z.of_nat (length cks) + 1) by lia.
  rewrite Z.add_0_l. rewrite of_Z_div_self by lia. rewrite Hthr.
  destruct (Z.leb_spec (min_requests cfg) (Z.of_nat (length cks)));
    destruct (Z.leb_spec (min_requests cfg) (Z.of_nat (length cks) + 1)); lia || done.
Qed.
End Trip.

(** Tripping: when every result of a window is a failure, the breaker opens
    with exactly the [min_requests]-th of them, for every threshold up to one. *)
Theorem breaker_trips_at_min_requests cfg t0 cks :
  1 <= min_requests cfg → leb (failure_rate_threshold cfg) one = true →
  Forall (λ ck, t0 <= c_check ck < t0 + window cfg) cks → Z.of_nat (length cks) < 2 ^ 53 →
  state (fail_run cfg cks (new_inner t0)) = Open ↔ min_requests cfg <= Z.of_nat (length cks).
Proof.
  intros Hmin Hthr Hcks Hlen. destruct (fail_run_state cfg t0 Hmin Hthr cks Hcks Hlen) as [-> _].
  destruct (Z.leb_spec (min_requests cfg) (Z.of_nat (length cks))); split; intros; try done; lia.
Qed.

Lemma breaker_trips_at_min_requests_witness :
  state (fail_run default_breaker_config (replicate 9 (mkClock 5 5 6)) (new_inner 0)) = Closed ∧
  state (fail_run default_breaker_config (replicate 10 (mkClock 5 5 6)) (new_inner 0)) = Open.
Proof.
  split; [vm_compute; reflexivity|].
  apply (breaker_trips_at_min_requests default_breaker_config 0 (replicate 10 (mkClock 5 5 6)));
    [simpl; lia|vm_compute; reflexivity|apply Forall_replicate; vm_compute; split; [discriminate|reflexivity]|simpl; lia|simpl; lia].
Defined.

(** A breaker that tripped at time 6. *)
Definition tripped : BreakerInner := fail_run default_breaker_config (replicate 10 (mkClock 5 5 6)) (new_inner 0).

Lemma breaker_open_isolates_witness :
  (run default_breaker_config [(Allow, mkClock 7 7 7); (RecordSuccess, mkClock 8 8 8); (Allow, mkClock 9 9 9)] tripped).2
    = [Err CircuitBreakerOpen; Err CircuitBreakerOpen] ∧
  (allow_local default_breaker_config (mkClock 0 0 (from_secs 31)) tripped).2 = Ok tt.
Proof.
  destruct (breaker_open_isolates default_breaker_config
    [(Allow, mkClock 7 7 7); (RecordSuccess, mkClock 8 8 8); (Allow, mkClock 9 9 9)] tripped 6
    ltac:(vm_compute; reflexivity) ltac:(vm_compute; reflexivity)) as [H1 H2].
  split; [|apply H2; vm_compute; discriminate]. vm_compute. reflexivity.
Defined.

Lemma fail_run_reachable cfg n u : reachable cfg (fail_run cfg (replicate n (mkClock u u u)) (new_inner u)) u.
Proof.
  induction n as [|n IH]; [constructor|]. unfold fail_run in *.
  rewrite replicate_S_end, foldl_app. simpl foldl at 1.
  apply (reach_op cfg RecordFailure (mkClock u u u) _ u IH); simpl; lia.
Qed.

Definition late : Z := from_secs 31.

Lemma breaker_invariant_witness :
  let tripped6 := fail_run default_breaker_config (replicate 10 (mkClock 6 6 6)) (new_inner 6) in
  let half := (allow_local default_breaker_config (mkClock late late late) tripped6).1 in
  state half = HalfOpen ∧ (allow_local default_breaker_config (mkClock late late late) half).2 = Ok tt.
Proof.
  intros tripped6 half.
  split; [vm_compute; reflexivity|].
  apply (breaker_invariant default_breaker_config ltac:(simpl; lia) half late); [|vm_compute; reflexivity].
  apply (reach_op default_breaker_config Allow (mkClock late late late) tripped6 6);
    [apply fail_run_reachable|vm_compute; discriminate..].
Defined.

Lemma breaker_recovers_witness :
  let tripped6 := fail_run default_breaker_config (replicate 10 (mkClock 6 6 6)) (new_inner 6) in
  state tripped6 = Open ∧ state (success_run default_breaker_config
    (replicate 9 (mkClock (from_secs 32) (from_secs 32) (from_secs 32)))
    (allow_local default_breaker_config (mkClock 7 7 (from_secs 31)) tripped6).1) = Closed.
Proof.
  intros tripped6. split; [vm_compute; reflexivity|].
  apply (breaker_recovers default_breaker_config tripped6 6 (mkClock 7 7 (from_secs 31)));
    [simpl; lia|apply fail_run_reachable|vm_compute; discriminate..| |vm_compute; discriminate].
  apply Forall_replicate. split; [split; vm_compute; [discriminate|reflexivity]|vm_compute; discriminate].
Defined.

(** ** Cluster mode *)

Definition CLUSTER_REFRESH_INTERVAL : Z := from_millis 500.

(** [total >= min_requests && failure / total >= threshold]. *)
Definition cluster_rate_exceeded (success failure : Z) (cfg : BreakerConfig) : bool :=
  let total := u64_wrap (success + failure) in
  (min_requests cfg <=? total) &&
  leb (failure_rate_threshold cfg) (div (of_Z failure) (of_Z total)).

Definition succ_key (b : BreakerImpl) : string := "cb:" +:+ key b +:+ ":succ".
Definition fail_key (b : BreakerImpl) : string := "cb:" +:+ key b +:+ ":fail".

(** [dir]: the increment the script is called with. *)
Definition mirror_dir (succ : bool) : Z := if succ then 1 else -1.

Section Cluster.
(** The Redis server: its contents, [INCRBY], and the value of a key ([None]
    when the key does not exist). *)
Context {R : Type} (incrby : R → string → Z → R) (get : R → string → option Z).
Context (get_incrby_eq : ∀ r k d, get (incrby r k d) k = Some (default 0 (get r k) + d)).
Context (get_incrby_ne : ∀ r k k' d, k ≠ k' → get (incrby r k d) k' = get r k').

(** [mirror_to_redis] when the connection works. The script compares the number
    [INCRBY] returns with its argument, a string, which in Lua is never equal:
    the [EXPIRE] branch is not taken. *)
Definition mirror_to_redis (b : BreakerImpl) (succ : bool) (r : R) : R :=
  incrby r (if succ then succ_key b else fail_key b) (mirror_dir succ).

(** [MGET] into [Vec<i64>]: a missing key makes the conversion fail. *)
Definition mget2 (r : R) (k1 k2 : string) : option (Z * Z) :=
  match get r k1, get r k2 with Some a, Some b => Some (a, b) | _, _ => None end.

(** [cluster_counts]; [conn] tells whether Redis is reachable, [now] and
    [fetched] are the clock reads. *)
Definition cluster_counts (b : BreakerImpl) (conn : bool) (now fetched : Z) (r : R) : BreakerImpl * (Z * Z) :=
  let fetch :=
    if negb conn then (b, (0, 0)) else
    match mget2 r (succ_key b) (fail_key b) with
    | Some (s, f) =>
        let s := Z.max s 0 in let f := Z.max f 0 in
        (mkBreaker (inner b) (config b) (key b) (Some (mkClusterSnapshot s f fetched)), (s, f))
    | None => (b, (0, 0))
    end in
  match cluster_cache b with
  | Some snap =>
      if duration_since now (fetched_at snap) <? CLUSTER_REFRESH_INTERVAL
      then (b, (snap_success snap, snap_failure snap)) else fetch
  | None => fetch
  end.

(** [allow] in cluster mode. *)
Definition allow_cluster (b : BreakerImpl) (conn : bool) (now fetched : Z) (r : R) :
    BreakerImpl * result unit ConrogateError :=
  let '(b', (s, f)) := cluster_counts b conn now fetched r in
  (b', if cluster_rate_exceeded s f (config b) then Err CircuitBreakerOpen else Ok tt).

(** The local state of a breaker replaced. *)
Definition set_inner (b : BreakerImpl) (i : BreakerInner) : BreakerImpl :=
  mkBreaker i (config b) (key b) (cluster_cache b).

(** What one call finds: its clock reads, whether Redis is reachable, and the
    two reads of the cluster cache's clock. *)
Record call_env := mkCallEnv { ce_clock : clock; ce_conn : bool; ce_now : Z; ce_fetched : Z }.

(** [Breaker::allow]. *)
Definition allow (b : BreakerImpl) (env : call_env) (r : R) : BreakerImpl * result unit ConrogateError :=
  match redis_url (config b) with
  | Some _ => allow_cluster b (ce_conn env) (ce_now env) (ce_fetched env) r
  | None => let '(i, res) := allow_local (config b) (ce_clock env) (inner b) in (set_inner b i, res)
  end.

(** [Breaker::record_success] and [record_failure]: the local machine, then the
    mirror when there is a reachable Redis. *)
Definition record (b : BreakerImpl) (succ : bool) (env : call_env) (r : R) : BreakerImpl * R :=
  let i := if succ then record_success_local (config b) (ce_clock env) (inner b)
           else record_failure_local (config b) (ce_clock env) (inner b) in
  (set_inner b i,
   match redis_url (config b) with
   | Some _ => if ce_conn env then mirror_to_redis b succ r else r
   | None => r
   end).

(** A cluster: the shared store and one breaker; the steps are a decision of
    the breaker and the mirroring of a result by any instance. *)
Inductive cluster : R → BreakerImpl → Prop :=
| cluster_new r cfg k now : get r ("cb:" +:+ k +:+ ":fail") = None → cluster r (breaker_new cfg k now)
| cluster_allow r b conn now fetched : cluster r b → cluster r (allow_cluster b conn now fetched r).1
| cluster_mirror r b other succ : cluster r b → cluster (mirror_to_redis other succ r) b
| cluster_expire r r' b k : cluster r b → get r' k = None →
    (∀ k', k' ≠ k → get r' k' = get r k') → cluster r' b.

(** No positive failure count is ever stored or cached. *)
Definition no_failures (r : R) (b : BreakerImpl) : Prop :=
  default 0 (get r (fail_key b)) <= 0 ∧
  match cluster_cache b with Some snap => snap_failure snap = 0 | None => True end.

Lemma cluster_counts_failure b conn now fetched r :
  no_failures r b →
  let '(b', (s, f)) := cluster_counts b conn now fetched r in
  f = 0 ∧ no_failures r b' ∧ key b' = key b ∧ config b' = config b.
Proof.
  intros Hnf. pose proof Hnf as [Hget Hc]. unfold cluster_counts.
  assert (let '(b', (s, f)) := (if negb conn then (b, (0, 0)) else
    match mget2 r (succ_key b) (fail_key b) with
    | Some (s, f) => (mkBreaker (inner b) (config b) (key b)
        (Some (mkClusterSnapshot (Z.max s 0) (Z.max f 0) fetched)), (Z.max s 0, Z.max f 0))
    | None => (b, (0, 0)) end) in
    f = 0 ∧ no_failures r b' ∧ key b' = key b ∧ config b' = config b) as Hfetch.
  { destruct conn; simpl; [|done]. unfold mget2.
    destruct (get r (succ_key b)) as [s|]; [|done].
    destruct (get r (fail_key b)) as [f|] eqn:Ef; [|done]. simpl in Hget.
    assert (Z.max f 0 = 0) as Hf0 by lia.
    split_and!; [done| |done|done]. split; [|done]. unfold fail_key in *. simpl. by rewrite Ef. }
  destruct (cluster_cache b) as [snap|] eqn:Ec; [|exact Hfetch].
  destruct (duration_since now (fetched_at snap) <? CLUSTER_REFRESH_INTERVAL); [|exact Hfetch].
  split_and!; [done| |done|done]. split; [done|]. by rewrite Ec.
Qed.

Lemma succ_fail_ne x y : x +:+ ":succ" ≠ y +:+ ":fail".
Proof.
  intros E. apply (f_equal last_char) in E. rewrite !last_char_app in E. discriminate.
Qed.

Lemma mirror_no_failures r b other succ :
  no_failures r b → no_failures (mirror_to_redis other succ r) b.
Proof.
  intros [Hget Hc]. split; [|done]. unfold mirror_to_redis. destruct succ; cbn [mirror_dir].
  - rewrite get_incrby_ne; [done|]. unfold succ_key, fail_key. rewrite !string_app_assoc. apply succ_fail_ne.
  - destruct (decide (fail_key other = fail_key b)) as [->|E].
    + rewrite get_incrby_eq. simpl. lia.
    + by rewrite get_incrby_ne.
Qed.

Lemma cluster_no_failures r b : cluster r b → no_failures r b.
Proof.
  induction 1 as [r cfg k now Hg|r b conn now fetched Hc IH|r b other succ Hc IH|r r' b k Hc IH Hk Ho].
  - split; [|done]. unfold fail_key. simpl. by rewrite Hg.
  - pose proof (cluster_counts_failure b conn now fetched r IH) as H. unfold allow_cluster.
    destruct (cluster_counts b conn now fetched r) as [b' [s f]]. simpl. apply H.
  - by apply mirror_no_failures.
  - destruct IH as [Hget Hcc]. split; [|done]. destruct (decide (fail_key b = k)) as [->|E]; [by rewrite Hk|].
    by rewrite Ho.
Qed.

(** In cluster mode failures are mirrored with the increment -1, so the
    shared failure counter never becomes positive and, for every positive
    threshold, no instance ever rejects a request, whatever fails. *)
Theorem cluster_breaker_never_opens r b conn now fetched :
  ltb zero (failure_rate_threshold (config b)) = true →
  cluster r b → (allow_cluster b conn now fetched r).2 = Ok tt.
Proof.
  intros Hthr Hc. pose proof (cluster_counts_failure b conn now fetched r (cluster_no_failures r b Hc)) as H.
  unfold allow_cluster. destruct (cluster_counts b conn now fetched r) as [b' [s f]].
  destruct H as (-> & _ & _ & _). cbn [snd]. unfold cluster_rate_exceeded.
  change (of_Z 0) with zero. by rewrite zero_rate, andb_false_r.
Qed.
End Cluster.

(** The server as a map of counters. *)
Definition map_incrby (r : gmap string Z) (k : string) (d : Z) : gmap string Z := <[k := default 0 (r !! k) + d]> r.

(** Thirty failures mirrored, and the request is still let through. *)
Lemma cluster_breaker_never_opens_witness :
  let b := breaker_new default_breaker_config "1:2" 0 in
  let fail r := mirror_to_redis map_incrby b false r in
  let r := mirror_to_redis map_incrby b true (Nat.iter 30 fail ∅) in
  r !! fail_key b = Some (-30) ∧
  (allow_cluster (λ r k, r !! k) b true 0 0 r).2 = Ok tt.
Proof.
  intros b fail r. split; [vm_compute; reflexivity|].
  apply (cluster_breaker_never_opens map_incrby (λ r k, r !! k)
           (λ r k d, lookup_insert_eq r k _) (λ r k k' d, lookup_insert_ne r k k' _));
    [vm_compute; reflexivity|].
  apply cluster_mirror. generalize 30%nat. intros n. induction n as [|n IH].
  - by apply cluster_new.
  - by apply (cluster_mirror map_incrby).
Defined.

(** ** The factory *)

(** [BreakerFactoryImpl]. *)
Record BreakerFactoryImpl := mkFactory {
  breakers : gmap (Z * Z) BreakerImpl;
  factory_config : BreakerConfig;
}.

Definition factory_new (cfg : BreakerConfig) : BreakerFactoryImpl := mkFactory ∅ cfg.

(** [get_or_create]; [now] is the clock read of a creation. *)
Definition get_or_create (f : BreakerFactoryImpl) (now route_id node_id : Z) :
    BreakerFactoryImpl * BreakerImpl :=
  match breakers f !! (route_id, node_id) with
  | Some b => (f, b)
  | None =>
      let b := breaker_new (factory_config f) (pretty route_id +:+ ":" +:+ pretty node_id) now in
      (mkFactory (<[(route_id, node_id) := b]> (breakers f)) (factory_config f), b)
  end.

(** An operation on the shared breaker of a route and node. *)
Definition with_breaker {A} (f : BreakerFactoryImpl) (now route_id node_id : Z)
    (op : BreakerImpl → BreakerImpl * A) : BreakerFactoryImpl * A :=
  let '(f', b) := get_or_create f now route_id node_id in
  let '(b', a) := op b in
  (mkFactory (<[(route_id, node_id) := b']> (breakers f')) (factory_config f'), a).

(** The second call gives the same breaker and changes nothing. *)
Lemma get_or_create_idempotent f now now' r n :
  let '(f', b) := get_or_create f now r n in get_or_create f' now' r n = (f', b).
Proof.
  unfold get_or_create. destruct (breakers f !! (r, n)) as [b|] eqn:E; [by rewrite E|].
  simpl. by rewrite lookup_insert_eq.
Qed.

(** Breakers of other routes and nodes are not touched. *)
Lemma with_breaker_other {A} f now r n (o : BreakerImpl → BreakerImpl * A) r' n' :
  (r', n') ≠ (r, n) → breakers (with_breaker f now r n o).1 !! (r', n') = breakers f !! (r', n').
Proof.
  intros Hne. unfold with_breaker, get_or_create.
  destruct (breakers f !! (r, n)) as [b|]; destruct (o _) as [b' a]; simpl; by rewrite !lookup_insert_ne.
Qed.
End Breaker.
