(* ===== verification/Adaptive.v ===== *)
(** Adaptive concurrency control (conrogate-traffic/src/adaptive.rs): the AIMD
    adjustment of the limit and the lock-free acquisition of permits.

    The adjustment is a function of the closed window's samples. Acquisition is
    a step relation in which any number of threads interleave their loads,
    compare-exchanges and releases on the shared counter. *)
From Stdlib Require Import ZArith Lia Ascii String SpecFloat.
From stdpp Require Import base tactics option list list_numbers sorting relations.
From S2P Require Import Prelude Text Errors Core F64.
#[local] Open Scope Z_scope.

Module Adaptive.
Import F64.

Record LatencySample := mkSample { latency : Z; success : bool }.

Record AdaptiveConfig := mkAdaptiveConfig {
  initial_limit : Z;
  min_limit : Z;
  max_limit : Z;
  increase_step : Z;
  decrease_ratio : f64;
  latency_threshold : Z;
  window : Z;
  acquire_timeout : Z;
}.

Definition default_adaptive_config : AdaptiveConfig :=
  mkAdaptiveConfig 100 10 10000 1 (div (of_Z 1) (of_Z 2)) (from_secs 5) (from_secs 10) (from_millis 100).

Record Inner := mkAdaptiveInner {
  current_limit : Z;
  inflight : Z;
  window_samples : list LatencySample;
  window_start : Z;
  total_accepted : Z;
  total_rejected : Z;
  config : AdaptiveConfig;
}.

(** [AdaptiveConcurrencyImpl::new]; [Ord::clamp] panics when the bounds cross. *)
Definition adaptive_new (cfg : AdaptiveConfig) (now : Z) : outcome Inner :=
  if max_limit cfg <? min_limit cfg then Panic
  else Ret (mkAdaptiveInner (Z.min (Z.max (initial_limit cfg) (min_limit cfg)) (max_limit cfg)) 0 [] now 0 0 cfg).

(** The index of the 99th percentile of [total] sorted samples. *)
Definition p99_index (total : Z) : Z :=
  Z.min (to_u64 (mul (of_Z total) (div (of_Z 99) (of_Z 100)))) (total - 1).

(** The new limit for the samples of a closed window; [None] would be an index
    out of range. *)
Definition adjusted (cfg : AdaptiveConfig) (old_limit : Z) (samples : list LatencySample) : option Z :=
  let total := Z.of_nat (length samples) in
  let failures := Z.of_nat (length (List.filter (λ s, negb (success s)) samples)) in
  let failure_rate := div (of_Z failures) (of_Z total) in
  let latencies := stable_sort Z.leb (map (λ s, u64_wrap (as_millis (latency s))) samples) in
  match latencies !! Z.to_nat (p99_index total) with
  | None => None
  | Some ms =>
      let p99_latency := from_millis ms in
      Some (if (latency_threshold cfg <? p99_latency) || ltb zero failure_rate
            then Z.max (to_u64 (mul (of_Z old_limit) (decrease_ratio cfg))) (min_limit cfg)
            else Z.min (u64_wrap (old_limit + increase_step cfg)) (max_limit cfg))
  end.

(** [maybe_adjust]. *)
Definition maybe_adjust (now : Z) (i : Inner) : outcome Inner :=
  if duration_since now (window_start i) <? window (config i) then Ret i
  else
    let set l := mkAdaptiveInner l (inflight i) [] now (total_accepted i) (total_rejected i) (config i) in
    match window_samples i with
    | [] => Ret (set (current_limit i))
    | samples =>
        match adjusted (config i) (current_limit i) samples with
        | Some l => Ret (set l)
        | None => Panic
        end
    end.

(** [record_latency]. *)
Definition record_latency (i : Inner) (lat : Z) (ok : bool) : Inner :=
  mkAdaptiveInner (current_limit i) (inflight i) (window_samples i ++ [mkSample lat ok]) (window_start i)
    (total_accepted i) (total_rejected i) (config i).

(** ** The limit stays within its bounds *)

(** The multiplicative decrease does not increase. *)
Definition shrinks (cfg : AdaptiveConfig) : Prop :=
  ∀ n, min_limit cfg <= n <= max_limit cfg → to_u64 (mul (of_Z n) (decrease_ratio cfg)) <= n.

Definition config_ok (cfg : AdaptiveConfig) : Prop :=
  0 < min_limit cfg <= max_limit cfg ∧ 0 <= increase_step cfg ∧
  max_limit cfg + increase_step cfg < 2 ^ 64 ∧ shrinks cfg.

Definition limit_ok (i : Inner) : Prop :=
  min_limit (config i) <= current_limit i <= max_limit (config i).

Lemma to_u64_nonneg x : 0 <= to_u64 x.
Proof.
  unfold to_u64. destruct x as [s|s| |s m e]; [done|by destruct s|done|]. destruct s; [done|].
  apply Z.min_glb; [done|]. destruct (Z.leb_spec 0 e).
  - apply Z.mul_nonneg_nonneg; [lia|]. apply Z.pow_nonneg. lia.
  - apply Z.div_pos; [lia|]. apply Z.pow_pos_nonneg; lia.
Qed.

Lemma p99_in_range (l : list Z) : l ≠ [] → is_Some (l !! Z.to_nat (p99_index (Z.of_nat (length l)))).
Proof.
  intros Hl. apply lookup_lt_is_Some_2. unfold p99_index.
  pose proof (to_u64_nonneg (mul (of_Z (Z.of_nat (length l))) (div (of_Z 99) (of_Z 100)))).
  destruct l; [done|]. simpl length in *. lia.
Qed.

Definition sorted_latencies (samples : list LatencySample) : list Z :=
  stable_sort Z.leb (map (λ s, u64_wrap (as_millis (latency s))) samples).

Lemma sorted_latencies_perm samples :
  sorted_latencies samples ≡ₚ map (λ s, u64_wrap (as_millis (latency s))) samples.
Proof. apply stable_sort_perm. Qed.

(** The 99th percentile is one of the latencies. *)
Lemma adjusted_p99 cfg old samples :
  samples ≠ [] →
  ∃ ms, ms ∈ map (λ s, u64_wrap (as_millis (latency s))) samples ∧
    adjusted cfg old samples =
      Some (if (latency_threshold cfg <? from_millis ms) ||
               ltb zero (div (of_Z (Z.of_nat (length (List.filter (λ s, negb (success s)) samples))))
                             (of_Z (Z.of_nat (length samples))))
            then Z.max (to_u64 (mul (of_Z old) (decrease_ratio cfg))) (min_limit cfg)
            else Z.min (u64_wrap (old + increase_step cfg)) (max_limit cfg)).
Proof.
  intros Hne. pose proof (Permutation_length (sorted_latencies_perm samples)) as Hlen. rewrite length_map in Hlen.
  destruct (p99_in_range (sorted_latencies samples)) as [ms Hms].
  { intros E. rewrite E in Hlen. by destruct samples. }
  rewrite Hlen in Hms. exists ms. split.
  - rewrite <-sorted_latencies_perm. by eapply list_elem_of_lookup_2.
  - unfold adjusted. fold (sorted_latencies samples). by rewrite Hms.
Qed.

Lemma adjusted_bounds cfg old samples l :
  config_ok cfg → min_limit cfg <= old <= max_limit cfg → samples ≠ [] →
  adjusted cfg old samples = Some l → min_limit cfg <= l <= max_limit cfg.
Proof.
  intros (Hmm & Hst & Hmax & Hsh) Hold Hne Ha.
  destruct (adjusted_p99 cfg old samples Hne) as (ms & _ & E). rewrite Ha in E. injection E as ->.
  destruct (_ || _); [specialize (Hsh old Hold); lia|].
  rewrite u64_wrap_small by lia. lia.
Qed.

Lemma maybe_adjust_ok now i :
  config_ok (config i) → limit_ok i →
  ∃ i', maybe_adjust now i = Ret i' ∧ limit_ok i' ∧ config i' = config i ∧ inflight i' = inflight i.
Proof.
  intros Hcfg Hl. unfold maybe_adjust. destruct (_ <? _); [eauto|].
  destruct (window_samples i) as [|s ss]; [eexists; split; [reflexivity|done]|].
  destruct (adjusted_p99 (config i) (current_limit i) (s :: ss)) as (ms & _ & E); [done|]. rewrite E.
  eexists. split; [reflexivity|]. split_and!; [|done|done].
  by apply (adjusted_bounds (config i) (current_limit i) (s :: ss)).
Qed.

(** AIMD: the adjustment never panics and keeps the limit between its
    bounds; a window of samples that all succeeded within the latency threshold
    raises the limit by [increase_step] up to the maximum, and a window in which
    all failed, or all were slower than the threshold, multiplies it by
    [decrease_ratio] down to the minimum. *)
Theorem aimd_adjustment cfg old samples :
  config_ok cfg → min_limit cfg <= old <= max_limit cfg → samples ≠ [] →
  Z.of_nat (length samples) < 2 ^ 53 → Forall (λ s, 0 <= latency s < from_millis (2 ^ 64)) samples →
  ∃ l, adjusted cfg old samples = Some l ∧ min_limit cfg <= l <= max_limit cfg ∧
    (Forall (λ s, success s = true ∧ latency s <= latency_threshold cfg) samples →
       l = Z.min (old + increase_step cfg) (max_limit cfg)) ∧
    (Forall (λ s, success s = false) samples ∨
     Forall (λ s, latency_threshold cfg < from_millis (as_millis (latency s))) samples →
       l = Z.max (to_u64 (mul (of_Z old) (decrease_ratio cfg))) (min_limit cfg)).
Proof.
  intros Hcfg Hold Hne Hlen Hlat. destruct (adjusted_p99 cfg old samples Hne) as (ms & Hms & E).
  eexists. split; [exact E|]. split; [by eapply adjusted_bounds|].
  apply list_elem_of_In, in_map_iff in Hms as (s & <- & Hs).
  rewrite Forall_forall in Hlat. apply list_elem_of_In in Hs. specialize (Hlat s Hs). simpl in Hlat.
  assert (u64_wrap (as_millis (latency s)) = as_millis (latency s)) as Hw.
  { apply u64_wrap_small. unfold as_millis, from_millis in *. split; [apply Z.div_pos; lia|].
    apply Z.div_lt_upper_bound; lia. }
  rewrite Hw. assert (from_millis (as_millis (latency s)) <= latency s) as Hle.
  { unfold from_millis, as_millis. pose proof (Z.mul_div_le (latency s) 1000000). lia. }
  split.
  - intros Hall. rewrite Forall_forall in Hall. destruct (Hall s Hs) as [_ Hth].
    assert (List.filter (λ s, negb (success s)) samples = []) as ->.
    { clear -Hall. induction samples as [|x l IH]; [done|]. simpl.
      destruct (Hall x) as [-> _]; [left|]. simpl. apply IH. intros y Hy. apply Hall. by right. }
    rewrite (proj2 (Z.ltb_ge _ _)) by lia. simpl length. change (of_Z (Z.of_nat 0)) with zero.
    assert (∀ x, ltb zero (div zero x) = false) as -> by (by intros [[]|[]| |[]]).
    simpl. destruct Hcfg as (? & ? & ? & _). by rewrite u64_wrap_small by lia.
  - intros [Hf|Hsl].
    + assert (List.filter (λ s, negb (success s)) samples = samples) as ->.
      { clear -Hf. induction Hf as [|x l Hx Hf IH]; [done|]. simpl. rewrite Hx. simpl. by rewrite IH. }
      rewrite of_Z_div_self by (destruct samples; simpl length in *; [done|lia]).
      change (ltb zero one) with true. by rewrite orb_true_r.
    + rewrite Forall_forall in Hsl. specialize (Hsl s Hs). simpl in Hsl.
      rewrite (proj2 (Z.ltb_lt _ _)) by lia. done.
Qed.

(** ** Permits *)

(** [try_acquire] run without interference: the first compare-exchange succeeds. *)
Definition try_acquire (now : Z) (i : Inner) : outcome (Inner * result unit ConrogateError) :=
  match maybe_adjust now i with
  | Panic => Panic
  | Ret i =>
      if current_limit i <=? inflight i then
        Ret (mkAdaptiveInner (current_limit i) (inflight i) (window_samples i) (window_start i)
               (total_accepted i) (u64_wrap (total_rejected i + 1)) (config i), Err Overloaded)
      else
        Ret (mkAdaptiveInner (current_limit i) (u64_wrap (inflight i + 1)) (window_samples i) (window_start i)
               (u64_wrap (total_accepted i + 1)) (total_rejected i) (config i), Ok tt)
  end.

(** Dropping a [ConcurrencyPermit]. *)
Definition drop_permit (i : Inner) : Inner :=
  mkAdaptiveInner (current_limit i) (u64_wrap (inflight i - 1)) (window_samples i) (window_start i)
    (total_accepted i) (total_rejected i) (config i).

(** ** Interleaved acquisition *)

(** Where a thread stands in [try_acquire]: before it; in [maybe_adjust], between its
    locks (the window restarted, the samples taken, the new limit known); after the
    adjustment; with the limit read; in the loop; with the counter loaded; with the
    counter raised; holding the permit; or done. *)
Inductive pc :=
| Begin
| Sampling
| Adjusting (samples : list LatencySample)
| Storing (limit : Z)
| Adjusted
| GotLimit (limit : Z)
| Looping (limit : Z)
| Loaded (limit current : Z)
| Granted
| Holding
| Finished.

Definition set_inflight (i : Inner) (n : Z) : Inner :=
  mkAdaptiveInner (current_limit i) n (window_samples i) (window_start i) (total_accepted i) (total_rejected i) (config i).

Definition set_limit (i : Inner) (l : Z) : Inner :=
  mkAdaptiveInner l (inflight i) (window_samples i) (window_start i) (total_accepted i) (total_rejected i) (config i).

Definition set_window (i : Inner) (now : Z) : Inner :=
  mkAdaptiveInner (current_limit i) (inflight i) (window_samples i) now (total_accepted i) (total_rejected i) (config i).

Definition take_samples (i : Inner) : Inner :=
  mkAdaptiveInner (current_limit i) (inflight i) [] (window_start i) (total_accepted i) (total_rejected i) (config i).

Definition count_accepted (i : Inner) : Inner :=
  mkAdaptiveInner (current_limit i) (inflight i) (window_samples i) (window_start i)
    (u64_wrap (total_accepted i + 1)) (total_rejected i) (config i).

Definition count_rejected (i : Inner) : Inner :=
  mkAdaptiveInner (current_limit i) (inflight i) (window_samples i) (window_start i)
    (total_accepted i) (u64_wrap (total_rejected i + 1)) (config i).

(** One atomic action of one thread. *)
Inductive thread_step : Inner → pc → Inner → pc → Prop :=
| t_window now i : duration_since now (window_start i) < window (config i) → thread_step i Begin i Adjusted
| t_expired now i : window (config i) <= duration_since now (window_start i) → thread_step i Begin (set_window i now) Sampling
| t_take i : thread_step i Sampling (take_samples i) (match window_samples i with [] => Adjusted | samples => Adjusting samples end)
| t_compute i samples l : adjusted (config i) (current_limit i) samples = Some l →
    thread_step i (Adjusting samples) i (if l =? current_limit i then Adjusted else Storing l)
| t_store i l : thread_step i (Storing l) (set_limit i l) Adjusted
| t_limit i : thread_step i Adjusted i (GotLimit (current_limit i))
| t_reject_first i limit : limit <= inflight i → thread_step i (GotLimit limit) (count_rejected i) Finished
| t_enter i limit : inflight i < limit → thread_step i (GotLimit limit) i (Looping limit)
| t_reject i limit : limit <= inflight i → thread_step i (Looping limit) (count_rejected i) Finished
| t_load i limit : inflight i < limit → thread_step i (Looping limit) i (Loaded limit (inflight i))
| t_cas_ok i limit current : inflight i = current →
    thread_step i (Loaded limit current) (set_inflight i (u64_wrap (current + 1))) Granted
| t_count i : thread_step i Granted (count_accepted i) Holding
| t_cas_fail i limit current : inflight i ≠ current → thread_step i (Loaded limit current) i (Looping limit)
| t_drop i : thread_step i Holding (drop_permit i) Finished
| t_record i lat ok : thread_step i Finished (record_latency i lat ok) Finished.

(** A thread that runs alone adjusts as [maybe_adjust] does. *)
Lemma adjust_alone now i i' :
  maybe_adjust now i = Ret i' → rtc (λ x y, thread_step x.1 x.2 y.1 y.2) (i, Begin) (i', Adjusted).
Proof.
  unfold maybe_adjust. destruct (Z.ltb_spec (duration_since now (window_start i)) (window (config i))) as [Hw|Hw].
  { intros [= <-]. by apply rtc_once, (t_window now). }
  set (i1 := set_window i now). set (i2 := take_samples i1). intros E.
  apply (rtc_l _ _ (i1, Sampling)); [by apply (t_expired now)|].
  destruct (window_samples i) as [|s ss] eqn:Es.
  { apply rtc_once. injection E as <-. pose proof (t_take i1) as Ht. unfold i1 in Ht. cbn [set_window window_samples] in Ht. by rewrite Es in Ht. }
  apply (rtc_l _ _ (i2, Adjusting (s :: ss))).
  { pose proof (t_take i1) as Ht. unfold i1 in Ht. cbn [set_window window_samples] in Ht. by rewrite Es in Ht. }
  destruct (adjusted (config i) (current_limit i) (s :: ss)) as [l|] eqn:Ea; [|done]. injection E as <-.
  pose proof (t_compute i2 (s :: ss) l Ea) as Hc. eapply (rtc_l _ _ (i2, _)); [exact Hc|].
  destruct (Z.eqb_spec l (current_limit i2)) as [->|]; [done|]. apply (rtc_once (_, _) (_, _)), t_store.
Qed.

(** No thread is stuck between its locks: the percentile is in range. *)
Lemma compute_ready i samples :
  samples ≠ [] → ∃ p', thread_step i (Adjusting samples) i p'.
Proof. intros Hne. destruct (adjusted_p99 (config i) (current_limit i) samples Hne) as (ms & _ & E). eexists. by eapply t_compute. Qed.

(** Threads start at any time and interleave freely. *)
Inductive reachable (cfg : AdaptiveConfig) : Inner → list pc → Prop :=
| r_new now i : adaptive_new cfg now = Ret i → reachable cfg i []
| r_spawn i ts : reachable cfg i ts → reachable cfg i (ts ++ [Begin])
| r_step i ts n p i' p' : reachable cfg i ts → ts !! n = Some p → thread_step i p i' p' →
    reachable cfg i' (<[n := p']> ts).

Definition is_holding (p : pc) : bool := match p with Granted | Holding => true | _ => false end.
Definition holding (ts : list pc) : Z := Z.of_nat (length (List.filter is_holding ts)).

(** What a thread knows is within the bounds. *)
Definition pc_ok (cfg : AdaptiveConfig) (p : pc) : Prop :=
  match p with
  | Adjusting samples => samples ≠ []
  | Storing l => min_limit cfg <= l <= max_limit cfg
  | GotLimit l | Looping l => l <= max_limit cfg
  | Loaded l c => 0 <= c < l ∧ l <= max_limit cfg
  | _ => True
  end.

Record shared_ok (cfg : AdaptiveConfig) (i : Inner) (ts : list pc) : Prop := {
  so_config : config i = cfg;
  so_limit : limit_ok i;
  so_inflight : inflight i = holding ts;
  so_bound : inflight i <= max_limit cfg;
  so_threads : Forall (pc_ok cfg) ts;
}.

Lemma holding_insert ts n p p' :
  ts !! n = Some p →
  holding (<[n := p']> ts) = holding ts - (if is_holding p then 1 else 0) + (if is_holding p' then 1 else 0).
Proof.
  unfold holding. revert n. induction ts as [|q ts IH]; intros [|n] H; simplify_eq/=.
  - destruct (is_holding p), (is_holding p'); simpl; lia.
  - specialize (IH n H). destruct (is_holding q); simpl; lia.
Qed.

Lemma thread_step_ok cfg i ts n p i' p' :
  config_ok cfg → shared_ok cfg i ts → ts !! n = Some p → thread_step i p i' p' →
  shared_ok cfg i' (<[n := p']> ts).
Proof.
  intros Hcfg [Hc Hl Hi Hb Ht] Hn Hstep.
  pose proof (holding_insert ts n p p' Hn) as Hh.
  pose proof (proj1 (Forall_lookup _ _) Ht _ _ Hn) as Hp.
  assert (0 <= holding ts) as Hnn by (unfold holding; lia).
  assert (pc_ok cfg p' → Forall (pc_ok cfg) (<[n := p']> ts)) as Hts by (intros; by apply Forall_insert).
  pose proof Hcfg as (Hmm & Hst & Hmax & Hsh).
  destruct Hstep; simpl in Hp, Hh.
  - split; [done|done|lia|done|by apply Hts].
  - split; [done|done|simpl; lia|done|by apply Hts].
  - destruct (window_samples i); (split; [done|done|simpl in *; lia|done|by apply Hts]).
  - assert (min_limit cfg <= l <= max_limit cfg) as Hb'.
    { rewrite Hc in H. unfold limit_ok in Hl. rewrite Hc in Hl. by apply (adjusted_bounds cfg (current_limit i) samples). }
    destruct (l =? current_limit i); (split; [done|done|simpl in *; lia|done|by apply Hts]).
  - split; [done| |simpl; lia|done|by apply Hts]. unfold limit_ok, set_limit. cbn [current_limit config]. by rewrite Hc.
  - split; [done|done|lia|done|]. apply Hts. simpl. unfold limit_ok in Hl. rewrite Hc in Hl. lia.
  - split; [done|done|simpl; lia|done|by apply Hts].
  - split; [done|done|lia|done|by apply Hts].
  - split; [done|done|simpl; lia|done|by apply Hts].
  - split; [done|done|lia|done|]. apply Hts. simpl. lia.
  - split; [done|done| | |by apply Hts]; simpl; rewrite u64_wrap_small; lia.
  - split; [done|done|simpl; lia|done|by apply Hts].
  - split; [done|done|lia|done|]. apply Hts. simpl. lia.
  - assert (0 < holding ts) as Hpos.
    { unfold holding. apply list_elem_of_lookup_2 in Hn. apply list_elem_of_In in Hn.
      assert (In Holding (List.filter is_holding ts)) as Hin by (by apply filter_In).
      destruct (List.filter is_holding ts); [done|]. simpl. lia. }
    split; [done|done| | |by apply Hts]; simpl; rewrite u64_wrap_small; lia.
  - split; [done|done|simpl; lia|done|by apply Hts].
Qed.

Lemma holding_app ts us : holding (ts ++ us) = holding ts + holding us.
Proof. unfold holding. rewrite List.filter_app, length_app. lia. Qed.

Lemma thread_reachable_ok cfg i ts : config_ok cfg → reachable cfg i ts → shared_ok cfg i ts.
Proof.
  intros Hcfg. induction 1 as [now i Hnew|i ts Hr IH|i ts n p i' p' Hr IH Hn Hs].
  - unfold adaptive_new in Hnew. destruct Hcfg as (Hmm & _). rewrite (proj2 (Z.ltb_ge _ _)) in Hnew by lia.
    injection Hnew as <-. split; simpl; [done| |done|lia|constructor]. unfold limit_ok. simpl. lia.
  - destruct IH as [Hc Hl Hi Hb Ht]. split; [done|done| |done|].
    + rewrite holding_app, Hi. unfold holding at 3. simpl. lia.
    + apply Forall_app. split; [done|by repeat constructor].
  - by eapply thread_step_ok.
Qed.

(** C35. Permits under concurrency: however any number of threads interleave,
    the in-flight counter is exactly the number of permits held, never exceeds
    the maximum, and the limit stays within its bounds; a compare-exchange that
    grants a permit keeps the counter within the limit that thread read. *)
Theorem permits_exact cfg i ts :
  config_ok cfg → reachable cfg i ts →
  inflight i = holding ts ∧ 0 <= inflight i <= max_limit cfg ∧
  min_limit cfg <= current_limit i <= max_limit cfg ∧
  ∀ n l c, ts !! n = Some (Loaded l c) → inflight i = c → inflight i + 1 <= l.
Proof.
  intros Hcfg Hr. destruct (thread_reachable_ok cfg i ts Hcfg Hr) as [Hc Hl Hi Hb Ht].
  split; [done|]. split; [rewrite Hi; unfold holding in *; lia|].
  split; [unfold limit_ok in Hl; by rewrite Hc in Hl|].
  intros n l c Hn Hic. pose proof (proj1 (Forall_lookup _ _) Ht _ _ Hn) as Hp. simpl in Hp. lia.
Qed.

Lemma default_config_ok : config_ok default_adaptive_config.
Proof.
  split_and!; [simpl; lia..|].
  assert (Forall (λ n, to_u64 (mul (of_Z n) (decrease_ratio default_adaptive_config)) <= n) (seqZ 10 9991)) as H.
  { apply (bool_decide_eq_true_1 _). vm_compute. reflexivity. }
  intros n Hn. rewrite Forall_forall in H. apply H, elem_of_seqZ. simpl in Hn. lia.
Qed.

Lemma aimd_adjustment_witness :
  adjusted default_adaptive_config 100 [mkSample (from_secs 1) true; mkSample (from_secs 2) true] = Some 101 ∧
  adjusted default_adaptive_config 100 [mkSample (from_secs 1) false] = Some 50.
Proof.
  split.
  - destruct (aimd_adjustment default_adaptive_config 100
      [mkSample (from_secs 1) true; mkSample (from_secs 2) true] default_config_ok)
      as (l & -> & _ & H & _); [simpl; lia|done|done|repeat constructor; simpl; discriminate|].
    rewrite H; [done|]. by repeat constructor.
  - destruct (aimd_adjustment default_adaptive_config 100 [mkSample (from_secs 1) false] default_config_ok)
      as (l & -> & _ & _ & H); [simpl; lia|done|done|repeat constructor; simpl; discriminate|].
    rewrite H; [vm_compute; reflexivity|]. left. by repeat constructor.
Defined.

(** Two threads load the same counter; the one that comes second is sent back. *)
Lemma permits_exact_witness :
  ∃ i, reachable default_adaptive_config i [Holding; Looping 100] ∧ inflight i = 1 ∧ holding [Holding; Looping 100] = 1.
Proof.
  destruct (adaptive_new default_adaptive_config 0) as [i0|] eqn:E0; [|vm_compute in E0; discriminate].
  assert (reachable default_adaptive_config i0 [Begin; Begin]) as H0.
  { apply (r_spawn _ _ [Begin]), (r_spawn _ _ []), (r_new _ 0). exact E0. }
  vm_compute in E0. injection E0 as <-.
  eapply (r_step _ _ _ 0) in H0; [|reflexivity|apply (t_window 0); reflexivity].
  eapply (r_step _ _ _ 1) in H0; [|reflexivity|apply (t_window 0); reflexivity].
  eapply (r_step _ _ _ 0) in H0; [|reflexivity|apply t_limit].
  eapply (r_step _ _ _ 1) in H0; [|reflexivity|apply t_limit].
  eapply (r_step _ _ _ 0) in H0; [|reflexivity|apply t_enter; reflexivity].
  eapply (r_step _ _ _ 1) in H0; [|reflexivity|apply t_enter; reflexivity].
  eapply (r_step _ _ _ 0) in H0; [|reflexivity|apply t_load; reflexivity].
  eapply (r_step _ _ _ 1) in H0; [|reflexivity|apply t_load; reflexivity].
  eapply (r_step _ _ _ 0) in H0; [|reflexivity|apply t_cas_ok; reflexivity].
  eapply (r_step _ _ _ 1) in H0; [|reflexivity|apply t_cas_fail; discriminate].
  eapply (r_step _ _ _ 0) in H0; [|reflexivity|apply t_count].
  eexists. split; [exact H0|].
  destruct (permits_exact _ _ _ default_config_ok H0) as [H1 _]. split; [exact H1|reflexivity].
Defined.
End Adaptive.
