(* ===== verification/Retry.v ===== *)
(** Retrying: the retry budget (conrogate-traffic/src/retry_budget.rs), the
    choice of retryable methods and the backoff (conrogate-traffic/src/retry.rs),
    and timeouts (conrogate-traffic/src/timeout.rs). *)
From Stdlib Require Import ZArith Lia Ascii String SpecFloat.
From stdpp Require Import base tactics option list strings.
From S2P Require Import Prelude Text Errors Core F64.
#[local] Open Scope Z_scope.

Module RetryBudget.
Import F64.

Record RetryBudgetConfig := mkBudgetConfig { budget_ratio : f64; window : Z; min_requests : Z }.

(** [Default]: a tenth, over ten seconds, from ten requests on. *)
Definition default_budget_config : RetryBudgetConfig :=
  mkBudgetConfig (div (of_Z 1) (of_Z 10)) (from_secs 10) 10.

Record RetryBudgetImpl := mkBudget {
  total_requests : Z;
  retry_requests : Z;
  window_start : Z;
  config : RetryBudgetConfig;
}.

Definition budget_new (cfg : RetryBudgetConfig) (now : Z) : RetryBudgetImpl := mkBudget 0 0 now cfg.

Definition maybe_refresh_window (now : Z) (b : RetryBudgetImpl) : RetryBudgetImpl :=
  if window (config b) <=? duration_since now (window_start b)
  then mkBudget 0 0 now (config b) else b.

(** One more retry, which is also a request. *)
Definition count_retry (b : RetryBudgetImpl) : RetryBudgetImpl :=
  mkBudget (u64_wrap (total_requests b + 1)) (u64_wrap (retry_requests b + 1)) (window_start b) (config b).

(** [try_consume] run without interference. *)
Definition try_consume (now : Z) (b : RetryBudgetImpl) : RetryBudgetImpl * result unit ConrogateError :=
  let b := maybe_refresh_window now b in
  if total_requests b <? min_requests (config b) then (count_retry b, Ok tt)
  else
    let ratio := div (of_Z (retry_requests b)) (of_Z (total_requests b)) in
    if leb (budget_ratio (config b)) ratio then (b, Err RetryBudgetExhausted)
    else (count_retry b, Ok tt).

Definition record_request (now : Z) (b : RetryBudgetImpl) : RetryBudgetImpl :=
  let b := maybe_refresh_window now b in
  mkBudget (u64_wrap (total_requests b + 1)) (retry_requests b) (window_start b) (config b).

Definition current_ratio (b : RetryBudgetImpl) : f64 :=
  if total_requests b =? 0 then zero else div (of_Z (retry_requests b)) (of_Z (total_requests b)).

(** ** Accounting *)

Inductive event := Request | RetryAttempt.

(** A sequence of events with their times: the final state and the results of
    the attempts. *)
Fixpoint run (evs : list (event * Z)) (b : RetryBudgetImpl) : RetryBudgetImpl * list (result unit ConrogateError) :=
  match evs with
  | [] => (b, [])
  | (Request, now) :: rest => run rest (record_request now b)
  | (RetryAttempt, now) :: rest =>
      let '(b', r) := try_consume now b in
      let '(b'', rs) := run rest b' in (b'', r :: rs)
  end.

Definition grants (rs : list (result unit ConrogateError)) : Z := Z.of_nat (length (List.filter is_ok rs)).
Definition requests (evs : list (event * Z)) : Z :=
  Z.of_nat (length (List.filter (λ e, match e.1 with Request => true | _ => false end) evs)).

Lemma requests_cons e t evs :
  requests ((e, t) :: evs) = (match e with Request => 1 | _ => 0 end) + requests evs.
Proof. unfold requests. destruct e; cbn [List.filter fst length]; lia. Qed.

Lemma grants_cons r rs : grants (r :: rs) = (if is_ok r then 1 else 0) + grants rs.
Proof. unfold grants. destruct r; cbn [List.filter is_ok length]; lia. Qed.

Definition in_window (b : RetryBudgetImpl) (now : Z) : Prop :=
  duration_since now (window_start b) < window (config b).

Lemma refresh_in_window now b : in_window b now → maybe_refresh_window now b = b.
Proof.
  unfold in_window, maybe_refresh_window. intros H.
  destruct (Z.leb_spec (window (config b)) (duration_since now (window_start b))); [lia|done].
Qed.

(** An attempt in the window: what it decides and what it counts. *)
Lemma try_consume_in_window now b :
  in_window b now →
  try_consume now b =
    if (total_requests b <? min_requests (config b)) ||
       negb (leb (budget_ratio (config b)) (div (of_Z (retry_requests b)) (of_Z (total_requests b))))
    then (count_retry b, Ok tt) else (b, Err RetryBudgetExhausted).
Proof.
  intros H. unfold try_consume. rewrite refresh_in_window by done.
  destruct (_ <? _); [done|]. by destruct (leb _ _).
Qed.

(** Retry accounting: over any sequence of requests and retry attempts in
    one window, the counters hold exactly the requests plus the granted retries,
    and the granted retries; so the ratio the budget decides on is the true
    share of retries. *)
Theorem budget_accounting evs b :
  Forall (λ e, in_window b e.2) evs → 0 <= total_requests b → 0 <= retry_requests b →
  total_requests b + retry_requests b + 2 * Z.of_nat (length evs) < 2 ^ 64 →
  let '(b', rs) := run evs b in
  total_requests b' = total_requests b + requests evs + grants rs ∧
  retry_requests b' = retry_requests b + grants rs ∧
  window_start b' = window_start b ∧ config b' = config b.
Proof.
  revert b. induction evs as [|[[] now] evs IH]; intros b Hw H1 H2 Hlen.
  - cbn [run]. unfold requests, grants. cbn [List.filter length Z.of_nat]. split_and!; [lia|lia|done|done].
  - apply Forall_cons in Hw as [Hn Hw]. simpl in Hlen. cbn [run].
    unfold record_request. rewrite refresh_in_window by done. rewrite u64_wrap_small by lia.
    specialize (IH (mkBudget (total_requests b + 1) (retry_requests b) (window_start b) (config b))).
    destruct (run evs _) as [b' rs]. simpl in IH. destruct IH as (-> & -> & -> & ->); [done|lia|lia|lia|].
    rewrite requests_cons. split_and!; done || lia.
  - apply Forall_cons in Hw as [Hn Hw]. simpl in Hlen. cbn [run]. rewrite try_consume_in_window by done.
    destruct (_ || _).
    + unfold count_retry. rewrite !u64_wrap_small by lia.
      specialize (IH (mkBudget (total_requests b + 1) (retry_requests b + 1) (window_start b) (config b))).
      destruct (run evs _) as [b' rs]. simpl in IH. destruct IH as (-> & -> & -> & ->); [done|lia|lia|lia|].
      rewrite requests_cons, grants_cons. simpl. split_and!; done || lia.
    + specialize (IH b Hw H1 H2). destruct (run evs b) as [b' rs]. destruct IH as (-> & -> & -> & ->); [lia|].
      rewrite requests_cons, grants_cons. simpl. split_and!; done || lia.
Qed.

Lemma budget_accounting_witness :
  let '(b', rs) := run [(Request, 1); (RetryAttempt, 2); (Request, 3); (RetryAttempt, 4)]
                       (budget_new default_budget_config 0) in
  total_requests b' = 4 ∧ retry_requests b' = 2.
Proof.
  pose proof (budget_accounting [(Request, 1); (RetryAttempt, 2); (Request, 3); (RetryAttempt, 4)]
    (budget_new default_budget_config 0)) as H.
  destruct (run _ _) as [b' rs] eqn:E. destruct H as (-> & -> & _); [repeat constructor|simpl; lia|simpl; lia|simpl; lia|].
  vm_compute in E. injection E as _ <-. split; reflexivity.
Defined.

(** [n] attempts at times of the window. *)
Fixpoint attempts (times : list Z) (b : RetryBudgetImpl) : list (result unit ConrogateError) :=
  match times with
  | [] => []
  | t :: ts => let '(b', r) := try_consume t b in r :: attempts ts b'
  end.

Lemma attempts_only_retries times b k m :
  leb (budget_ratio (config b)) one = true → Forall (in_window b) times →
  total_requests b = k → retry_requests b = k → 0 <= k → k + Z.of_nat (length times) < 2 ^ 53 →
  m = Z.to_nat (Z.max 1 (min_requests (config b)) - k) →
  attempts times b = replicate (length times `min` m) (Ok tt) ++
                     replicate (length times - m) (Err RetryBudgetExhausted).
Proof.
  intros Hr. revert b k m Hr. induction times as [|t ts IH]; intros b k m Hr Hw Ht Hrt Hk Hlen ->; [done|].
  apply Forall_cons in Hw as [Hwt Hw]. simpl length in Hlen.
  cbn [attempts]. rewrite try_consume_in_window by done. rewrite Ht, Hrt.
  destruct (decide (k < Z.max 1 (min_requests (config b)))) as [Hlt|Hge].
  - assert ((k <? min_requests (config b)) || negb (leb (budget_ratio (config b)) (div (of_Z k) (of_Z k))) = true) as ->.
    { destruct (Z.ltb_spec k (min_requests (config b))); [done|]. assert (k = 0) as -> by lia.
      simpl orb. change (div (of_Z 0) (of_Z 0)) with S754_nan.
      by destruct (budget_ratio (config b)) as [[]|[]| |[]]. }
    replace (Z.to_nat (Z.max 1 (min_requests (config b)) - k)) with
      (S (Z.to_nat (Z.max 1 (min_requests (config b)) - (k + 1)))) by lia.
    rewrite (IH (count_retry b) (k + 1) (Z.to_nat (Z.max 1 (min_requests (config b)) - (k + 1)))); try done; try lia.
    + unfold count_retry. simpl. rewrite Ht. apply u64_wrap_small. lia.
    + unfold count_retry. simpl. rewrite Hrt. apply u64_wrap_small. lia.
  - rewrite of_Z_div_self, Hr by lia. rewrite (proj2 (Z.ltb_ge _ _)) by lia. simpl orb. cbv iota beta.
    replace (Z.to_nat (Z.max 1 (min_requests (config b)) - k)) with 0%nat by lia.
    rewrite (IH b k 0%nat); try done; try lia.
    by rewrite !Nat.min_0_r, !Nat.sub_0_r.
Qed.

(** Retry storm: when a window sees no original request, at most
    [max(1, min_requests)] retries are granted, the first ones, and every later
    attempt is refused, for every ratio up to one. *)
Theorem budget_stops_storm cfg now times :
  leb (budget_ratio cfg) one = true →
  Forall (in_window (budget_new cfg now)) times → Z.of_nat (length times) < 2 ^ 53 →
  let m := Z.to_nat (Z.max 1 (min_requests cfg)) in
  attempts times (budget_new cfg now) =
    replicate (length times `min` m) (Ok tt) ++ replicate (length times - m) (Err RetryBudgetExhausted).
Proof.
  intros Hr Hw Hlen m. apply (attempts_only_retries times (budget_new cfg now) 0 m); try done.
  unfold m. simpl. by rewrite Z.sub_0_r.
Qed.

Lemma budget_stops_storm_witness :
  attempts (replicate 12 5) (budget_new default_budget_config 0) =
    replicate 10 (Ok tt) ++ replicate 2 (Err RetryBudgetExhausted).
Proof.
  apply (budget_stops_storm default_budget_config 0 (replicate 12 5));
    [vm_compute; reflexivity|repeat constructor|simpl; lia].
Defined.
End RetryBudget.

Module Retryer.

Record RetryConfig := mkRetryConfig { max_attempts : Z; base_jitter_ms : Z }.
Definition default_retry_config : RetryConfig := mkRetryConfig 2 50.

Record RetryerImpl := mkRetryer { config : RetryConfig; idempotent_methods : list string }.

Definition retryer_new (cfg : RetryConfig) : RetryerImpl :=
  mkRetryer cfg ["GET"; "HEAD"; "OPTIONS"; "PUT"; "DELETE"]%string.

Definition with_extra_idempotent (r : RetryerImpl) (method : string) : RetryerImpl :=
  mkRetryer (config r) (method :: idempotent_methods r).

Definition can_retry (r : RetryerImpl) (method : string) (allow_non_idempotent : bool) : bool :=
  if bool_decide (to_uppercase method ∈ idempotent_methods r) then true else allow_non_idempotent.

(** [next_backoff], in nanoseconds. *)
Definition next_backoff (r : RetryerImpl) (attempt : Z) : Z :=
  if attempt =? 0 then from_millis 0
  else
    let exponent := Z.min (attempt - 1) 10 in
    let backoff_ms := u64_wrap (base_jitter_ms (config r) * Z.shiftl 1 exponent) in
    let jitter := backoff_ms / 4 in
    from_millis (u64_wrap (backoff_ms + jitter)).

(** Backoff: it starts at zero, the delay of attempt [n] is the base
    doubled [n - 1] times plus a quarter, it never decreases with the attempts,
    and from the eleventh on it stays at 1280 times the base; no overflow
    happens for bases below 2^50 milliseconds. *)
Theorem backoff_exponential r attempt :
  0 <= base_jitter_ms (config r) < 2 ^ 50 → 1 <= attempt →
  let b := base_jitter_ms (config r) in
  let full := b * 2 ^ Z.min (attempt - 1) 10 in
  next_backoff r 0 = 0 ∧
  next_backoff r attempt = from_millis (full + full / 4) ∧
  next_backoff r attempt <= next_backoff r (attempt + 1) ∧
  next_backoff r attempt <= from_millis (1280 * b) ∧
  (11 <= attempt → next_backoff r attempt = from_millis (1280 * b)).
Proof.
  intros Hb Ha b full. fold b in Hb.
  assert (∀ n, 1 <= n → 0 <= b * 2 ^ Z.min (n - 1) 10 <= b * 1024 ∧
    next_backoff r n = from_millis (b * 2 ^ Z.min (n - 1) 10 + b * 2 ^ Z.min (n - 1) 10 / 4)) as Hn.
  { intros n Hn. assert (1 <= 2 ^ Z.min (n - 1) 10 <= 1024) as Hp.
    { change 1024 with (2 ^ 10). change 1 with (2 ^ 0) at 1. split; apply Z.pow_le_mono_r; lia. }
    assert (0 <= b * 2 ^ Z.min (n - 1) 10 <= b * 1024) as Hbp by nia.
    split; [done|]. unfold next_backoff. rewrite (proj2 (Z.eqb_neq _ _)) by lia.
    rewrite Z.shiftl_1_l. fold b. rewrite (u64_wrap_small (b * _)) by lia.
    pose proof (Z.div_pos (b * 2 ^ Z.min (n - 1) 10) 4).
    pose proof (Z.div_le_upper_bound (b * 2 ^ Z.min (n - 1) 10) 4 (b * 1024)).
    by rewrite u64_wrap_small by lia. }
  destruct (Hn attempt Ha) as [Hr1 E1]. destruct (Hn (attempt + 1)) as [Hr2 E2]; [lia|].
  assert (full <= b * 2 ^ Z.min (attempt + 1 - 1) 10) as Hmono.
  { unfold full. apply Z.mul_le_mono_nonneg_l; [lia|]. apply Z.pow_le_mono_r; lia. }
  assert (b * 1024 / 4 = b * 256) as Hq.
  { replace (b * 1024) with (b * 256 * 4) by lia. by rewrite Z.div_mul. }
  fold full in E1, Hr1. split_and!; [done|done| | |].
  - rewrite E1, E2. unfold from_millis. pose proof (Z.div_le_mono _ _ 4 ltac:(lia) Hmono). lia.
  - rewrite E1. unfold from_millis. pose proof (Z.div_le_mono full (b * 1024) 4 ltac:(lia) (proj2 Hr1)) as Hd.
    rewrite Hq in Hd. clearbody full. lia.
  - intros H11. rewrite E1. unfold full. rewrite Z.min_r by lia. change (2 ^ 10) with 1024.
    rewrite Hq. f_equal. lia.
Qed.

Lemma backoff_exponential_witness :
  next_backoff (retryer_new default_retry_config) 3 = from_millis 250 ∧
  next_backoff (retryer_new default_retry_config) 12 = from_millis 64000.
Proof.
  split.
  - destruct (backoff_exponential (retryer_new default_retry_config) 3) as (_ & -> & _); [simpl; lia|lia|]. reflexivity.
  - destruct (backoff_exponential (retryer_new default_retry_config) 12) as (_ & _ & _ & _ & H);
      [simpl; lia|lia|]. rewrite H by lia. reflexivity.
Defined.
End Retryer.

(** ** Timeouts *)

Module Timeout.

(** A future seen from outside: the time it takes and what it yields; the timer
    fires when the time exceeds the duration it was set to (at a tie the future is
    polled first). *)
Record future (A : Type) := mkFuture { takes : Z; yields : A }.
Arguments mkFuture {A}.
Arguments takes {A}.
Arguments yields {A}.

Definition with_timeout_or {A E} (dur : Z) (fut : future A) (on_timeout : E) : result A E :=
  if takes fut <=? dur then Ok (yields fut) else Err on_timeout.

Definition with_timeout {A} (dur : Z) (fut : future A) : result A ConrogateError :=
  with_timeout_or dur fut UpstreamTimeout.

(** [TimeoutStage] and its default. *)
Record TimeoutStage := mkTimeoutStage { connect : Z; read : Z; total : Z }.
Definition default_stage : TimeoutStage := mkTimeoutStage (from_secs 3) (from_secs 15) (from_secs 30).
End Timeout.
