(* ===== verification/RouteMatcher.v ===== *)
(** The route matching engine (conrogate-gateway/src/route.rs).

    Loading compiles the patterns, groups the enabled routes by protocol and
    sorts each group; matching walks the group. The regex crate is a parameter:
    a type of compiled expressions, the compiler and the matcher. *)
From Stdlib Require Import ZArith Lia Ascii String.
From stdpp Require Import base tactics option list list_numbers gmap strings sorting.
From S2P Require Import Prelude Text Errors Core BalancerApi.
#[local] Open Scope Z_scope.

Module RouteMatcher.

(** ** The syntactic check of patterns *)

(** A backslash followed by a digit. *)
Fixpoint has_backreference (s : string) : bool :=
  match s with
  | String c ((String d _) as s') => (bool_decide (c = "\"%char) && is_digit d) || has_backreference s'
  | _ => false
  end.

Definition has_redos_risk (pattern : string) : bool :=
  if has_backreference pattern then true
  else if contains "(.+" pattern && contains "+" pattern then
    contains "(.+)+" pattern || contains "(.*)*" pattern || contains "(.+)*" pattern || contains "(.*)+" pattern
  else false.

(** The nested star named in the comment is only looked for when the pattern
    also contains an opening [(.+]. *)
Lemma redos_nested_star_missed : has_redos_risk "(.*)*" = false ∧ has_redos_risk "(.+)+" = true.
Proof. split; vm_compute; reflexivity. Qed.

(** ** Hosts *)

Definition str_drop (n : nat) (s : string) : string := String.substring n (String.length s - n) s.
Definition str_take (n : nat) (s : string) : string := String.substring 0 n s.

(** [match_host]. *)
Definition match_host (pattern host : string) : bool :=
  if eq_ignore_ascii_case pattern host then true
  else
    match strip_prefix "*." pattern with
    | Some suffix =>
        let hlen := String.length host in
        let slen := String.length suffix in
        if bool_decide (slen + 1 < hlen)%nat && bool_decide (String.get (hlen - slen - 1) host = Some "."%char) then
          let label := str_take (hlen - slen - 1) host in
          if is_empty label || contains "." label then false
          else eq_ignore_ascii_case suffix (str_drop (hlen - slen) host)
        else false
    | None => false
    end.

Section WithRegex.
(** [regex::Regex], [Regex::new] and [Regex::is_match]. *)
Context {Regex : Type} (regex_new : string → option Regex) (is_match : Regex → string → bool).

(** [compile_safe] and [try_compile_regex]. *)
Definition compile_safe (pattern : string) : option Regex :=
  if has_redos_risk pattern then None else regex_new pattern.
Definition try_compile_regex (pattern : string) : bool := bool_decide (is_Some (compile_safe pattern)).

(** [validate_regex_patterns]. *)
Definition validate_regex_patterns (c : RouteMatchConditions) : bool :=
  match rc_path c with PathRegex p => try_compile_regex p | _ => true end &&
  forallb (λ hm, negb (bool_decide (hm_op hm = OpRegex)) || try_compile_regex (hm_value hm)) (rc_headers c) &&
  forallb (λ qm, negb (bool_decide (qm_op qm = OpRegex)) || try_compile_regex (qm_value qm)) (rc_query_params c).

Record CompiledMatchers := mkCompiled {
  path_regex : option Regex;
  header_regexes : list (option Regex);
  query_regexes : list (option Regex);
}.

Definition header_regex (hm : HeaderMatch) : option Regex :=
  if bool_decide (hm_op hm = OpRegex) then compile_safe (hm_value hm) else None.
Definition query_regex (qm : QueryMatch) : option Regex :=
  if bool_decide (qm_op qm = OpRegex) then compile_safe (qm_value qm) else None.

(** [CompiledMatchers::compile]. *)
Definition compile (c : RouteMatchConditions) : CompiledMatchers :=
  mkCompiled (match rc_path c with PathRegex p => compile_safe p | _ => None end)
             (map header_regex (rc_headers c)) (map query_regex (rc_query_params c)).

Record RouteEntry := mkEntry {
  snapshot : RouteSnapshot;
  conditions : RouteMatchConditions;
  priority : Z;
  compiled : CompiledMatchers;
}.

Record RouteTable := mkTable {
  routes : gmap ProtocolId (list RouteEntry);
  needs_headers_of : gmap ProtocolId bool;
}.

Definition empty_table : RouteTable := mkTable ∅ ∅.

(** ** Matching one route *)

Definition re_matches (re : option Regex) (s : string) : bool :=
  match re with Some r => is_match r s | None => false end.

Definition match_path (pm : PathMatch) (request_path : string) (re : option Regex) : bool :=
  match pm with
  | PathExact p => bool_decide (request_path = p)
  | PathPrefix p => starts_with p request_path
  | PathRegex _ => re_matches re request_path
  end.

Definition match_header (hm : HeaderMatch) (headers : list (string * string)) (re : option Regex) : bool :=
  existsb (λ kv, eq_ignore_ascii_case kv.1 (hm_key hm) &&
    match hm_op hm with
    | OpExact => bool_decide (kv.2 = hm_value hm)
    | OpPrefix => starts_with (hm_value hm) kv.2
    | OpRegex => re_matches re kv.2
    | OpNotEmpty => negb (is_empty kv.2)
    end) headers.

Definition match_query (qm : QueryMatch) (params : list (string * string)) (re : option Regex) : bool :=
  existsb (λ kv, bool_decide (kv.1 = qm_key qm) &&
    match qm_op qm with
    | OpExact => bool_decide (kv.2 = qm_value qm)
    | OpPrefix => starts_with (qm_value qm) kv.2
    | OpRegex => re_matches re kv.2
    | OpNotEmpty => negb (is_empty kv.2)
    end) params.

Definition match_method (methods : option (list string)) (m : option string) : bool :=
  match methods with
  | None => true
  | Some ms => match m with Some x => existsb (λ y, eq_ignore_ascii_case y x) ms | None => false end
  end.

Definition match_host_opt (pattern host : option string) : bool :=
  match pattern with
  | None => true
  | Some p => match host with Some h => match_host p h | None => false end
  end.

(** The loops over the conditions with the regexes aligned by index. *)
Definition all_indexed {C} (f : C → option Regex → bool) (cs : list C) (res : list (option Regex)) : bool :=
  forallb id (imap (λ i c, f c (mjoin (res !! i))) cs).

(** [RouteMatcher::matches]. *)
Definition matches (c : RouteMatchConditions) (cm : CompiledMatchers) (info : RouteMatchInfo) : bool :=
  match_path (rc_path c) (mi_path info) (path_regex cm) &&
  match_method (rc_methods c) (mi_method info) &&
  match_host_opt (rc_host c) (mi_host info) &&
  all_indexed (λ hm re, match_header hm (mi_headers info) re) (rc_headers c) (header_regexes cm) &&
  all_indexed (λ qm re, match_query qm (mi_query_params info) re) (rc_query_params c) (query_regexes cm).

(** ** Loading *)

(** The grouping of the enabled bindings by route. *)
Definition group_bindings (bindings : list PluginBindingDto) : gmap Z (list PluginBindingDto) :=
  foldl (λ m b, if b_enabled b then <[b_route_id b := default [] (m !! b_route_id b) ++ [b]]> m else m) ∅ bindings.

Definition make_entry (body_required : list string) (bs : list PluginBindingDto) (d : RouteDto) : RouteEntry :=
  {| conditions := r_match_conditions d;
     priority := r_priority d;
     compiled := compile (r_match_conditions d);
     snapshot :=
       mkSnapshot (r_id d) (r_protocol d) (r_upstream_id d) (r_host_header d)
         (r_allow_retry_non_idempotent d) (r_ws_strip_sensitive_headers d) bs
         (existsb (λ b, bool_decide (b_plugin_name b ∈ body_required)) bs) |}.

(** A route that enters the table. *)
Definition loadable (d : RouteDto) : bool := r_enabled d && validate_regex_patterns (r_match_conditions d).

(** One iteration of the loading loop on the binding map and the groups. *)
Definition load_one (body_required : list string)
    (acc : gmap Z (list PluginBindingDto) * gmap ProtocolId (list RouteEntry)) (d : RouteDto) :
    gmap Z (list PluginBindingDto) * gmap ProtocolId (list RouteEntry) :=
  let '(bm, rs) := acc in
  if loadable d then
    let e := make_entry body_required (default [] (bm !! r_id d)) d in
    (delete (r_id d) bm, <[r_protocol d := default [] (rs !! r_protocol d) ++ [e]]> rs)
  else acc.

(** Higher priority first, then smaller id. *)
Definition entry_leb (a b : RouteEntry) : bool :=
  (priority b <? priority a) || ((priority b =? priority a) && (s_id (snapshot a) <=? s_id (snapshot b))).

(** [load_with_bindings]. *)
Definition load_with_bindings (dtos : list RouteDto) (bindings : list PluginBindingDto)
    (body_required : list string) : RouteTable :=
  let '(_, rs) := foldl (load_one body_required) (group_bindings bindings, ∅) dtos in
  let rs := stable_sort entry_leb <$> rs in
  mkTable rs ((λ es, existsb (λ e, negb (bool_decide (rc_headers (conditions e) = []))) es) <$> rs).

Definition load (dtos : list RouteDto) : RouteTable := load_with_bindings dtos [] [].

Definition table_is_empty (t : RouteTable) : bool :=
  forallb (λ kv, match kv.2 with [] => true | _ => false end) (map_to_list (routes t)).

Definition needs_headers (t : RouteTable) (p : ProtocolId) : bool := default false (needs_headers_of t !! p).

(** [match_route] and [lookup_route]. *)
Definition match_route (t : RouteTable) (p : ProtocolId) (info : RouteMatchInfo) : option RouteSnapshot :=
  match routes t !! p with
  | None => None
  | Some es => snapshot <$> List.find (λ e, matches (conditions e) (compiled e) info) es
  end.

Definition lookup_route (t : RouteTable) (p : ProtocolId) (info : RouteMatchInfo) :
    result (option RouteSnapshot) ConrogateError := Ok (match_route t p info).

(** [match_http_request]. *)
Definition match_http_request (t : RouteTable) (v : HttpView) : option RouteSnapshot * RouteMatchInfo :=
  let info := from_http_request v (needs_headers t Http) in
  (match routes t !! Http with
   | None => None
   | Some es => snapshot <$> List.find (λ e, matches (conditions e) (compiled e) info) es
   end, info).

(** ** The meaning of conditions *)

(** What a route's conditions say of a request, each pattern compiled on its own. *)
Definition conditions_match (c : RouteMatchConditions) (info : RouteMatchInfo) : bool :=
  match_path (rc_path c) (mi_path info) (match rc_path c with PathRegex p => compile_safe p | _ => None end) &&
  match_method (rc_methods c) (mi_method info) &&
  match_host_opt (rc_host c) (mi_host info) &&
  forallb (λ hm, match_header hm (mi_headers info) (header_regex hm)) (rc_headers c) &&
  forallb (λ qm, match_query qm (mi_query_params info) (query_regex qm)) (rc_query_params c).

Lemma all_indexed_map {C} (f : C → option Regex → bool) (g : C → option Regex) cs :
  all_indexed f cs (map g cs) = forallb (λ c, f c (g c)) cs.
Proof.
  unfold all_indexed.
  enough (∀ pre, forallb id (imap (λ i c, f c (mjoin ((pre ++ map g cs) !! (length pre + i)%nat))) cs) =
    forallb (λ c, f c (g c)) cs) as H by exact (H []).
  induction cs as [|c cs IH]; intros pre; [done|]. cbn [imap map forallb].
  rewrite Nat.add_0_r, list_lookup_middle by done. simpl mjoin. f_equal.
  rewrite <-(IH (pre ++ [g c])). f_equal. apply imap_ext. intros i c' _. simpl.
  rewrite length_app, <-app_assoc. simpl. do 3 f_equal. lia.
Qed.

(** The compiled matcher decides the meaning of the conditions. *)
Lemma matches_compile c info : matches c (compile c) info = conditions_match c info.
Proof. unfold matches, conditions_match, compile. cbn [path_regex header_regexes query_regexes]. by rewrite !all_indexed_map. Qed.

(** ** The loaded table *)

(** The bindings of a route, in order. *)
Definition bindings_of (bindings : list PluginBindingDto) (id : Z) : list PluginBindingDto :=
  List.filter (λ b, b_enabled b && (b_route_id b =? id)) bindings.

Lemma group_bindings_lookup bindings id :
  default [] (group_bindings bindings !! id) = bindings_of bindings id.
Proof.
  unfold group_bindings, bindings_of. induction bindings as [|b bs IH] using rev_ind; [done|].
  rewrite foldl_app, List.filter_app. simpl. destruct (b_enabled b); simpl; [|by rewrite app_nil_r].
  destruct (Z.eqb_spec (b_route_id b) id) as [->|Hne].
  - rewrite lookup_insert_eq. simpl. by rewrite IH.
  - rewrite lookup_insert_ne by done. by rewrite app_nil_r.
Qed.

Definition eligible_in (p : ProtocolId) (d : RouteDto) : bool := loadable d && bool_decide (r_protocol d = p).

Lemma load_fold body_required bindings dtos bm rs p :
  NoDup (map r_id dtos) →
  (∀ d, d ∈ dtos → default [] (bm !! r_id d) = bindings_of bindings (r_id d)) →
  default [] ((foldl (load_one body_required) (bm, rs) dtos).2 !! p) =
    default [] (rs !! p) ++
    map (λ d, make_entry body_required (bindings_of bindings (r_id d)) d) (List.filter (eligible_in p) dtos).
Proof.
  revert bm rs. induction dtos as [|d dtos IH]; intros bm rs Hnd Hbm; simpl; [by rewrite app_nil_r|].
  apply NoDup_cons in Hnd as [Hd Hnd]. unfold eligible_in at 1.
  destruct (loadable d) eqn:El; simpl.
  - rewrite IH; [|done|].
    + rewrite (Hbm d) by left. destruct (decide (r_protocol d = p)) as [<-|Hne].
      * rewrite lookup_insert_eq, bool_decide_eq_true_2 by done. simpl. by rewrite <-app_assoc.
      * rewrite lookup_insert_ne, bool_decide_eq_false_2 by done. done.
    + intros d' Hd'. rewrite lookup_delete_ne; [apply Hbm; by right|].
      intros E. apply Hd. rewrite E. apply list_elem_of_In, in_map. by apply list_elem_of_In.
  - apply IH; [done|]. intros d' Hd'. apply Hbm. by right.
Qed.

Lemma load_routes dtos bindings body_required p :
  NoDup (map r_id dtos) →
  default [] (routes (load_with_bindings dtos bindings body_required) !! p) =
    stable_sort entry_leb
      (map (λ d, make_entry body_required (bindings_of bindings (r_id d)) d) (List.filter (eligible_in p) dtos)).
Proof.
  intros Hnd. pose proof (load_fold body_required bindings dtos (group_bindings bindings) ∅ p Hnd) as H.
  unfold load_with_bindings. destruct (foldl _ _ dtos) as [bm rs]. simpl in *. rewrite lookup_fmap.
  rewrite lookup_empty in H. simpl in H. rewrite <-H by (intros; apply group_bindings_lookup).
  by destruct (rs !! p).
Qed.

Lemma entry_leb_total a b : entry_leb a b = false → entry_leb b a = true.
Proof. unfold entry_leb. intros H. apply orb_false_iff in H as [H1 H2]. apply orb_true_iff. case_Z; simpl in *; try done; (by left) || (by right) || lia. Qed.

Lemma entry_leb_trans a b c : entry_leb a b = true → entry_leb b c = true → entry_leb a c = true.
Proof. unfold entry_leb. case_Z; simpl; try done; lia. Qed.

(** A group is there only when a route entered it. *)
Lemma load_fold_nonempty body_required dtos bm rs p :
  (∀ q, rs !! q ≠ Some []) → (foldl (load_one body_required) (bm, rs) dtos).2 !! p ≠ Some [].
Proof.
  revert bm rs. induction dtos as [|d dtos IH]; intros bm rs Hrs; simpl; [apply Hrs|].
  destruct (loadable d); [|by apply IH]. apply IH. intros q. destruct (decide (r_protocol d = q)) as [<-|Hne].
  - rewrite lookup_insert_eq. intros [= E]. by destruct (default [] (rs !! r_protocol d)).
  - by rewrite lookup_insert_ne.
Qed.

Lemma map_default_ext {A} (m1 m2 : gmap ProtocolId (list A)) :
  (∀ p, m1 !! p ≠ Some []) → (∀ p, m2 !! p ≠ Some []) → (∀ p, default [] (m1 !! p) = default [] (m2 !! p)) → m1 = m2.
Proof.
  intros H1 H2 E. apply map_eq. intros p. specialize (H1 p); specialize (H2 p); specialize (E p).
  destruct (m1 !! p), (m2 !! p); simpl in *; congruence.
Qed.

(** The loaded groups, before they are sorted. *)
Lemma load_fold_ext body_required dtos1 bs1 dtos2 bs2 :
  NoDup (map r_id dtos1) → List.filter loadable dtos1 ≡ₚ List.filter loadable dtos2 → NoDup (map r_id dtos2) →
  (∀ d, d ∈ dtos1 → loadable d = true → bindings_of bs1 (r_id d) = bindings_of bs2 (r_id d)) →
  ∀ p, stable_sort entry_leb (default [] ((foldl (load_one body_required) (group_bindings bs1, ∅) dtos1).2 !! p)) =
       stable_sort entry_leb (default [] ((foldl (load_one body_required) (group_bindings bs2, ∅) dtos2).2 !! p)).
Proof.
  intros Hn1 Hp Hn2 Hb p. rewrite (load_fold _ bs1), (load_fold _ bs2) by (done || (intros; apply group_bindings_lookup)).
  rewrite lookup_empty. cbn [default from_option app].
  assert (∀ l, List.filter (eligible_in p) l = List.filter (λ d, bool_decide (r_protocol d = p)) (List.filter loadable l)) as Ef.
  { intros l. rewrite filter_filter. apply List.filter_ext. intros d. unfold eligible_in. apply andb_comm. }
  assert (∀ l d, d ∈ List.filter (eligible_in p) l → d ∈ l ∧ loadable d = true) as Hin.
  { intros l d [Hd He]%filter_elem_of. split; [done|]. unfold eligible_in in He. by apply andb_prop in He as [? _]. }
  assert (List.filter (eligible_in p) dtos1 ≡ₚ List.filter (eligible_in p) dtos2) as Hp' by (by rewrite !Ef, Hp).
  rewrite (map_ext_in (λ d, make_entry body_required (bindings_of bs1 (r_id d)) d) (λ d, make_entry body_required (bindings_of bs2 (r_id d)) d))
    by (intros d Hd; apply list_elem_of_In, Hin in Hd as [Hd Hl]; by rewrite Hb).
  set (F := λ d, make_entry _ (bindings_of bs2 (r_id d)) d).
  assert (∀ d, F d = make_entry body_required (bindings_of bs2 (r_id d)) d) as EF by done.
  apply (StronglySorted_unique_strong (λ a b, entry_leb a b = true)).
  - intros x y Hx Hy H1 H2. rewrite stable_sort_perm in Hx, Hy.
    apply list_elem_of_fmap in Hx as (d1 & -> & Hx), Hy as (d2 & -> & Hy). rewrite <- Hp' in Hy.
    apply Hin in Hx as [Hx _], Hy as [Hy _]. f_equal. apply (NoDup_map_inj r_id dtos1); [done..|].
    rewrite !EF in *. unfold entry_leb in H1, H2. cbn [priority snapshot s_id make_entry] in H1, H2. case_Z; simpl in *; lia || done.
  - apply stable_sort_sorted; [apply entry_leb_total|apply entry_leb_trans].
  - apply stable_sort_sorted; [apply entry_leb_total|apply entry_leb_trans].
  - rewrite !stable_sort_perm. by apply Permutation_map.
Qed.

(** The table depends on the loadable routes and their bindings, not on the order in
    which the routes are given. *)
Lemma load_with_bindings_ext body_required dtos1 bs1 dtos2 bs2 :
  NoDup (map r_id dtos1) → NoDup (map r_id dtos2) → List.filter loadable dtos1 ≡ₚ List.filter loadable dtos2 →
  (∀ d, d ∈ dtos1 → loadable d = true → bindings_of bs1 (r_id d) = bindings_of bs2 (r_id d)) →
  load_with_bindings dtos1 bs1 body_required = load_with_bindings dtos2 bs2 body_required.
Proof.
  intros Hn1 Hn2 Hp Hb. unfold load_with_bindings.
  pose proof (load_fold_ext body_required dtos1 bs1 dtos2 bs2 Hn1 Hp Hn2 Hb) as E.
  assert (∀ q, (∅ : gmap ProtocolId (list RouteEntry)) !! q ≠ Some []) as lookup_none by (intros q; by rewrite lookup_empty).
  pose proof (λ p, load_fold_nonempty body_required dtos1 (group_bindings bs1) ∅ p lookup_none) as N1.
  pose proof (λ p, load_fold_nonempty body_required dtos2 (group_bindings bs2) ∅ p lookup_none) as N2.
  destruct (foldl _ (group_bindings bs1, ∅) dtos1) as [bm1 rs1], (foldl _ (group_bindings bs2, ∅) dtos2) as [bm2 rs2]. simpl in *.
  assert (stable_sort entry_leb <$> rs1 = stable_sort entry_leb <$> rs2) as ->; [|done].
  apply map_default_ext.
  - intros p. rewrite lookup_fmap. specialize (N1 p). destruct (rs1 !! p) as [l|]; [|done]. simpl. intros [= E1].
    apply N1. f_equal. apply Permutation_nil. by rewrite <- E1, stable_sort_perm.
  - intros p. rewrite lookup_fmap. specialize (N2 p). destruct (rs2 !! p) as [l|]; [|done]. simpl. intros [= E1].
    apply N2. f_equal. apply Permutation_nil. by rewrite <- E1, stable_sort_perm.
  - intros p. rewrite !lookup_fmap. specialize (E p). by destruct (rs1 !! p), (rs2 !! p).
Qed.

(** The first match of a sorted list is a best one. *)
Lemma find_sorted {A} (leb : A → A → bool) (P : A → bool) l x :
  (∀ a, leb a a = true) → StronglySorted (λ a b, leb a b = true) l → List.find P l = Some x →
  x ∈ l ∧ P x = true ∧ ∀ y, y ∈ l → P y = true → leb x y = true.
Proof.
  intros Hrefl Hs. induction Hs as [|z l Hs IH Hz]; simpl; [done|]. destruct (P z) eqn:Ez.
  - intros [= ->]. split; [left|]. split; [done|]. intros y Hy _.
    apply elem_of_cons in Hy as [->|Hy]; [done|]. rewrite Forall_forall in Hz. by apply Hz.
  - intros Hf. destruct (IH Hf) as (Hin & HP & Hbest). split; [by right|]. split; [done|].
    intros y Hy HPy. apply elem_of_cons in Hy as [->|Hy]; [congruence|auto].
Qed.

(** The snapshot a loaded route has. *)
Definition snapshot_of (bindings : list PluginBindingDto) (body_required : list string) (d : RouteDto) : RouteSnapshot :=
  snapshot (make_entry body_required (bindings_of bindings (r_id d)) d).

(** A loadable route of the protocol whose conditions hold. *)
Definition candidate (p : ProtocolId) (info : RouteMatchInfo) (dtos : list RouteDto) (d : RouteDto) : Prop :=
  d ∈ dtos ∧ loadable d = true ∧ r_protocol d = p ∧ conditions_match (r_match_conditions d) info = true.

Lemma candidate_entry p info dtos bindings body_required e :
  NoDup (map r_id dtos) →
  e ∈ default [] (routes (load_with_bindings dtos bindings body_required) !! p) ∧
    matches (conditions e) (compiled e) info = true ↔
  ∃ d, candidate p info dtos d ∧ e = make_entry body_required (bindings_of bindings (r_id d)) d.
Proof.
  intros Hnd. rewrite load_routes, (stable_sort_perm entry_leb) by done. rewrite list_elem_of_In, in_map_iff.
  unfold candidate. split.
  - intros [(d & <- & Hd) Hm]. apply list_elem_of_In, filter_elem_of in Hd as [Hd He].
    unfold eligible_in in He. apply andb_prop in He as [He Hp]. apply bool_decide_eq_true in Hp.
    exists d. cbn [conditions compiled make_entry] in Hm. by rewrite matches_compile in Hm.
  - intros (d & (Hd & Hl & Hp & Hm) & ->). split.
    + exists d. split; [done|]. apply list_elem_of_In, filter_elem_of. split; [done|].
      unfold eligible_in. rewrite Hl. by apply bool_decide_eq_true.
    + cbn [conditions compiled make_entry]. by rewrite matches_compile.
Qed.

Lemma match_route_find t p info :
  match_route t p info =
    snapshot <$> List.find (λ e, matches (conditions e) (compiled e) info) (default [] (routes t !! p)).
Proof. unfold match_route. by destruct (routes t !! p). Qed.

(** C27. Routing: after loading routes with distinct ids, a request of a
    protocol is given the snapshot (with the enabled bindings of the route, in
    order) of an enabled route with valid patterns whose conditions hold, of the
    highest priority among those and of the smallest id among the highest; and
    it is given none exactly when there is no such route. *)
Theorem match_route_best dtos bindings body_required p info :
  NoDup (map r_id dtos) →
  match match_route (load_with_bindings dtos bindings body_required) p info with
  | Some s => ∃ d, candidate p info dtos d ∧ s = snapshot_of bindings body_required d ∧
      ∀ d', candidate p info dtos d' →
        r_priority d' < r_priority d ∨ (r_priority d' = r_priority d ∧ r_id d <= r_id d')
  | None => ∀ d, ¬ candidate p info dtos d
  end.
Proof.
  intros Hnd. rewrite match_route_find.
  set (es := default [] (routes (load_with_bindings dtos bindings body_required) !! p)).
  pose proof (candidate_entry p info dtos bindings body_required) as Hce. fold es in Hce.
  destruct (List.find _ es) as [e|] eqn:E; simpl.
  - assert (StronglySorted (λ a b, entry_leb a b = true) es) as Hs.
    { unfold es. rewrite load_routes by done.
      apply stable_sort_sorted; [apply entry_leb_total|apply entry_leb_trans]. }
    destruct (find_sorted entry_leb (λ e, matches (conditions e) (compiled e) info) es e) as (Hin & Hm & Hbest); [|done|done|].
    { intros a. unfold entry_leb. rewrite Z.eqb_refl, Z.leb_refl. apply orb_true_r. }
    destruct (proj1 (Hce e Hnd) (conj Hin Hm)) as (d & Hd & ->).
    exists d. split_and!; [done|done|]. intros d' Hd'.
    destruct (proj2 (Hce (make_entry body_required (bindings_of bindings (r_id d')) d') Hnd)) as [Hin' Hm'];
      [by exists d'|].
    specialize (Hbest _ Hin' Hm'). unfold entry_leb in Hbest. simpl in Hbest.
    apply orb_true_iff in Hbest as [Hb|Hb]; [left; by apply Z.ltb_lt|right].
    apply andb_prop in Hb as [Hb1 Hb2]. apply Z.eqb_eq in Hb1. apply Z.leb_le in Hb2. done.
  - intros d Hd. destruct (proj2 (Hce (make_entry body_required (bindings_of bindings (r_id d)) d) Hnd)) as [Hin Hm];
      [by exists d|].
    apply list_elem_of_In in Hin. pose proof (find_none _ _ E _ Hin) as Hf. cbv beta in Hf. congruence.
Qed.

(** ** Skipping the headers *)

Lemma matches_no_headers e v b1 b2 :
  rc_headers (conditions e) = [] →
  matches (conditions e) (compiled e) (from_http_request v b1) =
  matches (conditions e) (compiled e) (from_http_request v b2).
Proof. intros E. unfold matches. rewrite E. done. Qed.

Lemma find_ext {A} (P Q : A → bool) l : (∀ x, x ∈ l → P x = Q x) → List.find P l = List.find Q l.
Proof.
  induction l as [|x l IH]; simpl; intros H; [done|]. rewrite H by left.
  destruct (Q x); [done|]. apply IH. intros y Hy. apply H. by right.
Qed.

(** Leaving the request headers out when no loaded route looks at them does
    not change the routing: [match_http_request] answers what [match_route]
    answers on the full information of the request. *)
Theorem match_http_request_full dtos bindings body_required v :
  let t := load_with_bindings dtos bindings body_required in
  (match_http_request t v).1 = match_route t Http (from_http_request v true).
Proof.
  intros t. unfold match_http_request, match_route. cbn [fst].
  destruct (routes t !! Http) as [es|] eqn:E; [|done]. f_equal. apply find_ext. intros e He.
  destruct (needs_headers t Http) eqn:En; [done|]. apply matches_no_headers.
  unfold needs_headers, t, load_with_bindings in *. destruct (foldl _ _ dtos) as [bm rs]. simpl in *.
  rewrite lookup_fmap, E in En. simpl in En.
  destruct (decide (rc_headers (conditions e) = [])) as [|Hne]; [done|].
  exfalso. enough (existsb (λ e, negb (bool_decide (rc_headers (conditions e) = []))) es = true) by congruence.
  apply existsb_exists. exists e. split; [by apply list_elem_of_In|]. by rewrite bool_decide_eq_false_2.
Qed.
End WithRegex.

(** A toy regex engine: a pattern is a text to be contained. *)
Definition toy_new (p : string) : option string := Some p.
Definition toy_match (re s : string) : bool := contains re s.

Definition demo_route (id prio : Z) (path : PathMatch) : RouteDto :=
  mkRoute id "r" Http (mkConditions path None None [] []) prio (Some 1) None false false true 0 0.
Definition demo_routes : list RouteDto :=
  [demo_route 3 10 (PathPrefix "/api"); demo_route 2 10 (PathPrefix "/"); demo_route 1 5 (PathRegex "users");
   demo_route 4 90 (PathRegex "(.+)+")].

(** Of the two matching routes of priority 10 the one with the smaller id wins;
    the route of priority 90 has a rejected pattern. *)
Lemma match_route_best_witness :
  ∃ s d, match_route toy_match (load_with_bindings toy_new demo_routes [] []) Http
           (mkMatchInfo "/api/users" (Some "GET"%string) None [] []) = Some s ∧
    candidate toy_new toy_match Http (mkMatchInfo "/api/users" (Some "GET"%string) None [] []) demo_routes d ∧
    s = snapshot_of toy_new [] [] d ∧ s_id s = 2.
Proof.
  pose proof (match_route_best toy_new toy_match demo_routes [] [] Http
    (mkMatchInfo "/api/users" (Some "GET"%string) None [] [])) as H.
  destruct (match_route _ _ _ _) as [s|] eqn:E; [|vm_compute in E; discriminate].
  destruct H as (d & Hd & Hs & _); [apply (bool_decide_eq_true_1 _); vm_compute; reflexivity|].
  exists s, d. split; [done|]. split; [done|]. split; [done|].
  vm_compute in E. injection E as <-. reflexivity.
Defined.

(** ** The meaning of host patterns *)

Lemma substring_app_l a b : str_take (String.length a) (a +:+ b) = a.
Proof. unfold str_take. induction a as [|c a IH]; simpl_str; [by destruct b|]. by rewrite IH. Qed.

Lemma substring_all s : String.substring 0 (String.length s) s = s.
Proof. induction s as [|c s IH]; simpl; [done|]. by rewrite IH. Qed.

Lemma length_app_string a b : String.length (a +:+ b) = (String.length a + String.length b)%nat.
Proof. induction a as [|c a IH]; simpl_str; [done|]. simpl. by rewrite IH. Qed.

Lemma substring_app_r a b : str_drop (String.length a) (a +:+ b) = b.
Proof.
  unfold str_drop. rewrite length_app_string. replace (String.length a + String.length b - String.length a)%nat with (String.length b) by lia.
  induction a as [|c a IH]; simpl_str; [apply substring_all|]. simpl. exact IH.
Qed.

Lemma take_drop_string n s : (n <= String.length s)%nat → str_take n s +:+ str_drop n s = s ∧ String.length (str_take n s) = n.
Proof.
  unfold str_take, str_drop. revert s. induction n as [|n IH]; intros s Hn.
  - rewrite Nat.sub_0_r, substring_all. destruct s; simpl_str; done.
  - destruct s as [|c s]; simpl in Hn; [lia|]. simpl. destruct (IH s) as [E L]; [lia|].
    rewrite app_cons_string, E. split; [done|]. by rewrite L.
Qed.

Lemma get_app_mid a c b : String.get (String.length a) (a +:+ String c b) = Some c.
Proof. induction a as [|x a IH]; simpl_str; [done|]. exact IH. Qed.

Lemma drop_cons_get n s c : String.get n s = Some c → str_drop n s = String c (str_drop (S n) s).
Proof.
  unfold str_drop. revert s. induction n as [|n IH]; intros [|x s] H; simpl in *; try done.
  - injection H as ->. rewrite Nat.sub_0_r. by rewrite substring_all.
  - by apply IH.
Qed.

Lemma eq_ignore_length a b : eq_ignore_ascii_case a b = true → String.length a = String.length b.
Proof.
  unfold eq_ignore_ascii_case. intros H. 
  assert (∀ f s, String.length (map_string f s) = String.length s) as Hm
    by (intros f s; induction s; simpl; congruence).
  apply bool_decide_eq_true in H. apply (f_equal String.length) in H. unfold to_lowercase in H. by rewrite !Hm in H.
Qed.

(** Host patterns: a pattern matches a host exactly when they are equal up
    to ASCII case, or the pattern is [*.suffix] and the host is one non-empty
    label without dots, a dot, and the suffix up to case. *)
Theorem match_host_spec pattern host :
  match_host pattern host = true ↔
  eq_ignore_ascii_case pattern host = true ∨
  ∃ suffix label rest, pattern = "*." +:+ suffix ∧ host = label +:+ "." +:+ rest ∧
    label ≠ EmptyString ∧ contains "." label = false ∧ eq_ignore_ascii_case suffix rest = true.
Proof.
  unfold match_host. destruct (eq_ignore_ascii_case pattern host); [split; auto|].
  destruct (strip_prefix "*." pattern) as [suffix|] eqn:Ep.
  2: { split; [done|]. intros [?|(suffix & label & rest & -> & _)]; [done|].
       assert (strip_prefix "*." ("*." +:+ suffix) = Some suffix) by (by apply strip_prefix_app). congruence. }
  apply strip_prefix_app in Ep as ->.
  set (hlen := String.length host). set (slen := String.length suffix). split.
  - destruct (bool_decide (slen + 1 < hlen)%nat) eqn:E1; simpl; [|done].
    destruct (bool_decide (String.get (hlen - slen - 1) host = Some "."%char)) eqn:E2; simpl; [|done].
    apply bool_decide_eq_true in E1, E2.
    destruct (is_empty (str_take (hlen - slen - 1) host)) eqn:E3; simpl; [done|].
    destruct (contains "." (str_take (hlen - slen - 1) host)) eqn:E4; simpl; [done|]. intros E5. right.
    destruct (take_drop_string (hlen - slen - 1) host) as [Etd _]; [unfold hlen; lia|].
    rewrite (drop_cons_get _ _ _ E2) in Etd. replace (S (hlen - slen - 1)) with (hlen - slen)%nat in Etd by lia.
    exists suffix, (str_take (hlen - slen - 1) host), (str_drop (hlen - slen) host).
    split_and!; [done| |by intros Eq; rewrite Eq in E3|done|done].
    symmetry. rewrite app_cons_string, app_nil_string. exact Etd.
  - intros [?|(suffix' & label & rest & Epat & Eh & Hl & Hc & He)]; [done|].
    rewrite !app_cons_string, !app_nil_string in Epat. injection Epat as <-.
    pose proof (eq_ignore_length _ _ He) as Hlen. rewrite app_cons_string, app_nil_string in Eh.
    assert (hlen = String.length label + S slen)%nat as Hh.
    { unfold hlen, slen. rewrite Eh, length_app_string. simpl. lia. }
    assert (String.length label ≠ 0)%nat by (by destruct label).
    rewrite bool_decide_eq_true_2 by lia. simpl.
    replace (hlen - slen - 1)%nat with (String.length label) by lia.
    rewrite Eh. rewrite bool_decide_eq_true_2 by apply get_app_mid.
    rewrite substring_app_l, Hc. destruct (is_empty label) eqn:Eem; [by destruct label|]. simpl.
    replace (hlen - slen)%nat with (String.length (label +:+ "."))
      by (rewrite length_app_string; simpl; lia).
    replace (label +:+ String "." rest) with ((label +:+ ".") +:+ rest)
      by (rewrite <-string_app_assoc, app_cons_string, app_nil_string; done).
    by rewrite substring_app_r.
Qed.
End RouteMatcher.
