(* ===== verification/Plugin.v ===== *)
(** The plugin framework: the plugin trait (conrogate-core/src/plugin.rs), the
    registry, the chain builder and the pipeline
    (conrogate-plugins/src/framework/{registry,loader,pipeline}.rs).

    Plugins are a type [P] with the operations of the trait; contexts and
    responses are types of their own, of which the framework reads only the
    protocol. *)
From Stdlib Require Import ZArith Lia Ascii String.
From stdpp Require Import base tactics option list list_numbers gmap strings sorting.
From S2P Require Import Prelude Text Errors Core BalancerApi.
#[local] Open Scope Z_scope.

(** ** The trait *)

Inductive PluginKind := Native | Wasm.
Inductive PluginStatus := Installed | Active | Disabled | Uninstalled.

(** [Terminate] carries the status and the body. *)
Inductive PluginOutcome (Body : Type) :=
| Continue
| Terminate (status : Z) (body : Body).
Arguments Continue {Body}.
Arguments Terminate {Body} status body.

Class PluginTrait (P Ctx Resp Body : Type) : Type := {
  pl_name : P → string;
  pl_kind : P → PluginKind;
  pl_protocols : P → list ProtocolId;
  pl_is_blocking : P → bool;
  pl_requires_body : P → bool;
  pl_validate_config : P → Value → result unit ConrogateError;
  pl_configured : P → Value → result P ConrogateError;
  pl_before_request : P → Ctx → Ctx * result (PluginOutcome Body) ConrogateError;
  pl_after_response : P → Ctx → Resp → Ctx * Resp * result unit ConrogateError;
  pl_on_connect : P → Ctx → Ctx * result (PluginOutcome Body) ConrogateError;
  pl_on_disconnect : P → Ctx → Ctx * result unit ConrogateError;
  ctx_protocol : Ctx → ProtocolId;
}.

Module Plugins.
Section Framework.
Context {P Ctx Resp Body : Type} `{PT : PluginTrait P Ctx Resp Body}.

(** ** The registry *)

Record PluginRegistryImpl := mkRegistry {
  plugins : gmap string P;
  route_bindings : gmap Z (list string);
}.

Definition registry_new : PluginRegistryImpl := mkRegistry ∅ ∅.

Definition register (r : PluginRegistryImpl) (p : P) : PluginRegistryImpl :=
  mkRegistry (<[pl_name p := p]> (plugins r)) (route_bindings r).

Definition get (r : PluginRegistryImpl) (name : string) : option P := plugins r !! name.

Definition list_names (r : PluginRegistryImpl) : list string := map fst (map_to_list (plugins r)).

Definition body_required_plugin_names (r : PluginRegistryImpl) : list string :=
  map fst (List.filter (λ kv, pl_requires_body kv.2) (map_to_list (plugins r))).

Definition bind (r : PluginRegistryImpl) (route_id : Z) (name : string) : PluginRegistryImpl :=
  mkRegistry (plugins r) (<[route_id := default [] (route_bindings r !! route_id) ++ [name]]> (route_bindings r)).

Definition list_by_route (r : PluginRegistryImpl) (route_id : Z) : list P :=
  omap (λ name, plugins r !! name) (default [] (route_bindings r !! route_id)).

Definition unbind (r : PluginRegistryImpl) (route_id : Z) (name : string) : PluginRegistryImpl :=
  mkRegistry (plugins r)
    (match route_bindings r !! route_id with
     | Some names => <[route_id := filter (λ n, n ≠ name) names]> (route_bindings r)
     | None => route_bindings r
     end).

(** [PluginLoader::reload] binds without clearing first. *)
Definition loader_reload (r : PluginRegistryImpl) (bs : list PluginBindingDto) : PluginRegistryImpl :=
  foldl (λ r b, bind r (b_route_id b) (b_plugin_name b)) r bs.

(** ** Chains *)

Definition order_leb (a b : PluginBindingDto) : bool := b_order a <=? b_order b.

Definition in_order (bs : list PluginBindingDto) : list PluginBindingDto :=
  stable_sort order_leb (List.filter b_enabled bs).

(** The instances of bindings in turn; unregistered plugins are skipped and the
    first configuration error ends it. *)
Fixpoint instances (r : PluginRegistryImpl) (bs : list PluginBindingDto) : result (list P) ConrogateError :=
  match bs with
  | [] => Ok []
  | b :: rest =>
      match get r (b_plugin_name b) with
      | None => instances r rest
      | Some template =>
          let? p := pl_configured template (b_config b) in
          let? ps := instances r rest in Ok (p :: ps)
      end
  end.

(** [PluginLoader::build_chain]. *)
Definition build_chain (r : PluginRegistryImpl) (bs : list PluginBindingDto) : result (list P) ConrogateError :=
  instances r (in_order bs).

(** The loop of [build_chains]. *)
Fixpoint build_loop (r : PluginRegistryImpl) (bs : list PluginBindingDto) (chains : gmap Z (list P)) :
    result (gmap Z (list P)) ConrogateError :=
  match bs with
  | [] => Ok chains
  | b :: rest =>
      match get r (b_plugin_name b) with
      | None => build_loop r rest chains
      | Some template =>
          let? p := pl_configured template (b_config b) in
          build_loop r rest (<[b_route_id b := default [] (chains !! b_route_id b) ++ [p]]> chains)
      end
  end.

Definition build_chains (r : PluginRegistryImpl) (bs : list PluginBindingDto) :
    result (gmap Z (list P)) ConrogateError := build_loop r (in_order bs) ∅.

(** ** The pipeline *)

Abbreviation route_chains := (gmap Z (list P)).

Definition set_route_chain (c : route_chains) (route_id : Z) (ps : list P) : route_chains := <[route_id := ps]> c.
Definition set_route_chains (c new : route_chains) : route_chains := new.
Definition get_route_chain (c : route_chains) (route_id : Z) : list P := default [] (c !! route_id).

Definition applies (p : P) (ctx : Ctx) : bool := bool_decide (ctx_protocol ctx ∈ pl_protocols p).

(** The common loop of [execute_before_request] and [execute_on_connect]. *)
Fixpoint execute_gate (hook : P → Ctx → Ctx * result (PluginOutcome Body) ConrogateError)
    (ctx : Ctx) (ps : list P) : Ctx * result (PluginOutcome Body) ConrogateError :=
  match ps with
  | [] => (ctx, Ok Continue)
  | p :: rest =>
      if applies p ctx then
        match hook p ctx with
        | (ctx', Ok Continue) => execute_gate hook ctx' rest
        | (ctx', Ok (Terminate code body)) => (ctx', Ok (Terminate code body))
        | (ctx', Err e) => (ctx', Err e)
        end
      else execute_gate hook ctx rest
  end.

Definition execute_before_request := execute_gate pl_before_request.
Definition execute_on_connect := execute_gate pl_on_connect.

Fixpoint execute_after_response (ctx : Ctx) (resp : Resp) (ps : list P) : Ctx * Resp * result unit ConrogateError :=
  match ps with
  | [] => (ctx, resp, Ok tt)
  | p :: rest =>
      if applies p ctx then
        match pl_after_response p ctx resp with
        | (ctx', resp', Ok _) => execute_after_response ctx' resp' rest
        | (ctx', resp', Err e) => (ctx', resp', Err e)
        end
      else execute_after_response ctx resp rest
  end.

Fixpoint execute_on_disconnect (ctx : Ctx) (ps : list P) : Ctx * result unit ConrogateError :=
  match ps with
  | [] => (ctx, Ok tt)
  | p :: rest =>
      if applies p ctx then
        match pl_on_disconnect p ctx with
        | (ctx', Ok _) => execute_on_disconnect ctx' rest
        | (ctx', Err e) => (ctx', Err e)
        end
      else execute_on_disconnect ctx rest
  end.

(** ** The gate as a run of plugins *)

(** Plugins passed one after the other: each is skipped or says to continue. *)
Inductive passes (hook : P → Ctx → Ctx * result (PluginOutcome Body) ConrogateError) :
    Ctx → list P → Ctx → Prop :=
| passes_nil ctx : passes hook ctx [] ctx
| passes_skip ctx p ps ctx' : applies p ctx = false → passes hook ctx ps ctx' → passes hook ctx (p :: ps) ctx'
| passes_run ctx p ps ctx1 ctx' : applies p ctx = true → hook p ctx = (ctx1, Ok Continue) →
    passes hook ctx1 ps ctx' → passes hook ctx (p :: ps) ctx'.

(** A verdict that stops the chain. *)
Definition stops (r : result (PluginOutcome Body) ConrogateError) : Prop :=
  match r with Ok Continue => False | _ => True end.

Lemma passes_execute hook ctx pre ctx1 rest :
  passes hook ctx pre ctx1 → execute_gate hook ctx (pre ++ rest) = execute_gate hook ctx1 rest.
Proof.
  induction 1 as [|ctx p ps ctx' Ha Hp IH|ctx p ps c1 ctx' Ha Hh Hp IH]; simpl; [done|by rewrite Ha|].
  by rewrite Ha, Hh.
Qed.

Definition verdict hook (ctx : Ctx) (ps : list P) (ctx' : Ctx) r : Prop :=
  (r = Ok Continue ∧ passes hook ctx ps ctx') ∨
  (stops r ∧ ∃ pre p post ctx1, ps = pre ++ p :: post ∧ passes hook ctx pre ctx1 ∧
     applies p ctx1 = true ∧ hook p ctx1 = (ctx', r)).

(** A verdict on the rest of a chain is one on the chain. *)
Lemma verdict_cons hook ctx p ps ctx1 ctx' r :
  (∀ qs ctx2, passes hook ctx1 qs ctx2 → passes hook ctx (p :: qs) ctx2) →
  verdict hook ctx1 ps ctx' r → verdict hook ctx (p :: ps) ctx' r.
Proof.
  intros Hp [[-> H]|(Hs & pre & q & post & c & -> & H1 & H2 & H3)]; [left; auto|right].
  split; [done|]. exists (p :: pre), q, post, c. auto.
Qed.

Lemma gate_sound hook ctx ps : verdict hook ctx ps (execute_gate hook ctx ps).1 (execute_gate hook ctx ps).2.
Proof.
  revert ctx. induction ps as [|p ps IH]; intros ctx; simpl; [left; split; [done|constructor]|].
  destruct (applies p ctx) eqn:Ea.
  2: { apply (verdict_cons _ _ _ _ ctx); [|apply IH]. intros. by apply passes_skip. }
  destruct (hook p ctx) as [c1 o] eqn:Eh.
  assert (stops o → verdict hook ctx (p :: ps) c1 o) as Hst.
  { intros Ho. right. split; [done|]. exists [], p, ps, ctx. split_and!; [done|constructor|done|done]. }
  destruct o as [[|code body]|e]; simpl; [|by apply Hst..].
  apply (verdict_cons _ _ _ _ c1); [|apply IH]. intros. by eapply passes_run.
Qed.

(** The gate lets a request through exactly when every plugin that applies
    to its protocol continued, each on the context its predecessors left; and it
    returns a verdict exactly when some plugin of the chain gave it after all
    before it continued, in which case no later plugin runs. *)
Theorem gate_verdict hook ctx ps ctx' r :
  execute_gate hook ctx ps = (ctx', r) ↔
  (r = Ok Continue ∧ passes hook ctx ps ctx') ∨
  (stops r ∧ ∃ pre p post ctx1, ps = pre ++ p :: post ∧ passes hook ctx pre ctx1 ∧
     applies p ctx1 = true ∧ hook p ctx1 = (ctx', r)).
Proof.
  split.
  - intros E. pose proof (gate_sound hook ctx ps) as H. by rewrite E in H.
  - intros [[-> H]|(Hs & pre & p & post & c & -> & H1 & H2 & H3)].
    + rewrite <-(app_nil_r ps). by rewrite (passes_execute _ _ _ _ _ H).
    + rewrite (passes_execute _ _ _ _ _ H1). simpl. rewrite H2, H3. by destruct r as [[]|].
Qed.

(** ** Grouping and ordering *)

Lemma order_leb_total a b : order_leb a b = false → order_leb b a = true.
Proof. unfold order_leb. intros H. apply Z.leb_gt in H. apply Z.leb_le. lia. Qed.
Lemma order_leb_trans a b c : order_leb a b = true → order_leb b c = true → order_leb a c = true.
Proof. unfold order_leb. rewrite !Z.leb_le. lia. Qed.

(** What the loop adds to the chain of a route. *)
Lemma build_loop_spec r bs chains chains' route :
  build_loop r bs chains = Ok chains' →
  ∃ ps, instances r (List.filter (λ b, b_route_id b =? route) bs) = Ok ps ∧
    default [] (chains' !! route) = default [] (chains !! route) ++ ps.
Proof.
  revert chains. induction bs as [|b bs IH]; intros chains H; simpl in H |- *.
  { exists []. injection H as ->. split; [done|by rewrite app_nil_r]. }
  destruct (get r (b_plugin_name b)) as [t|] eqn:Et.
  - destruct (pl_configured t (b_config b)) as [p|e] eqn:Ec; [|done].
    destruct (IH _ H) as (ps & Hps & Hd). destruct (Z.eqb_spec (b_route_id b) route) as [Hr|Hr]; simpl.
    + rewrite Et, Ec, Hps. exists (p :: ps). split; [done|].
      rewrite Hd, Hr, lookup_insert_eq. simpl. by rewrite <-app_assoc.
    + exists ps. split; [done|]. by rewrite lookup_insert_ne in Hd.
  - destruct (IH _ H) as (ps & Hps & Hd). exists ps.
    destruct (b_route_id b =? route); simpl; [by rewrite Et|done].
Qed.

(** Filtering a stably sorted list sorts the filtered list. *)
Lemma filter_insert_sorted (Q : PluginBindingDto → bool) x l :
  StronglySorted (λ a b, order_leb a b = true) l →
  List.filter Q (insert_sorted order_leb x l) =
    if Q x then insert_sorted order_leb x (List.filter Q l) else List.filter Q l.
Proof.
  induction 1 as [|y l Hs IH Hy]; simpl; [by destruct (Q x)|].
  destruct (order_leb x y) eqn:E; simpl.
  - destruct (Q x); [|done]. destruct (Q y); simpl; [by rewrite E|].
    destruct (List.filter Q l) as [|z zs] eqn:Ef; [done|]. simpl.
    assert (z ∈ l) as Hz.
    { assert (z ∈ List.filter Q l) as Hz' by (rewrite Ef; left). by apply filter_elem_of in Hz' as [? _]. }
    rewrite Forall_forall in Hy. by rewrite (order_leb_trans x y z E (Hy z Hz)).
  - rewrite IH. destruct (Q x), (Q y); simpl; rewrite ?E; done.
Qed.

Lemma filter_stable_sort (Q : PluginBindingDto → bool) l :
  List.filter Q (stable_sort order_leb l) = stable_sort order_leb (List.filter Q l).
Proof.
  induction l as [|x l IH]; simpl; [done|]. rewrite filter_insert_sorted, IH.
  - by destruct (Q x).
  - apply stable_sort_sorted; [apply order_leb_total|apply order_leb_trans].
Qed.

Lemma filter_comm {A} (Q R : A → bool) l : List.filter Q (List.filter R l) = List.filter R (List.filter Q l).
Proof. rewrite !filter_filter. apply List.filter_ext. intros x. apply andb_comm. Qed.

(** Chains: when [build_chains] succeeds, the chain of every route is the
    chain [build_chain] makes of that route's bindings alone: its enabled
    bindings with registered plugins, by ascending order, equal orders as given. *)
Theorem build_chains_by_route r bs chains route :
  build_chains r bs = Ok chains →
  build_chain r (List.filter (λ b, b_route_id b =? route) bs) = Ok (get_route_chain chains route).
Proof.
  intros H. destruct (build_loop_spec r _ _ _ route H) as (ps & Hps & Hd).
  unfold build_chain, in_order, get_route_chain. rewrite filter_comm, <-filter_stable_sort.
  unfold in_order in Hps. rewrite Hps, Hd, lookup_empty. done.
Qed.

(** Building succeeds exactly when every enabled binding with a registered plugin
    has a configuration its plugin accepts. *)
Definition buildable (r : PluginRegistryImpl) (b : PluginBindingDto) : Prop :=
  b_enabled b = true → ∀ t, get r (b_plugin_name b) = Some t → ∃ p, pl_configured t (b_config b) = Ok p.

Lemma build_chains_ok r bs : (∃ chains, build_chains r bs = Ok chains) ↔ ∀ b, b ∈ bs → buildable r b.
Proof.
  assert (∀ l chains, (∃ c, build_loop r l chains = Ok c) ↔
          ∀ b, b ∈ l → ∀ t, get r (b_plugin_name b) = Some t → ∃ p, pl_configured t (b_config b) = Ok p) as H.
  { induction l as [|b l IH]; intros chains; simpl; [split; [intros _ b Hb; by apply elem_of_nil in Hb|by eexists]|].
    split.
    - intros Hc b' [->|Hb']%elem_of_cons.
      + intros t Et. rewrite Et in Hc. destruct (pl_configured t (b_config b)) as [p|e]; [by exists p|by destruct Hc].
      + destruct (get r (b_plugin_name b)) as [t|]; [|by apply (proj1 (IH chains) Hc)].
        destruct (pl_configured t (b_config b)) as [p|e]; [|by destruct Hc]. by apply (proj1 (IH _) Hc).
    - intros Hb. destruct (get r (b_plugin_name b)) as [t|] eqn:Et; [|apply IH; intros; apply (Hb b0); [by right|done]].
      destruct (Hb b ltac:(left) t Et) as [p ->]. simpl. apply IH. intros b' Hb'. apply Hb. by right. }
  unfold build_chains. rewrite H. unfold in_order, buildable. split.
  - intros Hb b Hin He. apply Hb. rewrite (stable_sort_perm order_leb). by apply filter_elem_of.
  - intros Hb b Hin. rewrite (stable_sort_perm order_leb) in Hin. apply filter_elem_of in Hin as [Hin He]. by apply Hb.
Qed.

(** The instance of a binding in the chain of its route. *)
Lemma instances_app r l1 l2 ps :
  instances r (l1 ++ l2) = Ok ps → ∃ ps1 ps2, ps = ps1 ++ ps2 ∧ instances r l1 = Ok ps1 ∧ instances r l2 = Ok ps2.
Proof.
  revert ps. induction l1 as [|b l1 IH]; intros ps; simpl; [intros E; by exists [], ps|].
  destruct (get r (b_plugin_name b)) as [t|]; [|apply IH]. destruct (pl_configured t (b_config b)) as [p|e]; [|done]. simpl.
  destruct (instances r (l1 ++ l2)) as [qs|e]; [|done]. simpl. intros [= <-]. destruct (IH qs eq_refl) as (ps1 & ps2 & -> & -> & E2).
  by exists (p :: ps1), ps2.
Qed.

Lemma instances_elem r l ps p :
  instances r l = Ok ps → p ∈ ps → ∃ b t, b ∈ l ∧ get r (b_plugin_name b) = Some t ∧ pl_configured t (b_config b) = Ok p.
Proof.
  revert ps. induction l as [|b l IH]; intros ps; simpl; [intros [= <-] []%elem_of_nil|].
  destruct (get r (b_plugin_name b)) as [t|] eqn:Et; [|intros E Hp; destruct (IH ps E Hp) as (b' & t' & ? & ?); exists b', t'; split; [by right|done]].
  destruct (pl_configured t (b_config b)) as [q|e] eqn:Ec; [|done]. simpl.
  destruct (instances r l) as [qs|e]; [|done]. simpl. intros [= <-] [->|Hp]%elem_of_cons; [exists b, t; split; [by left|done]|].
  destruct (IH qs eq_refl Hp) as (b' & t' & ? & ?). exists b', t'. split; [by right|done].
Qed.

(** A chain lists the instances of the bindings of its route by order: those before
    the instance of a binding come from bindings of at most its order. *)
Lemma chain_at r bs chains b t :
  build_chains r bs = Ok chains → b ∈ bs → b_enabled b = true → get r (b_plugin_name b) = Some t →
  ∃ pre p post, get_route_chain chains (b_route_id b) = pre ++ p :: post ∧ pl_configured t (b_config b) = Ok p ∧
    ∀ q, q ∈ pre → ∃ b' t', b' ∈ bs ∧ b_enabled b' = true ∧ b_route_id b' = b_route_id b ∧ b_order b' <= b_order b ∧
      get r (b_plugin_name b') = Some t' ∧ pl_configured t' (b_config b') = Ok q.
Proof.
  intros Hb Hin He Ht. apply (build_loop_spec r _ _ _ (b_route_id b)) in Hb as (ps & Hps & Hd). rewrite lookup_empty in Hd. cbn [default from_option app] in Hd.
  unfold in_order in Hps. rewrite filter_stable_sort in Hps. set (l := List.filter _ _) in Hps.
  assert (∀ x, x ∈ l ↔ x ∈ bs ∧ b_enabled x = true ∧ b_route_id x = b_route_id b) as Hl.
  { intros x. unfold l. rewrite !list_elem_of_In, !filter_In, <- list_elem_of_In, Z.eqb_eq. tauto. }
  assert (b ∈ stable_sort order_leb l) as Hbs by (rewrite (stable_sort_perm order_leb); by apply Hl).
  apply list_elem_of_split in Hbs as (l1 & l2 & E).
  pose proof (stable_sort_sorted order_leb order_leb_total order_leb_trans l) as Hs. rewrite E in Hs, Hps.
  apply instances_app in Hps as (pre & ps2 & -> & E1 & E2). simpl in E2. rewrite Ht in E2.
  destruct (pl_configured t (b_config b)) as [p|e] eqn:Ec; [|done]. simpl in E2. destruct (instances r l2) as [post|e]; [|done].
  injection E2 as <-. exists pre, p, post. split; [exact Hd|]. split; [done|].
  intros q Hq. destruct (instances_elem _ _ _ _ E1 Hq) as (b' & t' & Hb' & Ht' & Hc').
  assert (b' ∈ l) as Hbl by (rewrite <- (stable_sort_perm order_leb l), E; apply elem_of_app; by left).
  apply Hl in Hbl as (? & ? & ?). exists b', t'. split_and!; try done.
  apply StronglySorted_app_1_elem_of with (x1 := b') (x2 := b) in Hs; [|done|by left]. by apply Z.leb_le.
Qed.

(** What a gate that lets pass did at one plugin of the chain. *)
Lemma passes_at hook ctx pre p post ctx' :
  passes hook ctx (pre ++ p :: post) ctx' →
  ∃ ctx1, passes hook ctx pre ctx1 ∧ (applies p ctx1 = false ∨ ∃ ctx2, hook p ctx1 = (ctx2, Ok Continue)).
Proof.
  revert ctx. induction pre as [|q pre IH]; intros ctx H; simpl in H.
  - exists ctx. split; [constructor|]. inversion H; subst; [by left|right; eauto].
  - inversion H as [|? ? ? ? Ha Hp|? ? ? c1 ? Ha Hh Hp]; subst.
    + destruct (IH _ Hp) as (c & ? & ?). exists c. split; [by apply passes_skip|done].
    + destruct (IH _ Hp) as (c & ? & ?). exists c. split; [by eapply passes_run|done].
Qed.

(** The [blocking] field of a binding changes nothing. *)
Definition unblocking (b : PluginBindingDto) : PluginBindingDto :=
  mkBinding (b_id b) (b_route_id b) (b_plugin_name b) (b_config b) (b_order b) false (b_enabled b).

Lemma blocking_ignored r bs : build_chains r (map unblocking bs) = build_chains r bs.
Proof.
  assert (∀ l, in_order (map unblocking l) = map unblocking (in_order l)) as Hio.
  { intros l. unfold in_order.
    assert (∀ l0, List.filter b_enabled (map unblocking l0) = map unblocking (List.filter b_enabled l0)) as ->.
    { induction l0 as [|x l0 IH]; simpl; [done|]. destruct (b_enabled x); simpl; by rewrite IH. }
    generalize (List.filter b_enabled l). induction l0 as [|x l0 IH]; simpl; [done|]. rewrite IH.
    generalize (stable_sort order_leb l0). induction l1 as [|y l1 IH1]; simpl; [done|].
    unfold order_leb at 1 3. cbn. destruct (_ <=? _); simpl; [done|]. by rewrite IH1. }
  unfold build_chains. rewrite Hio. generalize (@empty (gmap Z (list P)) _). induction (in_order bs) as [|b l IH]; intros c; simpl; [done|].
  destruct (get r (b_plugin_name b)) as [t|]; [|apply IH]. destruct (pl_configured t (b_config b)); simpl; [apply IH|done].
Qed.

(** Reloading binds again what is bound: nothing is cleared. *)
Lemma loader_reload_accumulates r b :
  let once := loader_reload r [b] in
  list_by_route (loader_reload once [b]) (b_route_id b) =
  list_by_route once (b_route_id b) ++ omap (λ n, plugins r !! n) [b_plugin_name b].
Proof.
  unfold loader_reload, list_by_route, bind. cbn [foldl plugins route_bindings].
  rewrite !lookup_insert_eq. cbn [default from_option]. apply omap_app.
Qed.
End Framework.
End Plugins.

(** A toy plugin type: a name, the protocols, and whether it terminates. *)
Record toy_plugin := mkToy { toy_name : string; toy_stop : bool }.

#[local] Instance toy_trait : PluginTrait toy_plugin ProtocolId unit unit :=
  {| pl_name := toy_name; pl_kind _ := Native; pl_protocols _ := [Http]; pl_is_blocking _ := true;
     pl_requires_body _ := false; pl_validate_config _ _ := Ok tt; pl_configured p _ := Ok p;
     pl_before_request p c := (c, Ok (if toy_stop p then Terminate 403 tt else Continue));
     pl_after_response p c r := (c, r, Ok tt); pl_on_connect p c := (c, Ok Continue);
     pl_on_disconnect p c := (c, Ok tt); ctx_protocol c := c |}.

Module PluginsDemo.
Import Plugins.

Definition demo_registry : PluginRegistryImpl :=
  register (register registry_new (mkToy "auth" true)) (mkToy "cors" false).
Definition demo_bindings : list PluginBindingDto :=
  [mkBinding 1 7 "auth" VNull 20 true true; mkBinding 2 8 "cors" VNull 1 true true;
   mkBinding 3 7 "cors" VNull 10 false true; mkBinding 4 7 "auth" VNull 5 true false].

Lemma build_chains_by_route_witness :
  build_chain demo_registry (List.filter (λ b, b_route_id b =? 7) demo_bindings) =
    Ok [mkToy "cors" false; mkToy "auth" true].
Proof.
  destruct (build_chains demo_registry demo_bindings) as [c|e] eqn:E; [|vm_compute in E; discriminate].
  rewrite (build_chains_by_route demo_registry demo_bindings c 7 E).
  vm_compute in E. injection E as <-. reflexivity.
Defined.
End PluginsDemo.
