(* ===== verification/Access.v ===== *)
(** Access control by address: the global blacklist
    (conrogate-security/src/blacklist.rs) and the route-level allow/deny plugin
    (conrogate-plugins/src/ip_allow_deny/mod.rs).

    Addresses and networks are those of std::net and of the ipnet crate, given
    by their parsers and the containment tests. *)
From Stdlib Require Import ZArith Lia Ascii String.
From stdpp Require Import base tactics option list strings.
From S2P Require Import Prelude Text Errors Core BalancerApi Plugin.
#[local] Open Scope Z_scope.

(** What is used of [IpAddr] and [IpNet]. *)
Class IpLib (IpAddr IpNet : Type) : Type := {
  parse_addr : string → option IpAddr;
  parse_net : string → option IpNet;
  net_of_addr : IpAddr → IpNet;
  net_contains : IpNet → IpAddr → bool;
  net_contains_net : IpNet → IpNet → bool;
}.

(** Documented behaviour: the network of an address is the address alone. *)
Class IpLibOk (IpAddr IpNet : Type) `{IpLib IpAddr IpNet} : Prop := {
  contains_host n a : net_contains_net n (net_of_addr a) = net_contains n a;
  contains_refl a : net_contains (net_of_addr a) a = true;
}.

Section Access.
Context {IpAddr IpNet : Type} `{Lib : IpLib IpAddr IpNet}.

(** [parse_ip_or_cidr]. *)
Definition parse_ip_or_cidr (s : string) : option IpNet :=
  match parse_net (trim s) with
  | Some net => Some net
  | None => net_of_addr <$> parse_addr (trim s)
  end.

(** ** The blacklist *)

Record BlacklistEntry := mkBlEntry { ble_net : IpNet; ble_expires_at : option Z }.

(** [BlacklistMatcher]: its entries. *)
Abbreviation BlacklistMatcher := (list BlacklistEntry).

Definition blacklist_new : BlacklistMatcher := [].

(** [expires_at.is_some_and(|exp| exp <= now)]. *)
Definition is_expired (now : Z) (exp : option Z) : bool :=
  match exp with Some e => e <=? now | None => false end.

(** [reload] at time [now]. *)
Definition blacklist_reload (now : Z) (dtos : list IpBlacklistDto) : BlacklistMatcher :=
  omap (λ d,
    match parse_ip_or_cidr (bl_ip_or_cidr d) with
    | None => None
    | Some net => if is_expired now (bl_expires_at d) then None else Some (mkBlEntry net (bl_expires_at d))
    end) dtos.

Definition blacklist_is_empty (m : BlacklistMatcher) : bool := bool_decide (length m = 0%nat).

(** [is_blocked] at time [now]. *)
Definition is_blocked (m : BlacklistMatcher) (now : Z) (ip : string) : bool :=
  if blacklist_is_empty m then false
  else
    match parse_addr (trim ip) with
    | None => false
    | Some a => existsb (λ e, if is_expired now (ble_expires_at e) then false else net_contains (ble_net e) a) m
    end.

(** The blacklist: a request at [now] is blocked exactly when its address
    parses and some listed entry parses to a network that contains it and has
    not expired at [now]; dropping entries that were already expired when the
    list was loaded changes nothing. *)
Theorem blacklist_blocks_iff loaded now dtos ip :
  loaded <= now →
  is_blocked (blacklist_reload loaded dtos) now ip = true ↔
  ∃ a d net, parse_addr (trim ip) = Some a ∧ d ∈ dtos ∧ parse_ip_or_cidr (bl_ip_or_cidr d) = Some net ∧
    is_expired now (bl_expires_at d) = false ∧ net_contains net a = true.
Proof.
  intros Hle. unfold is_blocked.
  assert (∀ d, is_expired now (bl_expires_at d) = false → is_expired loaded (bl_expires_at d) = false) as Hexp.
  { intros d. unfold is_expired. destruct (bl_expires_at d); [|done]. rewrite !Z.leb_gt. lia. }
  destruct (parse_addr (trim ip)) as [a|].
  2: { split; [by destruct (blacklist_is_empty _)|]. by intros (a & d & net & ? & _). }
  transitivity (existsb (λ e, if is_expired now (ble_expires_at e) then false else net_contains (ble_net e) a)
                  (blacklist_reload loaded dtos) = true).
  { unfold blacklist_is_empty. case_bool_decide as Hl; [|done]. destruct (blacklist_reload loaded dtos); done. }
  rewrite existsb_exists. split.
  - intros (e & He & Hm). apply list_elem_of_In, list_elem_of_omap in He as (d & Hd & Ed).
    destruct (parse_ip_or_cidr (bl_ip_or_cidr d)) as [net|] eqn:Ep; [|done].
    destruct (is_expired loaded (bl_expires_at d)); [done|]. injection Ed as <-. simpl in Hm.
    destruct (is_expired now (bl_expires_at d)) eqn:En; [done|]. exists a, d, net. done.
  - intros (a' & d & net & [= <-] & Hd & Ep & En & Hc). exists (mkBlEntry net (bl_expires_at d)).
    simpl. rewrite En. split; [|done]. apply list_elem_of_In, list_elem_of_omap. exists d. split; [done|].
    by rewrite Ep, (Hexp d En).
Qed.

(** ** The allow/deny plugin *)

Record IpAllowDenyConfig := mkAllowDeny { cfg_allow : list string; cfg_deny : list string }.

(** The rules as parsed. *)
Record Compiled := mkIpRules { allow : list IpNet; deny : list IpNet }.

Definition no_rules : Compiled := mkIpRules [] [].

(** [validate_cfg]: the first entry that does not parse is reported. *)
Definition validate_cfg (cfg : IpAllowDenyConfig) : result unit ConrogateError :=
  match cfg_allow cfg, cfg_deny cfg with
  | [], [] => Err (PluginConfigInvalid "ip_allow_deny: allow and deny cannot both be empty")
  | _, _ =>
      match List.find (λ s, negb (bool_decide (is_Some (parse_ip_or_cidr s)))) (cfg_allow cfg ++ cfg_deny cfg) with
      | Some entry => Err (PluginConfigInvalid ("ip_allow_deny: invalid ip or cidr: " +:+ entry))
      | None => Ok tt
      end
  end.

Definition compile_rules (cfg : IpAllowDenyConfig) : Compiled :=
  mkIpRules (omap parse_ip_or_cidr (cfg_allow cfg)) (omap parse_ip_or_cidr (cfg_deny cfg)).

(** [decide]: [None] lets pass, [Some] is the body of the 403 response. *)
Definition decide_ip (rules : Compiled) (client_ip trace_id : string) : option ErrorBody :=
  match parse_ip_or_cidr client_ip with
  | None => None
  | Some ip =>
      if existsb (λ net, net_contains_net net ip) (deny rules) ||
         (negb (bool_decide (allow rules = [])) && negb (existsb (λ net, net_contains_net net ip) (allow rules)))
      then Some (error_body_with_trace trace_id ERR_FORBIDDEN "forbidden: ip not allowed")
      else None
  end.

Section Configured.
(** [serde_json::from_value::<IpAllowDenyConfig>]. *)
Context (from_value : Value → result IpAllowDenyConfig string).

(** [validate_config]. *)
Definition validate_config (config : Value) : result unit ConrogateError :=
  if is_null config then Ok tt
  else match from_value config with
       | Err e => Err (PluginConfigInvalid e)
       | Ok cfg => validate_cfg cfg
       end.

(** [configured]. *)
Definition configured (config : Value) : result Compiled ConrogateError :=
  if is_null config then Ok no_rules
  else match from_value config with
       | Err e => Err (PluginConfigInvalid e)
       | Ok cfg => let? _ := validate_cfg cfg in Ok (compile_rules cfg)
       end.

(** [before_request] and [on_connect]. *)
Definition ip_gate (rules : Compiled) (client_ip trace_id : string) : result (PluginOutcome ErrorBody) ConrogateError :=
  match decide_ip rules client_ip trace_id with
  | Some body => Ok (Terminate 403 body)
  | None => Ok Continue
  end.

(** Some entry of a list covers the address. *)
Definition covers (entries : list string) (a : IpAddr) : Prop :=
  ∃ s net, s ∈ entries ∧ parse_ip_or_cidr s = Some net ∧ net_contains net a = true.

Context `{LibOk : !IpLibOk IpAddr IpNet}.

Lemma covers_omap entries a :
  existsb (λ net, net_contains_net net (net_of_addr a)) (omap parse_ip_or_cidr entries) = true ↔ covers entries a.
Proof.
  rewrite existsb_exists. unfold covers. split.
  - intros (net & Hn & Hc). apply list_elem_of_In, list_elem_of_omap in Hn as (s & Hs & Es).
    rewrite contains_host in Hc. eauto.
  - intros (s & net & Hs & Es & Hc). exists net. rewrite contains_host. split; [|done].
    apply list_elem_of_In, list_elem_of_omap. eauto.
Qed.

(** Every entry of a valid configuration parses, so none is lost. *)
Lemma validate_cfg_parses cfg :
  validate_cfg cfg = Ok tt → Forall (λ s, is_Some (parse_ip_or_cidr s)) (cfg_allow cfg ++ cfg_deny cfg).
Proof.
  intros H. assert (List.find (λ s, negb (bool_decide (is_Some (parse_ip_or_cidr s)))) (cfg_allow cfg ++ cfg_deny cfg) = None) as Hf.
  { unfold validate_cfg in H. destruct (List.find _ _) as [entry|]; [|done].
    by destruct (cfg_allow cfg), (cfg_deny cfg). }
  apply Forall_forall. intros s Hs. apply list_elem_of_In in Hs.
  pose proof (find_none _ _ Hf s Hs) as Hn. simpl in Hn. apply negb_false_iff, bool_decide_eq_true in Hn. done.
Qed.

Lemma omap_nil_iff cfg :
  validate_cfg cfg = Ok tt → omap parse_ip_or_cidr (cfg_allow cfg) = [] ↔ cfg_allow cfg = [].
Proof.
  intros H%validate_cfg_parses. apply Forall_app in H as [H _].
  destruct H as [|s l [net Hs] _]; [done|]. simpl. by rewrite Hs.
Qed.

(** Allow/deny: an instance configured from an accepted configuration
    rejects a client whose address parses exactly when a deny entry covers it,
    or the allow list is not empty and covers it not; a rejection carries code
    10003. A client address that does not parse is let through. *)
Theorem ip_allow_deny_decision config cfg rules client_ip trace_id :
  is_null config = false → from_value config = Ok cfg → configured config = Ok rules →
  parse_net (trim client_ip) = None →
  match parse_addr (trim client_ip) with
  | None => ip_gate rules client_ip trace_id = Ok Continue
  | Some a =>
      (∃ body, ip_gate rules client_ip trace_id = Ok (Terminate 403 body) ∧ eb_code body = ERR_FORBIDDEN) ↔
      covers (cfg_deny cfg) a ∨ (cfg_allow cfg ≠ [] ∧ ¬ covers (cfg_allow cfg) a)
  end.
Proof.
  intros Hnn Hfv Hc Hpn. unfold configured in Hc. rewrite Hnn, Hfv in Hc.
  destruct (validate_cfg cfg) as [[]|] eqn:Ev; [|done]. injection Hc as <-.
  unfold ip_gate, decide_ip, parse_ip_or_cidr. rewrite Hpn.
  destruct (parse_addr (trim client_ip)) as [a|]; [|done]. simpl.
  fold parse_ip_or_cidr.
  pose proof (covers_omap (cfg_deny cfg) a) as Hd. pose proof (covers_omap (cfg_allow cfg) a) as Ha.
  pose proof (omap_nil_iff cfg Ev) as Hnil.
  destruct (existsb _ (omap parse_ip_or_cidr (cfg_deny cfg))); simpl.
  { split; [|eauto]. intros _. left. by apply Hd. }
  destruct (bool_decide (omap parse_ip_or_cidr (cfg_allow cfg) = [])) eqn:En; simpl.
  { apply bool_decide_eq_true in En. apply Hnil in En. split; [by intros (? & ? & _)|].
    intros [Hx|[Hx _]]; [by apply Hd in Hx|done]. }
  apply bool_decide_eq_false in En.
  destruct (existsb _ (omap parse_ip_or_cidr (cfg_allow cfg))); simpl.
  - split; [by intros (? & ? & _)|]. intros [Hx|[_ Hx]]; [by apply Hd in Hx|]. exfalso. by apply Hx, Ha.
  - split; [|eauto]. intros _. right. split; [by intros E; apply En, Hnil|]. intros Hx. by apply Ha in Hx.
Qed.
End Configured.
End Access.

(** ** A toy address library: addresses are texts, [net:p] is the network of the
    addresses that start with [p] *)

Module AccessDemo.

Inductive toy_net := TPrefix (p : string) | THost (a : string).

#[local] Instance toy_lib : IpLib string toy_net :=
  {| parse_addr s := if is_empty s || starts_with "net:" s then None else Some s;
     parse_net s := TPrefix <$> strip_prefix "net:" s;
     net_of_addr := THost;
     net_contains n a := match n with TPrefix p => starts_with p a | THost b => bool_decide (a = b) end;
     net_contains_net n m :=
       match n, m with
       | TPrefix p, TPrefix q => starts_with p q
       | TPrefix p, THost a => starts_with p a
       | THost b, THost a => bool_decide (a = b)
       | THost _, TPrefix _ => false
       end |}.

#[local] Instance toy_lib_ok : IpLibOk string toy_net.
Proof. split; [by intros [] ?|]. intros a. simpl. by apply bool_decide_eq_true. Qed.

(** An entry that expires at 100 blocks at 99 and no longer at 100. *)
Lemma blacklist_blocks_iff_witness :
  is_blocked (blacklist_reload 0 [mkIpBlacklist 1 "net:10." None (Some 100) None 0]) 99 "10.0.0.7" = true ∧
  is_blocked (blacklist_reload 0 [mkIpBlacklist 1 "net:10." None (Some 100) None 0]) 100 "10.0.0.7" = false.
Proof.
  split; [|vm_compute; reflexivity].
  apply (blacklist_blocks_iff 0 99); [lia|]. eexists _, _, (TPrefix "10.").
  split; [reflexivity|]. split; [left|]. split; [reflexivity|]. split; reflexivity.
Defined.

Definition demo_from_value (v : Value) : result IpAllowDenyConfig string :=
  match v with VObject _ => Ok (mkAllowDeny ["net:10."] ["net:10.20."]) | _ => Err "invalid type"%string end.

Lemma ip_allow_deny_decision_witness :
  ∃ body, ip_gate (mkIpRules [TPrefix "10."] [TPrefix "10.20."]) "10.20.0.5" "t1" = Ok (Terminate 403 body)
          ∧ eb_code body = ERR_FORBIDDEN.
Proof.
  pose proof (ip_allow_deny_decision (Lib := toy_lib) demo_from_value (VObject []) (mkAllowDeny ["net:10."] ["net:10.20."])
    (mkIpRules [TPrefix "10."] [TPrefix "10.20."]) "10.20.0.5" "t1" eq_refl eq_refl
    ltac:(vm_compute; reflexivity) eq_refl) as H.
  apply H. left. exists "net:10.20."%string, (TPrefix "10.20."). split; [left|]. split; reflexivity.
Defined.
End AccessDemo.
