(* ===== verification/TrafficControl.v ===== *)
(** Traffic control (conrogate-gateway/src/filter.rs): rate limiting at three
    levels, circuit breaking and passive health feedback behind one adapter, and
    the holder of the current configuration.

    What bursts get is proved for the token bucket, which the gateway builds; what
    passes in a second for any limiter that keeps the promises of [LimiterOk]. *)
From Stdlib Require Import ZArith Lia Ascii String.
From stdpp Require Import base tactics option list list_numbers gmap strings pretty.
From S2P Require Import Prelude Text Errors Core Health Limiter Breaker.
#[local] Open Scope Z_scope.

Module TrafficControl.

(** ** The configuration holder *)

Record ConfigReloader (Config : Type) := mkReloader { current_config : Config }.
Arguments mkReloader {Config}.
Arguments current_config {Config}.

Definition reloader_current {Config} (r : ConfigReloader Config) : Config := current_config r.
Definition reloader_reload {Config} (r : ConfigReloader Config) (c : Config) : ConfigReloader Config := mkReloader c.

Section Adapter.
Context {S : Type} `{L : Limiter S} {R : Type} (incrby : R → string → Z → R) (redis_get : R → string → option Z).

Record TrafficControlAdapter := mkAdapter {
  limiter : S;
  breaker_factory : Breaker.BreakerFactoryImpl;
  rate_limit_enabled : bool;
  breaker_enabled : bool;
  global_qps : Z;
  route_qps : Z;
  ip_qps : Z;
  health_checker : option PassiveHealth.PassiveHealthChecker;
}.

(** [TrafficControlAdapter::new]. *)
Definition adapter_new (l : S) (f : Breaker.BreakerFactoryImpl) : TrafficControlAdapter :=
  mkAdapter l f true true 1000 200 100 None.

(** [with_governance_config]: the switches and limits of the configuration. *)
Definition with_governance_config (l : S) (f : Breaker.BreakerFactoryImpl)
    (rl_enabled : bool) (g r i : Z) (br_enabled : bool) : TrafficControlAdapter :=
  mkAdapter l f rl_enabled br_enabled g r i None.

Definition adapter_with_health_checker (a : TrafficControlAdapter) (hc : PassiveHealth.PassiveHealthChecker) :
    TrafficControlAdapter :=
  mkAdapter (limiter a) (breaker_factory a) (rate_limit_enabled a) (breaker_enabled a)
    (global_qps a) (route_qps a) (ip_qps a) (Some hc).

Definition set_limiter (a : TrafficControlAdapter) (s : S) : TrafficControlAdapter :=
  mkAdapter s (breaker_factory a) (rate_limit_enabled a) (breaker_enabled a)
    (global_qps a) (route_qps a) (ip_qps a) (health_checker a).

Definition global_key : string := "rate:global".
Definition route_key (route_id : Z) : string := "rate:route:" +:+ pretty route_id.
Definition ip_key (route_id : Z) (client_ip : string) : string := "rate:" +:+ pretty route_id +:+ ":" +:+ client_ip.

Definition window : Z := from_secs 1.

(** One [acquire] if the level has a limit. *)
Definition level (qps : Z) (now : Z) (key : string) (s : S) : S * result unit ConrogateError :=
  if 0 <? qps then limiter_acquire s now key qps window else (s, Ok tt).

(** [check_rate_limit]; the three calls read the clock at [t1], [t2] and [t3]. *)
Definition check_rate_limit (a : TrafficControlAdapter) (t1 t2 t3 route_id : Z) (client_ip : string) :
    TrafficControlAdapter * result unit ConrogateError :=
  if negb (rate_limit_enabled a) then (a, Ok tt)
  else
    let '(s, r) := level (global_qps a) t1 global_key (limiter a) in
    match r with
    | Err e => (set_limiter a s, Err e)
    | Ok _ =>
        let '(s, r) := level (route_qps a) t2 (route_key route_id) s in
        match r with
        | Err e => (set_limiter a s, Err e)
        | Ok _ =>
            let '(s, r) := level (ip_qps a) t3 (ip_key route_id client_ip) s in
            match r with
            | Err e => (set_limiter a s, Err e)
            | Ok _ => (set_limiter a s, Ok tt)
            end
        end
    end.

(** [check_circuit_breaker]; [created] is the clock read of a new breaker. *)
Definition check_circuit_breaker (a : TrafficControlAdapter) (created route_id node_id : Z)
    (env : Breaker.call_env) (r : R) : TrafficControlAdapter * result unit ConrogateError :=
  if negb (breaker_enabled a) then (a, Ok tt)
  else
    let '(f, res) := Breaker.with_breaker (breaker_factory a) created route_id node_id
                       (λ b, Breaker.allow redis_get b env r) in
    (mkAdapter (limiter a) f (rate_limit_enabled a) (breaker_enabled a)
       (global_qps a) (route_qps a) (ip_qps a) (health_checker a), res).

(** [record_result]; a failure is reported to the health checker at [failed]. *)
Definition record_result (a : TrafficControlAdapter) (created failed route_id node_id : Z) (success : bool)
    (env : Breaker.call_env) (r : R) : TrafficControlAdapter * R :=
  let '(f, r') :=
    if breaker_enabled a
    then Breaker.with_breaker (breaker_factory a) created route_id node_id
           (λ b, Breaker.record incrby b success env r)
    else (breaker_factory a, r) in
  let hc := (λ hc, if success then PassiveHealth.mark_success hc node_id
                   else PassiveHealth.mark_failure hc failed node_id) <$> health_checker a in
  (mkAdapter (limiter a) f (rate_limit_enabled a) (breaker_enabled a)
     (global_qps a) (route_qps a) (ip_qps a) hc, r').

(** ** Rate limiting as a sequence of limiter calls *)

(** A request: its three clock reads, its route and its client. *)
Record request := mkRequest { q_t1 : Z; q_t2 : Z; q_t3 : Z; q_route : Z; q_ip : string }.

(** The limit the adapter uses for a key. *)
Definition limit_of (a : TrafficControlAdapter) (k : string) : Z :=
  if bool_decide (k = global_key) then global_qps a
  else if starts_with "rate:route:" k then route_qps a
  else ip_qps a.

(** The levels that are limited, with the times of their calls. *)
Definition levels (a : TrafficControlAdapter) (q : request) : list (Z * string) :=
  (if 0 <? global_qps a then [(q_t1 q, global_key)] else []) ++
  (if 0 <? route_qps a then [(q_t2 q, route_key (q_route q))] else []) ++
  (if 0 <? ip_qps a then [(q_t3 q, ip_key (q_route q) (q_ip q))] else []).

(** Calls in turn, up to the first refusal; the state, the result and the calls made. *)
Fixpoint run_calls (lim : string → Z) (s : S) (calls : list (Z * string)) :
    S * result unit ConrogateError * list (Z * string) :=
  match calls with
  | [] => (s, Ok tt, [])
  | (t, k) :: rest =>
      let '(s', r) := limiter_acquire s t k (lim k) window in
      match r with
      | Ok _ => let '(s'', r', made) := run_calls lim s' rest in (s'', r', (t, k) :: made)
      | Err e => (s', Err e, [(t, k)])
      end
  end.

Lemma limit_of_global a : limit_of a global_key = global_qps a.
Proof. unfold limit_of. by rewrite bool_decide_eq_true_2. Qed.

Lemma limit_of_route a r : limit_of a (route_key r) = route_qps a.
Proof.
  unfold limit_of. rewrite bool_decide_eq_false_2.
  - rewrite (proj2 (starts_with_app _ _)); [done|]. by exists (pretty r).
  - unfold global_key, route_key. rewrite !app_cons_string. intros E. injection E. discriminate.
Qed.

(** A number is neither a [g] nor an [r]. *)
Lemma pretty_head (z : Z) rest c : sep_char c → c ≠ ":"%char → starts_with (String c EmptyString) (pretty z +:+ String ":" rest) = false.
Proof.
  intros Hsep Hc. pose proof (count_char_pretty_Z c z Hsep) as Hp.
  destruct (pretty z) as [|d s]; rewrite ?app_nil_string, ?app_cons_string; simpl in *.
  - by rewrite bool_decide_eq_false_2.
  - destruct (decide (c = d)) as [->|Hne]; [|by rewrite bool_decide_eq_false_2].
    by rewrite bool_decide_eq_true_2 in Hp.
Qed.

Lemma limit_of_ip a r ip : limit_of a (ip_key r ip) = ip_qps a.
Proof.
  unfold limit_of, ip_key. rewrite bool_decide_eq_false_2.
  - assert (starts_with "rate:route:" ("rate:" +:+ pretty r +:+ ":" +:+ ip) = false) as ->; [|done].
    rewrite !app_cons_string, !app_nil_string. cbn [starts_with]. rewrite !bool_decide_eq_true_2 by done. simpl andb.
    pose proof (pretty_head r ip "r"%char ltac:(split; [done|discriminate]) ltac:(discriminate)) as Hh.
    destruct (pretty r +:+ String ":" ip) as [|c s]; [done|]. cbn [starts_with] in Hh |- *.
    rewrite andb_true_r in Hh. by rewrite Hh.
  - unfold global_key. rewrite !app_cons_string, !app_nil_string. intros E. injection E as E.
    pose proof (pretty_head r ip "g"%char ltac:(split; [done|discriminate]) ltac:(discriminate)) as Hh.
    rewrite E in Hh. done.
Qed.

(** [check_rate_limit] makes the calls of its levels in turn. *)
Lemma check_rate_limit_calls a q :
  rate_limit_enabled a = true →
  check_rate_limit a (q_t1 q) (q_t2 q) (q_t3 q) (q_route q) (q_ip q) =
    let '(s, r, _) := run_calls (limit_of a) (limiter a) (levels a q) in (set_limiter a s, r).
Proof.
  intros Hen. unfold check_rate_limit, levels, level. rewrite Hen. simpl negb.
  destruct (0 <? global_qps a), (0 <? route_qps a), (0 <? ip_qps a);
    cbn [app run_calls]; rewrite ?limit_of_global, ?limit_of_route, ?limit_of_ip;
    repeat (match goal with
            | |- context [limiter_acquire ?s ?t ?k ?l ?w] =>
                destruct (limiter_acquire s t k l w) as [? [[]|?]]; cbn [run_calls]
            end; rewrite ?limit_of_global, ?limit_of_route, ?limit_of_ip);
    try done; by destruct a.
Qed.

(** Serving requests one after the other: the states and results. *)
Fixpoint serve (a : TrafficControlAdapter) (qs : list request) :
    list (result unit ConrogateError) * TrafficControlAdapter :=
  match qs with
  | [] => ([], a)
  | q :: rest =>
      let '(a', r) := check_rate_limit a (q_t1 q) (q_t2 q) (q_t3 q) (q_route q) (q_ip q) in
      let '(rs, a'') := serve a' rest in (r :: rs, a'')
  end.

(** The times of the calls with key [k] of the requests that were let through. *)
Fixpoint passed_at (a : TrafficControlAdapter) (k : string) (qs : list request) : list Z :=
  match qs with
  | [] => []
  | q :: rest =>
      let '(a', r) := check_rate_limit a (q_t1 q) (q_t2 q) (q_t3 q) (q_route q) (q_ip q) in
      (if is_ok r then map fst (List.filter (λ c, bool_decide (c.2 = k)) (levels a q)) else []) ++ passed_at a' k rest
  end.

(** All calls to the limiter. *)
Fixpoint all_calls (a : TrafficControlAdapter) (qs : list request) : list (Z * string) :=
  match qs with
  | [] => []
  | q :: rest =>
      let '(s, _, made) := run_calls (limit_of a) (limiter a) (levels a q) in
      made ++ all_calls (set_limiter a s) rest
  end.

(** The clock advances within and between requests. *)
Fixpoint requests_clocked (t : Z) (qs : list request) : Prop :=
  match qs with
  | [] => True
  | q :: rest => t <= q_t1 q ∧ q_t1 q <= q_t2 q ∧ q_t2 q <= q_t3 q ∧ requests_clocked (q_t3 q) rest
  end.

(** The grants of a run of calls: they precede those of what follows, and a run
    that succeeds grants every call. *)
Lemma granted_run_calls lim k s calls rest :
  let '(s', r, made) := run_calls lim s calls in
  ∃ gs, granted lim window k s (made ++ rest) = gs ++ granted lim window k s' rest ∧
    (is_ok r = true → gs = map fst (List.filter (λ c, bool_decide (c.2 = k)) calls)).
Proof.
  revert s. induction calls as [|[t k'] calls IH]; intros s; cbn [run_calls].
  { exists []. done. }
  destruct (limiter_acquire s t k' (lim k') window) as [s1 r1] eqn:E1. destruct r1 as [[]|e].
  - specialize (IH s1). destruct (run_calls lim s1 calls) as [[s' r] made]. destruct IH as (gs & Hg & Hok).
    cbn [granted app]. rewrite E1. cbn [is_ok andb]. rewrite Hg.
    exists ((if bool_decide (k' = k) then [t] else []) ++ gs). split; [by rewrite app_assoc|].
    intros Hr. rewrite (Hok Hr). simpl. by destruct (bool_decide (k' = k)).
  - cbn [granted app]. rewrite E1. cbn [is_ok andb]. exists []. done.
Qed.

(** The calls made are a prefix of the levels, so their times are in order. *)
Lemma clocked_run_calls lim s calls t rest t' :
  clocked t calls → (∀ x, x ∈ calls → x.1 <= t') → t <= t' → clocked t' rest →
  clocked t ((run_calls lim s calls).2 ++ rest).
Proof.
  revert s t. induction calls as [|[t1 k1] calls IH]; intros s t Hc Hb Ht Hr; cbn [run_calls].
  { simpl. destruct rest as [|[t2 k2] rest]; [done|]. destruct Hr. split; [lia|done]. }
  destruct Hc as [H1 Hc]. pose proof (Hb (t1, k1) ltac:(left)) as Hb1. simpl in Hb1.
  destruct (limiter_acquire s t1 k1 (lim k1) window) as [s1 [[]|e]].
  - specialize (IH s1 t1 Hc (λ x Hx, Hb x (list_elem_of_further _ _ _ Hx)) Hb1 Hr).
    destruct (run_calls lim s1 calls) as [[s' r] made]. simpl in *. done.
  - simpl. split; [done|]. destruct rest as [|[t2 k2] rest]; [done|]. destruct Hr. split; [lia|done].
Qed.

Lemma levels_clocked a q t : t <= q_t1 q → q_t1 q <= q_t2 q → q_t2 q <= q_t3 q →
  clocked t (levels a q) ∧ ∀ x, x ∈ levels a q → x.1 <= q_t3 q.
Proof.
  intros H1 H2 H3. unfold levels. destruct (0 <? global_qps a), (0 <? route_qps a), (0 <? ip_qps a); simpl;
    (split; [lia|]); intros x Hx; rewrite ?elem_of_cons, elem_of_nil in Hx; naive_solver lia.
Qed.

Lemma all_calls_clocked a t qs : requests_clocked t qs → clocked t (all_calls a qs).
Proof.
  revert a t. induction qs as [|q qs IH]; intros a t Hq; [done|]. destruct Hq as (H1 & H2 & H3 & Hq). cbn [all_calls].
  destruct (levels_clocked a q t H1 H2 H3) as [Hc Hb].
  pose proof (λ s, clocked_run_calls (limit_of a) (limiter a) (levels a q) t (all_calls (set_limiter a s) qs) (q_t3 q)
    Hc Hb ltac:(lia) (IH _ _ Hq)) as H.
  destruct (run_calls (limit_of a) (limiter a) (levels a q)) as [[s r] made]. apply (H s).
Qed.

(** The requests let through are among the grants of each of their keys. *)
Lemma passed_le_granted a k qs b :
  rate_limit_enabled a = true →
  span_count b window (passed_at a k qs) <=
  span_count b window (granted (limit_of a) window k (limiter a) (all_calls a qs)).
Proof.
  revert a. induction qs as [|q qs IH]; intros a Hen; [done|]. cbn [passed_at all_calls].
  rewrite check_rate_limit_calls by done.
  pose proof (λ rest, granted_run_calls (limit_of a) k (limiter a) (levels a q) rest) as Hg.
  destruct (run_calls (limit_of a) (limiter a) (levels a q)) as [[s r] made].
  destruct (Hg (all_calls (set_limiter a s) qs)) as (gs & -> & Hok). specialize (IH (set_limiter a s) Hen).
  rewrite !span_count_app. change (limit_of (set_limiter a s)) with (limit_of a) in IH. simpl limiter in IH.
  destruct (is_ok r).
  - rewrite <-Hok by done. lia.
  - pose proof (span_count_nonneg b window gs). unfold span_count at 1. simpl. lia.
Qed.
End Adapter.

Section Promises.
Context {S : Type} `{LOk : LimiterOk S} {R : Type}.

(** A limiter that keeps the promise of the interface (those by fixed and sliding
    windows do; the gateway builds the token bucket, which does not): from its
    initial state, for requests served one after the other, in every interval of
    one second the requests that were let through and counted at a level are at
    most the bound for its limit. A level whose limit is 0 counts none. *)
Lemma counted_bounded (a : @TrafficControlAdapter S) qs t b :
  rate_limit_enabled a = true → limiter a = limiter_init → requests_clocked t qs →
  0 <= global_qps a < 2 ^ 32 → 0 <= route_qps a < 2 ^ 32 → 0 <= ip_qps a < 2 ^ 32 →
  span_count b window (passed_at a global_key qs) <= limiter_bound (global_qps a) ∧
  (∀ route, span_count b window (passed_at a (route_key route) qs) <= limiter_bound (route_qps a)) ∧
  (∀ route ip, span_count b window (passed_at a (ip_key route ip) qs) <= limiter_bound (ip_qps a)).
Proof.
  intros Hen Hinit Hq Hg Hr Hi.
  assert (∀ k, 0 <= limit_of a k < 2 ^ 32 →
    span_count b window (passed_at a k qs) <= limiter_bound (limit_of a k)) as Hall.
  { intros k Hk. pose proof (passed_le_granted a k qs b Hen) as Hp. rewrite Hinit in Hp.
    pose proof (limiter_span (limit_of a) window k (all_calls a qs) t b Hk ltac:(done)
      (all_calls_clocked a t qs Hq)). lia. }
  split_and!; intros; rewrite <-?(limit_of_global a), <-?(limit_of_route a route), <-?(limit_of_ip a route ip);
    apply Hall; rewrite ?limit_of_global, ?limit_of_route, ?limit_of_ip; done.
Qed.
End Promises.

(** ** Bursts, with the limiter of the gateway *)

Section Bursts.
Import TokenBucketL.
#[local] Existing Instance token_limiter.
Context (reply : redis_reply).

Abbreviation Adapter := (@TrafficControlAdapter TokenBucketLimiter).
Abbreviation check := (check_rate_limit (L := token_limiter reply)).

(** The specification: each key counts the requests charged to it, up to the limit of
    its level; a level without a limit lets everything through. *)
Definition used (c : gmap string Z) (k : string) : Z := default 0 (c !! k).

Definition charge (lim : Z) (k : string) (c : gmap string Z) : gmap string Z * bool :=
  if 0 <? lim then if used c k <? lim then (<[k := used c k + 1]> c, true) else (c, false) else (c, true).

Definition charge_all (a : Adapter) (route_id : Z) (ip : string) (c : gmap string Z) : gmap string Z * bool :=
  let '(c, b) := charge (global_qps a) global_key c in
  if b then
    let '(c, b) := charge (route_qps a) (route_key route_id) c in
    if b then charge (ip_qps a) (ip_key route_id ip) c else (c, false)
  else (c, false).

Fixpoint charges (a : Adapter) (qs : list request) (c : gmap string Z) : list bool * gmap string Z :=
  match qs with
  | [] => ([], c)
  | q :: rest =>
      let '(c, b) := charge_all a (q_route q) (q_ip q) c in
      let '(bs, c) := charges a rest c in (b :: bs, c)
  end.

(** The requests that pass, and those of them that a predicate picks. *)
Fixpoint count_passed (p : request → bool) (qs : list request) (bs : list bool) : Z :=
  match qs, bs with
  | q :: qs, b :: bs => (if b && p q then 1 else 0) + count_passed p qs bs
  | _, _ => 0
  end.

(** *** The buckets hold what the counters leave *)

Definition counts (lims : string → Z) (now : Z) (c : gmap string Z) (s : TokenBucketLimiter) : Prop :=
  redis s = false ∧
  ∀ k, match c !! k with
       | None => buckets s !! k = None
       | Some n => 0 < n <= lims k ∧ buckets s !! k = Some (whole (lims k) (lims k - n) now)
       end.

Lemma level_charged lims now c s k :
  counts lims now c s → lims k < 2 ^ 32 →
  ∃ s', level (L := token_limiter reply) (lims k) now k s = (s', if (charge (lims k) k c).2 then Ok tt else Err RateLimited) ∧
        counts lims now (charge (lims k) k c).1 s'.
Proof.
  intros [Hr Hc] Hk. unfold level, charge, used. destruct (Z.ltb_spec 0 (lims k)); [|by exists s].
  assert (∀ n x, 0 < n <= lims k → x = lims k - n →
    counts lims now (<[k := n]> c) (mkTokenBucket (<[k := whole (lims k) x now]> (buckets s)) false)) as Hins.
  { intros n x Hn ->. split; [done|]. intros k'. cbn. destruct (decide (k' = k)) as [->|Hne]; [by rewrite !lookup_insert_eq|].
    rewrite !lookup_insert_ne by done. apply Hc. }
  cbn [limiter_acquire token_limiter]. unfold acquire. rewrite Hr. specialize (Hc k) as Hk'. destruct (c !! k) as [n|]; cbn [default from_option id].
  - destruct Hk' as [Hn Hb]. unfold window. rewrite (acquire_at_time _ _ _ _ _ _ Hb) by lia.
    destruct (Z.eqb_spec (lims k - n) 0), (Z.ltb_spec n (lims k)); try lia; (eexists; split; [reflexivity|]).
    + by split.
    + apply Hins; lia.
  - unfold window. rewrite acquire_fresh by (done || lia). destruct (Z.ltb_spec 0 (lims k)); [|lia]. eexists. split; [reflexivity|]. apply Hins; lia.
Qed.

Definition limits_fit (a : Adapter) : Prop := global_qps a < 2 ^ 32 ∧ route_qps a < 2 ^ 32 ∧ ip_qps a < 2 ^ 32.

Lemma check_charged (a : Adapter) now c route_id ip :
  rate_limit_enabled a = true → limits_fit a → counts (limit_of a) now c (limiter a) →
  ∃ s', check a now now now route_id ip =
          (set_limiter a s', if (charge_all a route_id ip c).2 then Ok tt else Err RateLimited) ∧
        counts (limit_of a) now (charge_all a route_id ip c).1 s'.
Proof.
  intros Hen (Hg & Hr & Hi) Hc. unfold check_rate_limit, charge_all. rewrite Hen. cbn [negb].
  rewrite <- (limit_of_global a) in Hg |- *. rewrite <- (limit_of_route a route_id) in Hr |- *.
  rewrite <- (limit_of_ip a route_id ip) in Hi |- *.
  destruct (level_charged _ now c _ global_key Hc Hg) as (s1 & -> & H1).
  destruct (charge _ global_key c) as [c1 []]; cbn [fst snd] in *; [|by exists s1].
  destruct (level_charged _ now c1 s1 _ H1 Hr) as (s2 & -> & H2).
  destruct (charge _ _ c1) as [c2 []]; cbn [fst snd] in *; [|by exists s2].
  destruct (level_charged _ now c2 s2 _ H2 Hi) as (s3 & -> & H3). exists s3. split; [|exact H3]. by destruct (charge _ _ c2) as [c3 []].
Qed.

Lemma serve_charged now qs : ∀ (a : Adapter) c,
  rate_limit_enabled a = true → limits_fit a → counts (limit_of a) now c (limiter a) →
  Forall (λ q, q_t1 q = now ∧ q_t2 q = now ∧ q_t3 q = now) qs →
  (serve (L := token_limiter reply) a qs).1 = map (λ b : bool, if b then Ok tt else Err RateLimited) (charges a qs c).1.
Proof.
  induction qs as [|q qs IH]; intros a c Hen Hf Hc Hq; [done|]. apply Forall_cons in Hq as [(E1 & E2 & E3) Hq].
  cbn [serve charges]. rewrite E1, E2, E3. destruct (check_charged a now c (q_route q) (q_ip q) Hen Hf Hc) as (s' & -> & Hc').
  specialize (IH (set_limiter a s') (charge_all a (q_route q) (q_ip q) c).1 Hen Hf Hc' Hq).
  destruct (charge_all a (q_route q) (q_ip q) c) as [c' b]. cbn [fst snd] in *.
  assert (∀ qs c, charges (set_limiter a s') qs c = charges a qs c) as Es.
  { clear. induction qs as [|q qs IH]; intros c; [done|]. cbn [charges]. change (charge_all (set_limiter a s')) with (charge_all a).
    destruct (charge_all _ _ _ _). by rewrite IH. }
  rewrite Es in IH. destruct (serve _ qs) as [rs a'']. destruct (charges a qs c') as [bs c'']. cbn [fst snd map] in *. by rewrite IH.
Qed.

(** *** The counters stay within the limits *)

Lemma charge_used lim k c :
  (∀ k', used c k' <= used (charge lim k c).1 k') ∧
  ((charge lim k c).2 = true → 0 < lim → used (charge lim k c).1 k = used c k + 1) ∧
  (∀ lims : string → Z, lims k = lim → (∀ k', 0 < lims k' → used c k' <= lims k') →
     ∀ k', 0 < lims k' → used (charge lim k c).1 k' <= lims k').
Proof.
  unfold charge, used. destruct (Z.ltb_spec 0 lim); cbn [fst snd]; [|split_and!; [lia|lia|auto]].
  destruct (Z.ltb_spec (default 0 (c !! k)) lim); cbn [fst snd]; [|split_and!; [lia|done|auto]]. split_and!.
  - intros k'. destruct (decide (k' = k)) as [->|]; [rewrite lookup_insert_eq; simpl; lia|by rewrite lookup_insert_ne].
  - intros _ _. by rewrite lookup_insert_eq.
  - intros lims <- Hl k' Hk'. destruct (decide (k' = k)) as [->|]; [rewrite lookup_insert_eq; simpl; lia|].
    rewrite lookup_insert_ne by done. by apply Hl.
Qed.

(** A request that passes is counted by each of its levels that has a limit. *)
Lemma charge_all_used (a : Adapter) route_id ip c :
  let '(c', b) := charge_all a route_id ip c in
  (∀ k, used c k <= used c' k) ∧
  (b = true → ∀ lim k, (lim, k) ∈ [(global_qps a, global_key); (route_qps a, route_key route_id); (ip_qps a, ip_key route_id ip)] →
     0 < lim → used c k + 1 <= used c' k) ∧
  ((∀ k, 0 < limit_of a k → used c k <= limit_of a k) → ∀ k, 0 < limit_of a k → used c' k <= limit_of a k).
Proof.
  unfold charge_all. destruct (charge_used (global_qps a) global_key c) as (M1 & E1 & B1). specialize (B1 _ (limit_of_global a)).
  destruct (charge (global_qps a) global_key c) as [c1 [|]]; cbn [fst snd] in *; [|split_and!; [done|done|exact B1]].
  destruct (charge_used (route_qps a) (route_key route_id) c1) as (M2 & E2 & B2). specialize (B2 _ (limit_of_route a route_id)).
  destruct (charge (route_qps a) (route_key route_id) c1) as [c2 [|]]; cbn [fst snd] in *.
  2:{ split_and!; [intros k; specialize (M1 k); specialize (M2 k); lia|done|auto]. }
  destruct (charge_used (ip_qps a) (ip_key route_id ip) c2) as (M3 & E3 & B3). specialize (B3 _ (limit_of_ip a route_id ip)).
  destruct (charge (ip_qps a) (ip_key route_id ip) c2) as [c3 b]; cbn [fst snd] in *. split_and!; [|intros ->|auto].
  - intros k. specialize (M1 k). specialize (M2 k). specialize (M3 k). lia.
  - intros lim k Hin Hl. specialize (M1 k). specialize (M2 k). specialize (M3 k).
    rewrite !elem_of_cons in Hin. destruct Hin as [[= -> ->]|[[= -> ->]|[[= -> ->]|[]%elem_of_nil]]].
    + specialize (E1 eq_refl Hl). lia.
    + specialize (E2 eq_refl Hl). lia.
    + specialize (E3 eq_refl Hl). lia.
Qed.

Lemma charges_bounded (a : Adapter) (p : request → bool) lim k :
  0 < lim → limit_of a k = lim →
  (∀ q, p q = true → (lim, k) ∈ [(global_qps a, global_key); (route_qps a, route_key (q_route q)); (ip_qps a, ip_key (q_route q) (q_ip q))]) →
  ∀ qs, count_passed p qs (charges a qs ∅).1 <= lim.
Proof.
  intros Hl Ek Hp qs.
  assert (∀ qs c, (∀ k, 0 < limit_of a k → used c k <= limit_of a k) → used c k + count_passed p qs (charges a qs c).1 <= lim) as H.
  { clear qs. induction qs as [|q qs IH]; intros c Hc; [cbn; specialize (Hc k); lia|]. cbn [charges].
    pose proof (charge_all_used a (q_route q) (q_ip q) c) as Hu. destruct (charge_all a (q_route q) (q_ip q) c) as [c' b].
    destruct Hu as (Hm & He & Hb). specialize (IH c' (Hb Hc)). destruct (charges a qs c') as [bs c'']. cbn [fst count_passed] in *.
    specialize (Hm k). destruct b; cbn [andb]; [|lia]. destruct (p q) eqn:Ep; [|lia].
    specialize (He eq_refl lim k (Hp q Ep) Hl). lia. }
  specialize (H qs ∅). unfold used in H at 2. rewrite lookup_empty in H. cbn in H. apply H. intros k' Hk'. unfold used. rewrite lookup_empty. simpl. lia.
Qed.

(** C28. A burst is cut at the limits: when the token buckets of the process are
    empty of keys (as at its start, without Redis) and any number of requests, of
    any routes and clients, arrive at one instant, the adapter answers each exactly
    as counters would that count, for each of the three levels that has a limit,
    the requests that reached the level, up to the limit; the others are refused as rate limited. So of the requests that are
    let through at most the global limit pass in all, at most the route limit of
    each route, and at most the client limit of each client of a route; a limit of
    0 limits nothing. (Between instants the buckets refill, up to twice as fast as
    the limits say: [token_bucket_double_rate].) *)
Theorem burst_cut (a : Adapter) now qs :
  rate_limit_enabled a = true → limiter a = new → limits_fit a →
  Forall (λ q, q_t1 q = now ∧ q_t2 q = now ∧ q_t3 q = now) qs →
  let results := (serve (L := token_limiter reply) a qs).1 in
  let passed p := count_passed p qs (map is_ok results) in
  results = map (λ b : bool, if b then Ok tt else Err RateLimited) (charges a qs ∅).1 ∧
  (0 < global_qps a → passed (λ _, true) <= global_qps a) ∧
  (0 < route_qps a → ∀ route, passed (λ q, q_route q =? route) <= route_qps a) ∧
  (0 < ip_qps a → ∀ route ip, passed (λ q, (q_route q =? route) && (q_ip q =? ip)%string) <= ip_qps a).
Proof.
  intros Hen Hnew Hf Hq results passed.
  assert (results = map (λ b : bool, if b then Ok tt else Err RateLimited) (charges a qs ∅).1) as E.
  { apply (serve_charged now); [done|done| |done]. rewrite Hnew. split; [done|]. intros k. by rewrite lookup_empty. }
  assert (map is_ok results = (charges a qs ∅).1) as Em.
  { rewrite E, map_map. rewrite <- (map_id (charges a qs ∅).1) at 2. apply map_ext. by intros []. }
  split; [exact E|]. unfold passed. rewrite Em. split_and!.
  - intros Hl. apply (charges_bounded a _ _ global_key Hl (limit_of_global a)). intros q _. by left.
  - intros Hl route. apply (charges_bounded a _ _ (route_key route) Hl (limit_of_route a route)).
    intros q ->%Z.eqb_eq. right. by left.
  - intros Hl route ip. apply (charges_bounded a _ _ (ip_key route ip) Hl (limit_of_ip a route ip)).
    intros q [->%Z.eqb_eq ->%String.eqb_eq]%andb_true_iff. do 2 right. by left.
Qed.
End Bursts.

Definition demo_adapter : @TrafficControlAdapter TokenBucketL.TokenBucketLimiter :=
  with_governance_config TokenBucketL.new (Breaker.factory_new Breaker.default_breaker_config) true 4 2 1 true.

Definition at_start (route : Z) (ip : string) : request := mkRequest 7 7 7 route ip.
Definition demo_requests : list request :=
  [at_start 1 "10.0.0.1"; at_start 1 "10.0.0.1"; at_start 1 "10.0.0.2"; at_start 2 "10.0.0.1"; at_start 3 "10.0.0.9"].

(** The second request is the second of its client and uses up a slot of its route
    and a global one, so the third is refused by the route limit; the fifth finds
    the global limit used up. *)
Lemma burst_cut_witness :
  (serve (L := TokenBucketL.token_limiter TokenBucketL.NoConnection) demo_adapter demo_requests).1 =
    [Ok tt; Err RateLimited; Err RateLimited; Ok tt; Err RateLimited] ∧
  count_passed (λ _, true) demo_requests (map is_ok (serve (L := TokenBucketL.token_limiter TokenBucketL.NoConnection) demo_adapter demo_requests).1) <= 4.
Proof.
  split; [vm_compute; reflexivity|].
  destruct (burst_cut TokenBucketL.NoConnection demo_adapter 7 demo_requests) as (_ & H & _); [done|done|split_and!; done|repeat constructor|].
  apply H. done.
Defined.

Section Feedback.
Context {S : Type} `{L : Limiter S} {R : Type} (incrby : R → string → Z → R) (redis_get : R → string → option Z).

(** Feedback is isolated: recording a result changes only the breaker of
    its route and node (and none when breakers are off) and only the health of
    its node, which a success clears and a failure marks; limits, switches and
    the limiter stay as they are. *)
Theorem record_result_isolated (a : @TrafficControlAdapter S) created failed route node success env (r : R) :
  let a' := (record_result incrby a created failed route node success env r).1 in
  limiter a' = limiter a ∧ limit_of a' = limit_of a ∧
  rate_limit_enabled a' = rate_limit_enabled a ∧ breaker_enabled a' = breaker_enabled a ∧
  (breaker_enabled a = false → breaker_factory a' = breaker_factory a) ∧
  (∀ x, x ≠ (route, node) →
     Breaker.breakers (breaker_factory a') !! x = Breaker.breakers (breaker_factory a) !! x) ∧
  match health_checker a, health_checker a' with
  | Some hc, Some hc' =>
      (∀ i, i ≠ node → PassiveHealth.states hc' !! i = PassiveHealth.states hc !! i) ∧
      (if success then PassiveHealth.states hc' !! node = None
       else ∃ st, PassiveHealth.states hc' !! node = Some st ∧ PassiveHealth.last_failure st = Some failed)
  | None, None => True
  | _, _ => False
  end.
Proof.
  unfold record_result. 
  set (fr := if breaker_enabled a then _ else _).
  assert ((breaker_enabled a = false → fr.1 = breaker_factory a) ∧
    ∀ x, x ≠ (route, node) → Breaker.breakers fr.1 !! x = Breaker.breakers (breaker_factory a) !! x) as [Hoff Hother].
  { unfold fr. destruct (breaker_enabled a); [|done]. split; [done|]. intros [r' n'] Hne.
    by apply Breaker.with_breaker_other. }
  destruct fr as [f r']. cbn [fst limiter breaker_factory rate_limit_enabled breaker_enabled health_checker] in *.
  split_and!; [done..|].
  destruct (health_checker a) as [hc|]; [|done]. cbn [fmap option_fmap option_map].
  destruct success; unfold PassiveHealth.mark_success, PassiveHealth.mark_failure; cbn [PassiveHealth.states].
  - split; [|by rewrite lookup_delete_eq]. intros i Hi. by rewrite lookup_delete_ne.
  - split; [|eexists; by rewrite lookup_insert_eq]. intros i Hi. by rewrite lookup_insert_ne.
Qed.
End Feedback.

End TrafficControl.
