(* ===== verification/TraceId.v ===== *)
(** Trace ids (conrogate-core/src/response.rs): the process-wide generator of
    ids in UUID form, the pseudo-random jitter, and the choice of a request's
    trace id. *)
From Stdlib Require Import ZArith Lia Ascii String List.
From stdpp Require Import base tactics option list list_numbers strings.
From S2P Require Import Prelude Text Errors Core.
#[local] Open Scope Z_scope.

Module TraceId.

(** [HEX_CHARS[i]]. *)
Definition hex_char (i : Z) : ascii := default "0"%char (String.get (Z.to_nat i) "0123456789abcdef").

Record FastIdGen := mkGen { seed : Z; counter : Z }.

(** [FastIdGen::new]: the time and the random number it draws. *)
Definition gen_new (now_millis random : Z) : FastIdGen := mkGen (Z.max (Z.lxor now_millis random) 1) 0.

(** [u64::to_be_bytes]. *)
Fixpoint be_bytes (n : nat) (z : Z) : list Z :=
  match n with O => [] | S n' => be_bytes n' (z / 256) ++ [z mod 256] end.

(** The low half: 36 bits of the clock above 20 bits of the counter. *)
Definition low_bits (now_millis ctr : Z) : Z :=
  Z.lor (Z.shiftl (Z.land now_millis 68719476735) 20) (Z.land ctr 1048575).

(** The sixteen bytes with the version and variant bits set. *)
Definition id_bytes (sd low : Z) : list Z :=
  let b := be_bytes 8 sd ++ be_bytes 8 low in
  let b := alter (λ x, Z.lor (Z.land x 15) 64) 6%nat b in
  alter (λ x, Z.lor (Z.land x 63) 128) 8%nat b.

(** Two hexadecimal digits per byte, a dash before bytes 4, 6, 8 and 10. *)
Definition byte_chars (i : nat) (b : Z) : list ascii :=
  (if bool_decide (i ∈ [4; 6; 8; 10]%nat) then ["-"%char] else []) ++
  [hex_char (Z.shiftr b 4); hex_char (Z.land b 15)].

Definition render (bs : list Z) : string := string_of_list_ascii (concat (imap byte_chars bs)).

(** [FastIdGen::generate] at the time [now_millis]. *)
Definition generate (g : FastIdGen) (now_millis : Z) : FastIdGen * string :=
  let low := low_bits now_millis (counter g) in
  (mkGen (seed g) (u64_wrap (counter g + 1)), render (id_bytes (seed g) low)).

(** [FastIdGen::jitter]: a remainder by zero panics. *)
Definition jitter (g : FastIdGen) (limit : Z) : FastIdGen * outcome Z :=
  let x := Z.lxor (seed g) (counter g) in
  let x := u64_wrap (x + 11400714819323198485) in
  let x := u64_wrap (Z.lxor x (Z.shiftr x 30) * 13787848793156543929) in
  let x := u64_wrap (Z.lxor x (Z.shiftr x 27) * 10723151780598845931) in
  (mkGen (seed g) (u64_wrap (counter g + 1)),
   if limit =? 0 then Panic else Ret (Z.lxor x (Z.shiftr x 31) mod limit)).

(** [trace_id_from_headers]: the inbound id if it is text and not blank. *)
Definition trace_id_from_headers (inbound : option string) (g : FastIdGen) (now_millis : Z) : FastIdGen * string :=
  match inbound with
  | Some v => if is_empty (trim v) then generate g now_millis else (g, trim v)
  | None => generate g now_millis
  end.

(** ** Injectivity of the rendering *)

Definition unhex (c : ascii) : Z :=
  let n := Z.of_N (N_of_ascii c) in if n <? 58 then n - 48 else n - 87.

Lemma unhex_hex x : 0 <= x < 16 → unhex (hex_char x) = x.
Proof.
  intros Hx. assert (Forall (λ x, unhex (hex_char x) = x) (seqZ 0 16)) as H.
  { apply (bool_decide_eq_true_1 _). vm_compute. reflexivity. }
  rewrite Forall_forall in H. apply H, elem_of_seqZ. lia.
Qed.

Lemma hex_inj x y : 0 <= x < 16 → 0 <= y < 16 → hex_char x = hex_char y → x = y.
Proof. intros Hx Hy E. rewrite <-(unhex_hex x Hx), <-(unhex_hex y Hy). by rewrite E. Qed.

Definition is_byte (b : Z) : Prop := 0 <= b < 256.

Lemma nibbles b : is_byte b → 0 <= Z.shiftr b 4 < 16 ∧ 0 <= Z.land b 15 < 16 ∧ b = 16 * Z.shiftr b 4 + Z.land b 15.
Proof.
  unfold is_byte. intros H. change 15 with (Z.ones 4). rewrite Z.land_ones, Z.shiftr_div_pow2 by lia.
  change (2 ^ 4) with 16. pose proof (Z.mod_pos_bound b 16). pose proof (Z.div_mod b 16). lia.
Qed.

Lemma byte_chars_inj i b b' r r' :
  is_byte b → is_byte b' → byte_chars i b ++ r = byte_chars i b' ++ r' → b = b' ∧ r = r'.
Proof.
  intros Hb Hb' E. destruct (nibbles b Hb) as (H1 & H2 & H3), (nibbles b' Hb') as (H1' & H2' & H3').
  unfold byte_chars in E. destruct (bool_decide _); cbn [app] in E;
    injection E as Eh El Er; apply hex_inj in Eh; try done; apply hex_inj in El; try done;
    (split; [congruence|done]).
Qed.

Lemma render_inj bs bs' :
  length bs = length bs' → Forall is_byte bs → Forall is_byte bs' → render bs = render bs' → bs = bs'.
Proof.
  unfold render. intros Hl Hb Hb' E. apply (f_equal list_ascii_of_string) in E.
  rewrite !list_ascii_of_string_of_list_ascii in E.
  enough (∀ k bs bs', length bs = length bs' → Forall is_byte bs → Forall is_byte bs' →
    concat (imap (λ i, byte_chars (k + i)) bs) = concat (imap (λ i, byte_chars (k + i)) bs') → bs = bs') as H
    by (by apply (H 0%nat)).
  clear. intros k bs. revert k. induction bs as [|b bs IH]; intros k [|b' bs'] Hl Hb Hb' E; simplify_eq/=; [done|].
  apply Forall_cons in Hb as [Hb Hbs]. apply Forall_cons in Hb' as [Hb' Hbs'].
  apply byte_chars_inj in E as [-> E]; [|done|done]. f_equal. apply (IH (S k)); [done..|].
  erewrite (imap_ext _ (λ i, byte_chars (k + S i)) bs), (imap_ext _ (λ i, byte_chars (k + S i)) bs'); [exact E|..];
    intros i x _; f_equal; lia.
Qed.

(** ** The low half *)

Lemma low_bits_value now c :
  low_bits now c = (now mod 2 ^ 36) * 2 ^ 20 + c mod 2 ^ 20.
Proof.
  unfold low_bits. change 68719476735 with (Z.ones 36). change 1048575 with (Z.ones 20).
  rewrite !Z.land_ones by lia. rewrite Z.shiftl_mul_pow2 by lia.
  rewrite <-Z.lxor_lor, <-Z.add_nocarry_lxor; [done|..];
    (apply Z.bits_inj'; intros n Hn; rewrite Z.land_spec, Z.bits_0;
     destruct (decide (n < 20)); [rewrite Z.mul_pow2_bits_low by lia; done|];
     rewrite (Z.mod_pow2_bits_high c 20 n) by lia; apply andb_false_r).
Qed.

Lemma low_bits_range now c : 0 <= low_bits now c < 2 ^ 56.
Proof.
  rewrite low_bits_value. pose proof (Z.mod_pos_bound now (2 ^ 36)). pose proof (Z.mod_pos_bound c (2 ^ 20)). lia.
Qed.

Lemma low_bits_inj now c now' c' :
  low_bits now c = low_bits now' c' → now mod 2 ^ 36 = now' mod 2 ^ 36 ∧ c mod 2 ^ 20 = c' mod 2 ^ 20.
Proof.
  rewrite !low_bits_value. pose proof (Z.mod_pos_bound c (2 ^ 20)). pose proof (Z.mod_pos_bound c' (2 ^ 20)). lia.
Qed.

(** ** The bytes *)

Lemma be_bytes_bytes n z : Forall is_byte (be_bytes n z) ∧ length (be_bytes n z) = n.
Proof.
  revert z. induction n as [|n IH]; intros z; [done|]. cbn [be_bytes]. destruct (IH (z / 256)) as [Hb Hl].
  split; [|rewrite length_app, Hl; simpl; lia]. apply Forall_app. split; [done|].
  constructor; [|done]. unfold is_byte. apply Z.mod_pos_bound. lia.
Qed.

Lemma masks_bytes x : is_byte x → is_byte (Z.lor (Z.land x 15) 64) ∧ is_byte (Z.lor (Z.land x 63) 128).
Proof.
  intros Hx. assert (Forall (λ x, 0 <= Z.lor (Z.land x 15) 64 < 256 ∧ 0 <= Z.lor (Z.land x 63) 128 < 256) (seqZ 0 256)) as H.
  { apply (bool_decide_eq_true_1 _). vm_compute. reflexivity. }
  rewrite Forall_forall in H. apply H, elem_of_seqZ. unfold is_byte in Hx. lia.
Qed.

Lemma id_bytes_bytes sd low : Forall is_byte (id_bytes sd low) ∧ length (id_bytes sd low) = 16%nat.
Proof.
  unfold id_bytes. destruct (be_bytes_bytes 8 sd) as [H1 L1], (be_bytes_bytes 8 low) as [H2 L2].
  rewrite !length_alter, length_app, L1, L2. split; [|done].
  apply Forall_alter; [apply Forall_alter; [by apply Forall_app|]|]; intros x _ Hx; by apply masks_bytes.
Qed.

(** The seven lower bytes carry the low half. *)
Lemma id_bytes_low sd low low' :
  0 <= low < 2 ^ 56 → 0 <= low' < 2 ^ 56 → id_bytes sd low = id_bytes sd low' → low = low'.
Proof.
  intros H H' E. unfold id_bytes in E.
  apply (f_equal (drop 9)) in E. rewrite !drop_alter in E by lia.
  assert (∀ l, drop 9 (be_bytes 8 sd ++ l) = drop 1 l) as Hd.
  { intros l. rewrite drop_app_ge; destruct (be_bytes_bytes 8 sd) as [_ ->]; [done|lia]. }
  rewrite !Hd in E. cbn [be_bytes app drop] in E. injection E. intros.
  assert (∀ z, z = 256 * (z / 256) + z mod 256) as Hdm by (intros z; apply Z.div_mod; lia).
  repeat match goal with
  | Hx : ?a mod 256 = ?b mod 256 |- _ => pose proof (Hdm a); pose proof (Hdm b); revert Hx
  end. intros.
  assert (∀ z, 0 <= z < 2 ^ 56 → z / 256 / 256 / 256 / 256 / 256 / 256 / 256 = 0) as Hz.
  { intros z Hz. rewrite !Z.div_div by lia. by apply Z.div_small. }
  pose proof (Hz low H). pose proof (Hz low' H'). lia.
Qed.

(** Trace ids of one process are equal exactly when they were made with the
    same 36 low bits of the clock and the same 20 low bits of the counter; in
    particular any 2^20 consecutive ids are pairwise distinct, whatever the
    clock does. *)
Theorem trace_ids_distinct sd c now c' now' :
  (generate (mkGen sd c) now).2 = (generate (mkGen sd c') now').2 ↔
  now mod 2 ^ 36 = now' mod 2 ^ 36 ∧ c mod 2 ^ 20 = c' mod 2 ^ 20.
Proof.
  unfold generate. cbn [snd seed counter]. split.
  - intros E. apply low_bits_inj. apply (id_bytes_low sd); [apply low_bits_range..|].
    destruct (id_bytes_bytes sd (low_bits now c)) as [H1 L1], (id_bytes_bytes sd (low_bits now' c')) as [H2 L2].
    apply render_inj; [congruence|done|done|exact E].
  - intros [Hn Hc]. do 2 f_equal. by rewrite !low_bits_value, Hn, Hc.
Qed.

(** Jitter is below its limit, and a limit of zero panics. *)
Lemma jitter_range g limit :
  (0 < limit → ∃ v, (jitter g limit).2 = Ret v ∧ 0 <= v < limit) ∧ (jitter g 0).2 = Panic.
Proof.
  split; [|done]. intros Hl. unfold jitter. cbn [snd]. rewrite (proj2 (Z.eqb_neq limit 0)) by lia.
  eexists. split; [reflexivity|]. by apply Z.mod_pos_bound.
Qed.

End TraceId.
