(* ===== verification/ServerAuth.v ===== *)
(** Authentication and roles of the control plane (conrogate-server/src/auth.rs). *)
From Stdlib Require Import ZArith Lia Ascii String.
From stdpp Require Import base tactics option list strings.
From S2P Require Import Prelude Text Errors Core.
#[local] Open Scope Z_scope.

Module ServerAuth.

Record AuthState := mkAuthState { tokens : list string }.

(** [AuthState::from_configured]. *)
Definition from_configured (raw : string) : AuthState :=
  mkAuthState (List.filter (λ s, negb (is_empty s)) (map trim (split_on "," raw))).

Inductive Role := Viewer | Operator | Admin.

#[global] Instance Role_eq_dec : EqDecision Role.
Proof. solve_decision. Defined.

(** The derived order of the enum. *)
Definition role_rank (r : Role) : Z := match r with Viewer => 0 | Operator => 1 | Admin => 2 end.

Definition parse_role (s : string) : Role :=
  let l := to_lowercase s in
  if bool_decide (l = "admin") then Admin
  else if bool_decide (l = "operator") then Operator
  else Viewer.

Definition has_permission (r required : Role) : bool := role_rank required <=? role_rank r.

(** [parse_token]: operator, secret and role of a token of three parts. *)
Definition parse_token (token : string) : option (string * string * Role) :=
  match split_on ":" token with
  | [a; b; c] => Some (a, b, parse_role c)
  | _ => None
  end.

(** [auth_middleware] on the Authorization header (when it is text): the role and
    operator the request goes on with, or the error of the 401 response. *)
Definition auth_middleware (st : AuthState) (header : option string) : result (Role * string) ConrogateError :=
  match tokens st with
  | [] => Ok (Admin, "anonymous"%string)
  | _ =>
      match header with
      | Some h =>
          match strip_prefix "Bearer " h with
          | Some token =>
              if negb (existsb (λ t, bool_decide (t = token)) (tokens st)) then Err Unauthorized
              else match parse_token token with
                   | Some (op, _, r) => Ok (r, op)
                   | None => Ok (Viewer, "unknown"%string)
                   end
          | None => Err Unauthorized
          end
      | None => Err Unauthorized
      end
  end.

(** ** The decision *)

(** The role and operator a configured token stands for. *)
Definition granted_by (token : string) : Role * string :=
  match parse_token token with Some (op, _, r) => (r, op) | None => (Viewer, "unknown"%string) end.

Lemma auth_middleware_tokens st header r op :
  tokens st ≠ [] →
  auth_middleware st header = Ok (r, op) ↔
  ∃ token, header = Some ("Bearer " +:+ token) ∧ token ∈ tokens st ∧ granted_by token = (r, op).
Proof.
  intros Hne. unfold auth_middleware, granted_by. destruct (tokens st) as [|t0 ts] eqn:Et; [done|].
  rewrite <-Et. clear Hne Et. split.
  - destruct header as [h|]; [|done]. destruct (strip_prefix "Bearer " h) as [token|] eqn:Eh; [|done].
    apply strip_prefix_app in Eh as ->.
    destruct (existsb (λ t, bool_decide (t = token)) (tokens st)) eqn:Ex; simpl; [|done].
    apply existsb_exists in Ex as (t & Ht & ->%bool_decide_eq_true). apply list_elem_of_In in Ht.
    intros E. exists token. split_and!; [done|done|].
    destruct (parse_token token) as [[[o s] x]|]; by injection E as -> ->.
  - intros (token & -> & Hin & E). rewrite (proj2 (strip_prefix_app _ _ token)) by done.
    assert (existsb (λ t, bool_decide (t = token)) (tokens st) = true) as ->.
    { apply existsb_exists. exists token. split; [by apply list_elem_of_In|]. by apply bool_decide_eq_true. }
    simpl. destruct (parse_token token) as [[[o s] x]|]; by injection E as -> ->.
Qed.

(** What a token spells: [operator:secret:role], or a bare secret. *)
Definition role_text (s : string) (r : Role) : Prop :=
  match r with
  | Admin => to_lowercase s = "admin"%string
  | Operator => to_lowercase s = "operator"%string
  | Viewer => to_lowercase s ≠ "admin"%string ∧ to_lowercase s ≠ "operator"%string
  end.

Inductive stands_for (token : string) : Role → string → Prop :=
| sf_parts op secret role r :
    token = op +:+ ":" +:+ secret +:+ ":" +:+ role → Forall (λ s, count_char ":" s = 0%nat) [op; secret; role] →
    role_text role r → stands_for token r op
| sf_plain : count_char ":" token ≠ 2%nat → stands_for token Viewer "unknown".

(** Who sends a request: anybody is the administrator while no token is configured. *)
Inductive identified (st : AuthState) (header : option string) : Role → string → Prop :=
| id_open : tokens st = [] → identified st header Admin "anonymous"
| id_token token r op :
    header = Some ("Bearer " +:+ token) → token ∈ tokens st → stands_for token r op → identified st header r op.

Lemma parse_role_text s r : parse_role s = r ↔ role_text s r.
Proof.
  unfold parse_role, role_text. case_bool_decide as Ha; [|case_bool_decide as Ho]; destruct r; try rewrite Ha; try rewrite Ho;
    split; try done; naive_solver.
Qed.

Lemma parse_token_parts op secret role :
  Forall (λ s, count_char ":" s = 0%nat) [op; secret; role] →
  parse_token (op +:+ ":" +:+ secret +:+ ":" +:+ role) = Some (op, secret, parse_role role).
Proof.
  intros H. pose proof (split_join ":" [op; secret; role] ltac:(done) H) as E. rewrite !join_cons in E. simpl join in E.
  unfold parse_token. by rewrite E.
Qed.

Lemma split_on_parts c s : Forall (λ x, count_char c x = 0%nat) (split_on c s).
Proof.
  induction s as [|a s IH]; simpl; [by constructor|]. case_bool_decide; [by constructor|].
  destruct (split_on c s) as [|x l]; inversion_clear IH; repeat constructor; simpl; try done; by rewrite bool_decide_false.
Qed.

Lemma granted_by_stands_for token r op : granted_by token = (r, op) ↔ stands_for token r op.
Proof.
  unfold granted_by. split.
  - pose proof (split_on_length ":" token) as Hl. pose proof (join_split ":" token) as Hj. pose proof (split_on_parts ":" token) as Hp.
    unfold parse_token. destruct (split_on ":" token) as [|a [|b [|c [|]]]]; simpl in Hl; try done;
      try (intros [= <- <-]; apply sf_plain; lia).
    intros [= Hr <-]. apply (sf_parts _ a b c); [by rewrite <- Hj|done|by apply parse_role_text].
  - intros [op' secret role r' -> Hf <-%parse_role_text|Hn]; [by rewrite parse_token_parts|].
    pose proof (split_on_length ":" token) as Hl. unfold parse_token.
    destruct (split_on ":" token) as [|a [|b [|c [|]]]]; simpl in Hl; try done. lia.
Qed.

Lemma auth_middleware_identifies st header r op : auth_middleware st header = Ok (r, op) ↔ identified st header r op.
Proof.
  destruct (tokens st) as [|t ts] eqn:Et.
  - unfold auth_middleware. rewrite Et. split; [intros [= <- <-]; by apply id_open|]. intros [|token r' op' _ Hin]; [done|].
    rewrite Et in Hin. by apply not_elem_of_nil in Hin.
  - rewrite auth_middleware_tokens by (by rewrite Et). split.
    + intros (token & -> & Hin & Hg%granted_by_stands_for). by apply (id_token st _ token).
    + intros [Hn|token r' op' -> Hin Hs%granted_by_stands_for]; [by rewrite Et in Hn|]. by exists token.
Qed.

Lemma auth_middleware_refuses st header e : auth_middleware st header = Err e → e = Unauthorized.
Proof. unfold auth_middleware. intros H. repeat case_match; by simplify_eq. Qed.

(** Authentication: with tokens configured, a request goes on exactly when
    it presents a configured token as a bearer token, with the operator and role
    the token spells; and it goes on with the administrator's role only if that
    token has three parts of which the last is [admin] up to case. *)
Theorem auth_requires_token st header r op :
  tokens st ≠ [] →
  (auth_middleware st header = Ok (r, op) ↔
   ∃ token, header = Some ("Bearer " +:+ token) ∧ token ∈ tokens st ∧ granted_by token = (r, op)) ∧
  (auth_middleware st header = Ok (Admin, op) →
   ∃ secret role, (op +:+ ":" +:+ secret +:+ ":" +:+ role) ∈ tokens st ∧ to_lowercase role = "admin"%string).
Proof.
  intros Hne. split; [by apply auth_middleware_tokens|].
  intros (token & _ & Hin & Hg)%(auth_middleware_tokens st header Admin op Hne).
  unfold granted_by, parse_token in Hg.
  destruct (split_on ":" token) as [|a [|b [|c [|]]]] eqn:Es; try done. injection Hg as Hr <-.
  exists b, c. split.
  - pose proof (join_split ":" token) as Hj. rewrite Es in Hj. simpl in Hj. by rewrite Hj.
  - unfold parse_role in Hr. case_bool_decide; [done|]. by case_bool_decide.
Qed.

Lemma auth_requires_token_witness :
  let st := from_configured " alice:s1:ADMIN , bob:s2:viewer,," in
  auth_middleware st (Some "Bearer alice:s1:ADMIN"%string) = Ok (Admin, "alice"%string) ∧
  auth_middleware st (Some "Bearer alice:s1:admin"%string) = Err Unauthorized.
Proof.
  split; [|vm_compute; reflexivity].
  apply (auth_requires_token (from_configured " alice:s1:ADMIN , bob:s2:viewer,,")
    (Some "Bearer alice:s1:ADMIN"%string) Admin "alice"); [vm_compute; discriminate|].
  exists "alice:s1:ADMIN"%string. split; [reflexivity|]. split; [|vm_compute; reflexivity].
  apply (bool_decide_eq_true_1 _). vm_compute. reflexivity.
Defined.
End ServerAuth.
