(* ===== verification/Telemetry.v ===== *)
(** Metric aggregation of the gateway (conrogate-gateway/src/telemetry.rs): the
    latency histogram and its percentiles, the time buckets, and the flush with
    retries and a ring buffer of failed batches. The repository the batches are
    written to is a parameter; the order in which a [HashMap] lists its keys is
    another. *)
From Stdlib Require Import ZArith Lia SpecFloat.
From stdpp Require Import base tactics option list list_numbers gmap strings.
From S2P Require Import Prelude Errors F64.
#[local] Open Scope Z_scope.

Module Histogram.

(** The number of bins. *)
Definition BIN_COUNT : Z := 26.

Record LatencyHistogram := mkHist { bins : list Z }.

Definition hist_new : LatencyHistogram := mkHist (replicate (Z.to_nat BIN_COUNT) 0).

(** [bin_index]: [u32::ilog2], clamped to the last bin. *)
Definition bin_index (latency_ms : Z) : Z :=
  Z.min (if latency_ms =? 0 then 0 else Z.log2 latency_ms) (BIN_COUNT - 1).

Definition hist_add (h : LatencyHistogram) (latency_ms count : Z) : LatencyHistogram :=
  mkHist (alter (λ c, u64_wrap (c + count)) (Z.to_nat (bin_index latency_ms)) (bins h)).

Definition total (h : LatencyHistogram) : Z := foldl (λ a c, u64_wrap (a + c)) 0 (bins h).

(** The number of samples a percentile asks for: [((total as f64) * p).ceil() as u64]. *)
Definition threshold (total : Z) (p : F64.f64) : Z := F64.to_u64 (F64.ceil (F64.mul (F64.of_Z total) p)).

(** The loop of [percentile]: the upper bound of the first bin at which the
    running count reaches the threshold. *)
Fixpoint scan (k cum t : Z) (bs : list Z) : Z :=
  match bs with
  | [] => 0
  | count :: rest =>
      let cum' := u64_wrap (cum + count) in
      if t <=? cum' then u32_wrap (Z.shiftl 1 (Z.min (k + 1) 30)) else scan (k + 1) cum' t rest
  end.

Definition percentile (h : LatencyHistogram) (p : F64.f64) : Z :=
  if total h =? 0 then 0 else scan 0 0 (threshold (total h) p) (bins h).

(** ** The percentile brackets the quantile *)

(** The number of samples, of a list of latencies with their counts, that
    satisfy a test. *)
Definition count_if (P : Z → bool) (samples : list (Z * Z)) : Z :=
  sumZ (map snd (List.filter (λ s, P s.1) samples)).

Definition record_all (samples : list (Z * Z)) (h : LatencyHistogram) : LatencyHistogram :=
  foldl (λ h s, hist_add h s.1 s.2) h samples.

Definition below (v lat : Z) : bool := lat <? v.

Lemma count_if_cons P s l : count_if P (s :: l) = (if P s.1 then s.2 else 0) + count_if P l.
Proof. unfold count_if. simpl. by destruct (P s.1). Qed.

Lemma count_if_app P l l' : count_if P (l ++ l') = count_if P l + count_if P l'.
Proof. induction l as [|s l IH]; [done|]. rewrite <-app_comm_cons, !count_if_cons, IH. lia. Qed.

Definition sample_ok (s : Z * Z) : Prop := 0 <= s.1 < 2 ^ 26 ∧ 0 <= s.2.

Lemma count_if_nonneg P l : Forall sample_ok l → 0 <= count_if P l.
Proof.
  induction 1 as [|s l [_ Hs] _ IH]; [done|]. rewrite count_if_cons. destruct (P s.1); lia.
Qed.

Lemma count_if_mono P Q l :
  Forall sample_ok l → (∀ x, P x = true → Q x = true) → count_if P l <= count_if Q l.
Proof.
  intros Hl HPQ. induction Hl as [|s l [_ Hs] _ IH]; [done|]. rewrite !count_if_cons.
  destruct (P s.1) eqn:E; [rewrite (HPQ _ E)|destruct (Q s.1)]; lia.
Qed.

Lemma count_if_ext P Q l :
  Forall sample_ok l → (∀ x, 0 <= x < 2 ^ 26 → P x = Q x) → count_if P l = count_if Q l.
Proof.
  intros Hl HPQ. induction Hl as [|s l [Hs _] _ IH]; [done|]. by rewrite !count_if_cons, IH, HPQ.
Qed.

Lemma count_if_or P Q l :
  (∀ x, P x && Q x = false) → count_if P l + count_if Q l = count_if (λ x, P x || Q x) l.
Proof.
  intros Hd. induction l as [|s l IH]; [done|]. rewrite !count_if_cons, <-IH. specialize (Hd s.1).
  destruct (P s.1), (Q s.1); simpl in *; try done; lia.
Qed.

(** What the bins hold. *)
Definition bin_is (k x : Z) : bool := bin_index x =? k.

Definition holds (h : LatencyHistogram) (l : list (Z * Z)) : Prop :=
  bins h = (λ k, count_if (bin_is k) l) <$> seqZ 0 BIN_COUNT.

Lemma holds_new : holds hist_new [].
Proof. reflexivity. Qed.

Lemma bin_index_range x : 0 <= x → 0 <= bin_index x < BIN_COUNT.
Proof. intros Hx. unfold bin_index, BIN_COUNT. pose proof (Z.log2_nonneg x). case_Z; lia. Qed.

Lemma holds_add h l s :
  holds h l → sample_ok s → Forall sample_ok l → count_if (λ _, true) (l ++ [s]) < 2 ^ 64 →
  holds (hist_add h s.1 s.2) (l ++ [s]).
Proof.
  intros Hh [Hs Hc] Hl Hb. pose proof (bin_index_range s.1 ltac:(lia)) as Hi.
  unfold holds, hist_add. rewrite Hh. cbn [bins]. apply list_eq. intros i.
  rewrite list_lookup_alter. destruct (decide (Z.of_nat i < BIN_COUNT)) as [Hlt|Hge]; cycle 1.
  { case_decide; [lia|]. by rewrite !list_lookup_fmap, !lookup_seqZ_ge by lia. }
  assert (count_if (bin_is (Z.of_nat i)) (l ++ [s]) =
          count_if (bin_is (Z.of_nat i)) l + if bin_is (Z.of_nat i) s.1 then s.2 else 0) as Hc'.
  { rewrite count_if_app, count_if_cons. change (count_if _ []) with 0. lia. }
  pose proof (count_if_mono (bin_is (Z.of_nat i)) (λ _, true) (l ++ [s])) as Hm.
  pose proof (count_if_nonneg (bin_is (Z.of_nat i)) l Hl) as Hn.
  rewrite !list_lookup_fmap, (lookup_seqZ_lt _ _ i) by lia. cbn [fmap option_fmap option_map]. change (0 + Z.of_nat i) with (Z.of_nat i). rewrite Hc'.
  assert (bin_is (Z.of_nat i) s.1 = bool_decide (Z.to_nat (bin_index s.1) = i)) as Hbin.
  { unfold bin_is. case_bool_decide; [apply Z.eqb_eq|apply Z.eqb_neq]; lia. }
  rewrite Hbin in *. case_decide as Hd.
  - rewrite Hc' in Hm. rewrite (bool_decide_eq_true_2 _ Hd) in *. rewrite Hd, lookup_seqZ_lt by lia. simpl.
    rewrite u64_wrap_small; [done|].
    specialize (Hm ltac:(apply Forall_app; split; [done|by apply Forall_singleton]) ltac:(done)). rewrite Z.add_0_l. lia.
  - rewrite bool_decide_eq_false_2 by done. by rewrite Z.add_0_r.
Qed.

Lemma holds_record_all samples l h :
  holds h l → Forall sample_ok (l ++ samples) → count_if (λ _, true) (l ++ samples) < 2 ^ 64 →
  holds (record_all samples h) (l ++ samples).
Proof.
  revert l h. induction samples as [|s samples IH]; intros l h Hh Hok Hb.
  { by rewrite app_nil_r. }
  rewrite cons_middle, app_assoc in Hok, Hb |- *. pose proof Hok as [Hok1 Hok2]%Forall_app.
  pose proof Hok1 as [Hl [Hs _]%Forall_cons]%Forall_app.
  apply (IH (l ++ [s]) (hist_add h s.1 s.2)); [|done|done]. apply holds_add; [done..|].
  rewrite count_if_app in Hb. pose proof (count_if_nonneg (λ _, true) _ Hok2). lia.
Qed.

(** The number of samples in the bins below the k-th. *)
Definition in_bins (l : list (Z * Z)) (k : Z) : Z := count_if (λ x, bin_index x <? k) l.

Lemma in_bins_succ l k : in_bins l (k + 1) = in_bins l k + count_if (bin_is k) l.
Proof.
  unfold in_bins. rewrite count_if_or.
  - unfold count_if. do 2 f_equal. apply List.filter_ext. intros [x c]. unfold bin_is. simpl. case_Z; lia.
  - intros x. unfold bin_is. destruct (bin_index x <? k) eqn:E; [|done]. simpl. case_Z; lia.
Qed.

Lemma in_bins_range l k :
  Forall sample_ok l → count_if (λ _, true) l < 2 ^ 64 → 0 <= in_bins l k < 2 ^ 64.
Proof.
  intros Hl Hb. pose proof (count_if_nonneg (λ x, bin_index x <? k) l Hl).
  pose proof (count_if_mono (λ x, bin_index x <? k) (λ _, true) l Hl ltac:(done)). unfold in_bins. lia.
Qed.

Section Scan.
Context (l : list (Z * Z)) (Hl : Forall sample_ok l) (Hb : count_if (λ _, true) l < 2 ^ 64).

Lemma running_count k : u64_wrap (in_bins l k + count_if (bin_is k) l) = in_bins l (k + 1).
Proof using Hl Hb. rewrite <-in_bins_succ. apply u64_wrap_small. by apply in_bins_range. Qed.

Lemma total_fold (n : nat) (k : Z) :
  foldl (λ a c, u64_wrap (a + c)) (in_bins l k) ((λ k, count_if (bin_is k) l) <$> seqZ k (Z.of_nat n)) =
  in_bins l (k + Z.of_nat n).
Proof using Hl Hb.
  revert k. induction n as [|n IH]; intros k; [simpl; by rewrite Z.add_0_r|].
  rewrite Nat2Z.inj_succ, seqZ_cons by lia. rewrite fmap_cons. cbn [foldl].
  rewrite running_count. replace (Z.pred (Z.succ (Z.of_nat n))) with (Z.of_nat n) by lia.
  rewrite <-Z.add_1_r, IH. f_equal. lia.
Qed.

Lemma scan_finds (n : nat) (k t : Z) :
  0 <= k → k + Z.of_nat n <= BIN_COUNT → in_bins l k < t <= in_bins l (k + Z.of_nat n) →
  ∃ j, k <= j < k + Z.of_nat n ∧ in_bins l j < t <= in_bins l (j + 1) ∧
    scan k (in_bins l k) t ((λ k, count_if (bin_is k) l) <$> seqZ k (Z.of_nat n)) = 2 ^ (j + 1).
Proof using Hl Hb.
  unfold BIN_COUNT. revert k. induction n as [|n IH]; intros k Hk Hn Ht; [simpl in Ht; rewrite Z.add_0_r in Ht; lia|].
  rewrite Nat2Z.inj_succ, seqZ_cons by lia. rewrite fmap_cons. cbn [scan].
  rewrite running_count. replace (Z.pred (Z.succ (Z.of_nat n))) with (Z.of_nat n) by lia.
  destruct (t <=? in_bins l (k + 1)) eqn:E.
  - apply Z.leb_le in E. exists k. split_and!; [lia..|]. rewrite Z.min_l by lia.
    rewrite Z.shiftl_1_l. unfold u32_wrap. apply Z.mod_small. split; [lia|]. apply Z.pow_lt_mono_r; lia.
  - apply Z.leb_gt in E. rewrite <-Z.add_1_r.
    destruct (IH (k + 1)) as (j & Hj & Hc & Hv); [lia..| |exists j; split_and!; [lia..|done]].
    replace (k + 1 + Z.of_nat n) with (k + Z.of_nat (S n)) by lia. lia.
Qed.
End Scan.

Lemma in_bins_below l j :
  Forall sample_ok l → 1 <= j <= BIN_COUNT → in_bins l j = count_if (below (2 ^ j)) l.
Proof.
  intros Hl Hj. apply count_if_ext; [done|]. intros x Hx. unfold below, bin_index, BIN_COUNT in *.
  destruct (Z.eqb_spec x 0) as [->|Hne].
  { transitivity true; [apply Z.ltb_lt; lia|]. symmetry. apply Z.ltb_lt. by apply Z.pow_pos_nonneg; lia. }
  pose proof (Z.log2_lt_pow2 x j ltac:(lia)) as Hlog. pose proof (Z.log2_lt_pow2 x 26 ltac:(lia)) as H26.
  apply Bool.eq_true_iff_eq. rewrite !Z.ltb_lt. lia.
Qed.

Lemma in_bins_0 l : Forall sample_ok l → in_bins l 0 = 0.
Proof.
  intros Hl. unfold in_bins. rewrite (count_if_ext _ (λ _, false)); [|done|].
  - clear. induction l as [|s l IH]; [done|]. by rewrite count_if_cons.
  - intros x Hx. apply Z.ltb_ge. apply bin_index_range. lia.
Qed.

Lemma in_bins_all l : Forall sample_ok l → in_bins l BIN_COUNT = count_if (λ _, true) l.
Proof. intros Hl. apply count_if_ext; [done|]. intros x Hx. apply Z.ltb_lt, bin_index_range. lia. Qed.

Lemma holds_total h l :
  holds h l → Forall sample_ok l → count_if (λ _, true) l < 2 ^ 64 → total h = count_if (λ _, true) l.
Proof.
  intros Hh Hl Hb. unfold total. rewrite Hh, <-in_bins_all by done.
  pose proof (total_fold l Hl Hb 26 0) as Ht. by rewrite in_bins_0 in Ht by done.
Qed.

(** Latency percentiles are conservative and tight to a factor of two: of
    samples below 2^26 ms, the value reported for a quantile that asks for [t] of
    them is a bin bound with at least [t] samples below it and fewer than [t]
    below half of it; the median asks for half of the samples, rounded up. *)
Theorem percentile_brackets samples p :
  Forall sample_ok samples → count_if (λ _, true) samples < 2 ^ 53 →
  let n := count_if (λ _, true) samples in
  let h := record_all samples hist_new in
  let v := percentile h p in
  (0 < threshold n p <= n →
   0 < v ∧ threshold n p <= count_if (below v) samples ∧
   (2 < v → count_if (below (v / 2)) samples < threshold n p)) ∧
  threshold n F64.half = (n + 1) / 2 ∧ total h = n.
Proof.
  intros Hl Hb n h v.
  pose proof (holds_record_all samples [] hist_new holds_new Hl ltac:(simpl; lia)) as Hh. fold h in Hh. simpl in Hh.
  assert (total h = n) as Htot by (apply holds_total; [done..|lia]).
  split_and!; [|by apply F64.ceil_half; split; [apply count_if_nonneg|]|done].
  intros Ht. unfold v, percentile. rewrite Htot. rewrite (proj2 (Z.eqb_neq n 0)) by lia.
  destruct (scan_finds samples Hl ltac:(lia) 26 0 (threshold n p)) as (j & Hj & Hc & Hv); [done..| |].
  { rewrite in_bins_0 by done. change (0 + Z.of_nat 26) with BIN_COUNT. by rewrite in_bins_all by done. }
  rewrite in_bins_0 in Hv by done. rewrite Hh. change BIN_COUNT with (Z.of_nat 26).
  rewrite Hv. change (0 + Z.of_nat 26) with 26 in Hj.
  rewrite (in_bins_below _ (j + 1)) in Hc by (unfold BIN_COUNT; done || lia).
  split_and!; [by apply Z.pow_pos_nonneg; lia|lia|].
  intros H2. rewrite Z.add_1_r, Z.pow_succ_r in H2 |- * by lia. rewrite Z.mul_comm, Z.div_mul by lia.
  rewrite <-in_bins_below; [lia|done|]. unfold BIN_COUNT. destruct (decide (j = 0)) as [->|]; lia.
Qed.

Lemma percentile_brackets_witness :
  let samples := [(3, 2); (120, 5); (900, 3)] in
  let h := record_all samples hist_new in
  percentile h F64.half = 128 ∧
  threshold 10 F64.half <= count_if (below 128) samples ∧ count_if (below 64) samples < threshold 10 F64.half.
Proof.
  split; [vm_compute; reflexivity|].
  destruct (percentile_brackets [(3, 2); (120, 5); (900, 3)] F64.half) as (H & _ & _).
  - by repeat constructor; simpl.
  - vm_compute. reflexivity.
  - destruct H as (_ & H1 & H2); [by vm_compute|]. split; [exact H1|]. apply H2. vm_compute. reflexivity.
Defined.
End Histogram.

Module Aggregator.
Import Histogram.

Record MetricRow := mkMetricRow {
  ts : Z;                        (* nanoseconds since the epoch *)
  row_bucket_sec : Z;
  route_id : option Z;
  gate_id : string;
  qps : Z;
  total_requests : Z;
  avg_latency_ms : F64.f64;
  p50_ms : Z; p90_ms : Z; p99_ms : Z;
  status_2xx : Z; status_3xx : Z; status_4xx : Z; status_5xx : Z;
  sessions : Z;
  bytes_in : Z; bytes_out : Z }.

Record MetricBucket := mkBucket {
  b_total_requests : Z;
  b_total_latency_ms : F64.f64;
  latency_hist : LatencyHistogram;
  b_status_2xx : Z; b_status_3xx : Z; b_status_4xx : Z; b_status_5xx : Z;
  b_bytes_in : Z; b_bytes_out : Z }.

Definition default_bucket : MetricBucket := mkBucket 0 F64.zero hist_new 0 0 0 0 0 0.

(** [MetricBucket::add]. *)
Definition bucket_add (b : MetricBucket) (row : MetricRow) : MetricBucket :=
  mkBucket (u64_wrap (b_total_requests b + total_requests row))
    (F64.add (b_total_latency_ms b) (F64.mul (avg_latency_ms row) (F64.of_Z (total_requests row))))
    (hist_add (latency_hist b) (F64.to_u32 (avg_latency_ms row)) (total_requests row))
    (u64_wrap (b_status_2xx b + status_2xx row)) (u64_wrap (b_status_3xx b + status_3xx row))
    (u64_wrap (b_status_4xx b + status_4xx row)) (u64_wrap (b_status_5xx b + status_5xx row))
    (u64_wrap (b_bytes_in b + bytes_in row)) (u64_wrap (b_bytes_out b + bytes_out row)).

(** The literals 0.9 and 0.99. *)
Definition p90 : F64.f64 := F64.div (F64.of_Z 9) (F64.of_Z 10).
Definition p99 : F64.f64 := F64.div (F64.of_Z 99) (F64.of_Z 100).

(** [to_metric_row]; the division by the bucket's length panics on zero. *)
Definition to_metric_row (b : MetricBucket) (gate : string) (route : option Z) (t bucket_sec : Z) : outcome MetricRow :=
  if bucket_sec =? 0 then Panic
  else Ret (mkMetricRow t bucket_sec route gate
    (u32_wrap (b_total_requests b / bucket_sec)) (b_total_requests b)
    (if 0 <? b_total_requests b then F64.div (b_total_latency_ms b) (F64.of_Z (b_total_requests b)) else F64.zero)
    (percentile (latency_hist b) F64.half) (percentile (latency_hist b) p90) (percentile (latency_hist b) p99)
    (b_status_2xx b) (b_status_3xx b) (b_status_4xx b) (b_status_5xx b) 0
    (b_bytes_in b) (b_bytes_out b)).

(** [align_to_bucket]: the remainder truncates towards zero and panics on zero;
    the aligned second lies between the epoch and the time, hence in range. *)
Definition align_to_bucket (t bucket_sec : Z) : outcome Z :=
  if bucket_sec =? 0 then Panic
  else let secs := t / 1000000000 in Ret (from_secs (secs - Z.rem secs bucket_sec)).

(** (gate_id, route_id, bucket_ts). *)
Definition Key : Type := string * option Z * Z.

Section WithRepo.

(** The repository: its state, and what [upsert_batch] answers in it. *)
Context {R : Type} (upsert_batch : R → list MetricRow → R * result unit ConrogateError).

Record MetricAggregator := mkAggregator {
  buckets : gmap Key MetricBucket;
  bucket_sec : Z;
  metric_repo : option R;
  recently_failed : list (list MetricRow) }.

Definition aggregator_new (bs : Z) : MetricAggregator := mkAggregator ∅ bs None [].
Definition with_metric_repo (a : MetricAggregator) (r : R) : MetricAggregator :=
  mkAggregator (buckets a) (bucket_sec a) (Some r) (recently_failed a).

Definition max_backoff : Z := from_secs 30.
Definition max_attempts : nat := 3.

(** The retry loop of [flush_rows], with [left] attempts to go: the repository,
    whether an attempt succeeded, and the pauses between the attempts. *)
Fixpoint attempt_upsert (left : nat) (retry_backoff : Z) (rows : list MetricRow) (r : R) : R * bool * list Z :=
  match left with
  | O => (r, false, [])
  | S l =>
      match upsert_batch r rows with
      | (r', Ok _) => (r', true, [])
      | (r', Err _) =>
          match l with
          | O => (r', false, [])
          | S _ =>
              let '(r'', ok, pauses) := attempt_upsert l (Z.min (retry_backoff * 2) max_backoff) rows r' in
              (r'', ok, retry_backoff :: pauses)
          end
      end
  end.

(** What became of rows: written to the repository, or given up. *)
Record fate := mkFate { stored : list MetricRow; dropped : list MetricRow }.
Definition no_fate : fate := mkFate [] [].
Definition fate_app (x y : fate) : fate := mkFate (stored x ++ stored y) (dropped x ++ dropped y).

(** [flush_rows]. *)
Definition flush_rows (a : MetricAggregator) (rows : list MetricRow) : MetricAggregator * fate :=
  match rows with
  | [] => (a, no_fate)
  | _ =>
      match metric_repo a with
      | None => (a, mkFate [] rows)
      | Some r =>
          let '(r', ok, _) := attempt_upsert max_attempts (from_millis 500) rows r in
          if ok then (mkAggregator (buckets a) (bucket_sec a) (Some r') (recently_failed a), mkFate rows [])
          else
            let buf := recently_failed a ++ [rows] in
            if 10 <? Z.of_nat (length buf)
            then (mkAggregator (buckets a) (bucket_sec a) (Some r') (tail buf), mkFate [] (default [] (head buf)))
            else (mkAggregator (buckets a) (bucket_sec a) (Some r') buf, no_fate)
      end
  end.

Fixpoint flush_batches (a : MetricAggregator) (batches : list (list MetricRow)) : MetricAggregator * fate :=
  match batches with
  | [] => (a, no_fate)
  | b :: rest =>
      let '(a1, f1) := flush_rows a b in
      let '(a2, f2) := flush_batches a1 rest in
      (a2, fate_app f1 f2)
  end.

(** The receive branch of [run]. *)
Definition on_row (a : MetricAggregator) (row : MetricRow) : outcome MetricAggregator :=
  match align_to_bucket (ts row) (bucket_sec a) with
  | Panic => Panic
  | Ret bucket_ts =>
      let k : Key := (gate_id row, route_id row, bucket_ts) in
      let b := default default_bucket (buckets a !! k) in
      Ret (mkAggregator (<[k := bucket_add b row]> (buckets a)) (bucket_sec a) (metric_repo a) (recently_failed a))
  end.

(** The loop over [keys_to_flush]. *)
Fixpoint take_buckets (bs : Z) (keys : list Key) (m : gmap Key MetricBucket) :
  outcome (gmap Key MetricBucket * list MetricRow) :=
  match keys with
  | [] => Ret (m, [])
  | k :: rest =>
      match m !! k with
      | None => take_buckets bs rest m
      | Some b =>
          match to_metric_row b k.1.1 k.1.2 k.2 bs with
          | Panic => Panic
          | Ret row =>
              match take_buckets bs rest (delete k m) with
              | Panic => Panic
              | Ret (m', rows) => Ret (m', row :: rows)
              end
          end
      end
  end.

(** The order in which the map lists its keys. *)
Context (keys_of : gmap Key MetricBucket → list Key).

(** The timer branch of [run]. *)
Definition on_tick (a : MetricAggregator) (now : Z) : outcome (MetricAggregator * fate) :=
  match align_to_bucket now (bucket_sec a) with
  | Panic => Panic
  | Ret cutoff =>
      let keys_to_flush := List.filter (λ k, k.2 <? cutoff) (keys_of (buckets a)) in
      match take_buckets (bucket_sec a) keys_to_flush (buckets a) with
      | Panic => Panic
      | Ret (m, rows_to_flush) =>
          let buffered := recently_failed a in
          let '(a1, f1) := flush_batches (mkAggregator m (bucket_sec a) (metric_repo a) []) buffered in
          let '(a2, f2) := flush_rows a1 rows_to_flush in
          Ret (a2, fate_app f1 f2)
      end
  end.

(** The events of [run]: a row received, or a tick of the timer. *)
Inductive event := Row (row : MetricRow) | Tick (now : Z).

Fixpoint run (a : MetricAggregator) (evs : list event) : outcome (MetricAggregator * fate) :=
  match evs with
  | [] => Ret (a, no_fate)
  | Row row :: rest =>
      match on_row a row with Panic => Panic | Ret a' => run a' rest end
  | Tick now :: rest =>
      match on_tick a now with
      | Panic => Panic
      | Ret (a', f) =>
          match run a' rest with Panic => Panic | Ret (a'', f') => Ret (a'', fate_app f f') end
      end
  end.

(** ** Every request received is accounted for *)

Inductive counter := CRequests | C2xx | C3xx | C4xx | C5xx | CBytesIn | CBytesOut.

Definition row_count (c : counter) (row : MetricRow) : Z :=
  match c with
  | CRequests => total_requests row
  | C2xx => status_2xx row | C3xx => status_3xx row | C4xx => status_4xx row | C5xx => status_5xx row
  | CBytesIn => bytes_in row | CBytesOut => bytes_out row
  end.

Definition bucket_count (c : counter) (b : MetricBucket) : Z :=
  match c with
  | CRequests => b_total_requests b
  | C2xx => b_status_2xx b | C3xx => b_status_3xx b | C4xx => b_status_4xx b | C5xx => b_status_5xx b
  | CBytesIn => b_bytes_in b | CBytesOut => b_bytes_out b
  end.

Definition rows_total (c : counter) (rows : list MetricRow) : Z := sumZ (map (row_count c) rows).
Definition buckets_total (c : counter) (m : gmap Key MetricBucket) : Z :=
  sumZ (map (λ kb, bucket_count c kb.2) (map_to_list m)).

(** What the aggregator still holds. *)
Definition pending (c : counter) (a : MetricAggregator) : Z :=
  rows_total c (concat (recently_failed a)) + buckets_total c (buckets a).

Definition settled (c : counter) (f : fate) : Z := rows_total c (stored f) + rows_total c (dropped f).

Lemma rows_total_app c l l' : rows_total c (l ++ l') = rows_total c l + rows_total c l'.
Proof. unfold rows_total. rewrite map_app. apply sumZ_app. Qed.

Lemma rows_total_cons c row l : rows_total c (row :: l) = row_count c row + rows_total c l.
Proof. done. Qed.

Lemma settled_app c f f' : settled c (fate_app f f') = settled c f + settled c f'.
Proof. unfold settled. simpl. rewrite !rows_total_app. lia. Qed.

Lemma buckets_total_insert c m k b :
  m !! k = None → buckets_total c (<[k := b]> m) = bucket_count c b + buckets_total c m.
Proof. intros Hk. unfold buckets_total. by rewrite map_to_list_insert. Qed.

Lemma buckets_total_delete c m k b :
  m !! k = Some b → buckets_total c m = bucket_count c b + buckets_total c (delete k m).
Proof.
  intros Hk. rewrite <-(insert_delete_id m k b) at 1 by done. apply buckets_total_insert. apply lookup_delete_eq.
Qed.

Lemma buckets_total_alter c m k b :
  buckets_total c (<[k := b]> m) =
  buckets_total c m + (bucket_count c b - bucket_count c (default default_bucket (m !! k))).
Proof.
  destruct (m !! k) as [b0|] eqn:Hk; simpl.
  - rewrite (buckets_total_delete c (<[k:=b]> m) k b), delete_insert_eq by apply lookup_insert_eq.
    rewrite (buckets_total_delete c m k b0) by done. lia.
  - rewrite buckets_total_insert by done. destruct c; simpl; lia.
Qed.

Lemma bucket_add_count c b row :
  bucket_count c (bucket_add b row) = u64_wrap (bucket_count c b + row_count c row).
Proof. by destruct c. Qed.

Lemma to_metric_row_count b g ro t bs :
  bs ≠ 0 → ∃ row, to_metric_row b g ro t bs = Ret row ∧ ts row = t ∧ (∀ c, row_count c row = bucket_count c b).
Proof.
  intros Hbs. unfold to_metric_row. rewrite (proj2 (Z.eqb_neq _ _)) by done.
  eexists. split; [reflexivity|]. split; [done|]. by intros [].
Qed.

Lemma take_buckets_total bs keys m :
  bs ≠ 0 →
  ∃ m' rows, take_buckets bs keys m = Ret (m', rows) ∧
    (∀ c, buckets_total c m = buckets_total c m' + rows_total c rows) ∧
    (∀ k, k ∈ keys → m' !! k = None) ∧ m' ⊆ m.
Proof.
  intros Hbs. revert m. induction keys as [|k keys IH]; intros m; simpl.
  { exists m, []. split_and!; [done| |by intros k ?%not_elem_of_nil|done]. intros c. unfold rows_total. simpl. lia. }
  destruct (m !! k) as [b|] eqn:Hk.
  - destruct (to_metric_row_count b k.1.1 k.1.2 k.2 bs Hbs) as (row & -> & _ & Hrow).
    destruct (IH (delete k m)) as (m' & rows & -> & Ht & Hk' & Hsub). exists m', (row :: rows).
    split_and!; [done| | |].
    + intros c. rewrite (buckets_total_delete c m k b), Ht by done. unfold rows_total. simpl. rewrite Hrow. lia.
    + intros k' [->|]%elem_of_cons; [|by apply Hk']. destruct (m' !! k) eqn:E; [|done].
      apply (lookup_weaken _ _ _ _ E) in Hsub. by rewrite lookup_delete_eq in Hsub.
    + etrans; [done|]. apply delete_subseteq.
  - destruct (IH m) as (m' & rows & -> & Ht & Hk' & Hsub). exists m', rows. split_and!; [done..| |done].
    intros k' [->|]%elem_of_cons; [|by apply Hk']. by apply (lookup_weaken_None _ m).
Qed.

(** What a flush does to the books: buckets untouched, the ring buffer within
    its bound, rows only moved; and nothing dropped or held back as long as the
    repository answers. *)
Record flushed (rows : list MetricRow) (a a' : MetricAggregator) (f : fate) : Prop := {
  flushed_buckets : buckets a' = buckets a;
  flushed_sec : bucket_sec a' = bucket_sec a;
  flushed_ring : (length (recently_failed a) <= 10)%nat → (length (recently_failed a') <= 10)%nat;
  flushed_perm :
    stored f ++ dropped f ++ concat (recently_failed a') ≡ₚ rows ++ concat (recently_failed a);
  flushed_clean :
    (∀ r l, is_ok (upsert_batch r l).2 = true) → is_Some (metric_repo a) →
    is_Some (metric_repo a') ∧ dropped f = [] ∧ recently_failed a' = recently_failed a }.

Lemma attempt_upsert_ok left bo rows r :
  (∀ r l, is_ok (upsert_batch r l).2 = true) → (attempt_upsert (S left) bo rows r).1.2 = true.
Proof.
  intros Hok. specialize (Hok r rows). simpl. by destruct (upsert_batch r rows) as [r' []].
Qed.

Lemma flush_rows_flushed a rows : flushed rows a (flush_rows a rows).1 (flush_rows a rows).2.
Proof.
  unfold flush_rows. destruct rows as [|row rows'] eqn:Er.
  { by split. }
  rewrite <-Er. assert (rows ≠ []) as Hne by (by subst). clear Er row rows'.
  destruct (metric_repo a) as [r|] eqn:Em; cycle 1.
  { split; try done. by rewrite Em; intros _ []. }
  destruct (attempt_upsert max_attempts (from_millis 500) rows r) as [[r' ok] pauses] eqn:Ea.
  assert ((∀ r l, is_ok (upsert_batch r l).2 = true) → ok = true) as Hok.
  { intros H. pose proof (attempt_upsert_ok 2 (from_millis 500) rows r H) as E. change 3%nat with max_attempts in E.
    by rewrite Ea in E. }
  destruct ok; simpl.
  { by split. }
  destruct (10 <? Z.of_nat (length (recently_failed a ++ [rows]))) eqn:El; simpl;
    (split; simpl; try done; [..|by intros H%Hok]); rewrite ?length_app in *.
  - destruct (recently_failed a); simpl in *; rewrite ?length_app; simpl; lia.
  - destruct (recently_failed a) as [|b bs]; [done|]. simpl. rewrite concat_app. simpl. solve_Permutation.
  - apply Z.ltb_ge in El. simpl in *. lia.
  - rewrite concat_app. simpl. solve_Permutation.
Qed.

Lemma flush_batches_flushed batches a :
  flushed (concat batches) a (flush_batches a batches).1 (flush_batches a batches).2.
Proof.
  revert a. induction batches as [|b batches IH]; intros a; simpl.
  { split; try done. }
  pose proof (flush_rows_flushed a b) as H1. destruct (flush_rows a b) as [a1 f1]. simpl in H1.
  specialize (IH a1). destruct (flush_batches a1 batches) as [a2 f2]. simpl in *.
  destruct H1 as [E1 S1 R1 T1 C1], IH as [E2 S2 R2 T2 C2]. split; [congruence..|auto| |].
  - simpl. trans (concat batches ++ (b ++ concat (recently_failed a))); [|solve_Permutation]. rewrite <-T1.
    trans (stored f1 ++ dropped f1 ++ (concat batches ++ concat (recently_failed a1))); [|solve_Permutation].
    rewrite <-T2. solve_Permutation.
  - intros H Hr. destruct (C1 H Hr) as (Hr1 & D1 & E1'). destruct (C2 H Hr1) as (Hr2 & D2 & E2').
    simpl. rewrite D1, D2. split_and!; [done|done|congruence].
Qed.

(** Rows and buckets with no negative counter. *)
Definition row_ok (row : MetricRow) : Prop := ∀ c, 0 <= row_count c row.
Definition books_ok (a : MetricAggregator) : Prop :=
  Forall row_ok (concat (recently_failed a)) ∧ map_Forall (λ _ b, ∀ c, 0 <= bucket_count c b) (buckets a).

Lemma rows_total_nonneg c rows : Forall row_ok rows → 0 <= rows_total c rows.
Proof. intros H. apply sumZ_nonneg. apply Forall_map. by apply (Forall_impl _ _ _ H). Qed.

Lemma buckets_total_nonneg c m : map_Forall (λ _ b, ∀ c, 0 <= bucket_count c b) m → 0 <= buckets_total c m.
Proof.
  intros H%map_Forall_to_list. apply sumZ_nonneg, Forall_map. apply (Forall_impl _ _ _ H). by intros [k b].
Qed.

Lemma rows_total_perm c l l' : l ≡ₚ l' → rows_total c l = rows_total c l'.
Proof. intros H. unfold rows_total. by rewrite H. Qed.

Lemma on_row_books a row :
  bucket_sec a ≠ 0 → books_ok a → row_ok row →
  ∃ a', on_row a row = Ret a' ∧ bucket_sec a' = bucket_sec a ∧ books_ok a' ∧
    metric_repo a' = metric_repo a ∧ recently_failed a' = recently_failed a ∧
    ∀ c, pending c a + row_count c row < 2 ^ 64 → pending c a' = pending c a + row_count c row.
Proof.
  intros Hbs [Hr Hm] Hrow. unfold on_row, align_to_bucket. rewrite (proj2 (Z.eqb_neq _ _)) by done.
  eexists. split; [reflexivity|]. simpl. set (k := (_, _, _) : Key). split_and!; [done|split; simpl|done..|].
  - done.
  - apply map_Forall_insert_2; [|done]. intros c. rewrite bucket_add_count. apply u64_wrap_range.
  - intros c Hb. unfold pending in *. simpl. rewrite buckets_total_alter, bucket_add_count.
    pose proof (rows_total_nonneg c _ Hr). specialize (Hrow c).
    assert (0 <= bucket_count c (default default_bucket (buckets a !! k)) <= buckets_total c (buckets a)).
    { destruct (buckets a !! k) as [b|] eqn:Ek; simpl.
      - rewrite (buckets_total_delete c _ k b) by done. assert (0 <= bucket_count c b) by apply (Hm k b Ek c).
        pose proof (buckets_total_nonneg c (delete k (buckets a)) (map_Forall_delete _ _ _ Hm)). lia.
      - pose proof (buckets_total_nonneg c _ Hm). destruct c; simpl; lia. }
    rewrite u64_wrap_small by lia. lia.
Qed.

Lemma take_buckets_row_ok bs keys m m' rows :
  map_Forall (λ _ b, ∀ c, 0 <= bucket_count c b) m → take_buckets bs keys m = Ret (m', rows) → Forall row_ok rows.
Proof.
  revert m m' rows. induction keys as [|k keys IH]; intros m m' rows Hm E; simpl in E.
  { by injection E as <- <-. }
  destruct (m !! k) as [b|] eqn:Hk; [|by eapply IH].
  unfold to_metric_row in E. destruct (bs =? 0); [done|].
  destruct (take_buckets bs keys (delete k m)) as [[m1 rows1]|] eqn:E1; [|done]. injection E as <- <-.
  apply Forall_cons. split; [|by eapply IH, E1; apply map_Forall_delete].
  intros c. pose proof (Hm k b Hk c). by destruct c.
Qed.

Lemma moved_rows f kept rest :
  stored f ++ dropped f ++ kept ≡ₚ rest → Forall row_ok rest →
  Forall row_ok kept ∧ ∀ c, 0 <= settled c f ∧ settled c f + rows_total c kept = rows_total c rest.
Proof.
  intros Hp Hrest. rewrite <-Hp in Hrest. apply Forall_app in Hrest as [Hs [Hd Hk]%Forall_app]. split; [done|].
  intros c. rewrite <-(rows_total_perm c _ _ Hp), !rows_total_app. unfold settled.
  pose proof (rows_total_nonneg c _ Hs). pose proof (rows_total_nonneg c _ Hd). lia.
Qed.

Context (keys_of_perm : ∀ m, keys_of m ≡ₚ (map_to_list m).*1).

(** A tick moves rows on without losing any, leaves no bucket from before the
    cutoff, and drops nothing as long as the repository answers. *)
Lemma on_tick_books a now :
  bucket_sec a ≠ 0 → books_ok a →
  ∃ a' f cutoff, on_tick a now = Ret (a', f) ∧ align_to_bucket now (bucket_sec a) = Ret cutoff ∧
    bucket_sec a' = bucket_sec a ∧ books_ok a' ∧ (length (recently_failed a') <= 10)%nat ∧
    (∀ c, 0 <= settled c f ∧ settled c f + pending c a' = pending c a) ∧
    (∀ k b, buckets a' !! k = Some b → cutoff <= k.2) ∧
    ((∀ r l, is_ok (upsert_batch r l).2 = true) → is_Some (metric_repo a) → recently_failed a = [] →
     is_Some (metric_repo a') ∧ dropped f = [] ∧ recently_failed a' = []).
Proof using keys_of_perm.
  intros Hbs [Hr Hm]. unfold on_tick, align_to_bucket. rewrite (proj2 (Z.eqb_neq _ _)) by done.
  set (cutoff := from_secs _).
  destruct (take_buckets_total (bucket_sec a) (List.filter (λ k, k.2 <? cutoff) (keys_of (buckets a))) (buckets a) Hbs)
    as (m' & rows & Etake & Ht & Hgone & Hsub).
  rewrite Etake. apply take_buckets_row_ok in Etake as Hrows; [|done].
  pose proof (flush_batches_flushed (recently_failed a) (mkAggregator m' (bucket_sec a) (metric_repo a) [])) as F1.
  destruct (flush_batches _ _) as [a1 f1]. simpl in F1.
  pose proof (flush_rows_flushed a1 rows) as F2. destruct (flush_rows a1 rows) as [a2 f2]. simpl in F2.
  destruct F1 as [E1 S1 R1 T1 C1], F2 as [E2 S2 R2 T2 C2]. simpl in *. rewrite app_nil_r in T1.
  assert (stored (fate_app f1 f2) ++ dropped (fate_app f1 f2) ++ concat (recently_failed a2) ≡ₚ
          rows ++ concat (recently_failed a)) as T.
  { rewrite <-T1. trans (stored f1 ++ dropped f1 ++ (rows ++ concat (recently_failed a1))); [|solve_Permutation].
    rewrite <-T2. simpl. solve_Permutation. }
  destruct (moved_rows (fate_app f1 f2) _ _ T) as [Hc Hset]; [by apply Forall_app|].
  exists a2, (fate_app f1 f2), cutoff. split_and!; [done|done|congruence| |auto with lia| | |].
  - split; [done|]. rewrite E2, E1. intros k b Hk. by apply (Hm k), (lookup_weaken m').
  - intros c. destruct (Hset c) as [Hs0 Hs]. split; [done|]. unfold pending. rewrite E2, E1, (Ht c).
    rewrite rows_total_app in Hs. lia.
  - intros k b Hk. rewrite E2, E1 in Hk. destruct (decide (k.2 < cutoff)) as [Hlt|]; [|lia].
    assert (m' !! k = None) as Hno; [|congruence]. apply Hgone, list_elem_of_In, filter_In. split; [|by apply Z.ltb_lt].
    apply list_elem_of_In. rewrite keys_of_perm. apply list_elem_of_fmap. exists (k, b). split; [done|].
    apply elem_of_map_to_list. by apply (lookup_weaken m').
  - intros H Hsome Hnil. destruct (C1 H Hsome) as (Hr1 & D1 & N1). destruct (C2 H Hr1) as (Hr2 & D2 & N2).
    simpl. rewrite D1, D2. split_and!; [done|done|congruence].
Qed.

(** The rows of a run. *)
Definition received (evs : list event) : list MetricRow :=
  omap (λ e, match e with Row row => Some row | Tick _ => None end) evs.

Lemma run_books evs a :
  bucket_sec a ≠ 0 → books_ok a → (length (recently_failed a) <= 10)%nat → Forall row_ok (received evs) →
  ∃ a' f, run a evs = Ret (a', f) ∧ (length (recently_failed a') <= 10)%nat ∧
    (∀ c, pending c a + rows_total c (received evs) < 2 ^ 64 →
       settled c f + pending c a' = pending c a + rows_total c (received evs)) ∧
    ((∀ r l, is_ok (upsert_batch r l).2 = true) → is_Some (metric_repo a) → recently_failed a = [] → dropped f = []).
Proof using keys_of_perm.
  revert a. induction evs as [|[row|now] evs IH]; intros a Hbs Hok Hring Hrows; simpl in *.
  - exists a, no_fate. split_and!; [done|done| |done]. intros c _. unfold settled, rows_total. simpl. lia.
  - apply Forall_cons in Hrows as [Hrow Hrows].
    destruct (on_row_books a row Hbs Hok Hrow) as (a1 & -> & Hbs1 & Hok1 & Hrepo & Hrf & Hp).
    destruct (IH a1) as (a2 & f & -> & Hring2 & Hp2 & Hclean); [congruence|done|congruence|done|].
    exists a2, f. split_and!; [done|done| |by rewrite <-Hrepo, <-Hrf].
    intros c Hb. rewrite rows_total_cons in *. pose proof (rows_total_nonneg c _ Hrows).
    specialize (Hp c ltac:(lia)). specialize (Hp2 c ltac:(lia)). lia.
  - destruct (on_tick_books a now Hbs Hok) as (a1 & f1 & cutoff & -> & _ & Hbs1 & Hok1 & Hring1 & Hp & _ & Hc1).
    destruct (IH a1) as (a2 & f & -> & Hring2 & Hp2 & Hclean); [congruence|done..|].
    exists a2, (fate_app f1 f). split_and!; [done|done| |].
    + intros c Hb. destruct (Hp c) as [H0 Hs]. specialize (Hp2 c ltac:(lia)). rewrite settled_app. lia.
    + intros H Hsome Hnil. destruct (Hc1 H Hsome Hnil) as (Hsome1 & Hd1 & Hnil1). simpl.
      by rewrite Hd1, (Hclean H Hsome1 Hnil1).
Qed.

(** C38. Metrics are conserved: whatever the interleaving of rows and ticks, the
    aggregator with a bucket length above zero never panics, and of every counter
    (requests, statuses, bytes) the amount received is the amount in the batches
    that the repository accepted, plus the amount given up, plus the amount still held; at most ten
    failed batches are held; and while every batch is accepted nothing is given up. *)
Theorem metrics_conserved bs r evs :
  0 < bs → Forall row_ok (received evs) →
  ∃ a f, run (with_metric_repo (aggregator_new bs) r) evs = Ret (a, f) ∧
    (∀ c, rows_total c (received evs) < 2 ^ 64 →
       rows_total c (received evs) = rows_total c (stored f) + rows_total c (dropped f) + pending c a) ∧
    (length (recently_failed a) <= 10)%nat ∧
    ((∀ r l, is_ok (upsert_batch r l).2 = true) → dropped f = []).
Proof using keys_of_perm.
  intros Hbs Hrows.
  destruct (run_books evs (with_metric_repo (aggregator_new bs) r)) as (a & f & E & Hring & Hp & Hc);
    [simpl; lia|split; [constructor|apply map_Forall_empty]|simpl; lia|done|].
  exists a, f. split_and!; [done| |done|by intros H; apply Hc].
  intros c Hb. unfold settled in Hp. specialize (Hp c).
  assert (pending c (with_metric_repo (aggregator_new bs) r) = 0) as H0 by reflexivity. lia.
Qed.

End WithRepo.

Definition list_keys (m : gmap Key MetricBucket) : list Key := (map_to_list m).*1.

(** A repository that refuses its first batches. *)
Definition flaky (n : nat) (l : list MetricRow) : nat * result unit ConrogateError :=
  match n with O => (O, Ok tt) | S n' => (n', Err (Internal "database")) end.

Definition sample_row (t : Z) : MetricRow :=
  mkMetricRow t 0 (Some 1) "gw" 0 1 (F64.of_Z 12) 0 0 0 1 0 0 0 0 100 200.

Lemma metrics_conserved_witness :
  ∃ a f, run flaky list_keys (with_metric_repo (aggregator_new 10) 4%nat)
           [Row (sample_row 0); Row (sample_row (from_secs 3)); Tick (from_secs 11); Tick (from_secs 21)] = Ret (a, f) ∧
    2 = rows_total CRequests (stored f) + rows_total CRequests (dropped f) + pending CRequests a ∧
    rows_total CRequests (stored f) = 2.
Proof.
  destruct (metrics_conserved flaky list_keys (λ m, reflexivity _) 10 4%nat
    [Row (sample_row 0); Row (sample_row (from_secs 3)); Tick (from_secs 11); Tick (from_secs 21)])
    as (a & f & E & H & _).
  - done.
  - by repeat constructor; intros [].
  - exists a, f. split; [exact E|]. split; [apply (H CRequests); vm_compute; reflexivity|].
    vm_compute in E. injection E as <- <-. vm_compute. reflexivity.
Defined.
End Aggregator.
