(* ===== verification/Effects.v ===== *)
(** Programs that call services: a free monad over a signature of calls with
    typed answers, the traces such a program can have whatever the services
    answer, and its execution against services given as a state machine. The
    protocol handlers are written in it, so that their theorems hold for every
    behaviour of the components behind the service interfaces. *)
From Stdlib Require Import ZArith Lia.
From stdpp Require Import base tactics option list.
From S2P Require Import Prelude Errors.
#[local] Open Scope Z_scope.

Section Programs.
Context {call : Type} {ans : call → Type}.

Inductive prog (A : Type) : Type :=
| Done (a : A)
| Call (c : call) (k : ans c → prog A).
Arguments Done {A} a.
Arguments Call {A} c k.

Fixpoint bind {A B} (p : prog A) (f : A → prog B) : prog B :=
  match p with
  | Done a => f a
  | Call c k => Call c (λ x, bind (k x) f)
  end.

(** One call. *)
Definition perform (c : call) : prog (ans c) := Call c Done.

(** Sequencing of fallible programs: the [?] after an [await]. *)
Definition bind_ok {A B} (p : prog (result A ConrogateError)) (f : A → prog (result B ConrogateError)) :
    prog (result B ConrogateError) :=
  bind p (λ r, match r with Ok a => f a | Err e => Done (Err e) end).

Lemma bind_ok_ok {A B} (a : A) (f : A → prog (result B ConrogateError)) : bind_ok (Done (Ok a)) f = f a.
Proof. done. Qed.

Lemma bind_ok_err {A B} e (f : A → prog (result B ConrogateError)) : bind_ok (Done (Err e)) f = Done (Err e).
Proof. done. Qed.

(** A call with its answer. *)
Definition event : Type := { c : call & ans c }.
Definition call_of (e : event) : call := projT1 e.

(** [runs p tr a]: with the answers recorded in [tr], [p] makes exactly the calls
    of [tr] and returns [a]. *)
Fixpoint runs {A} (p : prog A) (tr : list event) (a : A) : Prop :=
  match p with
  | Done b => tr = [] ∧ a = b
  | Call c k => ∃ x tr', tr = existT c x :: tr' ∧ runs (k x) tr' a
  end.

(** Execution against services with state [S]. *)
Fixpoint exec {A S} (serve : S → ∀ c, S * ans c) (s : S) (p : prog A) : S * list event * A :=
  match p with
  | Done a => (s, [], a)
  | Call c k =>
      let '(s1, x) := serve s c in
      let '(s2, tr, a) := exec serve s1 (k x) in
      (s2, existT c x :: tr, a)
  end.

Lemma exec_runs {A S} (serve : S → ∀ c, S * ans c) (p : prog A) (s : S) :
  runs p (exec serve s p).1.2 (exec serve s p).2.
Proof.
  revert s. induction p as [a|c k IH]; intros s; simpl; [done|].
  destruct (serve s c) as [s1 x]. specialize (IH x s1). destruct (exec serve s1 (k x)) as [[s2 tr] a].
  simpl in *. by exists x, tr.
Qed.

(** What every answer of the services has, every event of the execution has. *)
Lemma exec_answers {A S} (serve : S → ∀ c, S * ans c) (Q : event → Prop) (p : prog A) (s : S) :
  (∀ s' c, Q (existT c (serve s' c).2)) → List.Forall Q (exec serve s p).1.2.
Proof.
  intros HQ. revert s. induction p as [a|c k IH]; intros s; simpl; [constructor|].
  pose proof (HQ s c) as Hc. destruct (serve s c) as [s1 x]. specialize (IH x s1). destruct (exec serve s1 (k x)) as [[s2 tr] a].
  by constructor.
Qed.

Lemma runs_bind {A B} (p : prog A) (f : A → prog B) tr b :
  runs (bind p f) tr b ↔ ∃ tr1 a tr2, tr = tr1 ++ tr2 ∧ runs p tr1 a ∧ runs (f a) tr2 b.
Proof.
  revert tr. induction p as [a|c k IH]; intros tr; simpl.
  - split; [intros H; by exists [], a, tr|]. by intros (tr1 & a' & tr2 & -> & [-> ->] & H).
  - split.
    + intros (x & tr' & -> & (tr1 & a & tr2 & -> & H1 & H2)%IH). exists (existT c x :: tr1), a, tr2.
      split_and!; [done| |done]. by exists x, tr1.
    + intros (tr1 & a & tr2 & -> & (x & tr' & -> & H1) & H2). exists x, (tr' ++ tr2). split; [done|].
      apply IH. by exists tr', a, tr2.
Qed.

Lemma runs_bind_ok {A B} (p : prog (result A ConrogateError)) (f : A → prog (result B ConrogateError)) tr b :
  runs (bind_ok p f) tr b ↔
  (∃ e, b = Err e ∧ runs p tr (Err e)) ∨
  (∃ tr1 a tr2, tr = tr1 ++ tr2 ∧ runs p tr1 (Ok a) ∧ runs (f a) tr2 b).
Proof.
  unfold bind_ok. rewrite runs_bind. split.
  - intros (tr1 & [a|e] & tr2 & -> & H1 & H2); [right; by exists tr1, a, tr2|].
    destruct H2 as [-> ->]. left. exists e. by rewrite app_nil_r.
  - intros [(e & -> & H)|(tr1 & a & tr2 & -> & H1 & H2)]; [|by exists tr1, (Ok a), tr2].
    exists tr, (Err e), []. by rewrite app_nil_r.
Qed.

(** What a trace shows of one kind of call. *)
Definition observe {O} (f : event → option O) (tr : list event) : list O := omap f tr.

Lemma observe_app {O} (f : event → option O) tr1 tr2 : observe f (tr1 ++ tr2) = observe f tr1 ++ observe f tr2.
Proof. apply omap_app. Qed.

Lemma observe_cons {O} (f : event → option O) e tr :
  observe f (e :: tr) = match f e with Some o => o :: observe f tr | None => observe f tr end.
Proof. done. Qed.

(** Events that are not of the kind may be left out. *)
Lemma observe_filter {O} (f : event → option O) (keep : event → bool) tr :
  (∀ e, keep e = false → f e = None) → observe f (List.filter keep tr) = observe f tr.
Proof.
  intros H. induction tr as [|e tr IH]; [done|]. cbn [List.filter]. destruct (keep e) eqn:E; rewrite !observe_cons, ?IH; [done|].
  by rewrite (H e E).
Qed.
End Programs.

Arguments prog {call} ans A.
Arguments Done {call ans A} a.
Arguments Call {call ans A} c k.
Arguments event {call} ans.

Declare Scope prog_scope.
Delimit Scope prog_scope with prog.
Notation "x <- p ;; k" := (bind p (λ x, k)) (at level 98, p at next level, right associativity) : prog_scope.
Notation "' x <- p ;; k" := (bind p (λ y, let x := y in k))
  (at level 98, x pattern, p at next level, right associativity) : prog_scope.
Notation "x <-? p ;; k" := (bind_ok p (λ x, k)) (at level 98, p at next level, right associativity) : prog_scope.
Notation "p ;;; k" := (bind p (λ _, k)) (at level 98, right associativity) : prog_scope.
