(* ===== verification/HttpHandler.v ===== *)
(** The HTTP protocol handler (conrogate-protocol/src/http.rs), with the
    forwarding of proxy.rs and the upgrade test of upgrade.rs, as a program over
    the services of [ServiceContext] (conrogate-core/src/gateway.rs): the
    theorems hold for every trace of service answers.

    Header maps, header values and URIs are those of the http crate, IP addresses
    those of std::net and ipnet; both enter through classes. A message of the
    client is answered by one exchange with the network, whose outcome is an
    answer too. *)
From Stdlib Require Import ZArith Lia Ascii String.
From stdpp Require Import base tactics option list gmap strings pretty.
From S2P Require Import Prelude Text Errors Core BalancerApi F64 Plugin Access Telemetry Effects.
#[local] Open Scope Z_scope.

(** What is used of [http::HeaderMap], [HeaderValue] and [Uri]; names of fields
    are compared without case. *)
Class HttpLib (HeaderMap HeaderValue Uri : Type) : Type := {
  hm_empty : HeaderMap;
  hm_get : HeaderMap → string → option HeaderValue;
  hm_insert : HeaderMap → string → HeaderValue → HeaderMap;
  hm_append : HeaderMap → string → HeaderValue → HeaderMap;
  hm_remove : HeaderMap → string → HeaderMap;
  hm_entries : HeaderMap → list (string * HeaderValue);
  hv_parse : string → option HeaderValue;
  hv_to_str : HeaderValue → option string;
  uri_parse : string → result Uri string;
  uri_authority : Uri → option string;
  uri_path_and_query : Uri → option string;
}.

(** Documented behaviour: [insert] replaces every value of the name, [remove]
    leaves none. *)
Class HttpLibOk (HeaderMap HeaderValue Uri : Type) `{HttpLib HeaderMap HeaderValue Uri} : Prop := {
  get_insert m n v n' :
    hm_get (hm_insert m n v) n' = if bool_decide (to_lowercase n = to_lowercase n') then Some v else hm_get m n';
  get_remove m n n' :
    hm_get (hm_remove m n) n' = if bool_decide (to_lowercase n = to_lowercase n') then None else hm_get m n';
}.

Module HttpHandler.
Import Aggregator.
Local Open Scope prog_scope.

Section Handler.
Context {IpAddr IpNet : Type} `{IpL : IpLib IpAddr IpNet}.
Context {HeaderMap HeaderValue Uri : Type} `{HttpL : HttpLib HeaderMap HeaderValue Uri}.
Context {P : Type}.
(** SHA-1 of a text, in base64. *)
Context (sha1_base64 : string → string).

(** ** Data *)

Record HttpContext := mkHttpContext {
  hc_method : string;
  hc_path : string;
  hc_query : gmap string string;
  hc_headers : HeaderMap;
  hc_body : option string }.

(** What a plugin sees of a tunnel. *)
Record TunnelContext := mkTunnelContext {
  tc_remote_addr : string;
  tc_sni : option string;
  tc_alpn : option string;
  tc_listen_port : Z }.

Record PluginContext := mkContext {
  pc_request_id : string;
  pc_trace_id : string;
  pc_route_id : Z;
  pc_client_ip : string;
  pc_protocol : ProtocolId;
  pc_http : option HttpContext;
  pc_tunnel : option TunnelContext;
  pc_response_headers : HeaderMap }.

Record PluginResponse := mkPluginResponse { pr_status : Z; pr_headers : HeaderMap; pr_body : string }.

Record EventRow := mkEvent {
  ev_ts : Z;
  ev_type : string;
  ev_route_id : option Z;
  ev_upstream_id : option Z;
  ev_trace_id : option string;
  ev_detail : Value }.

(** A body: bytes, a JSON document, an error envelope, or a stream with what it
    will deliver. *)
Inductive RespBody := Raw (bytes : string) | Json (v : Value) | ErrorJson (b : ErrorBody) | Stream (b : result string string).

Record Response := mkResponse { rs_status : Z; rs_headers : HeaderMap; rs_body : RespBody }.

Record RequestMeta := mkMeta {
  match_info : RouteMatchInfo;
  request_id : string;
  trace_id : string;
  real_ip : string;
  start : Z }.

Record UpstreamRequest := mkUpstreamRequest { uq_method : string; uq_uri : Uri; uq_headers : HeaderMap; uq_body : RespBody }.

(** The outcome of sending a request: no answer in time, no connection, or a
    response head with what collecting its body gives. *)
Inductive exchange := NoAnswer | ConnectError (msg : string) | Head (status : Z) (headers : HeaderMap) (body : result string string).

Record HttpProtocolHandler := mkHandler {
  timeout : Z;
  trusted_proxies : list IpNet;
  rate_limit_qps : Z;
  max_retries : Z;
  retry_budget : bool;           (* a budget is configured *)
  svc_gate_id : string }.

Definition handler_new (gate : string) : HttpProtocolHandler := mkHandler (from_secs 30) [] 100 3 false gate.
Definition handler_with_timeout (gate : string) (t : Z) : HttpProtocolHandler := mkHandler t [] 100 3 false gate.

(** ** The services *)

Inductive call : Type :=
| GenerateTraceId
| Now
| UtcNow
| Jitter (limit : Z)
| Sleep (d : Z)
| IsBlocked (ip : string)
| LookupRoute (p : ProtocolId) (info : RouteMatchInfo)
| RoutePlugins (route : Z)
| BeforeRequest (ctx : PluginContext) (ps : list P)
| AfterResponse (ctx : PluginContext) (resp : PluginResponse) (ps : list P)
| CheckRateLimit (route : Z) (client_ip : string)
| SelectUpstream (route : RouteSnapshot) (key : option string)
| CheckBreaker (route node : Z)
| RecordResult (route node : Z) (success : bool)
| ReleaseNode (route : RouteSnapshot) (node : UpstreamNodeDto)
| RecordMetric (row : MetricRow)
| RecordEvent (row : EventRow)
| TryConsume
| RecordRequest
| Exchange (node : UpstreamNodeDto) (req : UpstreamRequest) (t : Z).

Definition ans (c : call) : Type :=
  match c with
  | GenerateTraceId => string
  | Now | UtcNow | Jitter _ => Z
  | Sleep _ => unit
  | IsBlocked _ => bool
  | LookupRoute _ _ => result (option RouteSnapshot) ConrogateError
  | RoutePlugins _ => list P
  | BeforeRequest _ _ => PluginContext * result (PluginOutcome Value) ConrogateError
  | AfterResponse _ _ _ => PluginContext * PluginResponse * result unit ConrogateError
  | CheckRateLimit _ _ | CheckBreaker _ _ | TryConsume => result unit ConrogateError
  | SelectUpstream _ _ => result UpstreamNodeDto ConrogateError
  | RecordResult _ _ _ | ReleaseNode _ _ | RecordMetric _ | RecordEvent _ | RecordRequest => unit
  | Exchange _ _ _ => exchange
  end.

Abbreviation M := (prog ans).
Definition ask (c : call) : M (ans c) := perform c.

(** ** Client address and headers *)

(** [compile_trusted_proxies]. *)
Definition compile_trusted_proxies (l : list string) : list IpNet :=
  omap (λ p, match parse_net p with Some cidr => Some cidr | None => net_of_addr <$> parse_addr p end) l.

Definition with_trusted_proxies (h : HttpProtocolHandler) (proxies : list string) : HttpProtocolHandler :=
  mkHandler (timeout h) (compile_trusted_proxies proxies) (rate_limit_qps h) (max_retries h) (retry_budget h) (svc_gate_id h).
Definition with_rate_limit_qps (h : HttpProtocolHandler) (qps : Z) : HttpProtocolHandler :=
  mkHandler (timeout h) (trusted_proxies h) qps (max_retries h) (retry_budget h) (svc_gate_id h).
Definition with_max_retries (h : HttpProtocolHandler) (n : Z) : HttpProtocolHandler :=
  mkHandler (timeout h) (trusted_proxies h) (rate_limit_qps h) n (retry_budget h) (svc_gate_id h).
Definition with_retry_budget (h : HttpProtocolHandler) : HttpProtocolHandler :=
  mkHandler (timeout h) (trusted_proxies h) (rate_limit_qps h) (max_retries h) true (svc_gate_id h).

Definition is_trusted_proxy (h : HttpProtocolHandler) (ip : string) : bool :=
  match parse_addr ip with
  | None => false
  | Some addr => existsb (λ cidr, net_contains cidr addr) (trusted_proxies h)
  end.

(** [headers.get(name).and_then(|v| v.to_str().ok())]. *)
Definition get_str (headers : HeaderMap) (name : string) : option string := hm_get headers name ≫= hv_to_str.

Definition resolve_real_ip (h : HttpProtocolHandler) (socket_ip : string) (headers : HeaderMap) : string :=
  match trusted_proxies h with
  | [] => socket_ip
  | _ =>
      if negb (is_trusted_proxy h socket_ip) then socket_ip
      else
        match get_str headers "x-forwarded-for" with
        | None => socket_ip
        | Some xff =>
            default socket_ip
              (List.find (λ ip, negb (is_trusted_proxy h ip)) (rev (map trim (split_on "," xff))))
        end
  end.

Definition SENSITIVE_HEADERS : list string :=
  ["authorization"; "cookie"; "proxy-authorization"; "x-api-key"; "x-forwarded-for"; "x-forwarded-proto";
   "x-request-id"; "x-trace-id"]%string.

Definition strip_sensitive_headers (headers : HeaderMap) : HeaderMap := foldl hm_remove headers SENSITIVE_HEADERS.

(** [if let Ok(v) = s.parse() { headers.insert(name, v); }]. *)
Definition insert_text (headers : HeaderMap) (name s : string) : HeaderMap :=
  match hv_parse s with Some v => hm_insert headers name v | None => headers end.

(** [builder.header(name, s)]. *)
Definition append_text (headers : HeaderMap) (name s : string) : HeaderMap :=
  match hv_parse s with Some v => hm_append headers name v | None => headers end.

(** [upstream_addr], [upstream_scheme] and [upstream_host] of proxy.rs. *)
Definition upstream_addr (node : UpstreamNodeDto) : string :=
  if contains "://" (n_address node) then n_address node else "http://" +:+ n_address node.
Definition upstream_scheme (node : UpstreamNodeDto) : string :=
  if starts_with "https://" (n_address node) then "https" else "http".
Definition upstream_host (node : UpstreamNodeDto) : string :=
  match uri_parse (upstream_addr node) with
  | Ok u => default (n_address node) (uri_authority u)
  | Err _ => n_address node
  end.

Definition uri_failed (m : string) : ConrogateError := UpstreamConnectFailed ("uri parse: " +:+ m).

Definition build_upstream_uri (node : UpstreamNodeDto) (uri : Uri) : result Uri ConrogateError :=
  match uri_parse (upstream_addr node +:+ default "/"%string (uri_path_and_query uri)) with
  | Ok u => Ok u
  | Err m => Err (uri_failed m)
  end.

Definition host_value (route : RouteSnapshot) (node : UpstreamNodeDto) : string :=
  default (upstream_host node) (s_host_header route).

Definition build_out_headers (route : RouteSnapshot) (node : UpstreamNodeDto) (headers : HeaderMap)
    (trace request ip : string) : HeaderMap :=
  let out := strip_sensitive_headers headers in
  let out := insert_text out "x-trace-id" trace in
  let out := insert_text out "x-forwarded-for" ip in
  let out := insert_text out "x-forwarded-proto" (upstream_scheme node) in
  let out := insert_text out "x-request-id" request in
  insert_text out "host" (host_value route node).

(** [is_upgrade_request] and [build_upgrade_response] of upgrade.rs. *)
Definition is_upgrade_request (method : string) (headers : HeaderMap) : bool :=
  bool_decide (method = "GET"%string) &&
  from_option (λ s, eq_ignore_ascii_case s "websocket") false (get_str headers "upgrade") &&
  from_option (λ s, contains "upgrade" (to_lowercase s)) false (get_str headers "connection").

Definition build_upgrade_response (headers : HeaderMap) : Response :=
  let key := default EmptyString (get_str headers "sec-websocket-key") in
  let hs := append_text hm_empty "Upgrade" "websocket" in
  let hs := append_text hs "Connection" "Upgrade" in
  mkResponse 101 (append_text hs "Sec-WebSocket-Accept" (sha1_base64 (key +:+ "258EAFA5-E914-47DA-95CA-C5AB0DC85B11"))) (Raw "").

(** ** Telemetry *)

(** [MetricRow::raw_sample]. *)
Definition raw_sample (t : Z) (gate : string) (route : option Z) (latency_ms : F64.f64) (p50 p90 p99 s2 s3 s4 s5 sess bi bo : Z) :
    MetricRow :=
  mkMetricRow t 0 route gate 0 1 latency_ms p50 p90 p99 s2 s3 s4 s5 sess bi bo.

Definition latency_since (t0 t : Z) : F64.f64 := F64.of_Z (as_millis (duration_since t t0)).

Definition record_sample (h : HttpProtocolHandler) (meta : RequestMeta) (route : Z) (s2 s3 s4 s5 sess bi bo : Z) : M unit :=
  t <- ask Now;;
  let latency_ms := latency_since (start meta) t in
  let ms := F64.to_u32 latency_ms in
  utc <- ask UtcNow;;
  ask (RecordMetric (raw_sample utc (svc_gate_id h) (Some route) latency_ms ms ms ms s2 s3 s4 s5 sess bi bo)).

Definition record_terminal_metric (h : HttpProtocolHandler) (route : RouteSnapshot) (meta : RequestMeta)
    (is2 is3 is4 is5 : bool) (bytes_in bytes_out : Z) : M unit :=
  record_sample h meta (s_id route) (Z.b2z is2) (Z.b2z is3) (Z.b2z is4) (Z.b2z is5) 0 bytes_in bytes_out.

Definition record_ws_metric (h : HttpProtocolHandler) (route : Z) (meta : RequestMeta) : M unit :=
  record_sample h meta route 1 0 0 0 1 0 0.

Definition refusal_event (utc : Z) (kind : string) (route : RouteSnapshot) (node : option Z) (meta : RequestMeta)
    (e : ConrogateError) : EventRow :=
  mkEvent utc kind (Some (s_id route)) node (Some (trace_id meta))
    (VObject [("client_ip"%string, VString (real_ip meta)); ("reason"%string, VString (display e))]).

Definition record_upstream_failed_event (route : RouteSnapshot) (node : UpstreamNodeDto) (meta : RequestMeta)
    (e : ConrogateError) : M unit :=
  utc <- ask UtcNow;;
  ask (RecordEvent (mkEvent utc "upstream_failed" (Some (s_id route)) (Some (n_id node)) (Some (trace_id meta))
    (VObject [("client_ip"%string, VString (real_ip meta)); ("upstream"%string, VString (n_address node));
              ("reason"%string, VString (display e))]))).

(** ** Before forwarding *)

Definition blacklist_response (trace : string) : Response :=
  let hs := append_text hm_empty "Content-Type" "application/json" in
  mkResponse 403 (append_text hs "x-trace-id" trace)
    (ErrorJson (error_body_with_trace trace ERR_FORBIDDEN "forbidden: ip not allowed")).

Definition build_request_meta (h : HttpProtocolHandler) (info : RouteMatchInfo) (headers : HeaderMap) (client_ip : string) :
    M RequestMeta :=
  request <- ask GenerateTraceId;;
  let inbound := trim <$> get_str headers "x-trace-id" in
  trace <- match inbound with
           | Some s => if is_empty s then ask GenerateTraceId else Done s
           | None => ask GenerateTraceId
           end;;
  let ip := resolve_real_ip h client_ip headers in
  t <- ask Now;;
  Done (mkMeta info request trace ip t).

Inductive PreFlight :=
| PfContinue (plugin_ctx : PluginContext) (plugins : list P) (route : RouteSnapshot) (node : UpstreamNodeDto)
| PfTerminate (code : Z) (body : Value) (headers : HeaderMap)
| PfWebSocketUpgrade (parts : Response) (upstream_addr : string) (route_id : Z).

(** The 101 answer of an upgrade, with the fields for the bridge. *)
Definition upgrade_parts (route : RouteSnapshot) (node : UpstreamNodeDto) (headers : HeaderMap) (trace : string) : Response :=
  let resp := build_upgrade_response headers in
  let hs := insert_text (rs_headers resp) "X-WS-Upstream-Addr" (n_address node) in
  let hs := insert_text hs "X-WS-Host-Header" (host_value route node) in
  let hs := if s_ws_strip_sensitive_headers route then insert_text hs "X-WS-Strip-Sensitive" "1" else hs in
  mkResponse (rs_status resp) (insert_text hs "X-WS-Trace-Id" trace) (rs_body resp).

Definition initial_context (meta : RequestMeta) (method : string) (headers : HeaderMap) (body : option string)
    (route : RouteSnapshot) : PluginContext :=
  mkContext (request_id meta) (trace_id meta) (s_id route) (real_ip meta) Http
    (Some (mkHttpContext method (mi_path (match_info meta))
             (foldl (λ m kv, <[kv.1 := kv.2]> m) ∅ (mi_query_params (match_info meta))) headers body))
    None hm_empty.

Definition preflight (h : HttpProtocolHandler) (meta : RequestMeta) (method : string) (headers : HeaderMap)
    (plugin_body : option string) (route : RouteSnapshot) : M (result PreFlight ConrogateError) :=
  plugins <- ask (RoutePlugins (s_id route));;
  '(ctx, outcome) <- ask (BeforeRequest (initial_context meta method headers plugin_body route) plugins);;
  match outcome with
  | Err e => Done (Err e)
  | Ok (Terminate code body) => Done (Ok (PfTerminate code body (pc_response_headers ctx)))
  | Ok Continue =>
      limited <- ask (CheckRateLimit (s_id route) (real_ip meta));;
      match limited with
      | Err e =>
          utc <- ask UtcNow;;
          ask (RecordEvent (refusal_event utc "rate_limited" route None meta e));;;
          record_terminal_metric h route meta false false true false 0 0;;;
          Done (Err e)
      | Ok _ =>
          node <-? ask (SelectUpstream route (Some (real_ip meta)));;
          broken <- ask (CheckBreaker (s_id route) (n_id node));;
          match broken with
          | Err e =>
              record_terminal_metric h route meta false false false true 0 0;;;
              utc <- ask UtcNow;;
              ask (RecordEvent (refusal_event utc "circuit_breaker_open" route (Some (n_id node)) meta e));;;
              Done (Err e)
          | Ok _ =>
              if is_upgrade_request method headers
              then Done (Ok (PfWebSocketUpgrade (upgrade_parts route node headers (trace_id meta)) (n_address node) (s_id route)))
              else Done (Ok (PfContinue ctx plugins route node))
          end
      end
  end.

(** ** Forwarding *)

Record ProxyResult (Body : Type) := mkProxyResult { px_status : Z; px_headers : HeaderMap; px_body : Body }.
Arguments mkProxyResult {Body}.
Arguments px_status {Body}.
Arguments px_headers {Body}.
Arguments px_body {Body}.

(** [forward_common]: the target is made anew from the node and the path of the
    request; timeouts are part of the exchange. *)
Definition forward_common (node : UpstreamNodeDto) (req : UpstreamRequest) (t : Z) :
    M (result (Z * HeaderMap * result string string) ConrogateError) :=
  match uri_parse (upstream_addr node +:+ default "/"%string (uri_path_and_query (uq_uri req))) with
  | Err m => Done (Err (uri_failed m))
  | Ok u =>
      x <- ask (Exchange node (mkUpstreamRequest (uq_method req) u (uq_headers req) (uq_body req)) t);;
      Done (match x with
            | NoAnswer => Err UpstreamTimeout
            | ConnectError m => Err (UpstreamConnectFailed m)
            | Head status hs body => Ok (status, hs, body)
            end)
  end.

(** [forward_http] collects the body, [forward_http_stream] does not. *)
Definition forward_http (node : UpstreamNodeDto) (req : UpstreamRequest) (t : Z) :
    M (result (ProxyResult string) ConrogateError) :=
  head <-? forward_common node req t;;
  let '(status, hs, body) := head in
  Done (match body with
        | Ok bytes => Ok (mkProxyResult status hs bytes)
        | Err m => Err (UpstreamBadResponse m)
        end).

Definition forward_http_stream (node : UpstreamNodeDto) (req : UpstreamRequest) (t : Z) :
    M (result (ProxyResult (result string string)) ConrogateError) :=
  head <-? forward_common node req t;;
  let '(status, hs, body) := head in Done (Ok (mkProxyResult status hs body)).

(** [(1u64 << attempt) * 10 + jitter(50)] milliseconds. *)
Definition retry_pause (attempt jitter : Z) : Z :=
  from_millis (u64_wrap (u64_wrap (u64_wrap (Z.shiftl 1 (attempt mod 64)) * 10) + jitter)).

Definition retryable (e : ConrogateError) : bool :=
  match e with UpstreamTimeout | UpstreamConnectFailed _ => true | _ => false end.

(** Whether an answer is worth another attempt. *)
Definition again (r : result (ProxyResult string) ConrogateError) : bool :=
  match r with Ok p => 500 <=? px_status p | Err e => retryable e end.

(** What precedes an attempt: whether the loop goes on. *)
Definition before_attempt (h : HttpProtocolHandler) (can_retry : bool) (attempt : Z) : M bool :=
  if 0 <? attempt then
    if negb can_retry then Done false
    else
      granted <- (if retry_budget h then r <- ask TryConsume;; Done (is_ok r) else Done true);;
      if negb granted then Done false
      else j <- ask (Jitter 50);; ask (Sleep (retry_pause attempt j));;; Done true
  else if retry_budget h then ask RecordRequest;;; Done true
  else Done true.

(** The loop over the attempts, with [left] of them to go. *)
Fixpoint attempts (h : HttpProtocolHandler) (can_retry : bool) (node : UpstreamNodeDto) (req : UpstreamRequest)
    (left : nat) (attempt : Z) (last : result (ProxyResult string) ConrogateError) :
    M (result (ProxyResult string) ConrogateError) :=
  match left with
  | O => Done last
  | S l =>
      go <- before_attempt h can_retry attempt;;
      if negb go then Done last
      else
        r <- forward_http node req (timeout h);;
        if again r && can_retry && (attempt <? max_retries h)
        then attempts h can_retry node req l (attempt + 1) r
        else Done r
  end.

Definition record_outcome (route : RouteSnapshot) (node : UpstreamNodeDto) (success : bool) : M unit :=
  ask (RecordResult (s_id route) (n_id node) success);;;
  ask (ReleaseNode route node).

(** [finalize_response]. *)
Definition finalize_response (h : HttpProtocolHandler) (ctx : PluginContext) (plugins : list P) (route : RouteSnapshot)
    (status : Z) (headers : HeaderMap) (resp_body : RespBody) (after_body : string) (meta : RequestMeta) (bytes_in : Z) :
    M (result Response ConrogateError) :=
  let bytes_out := Z.of_nat (String.length after_body) in
  '(_, resp, r) <- ask (AfterResponse ctx (mkPluginResponse status headers after_body) plugins);;
  match r with
  | Err e => Done (Err e)
  | Ok _ =>
      let hs := insert_text (pr_headers resp) "x-trace-id" (trace_id meta) in
      let hs := insert_text hs "x-request-id" (request_id meta) in
      let is2 := (status =? 101) || ((200 <=? status) && (status <? 300)) in
      let is3 := (300 <=? status) && (status <? 400) in
      let is4 := (400 <=? status) && (status <? 500) in
      record_terminal_metric h route meta is2 is3 is4 (500 <=? status) bytes_in bytes_out;;;
      Done (Ok (mkResponse status hs resp_body))
  end.

(** ** The handlers *)

Record Request := mkRequest { rq_method : string; rq_uri : Uri; rq_headers : HeaderMap; rq_body : string }.

(** The answer of a plugin that ends the request. *)
Definition terminate_response (meta : RequestMeta) (code : Z) (body : Value) (headers : HeaderMap) : Response :=
  mkResponse code
    (foldl (λ hs kv, hm_append hs kv.1 kv.2) (append_text hm_empty "x-trace-id" (trace_id meta)) (hm_entries headers))
    (Json body).

(** The request to the upstream, made from the headers the plugins left. *)
Definition upstream_request (req : Request) (meta : RequestMeta) (ctx : PluginContext) (route : RouteSnapshot)
    (node : UpstreamNodeDto) (uri : Uri) (body : RespBody) : UpstreamRequest :=
  let effective := from_option hc_headers (rq_headers req) (pc_http ctx) in
  mkUpstreamRequest (rq_method req) uri
    (build_out_headers route node effective (trace_id meta) (request_id meta) (real_ip meta)) body.

Definition is_idempotent (method : string) : bool := bool_decide (method ∈ ["GET"; "HEAD"; "OPTIONS"]%string).

(** After the forwarding: feedback, release, and the telemetry of a failure. *)
Definition settle (h : HttpProtocolHandler) (meta : RequestMeta) (route : RouteSnapshot) (node : UpstreamNodeDto)
    {A} (r : result A ConrogateError) : M (result A ConrogateError) :=
  record_outcome route node (is_ok r);;;
  match r with
  | Ok _ => Done r
  | Err e =>
      record_terminal_metric h route meta false false false true 0 0;;;
      record_upstream_failed_event route node meta e;;;
      Done r
  end.

(** The [Continue] branch of [handle]. *)
Definition forward_buffered (h : HttpProtocolHandler) (req : Request) (meta : RequestMeta) (ctx : PluginContext)
    (plugins : list P) (route : RouteSnapshot) (node : UpstreamNodeDto) : M (result Response ConrogateError) :=
  uri <-? Done (build_upstream_uri node (rq_uri req));;
  let can_retry := is_idempotent (rq_method req) || s_allow_retry_non_idempotent route in
  let uq := upstream_request req meta ctx route node uri (Raw (rq_body req)) in
  r <- attempts h can_retry node uq (Z.to_nat (max_retries h + 1)) 0 (Err (UpstreamConnectFailed "no attempt"));;
  pr <-? settle h meta route node r;;
  finalize_response h ctx plugins route (px_status pr) (px_headers pr) (Raw (px_body pr)) (px_body pr) meta
    (Z.of_nat (String.length (rq_body req))).

(** The [Continue] branch of [handle_stream]: one attempt. *)
Definition forward_streamed (h : HttpProtocolHandler) (req : Request) (meta : RequestMeta) (ctx : PluginContext)
    (plugins : list P) (route : RouteSnapshot) (node : UpstreamNodeDto) : M (result Response ConrogateError) :=
  uri <-? Done (build_upstream_uri node (rq_uri req));;
  let uq := upstream_request req meta ctx route node uri (Stream (Ok (rq_body req))) in
  r <- forward_http_stream node uq (timeout h);;
  pr <-? settle h meta route node r;;
  finalize_response h ctx plugins route (px_status pr) (px_headers pr) (Stream (px_body pr)) "" meta 0.

(** What follows the preflight. *)
Definition after_preflight (h : HttpProtocolHandler) (req : Request) (meta : RequestMeta)
    (forward : PluginContext → list P → RouteSnapshot → UpstreamNodeDto → M (result Response ConrogateError))
    (pf : PreFlight) : M (result Response ConrogateError) :=
  match pf with
  | PfTerminate code body headers => Done (Ok (terminate_response meta code body headers))
  | PfWebSocketUpgrade parts addr route =>
      record_ws_metric h route meta;;;
      Done (Ok (mkResponse (rs_status parts) (rs_headers parts) (Raw "")))
  | PfContinue ctx plugins route node => forward ctx plugins route node
  end.

(** [handle]: the buffered mode. *)
Definition handle (h : HttpProtocolHandler) (req : Request) (client_ip : string) (info : RouteMatchInfo)
    (pre_matched : option RouteSnapshot) : M (result Response ConrogateError) :=
  meta <- build_request_meta h info (rq_headers req) client_ip;;
  blocked <- ask (IsBlocked (real_ip meta));;
  if (blocked : bool) then Done (Ok (blacklist_response (trace_id meta)))
  else
    route <-? match pre_matched with
              | Some route => Done (Ok route)
              | None =>
                  found <-? ask (LookupRoute Http (match_info meta));;
                  Done (match found with Some r => Ok r | None => Err (RouteNotFound (mi_path (match_info meta))) end)
              end;;
    pf <-? preflight h meta (rq_method req) (rq_headers req) (Some (rq_body req)) route;;
    after_preflight h req meta (forward_buffered h req meta) pf.

(** [handle_stream]: the route is matched already. *)
Definition handle_stream (h : HttpProtocolHandler) (req : Request) (route : RouteSnapshot) (client_ip : string)
    (info : RouteMatchInfo) : M (result Response ConrogateError) :=
  meta <- build_request_meta h info (rq_headers req) client_ip;;
  blocked <- ask (IsBlocked (real_ip meta));;
  if (blocked : bool) then Done (Ok (blacklist_response (trace_id meta)))
  else
    pf <-? preflight h meta (rq_method req) (rq_headers req) None route;;
    after_preflight h req meta (forward_streamed h req meta) pf.

(** ** What a trace shows *)

Abbreviation trace := (list (Effects.event ans)).

Definition exchange_of (e : Effects.event ans) : option (UpstreamNodeDto * UpstreamRequest * exchange) :=
  match e with
  | existT c x =>
      match c return ans c → option (UpstreamNodeDto * UpstreamRequest * exchange) with
      | Exchange n q _ => λ x, Some (n, q, x)
      | _ => λ _, None
      end x
  end.

Definition consume_of (e : Effects.event ans) : option (result unit ConrogateError) :=
  match e with
  | existT c x => match c return ans c → option (result unit ConrogateError) with TryConsume => λ x, Some x | _ => λ _, None end x
  end.

Definition blocked_of (e : Effects.event ans) : option (string * bool) :=
  match e with
  | existT c x => match c return ans c → option (string * bool) with IsBlocked ip => λ x, Some (ip, x) | _ => λ _, None end x
  end.

Definition before_of (e : Effects.event ans) : option (result (PluginOutcome Value) ConrogateError) :=
  match e with
  | existT c x =>
      match c return ans c → option (result (PluginOutcome Value) ConrogateError) with
      | BeforeRequest _ _ => λ x, Some x.2
      | _ => λ _, None
      end x
  end.

Definition rate_of (e : Effects.event ans) : option (Z * string * result unit ConrogateError) :=
  match e with
  | existT c x =>
      match c return ans c → option (Z * string * result unit ConrogateError) with
      | CheckRateLimit r ip => λ x, Some (r, ip, x)
      | _ => λ _, None
      end x
  end.

Definition select_of (e : Effects.event ans) : option (RouteSnapshot * option string * result UpstreamNodeDto ConrogateError) :=
  match e with
  | existT c x =>
      match c return ans c → option (RouteSnapshot * option string * result UpstreamNodeDto ConrogateError) with
      | SelectUpstream r k => λ x, Some (r, k, x)
      | _ => λ _, None
      end x
  end.

Definition breaker_of (e : Effects.event ans) : option (Z * Z * result unit ConrogateError) :=
  match e with
  | existT c x =>
      match c return ans c → option (Z * Z * result unit ConrogateError) with
      | CheckBreaker r n => λ x, Some (r, n, x)
      | _ => λ _, None
      end x
  end.

Definition result_of (e : Effects.event ans) : option (Z * Z * bool) :=
  match call_of e with RecordResult r n b => Some (r, n, b) | _ => None end.
Definition release_of (e : Effects.event ans) : option (RouteSnapshot * UpstreamNodeDto) :=
  match call_of e with ReleaseNode r n => Some (r, n) | _ => None end.

Definition exchanges (tr : trace) := observe exchange_of tr.
Definition grants (tr : trace) : nat := length (List.filter is_ok (observe consume_of tr)).

Lemma exchanges_app tr1 tr2 : exchanges (tr1 ++ tr2) = exchanges tr1 ++ exchanges tr2.
Proof. apply observe_app. Qed.

Lemma grants_app tr1 tr2 : grants (tr1 ++ tr2) = (grants tr1 + grants tr2)%nat.
Proof. unfold grants. by rewrite observe_app, List.filter_app, length_app. Qed.

(** ** The attempts *)

(** An answer after which the code may try again. *)
Definition worth_retrying (x : exchange) : bool :=
  match x with
  | NoAnswer | ConnectError _ => true
  | Head s _ (Ok _) => 500 <=? s
  | Head _ _ (Err _) => false
  end.

(** The request that goes out for [req] to [node]. *)
Definition sent (node : UpstreamNodeDto) (req : UpstreamRequest) (x : UpstreamNodeDto * UpstreamRequest * exchange) : Prop :=
  x.1.1 = node ∧ uq_method x.1.2 = uq_method req ∧ uq_headers x.1.2 = uq_headers req ∧ uq_body x.1.2 = uq_body req.

Lemma forward_http_runs node req t tr r :
  runs (forward_http node req t) tr r →
  grants tr = 0%nat ∧
  (exchanges tr = [] ∨ ∃ x, exchanges tr = [x] ∧ sent node req x ∧ again r = worth_retrying x.2).
Proof.
  unfold forward_http, forward_common. destruct (uri_parse _) as [u|m]; simpl.
  - intros (x & tr' & -> & H). destruct x as [|msg|s hs [b|e]]; destruct H as [-> ->];
      (split; [done|right; eexists; split; [reflexivity|]; split; [done|reflexivity]]).
  - intros [-> ->]. by split; [|left].
Qed.

Lemma before_attempt_runs h can_retry attempt tr go :
  runs (before_attempt h can_retry attempt) tr go →
  exchanges tr = [] ∧
  (go = true → 0 < attempt → can_retry = true ∧ (retry_budget h = true → grants tr = 1%nat)).
Proof.
  unfold before_attempt. destruct (Z.ltb_spec 0 attempt) as [Ha|Ha]; cycle 1.
  { destruct (retry_budget h); simpl; [intros (x & tr' & -> & -> & ->)|intros [-> ->]]; (split; [done|lia]). }
  destruct can_retry; simpl; [|by intros [-> ->]].
  destruct (retry_budget h); simpl.
  - intros (x & tr' & -> & H). destruct x as [[]|e]; simpl in H; [|by destruct H as [-> ->]].
    destruct H as (j & tr2 & -> & [] & tr3 & -> & -> & ->). by split.
  - intros (j & tr2 & -> & [] & tr3 & -> & -> & ->). by split.
Qed.

(** The status of an answered exchange. *)
Definition head_status (x : exchange) : option Z := match x with Head s _ _ => Some s | _ => None end.

(** The last exchange of a trace had the status [s]. *)
Definition answered_with (tr : trace) (s : Z) : Prop := ∃ x, last (exchanges tr) = Some x ∧ head_status x.2 = Some s.

Lemma answered_with_app tr1 tr2 s :
  answered_with (tr1 ++ tr2) s ↔ answered_with tr2 s ∨ (exchanges tr2 = [] ∧ answered_with tr1 s).
Proof.
  unfold answered_with. rewrite exchanges_app. destruct (exchanges tr2) as [|y l] eqn:E using rev_ind.
  - rewrite app_nil_r. split; [by right|]. intros [(x & H & _)|[_ H]]; [done|exact H].
  - rewrite app_assoc, !last_snoc. split; [by left|]. intros [H|[H _]]; [exact H|by destruct l].
Qed.

Lemma forward_http_answer node req t tr r p :
  runs (forward_http node req t) tr r → r = Ok p → answered_with tr (px_status p).
Proof.
  unfold forward_http, forward_common. destruct (uri_parse _) as [u|m]; simpl; [|by intros [-> ->]].
  intros (x & tr' & -> & H) ->. destruct x as [|msg|s hs [b|e]]; destruct H as [-> E]; simplify_eq; by eexists.
Qed.

(** The first attempt needs no grant. *)
Definition first_attempt (attempt : Z) : nat := if attempt =? 0 then 1 else 0.

Lemma attempts_runs h can_retry node req left attempt last tr r :
  0 <= attempt →
  runs (attempts h can_retry node req left attempt last) tr r →
  (length (exchanges tr) <= left)%nat ∧
  (can_retry = false → (length (exchanges tr) <= first_attempt attempt)%nat) ∧
  (retry_budget h = true → (length (exchanges tr) <= first_attempt attempt + grants tr)%nat) ∧
  Forall (sent node req) (exchanges tr) ∧
  Forall (λ x, worth_retrying x.2 = true) (removelast (exchanges tr)).
Proof.
  unfold first_attempt. revert attempt last tr. induction left as [|left IH]; intros attempt last tr Ha; simpl.
  { intros [-> ->]. simpl. split_and!; try lia; constructor. }
  intros (tr1 & go & tr2 & -> & [He Hgo]%before_attempt_runs & H)%runs_bind.
  rewrite exchanges_app, grants_app, He. simpl app. destruct go; simpl in H; cycle 1.
  { destruct H as [-> ->]. simpl. split_and!; try lia; constructor. }
  apply runs_bind in H as (tr3 & r1 & tr4 & -> & [Hg3 Hx]%forward_http_runs & H).
  rewrite exchanges_app, grants_app, Hg3.
  assert (∃ tl, exchanges tr4 = tl ∧ (tl = [] ∨ again r1 = true ∧ can_retry = true) ∧
    (length tl <= left)%nat ∧ (can_retry = false → tl = []) ∧
    (retry_budget h = true → (length tl <= grants tr4)%nat) ∧
    Forall (sent node req) tl ∧ Forall (λ x, worth_retrying x.2 = true) (removelast tl)) as (tl & -> & Htl & H1 & H2 & H3 & H4 & H5).
  { destruct (again r1 && can_retry && (attempt <? max_retries h)) eqn:Eg; cycle 1.
    { destruct H as [-> ->]. exists []. split_and!; [done|by left|simpl; lia|done|simpl; lia|done|done]. }
    apply andb_true_iff in Eg as [[Hag Hcr]%andb_true_iff _].
    apply IH in H as (I1 & I2 & I3 & I4 & I5); [|lia]. rewrite (proj2 (Z.eqb_neq (attempt + 1) 0)) in * by lia.
    eexists. split; [reflexivity|]. split_and!; [by right|done|congruence|done|done|done]. }
  assert (retry_budget h = true → attempt =? 0 = false → grants tr1 = 1%nat) as Hb1.
  { intros Hb Hz%Z.eqb_neq. by apply (proj2 (Hgo eq_refl ltac:(lia))). }
  assert (can_retry = false → attempt =? 0 = true) as Hc0.
  { intros Hc. apply Z.eqb_eq. destruct (decide (attempt = 0)); [done|]. destruct (Hgo eq_refl ltac:(lia)). congruence. }
  destruct Hx as [->|(x & -> & Hs & Hw)]; simpl.
  - split_and!; [lia|intros Hc; rewrite (H2 Hc); simpl; lia|intros Hb; specialize (H3 Hb); lia|done|done].
  - split_and!; [lia|intros Hc; rewrite (H2 Hc), (Hc0 Hc); simpl; lia| |by constructor|].
    + intros Hb. specialize (H3 Hb). specialize (Hb1 Hb). destruct (attempt =? 0); [lia|]. rewrite Hb1 by done. lia.
    + destruct tl as [|y tl]; [constructor|]. constructor; [|done]. rewrite <-Hw. destruct Htl as [|[? _]]; [done|done].
Qed.

(** A response that comes out of the loop is the answer of the last exchange. *)
Lemma attempts_answer h can_retry node req left attempt last tr r p :
  runs (attempts h can_retry node req left attempt last) tr r → r = Ok p →
  answered_with tr (px_status p) ∨ (exchanges tr = [] ∧ last = Ok p).
Proof.
  intros H ->. revert attempt last tr H. induction left as [|left IH]; intros attempt last tr; simpl.
  { intros [-> <-]. by right. }
  intros (tr1 & go & tr2 & -> & [He _]%before_attempt_runs & H)%runs_bind.
  rewrite answered_with_app, exchanges_app, He. destruct go; simpl in H; [|destruct H as [-> <-]; by right].
  apply runs_bind in H as (tr3 & r1 & tr4 & -> & H3 & H). left. left. rewrite answered_with_app.
  destruct (again r1 && can_retry && (attempt <? max_retries h)).
  - apply IH in H as [H|[E ->]]; [by left|]. right. split; [done|]. by eapply forward_http_answer.
  - destruct H as [-> <-]. right. split; [done|]. by eapply forward_http_answer.
Qed.

(** ** The life of a request *)

(** Calls that only read clocks, make ids, wait or report telemetry. *)
Definition housekeeping (c : call) : bool :=
  match c with
  | GenerateTraceId | Now | UtcNow | Jitter _ | Sleep _ | RecordMetric _ | RecordEvent _ | RecordRequest => true
  | _ => false
  end.

(** The calls of a trace that look up, decide, feed back or send, in their order. *)
Definition essential (tr : trace) : trace := List.filter (λ e, negb (housekeeping (call_of e))) tr.

Lemma essential_app tr1 tr2 : essential (tr1 ++ tr2) = essential tr1 ++ essential tr2.
Proof. apply List.filter_app. Qed.

(** The gates a request has passed, after its plugins, when a node may serve it. *)
Definition gates (ip : string) (route : RouteSnapshot) (node : UpstreamNodeDto) : trace :=
  [existT (CheckRateLimit (s_id route) ip) (Ok tt); existT (SelectUpstream route (Some ip)) (Ok node);
   existT (CheckBreaker (s_id route) (n_id node)) (Ok tt)].

(** One of the calls of the retry loop. *)
Definition try_call (node : UpstreamNodeDto) (e : Effects.event ans) : Prop :=
  match call_of e with TryConsume => True | Exchange n _ _ => n = node | _ => False end.

(** What follows the release of the node, and the answer [r] to the client: when the
    attempts [l] were reported as [ok], the plugins [ps] see the response, whose status
    is that of the last exchange, and the client is answered with it or with the error
    of a plugin; when they failed, no plugin is asked and an error is answered. *)
Definition ending (ctx : PluginContext) (ps : list P) (l : trace) (ok : bool) (after : trace) (r : result Response ConrogateError) :
    Prop :=
  if ok then
    ∃ resp x, after = [existT (AfterResponse ctx resp ps) x] ∧ answered_with l (pr_status resp) ∧
      match r with Ok answer => x.2 = Ok tt ∧ rs_status answer = pr_status resp | Err e => x.2 = Err e end
  else after = [] ∧ ∃ e, r = Err e.

(** How the route of a request is found: a route that the caller [given] matched is
    taken as it is, otherwise the routes are asked. *)
Definition lookup (given : option RouteSnapshot) (info : RouteMatchInfo) (route : RouteSnapshot) : trace :=
  match given with Some _ => [] | None => [existT (LookupRoute Http info) (Ok (Some route))] end.
Definition chosen (given : option RouteSnapshot) (route : RouteSnapshot) : Prop := from_option (eq route) True given.
Definition unrouted (info : RouteMatchInfo) (x : result (option RouteSnapshot) ConrogateError) : option ConrogateError :=
  match x with Err e => Some e | Ok None => Some (RouteNotFound (mi_path info)) | Ok (Some _) => None end.

(** The lives of a request [req] of the client [ip] on the route [route] once its
    plugins [ps] have answered [outcome], with what the client is answered, when
    [tries] tells what the attempts may look like. *)
Inductive routed_life (req : Request) (ip : string) (tries : RouteSnapshot → PluginContext → UpstreamNodeDto → trace → Prop)
    (route : RouteSnapshot) (ps : list P) (ctx : PluginContext) :
    result (PluginOutcome Value) ConrogateError → trace → result Response ConrogateError → Prop :=
| life_plugin_failed e : routed_life req ip tries route ps ctx (Err e) [] (Err e)
| life_terminated code b resp : rs_status resp = code → routed_life req ip tries route ps ctx (Ok (Terminate code b)) [] (Ok resp)
| life_limited e :
    routed_life req ip tries route ps ctx (Ok Continue) [existT (CheckRateLimit (s_id route) ip) (Err e)] (Err e)
| life_no_node e :
    routed_life req ip tries route ps ctx (Ok Continue)
      [existT (CheckRateLimit (s_id route) ip) (Ok tt); existT (SelectUpstream route (Some ip)) (Err e)] (Err e)
| life_broken node e :
    routed_life req ip tries route ps ctx (Ok Continue)
      [existT (CheckRateLimit (s_id route) ip) (Ok tt); existT (SelectUpstream route (Some ip)) (Ok node);
       existT (CheckBreaker (s_id route) (n_id node)) (Err e)] (Err e)
| life_upgraded node resp :
    is_upgrade_request (rq_method req) (rq_headers req) = true → rs_status resp = 101 →
    routed_life req ip tries route ps ctx (Ok Continue) (gates ip route node) (Ok resp)
| life_no_target node e :
    build_upstream_uri node (rq_uri req) = Err e →
    routed_life req ip tries route ps ctx (Ok Continue) (gates ip route node) (Err e)
| life_served node l ok after r :
    tries route ctx node l → ending ctx ps l ok after r →
    routed_life req ip tries route ps ctx (Ok Continue)
      (gates ip route node ++ l ++ [existT (RecordResult (s_id route) (n_id node) ok) tt; existT (ReleaseNode route node) tt] ++ after) r.

(** What the plugins of a route are asked first: the request as the client sent it. *)
Definition opening (req : Request) (ip : string) (info : RouteMatchInfo) (body : option string) (route : RouteSnapshot)
    (ctx0 : PluginContext) : Prop :=
  ∃ meta, real_ip meta = ip ∧ match_info meta = info ∧ ctx0 = initial_context meta (rq_method req) (rq_headers req) body route.

(** The lives a request can have from its arrival on. *)
Inductive lifecycle (req : Request) (ip : string) (info : RouteMatchInfo) (given : option RouteSnapshot) (body : option string)
    (tries : RouteSnapshot → PluginContext → UpstreamNodeDto → trace → Prop) : trace → result Response ConrogateError → Prop :=
| life_blocked resp : rs_status resp = 403 → lifecycle req ip info given body tries [existT (IsBlocked ip) true] (Ok resp)
| life_unrouted x e : given = None → unrouted info x = Some e →
    lifecycle req ip info given body tries [existT (IsBlocked ip) false; existT (LookupRoute Http info) x] (Err e)
| life_routed route ps ctx0 ctx outcome l r :
    chosen given route → opening req ip info body route ctx0 → routed_life req ip tries route ps ctx outcome l r →
    lifecycle req ip info given body tries
      (existT (IsBlocked ip) false :: lookup given info route ++
       existT (RoutePlugins (s_id route)) ps :: existT (BeforeRequest ctx0 ps) (ctx, outcome) :: l) r.

(** Goes through the calls of a straight-line run. *)
Ltac peel H :=
  repeat match type of H with
  | ∃ _, _ => destruct H as [? H]
  | _ ∧ _ => let E := fresh in destruct H as [E H]; try subst
  end; try subst; simpl.

Lemma record_sample_runs h meta route s2 s3 s4 s5 sess bi bo tr u :
  runs (record_sample h meta route s2 s3 s4 s5 sess bi bo) tr u → essential tr = [].
Proof. simpl. intros H. by peel H. Qed.

Lemma build_request_meta_runs h info headers client_ip tr meta :
  runs (build_request_meta h info headers client_ip) tr meta →
  essential tr = [] ∧ real_ip meta = resolve_real_ip h client_ip headers ∧ match_info meta = info.
Proof.
  unfold build_request_meta. simpl. intros (request & tr' & -> & H).
  destruct (trim <$> get_str headers "x-trace-id") as [s|]; [destruct (is_empty s)|]; simpl in H.
  all: by peel H.
Qed.

(** What the preflight does after the route is found, and with which answer. *)
Lemma preflight_runs h meta req body route tries tr r :
  runs (preflight h meta (rq_method req) (rq_headers req) body route) tr r →
  ∃ ps ctx outcome l,
    essential tr = existT (RoutePlugins (s_id route)) ps ::
      existT (BeforeRequest (initial_context meta (rq_method req) (rq_headers req) body route) ps) (ctx, outcome) :: l ∧
    match r with
    | Ok (PfContinue ctx' ps' route' node) =>
        ctx' = ctx ∧ ps' = ps ∧ route' = route ∧ outcome = Ok Continue ∧ l = gates (real_ip meta) route node
    | Ok (PfWebSocketUpgrade parts _ _) =>
        is_upgrade_request (rq_method req) (rq_headers req) = true ∧ rs_status parts = 101 ∧ outcome = Ok Continue ∧
        ∃ node, l = gates (real_ip meta) route node
    | Ok (PfTerminate code b hs) =>
        ∀ resp, rs_status resp = code → routed_life req (real_ip meta) tries route ps ctx outcome l (Ok resp)
    | Err e => routed_life req (real_ip meta) tries route ps ctx outcome l (Err e)
    end.
Proof.
  unfold preflight. simpl. intros (ps & tr1 & -> & [ctx outcome] & tr2 & -> & H). exists ps, ctx, outcome. simpl.
  destruct outcome as [[|code b]|e]; simpl in H; cycle 1.
  { destruct H as [-> ->]. eexists. split; [done|]. intros resp Hr. by constructor. }
  { destruct H as [-> ->]. eexists. split; [done|]. by constructor. }
  destruct H as ([[]|e] & tr3 & -> & H); cycle 1.
  { simpl in H. peel H. eexists. split; [done|]. by constructor. }
  unfold bind_ok in H. simpl in H. destruct H as ([node|e] & tr4 & -> & H); cycle 1.
  { destruct H as [-> ->]. eexists. split; [done|]. by constructor. }
  simpl in H. destruct H as ([[]|e] & tr5 & -> & H); cycle 1.
  { simpl in H. peel H. eexists. split; [done|]. by constructor. }
  destruct (is_upgrade_request (rq_method req) (rq_headers req)); destruct H as [-> ->]; simpl.
  - eexists. split; [done|]. split_and!; [done..|]. by eexists.
  - eexists. by split.
Qed.

Lemma before_attempt_essential h can_retry attempt node tr go :
  runs (before_attempt h can_retry attempt) tr go → Forall (try_call node) (essential tr).
Proof.
  unfold before_attempt. intros H.
  destruct (0 <? attempt), can_retry, (retry_budget h); simpl in H; try (by peel H).
  destruct H as ([[]|e] & tr' & -> & H); simpl in H; peel H; by repeat constructor.
Qed.

Lemma forward_common_essential node req t tr r :
  runs (forward_common node req t) tr r → Forall (try_call node) (essential tr).
Proof.
  unfold forward_common. intros H. destruct (uri_parse _); simpl in H; peel H; by repeat constructor.
Qed.

Lemma forward_http_essential node req t tr r :
  runs (forward_http node req t) tr r → Forall (try_call node) (essential tr).
Proof.
  intros [(e & -> & H%forward_common_essential)|(tr1 & [[st hs] body] & tr2 & -> & H & [-> ->])]%runs_bind_ok; [done|].
  rewrite app_nil_r. by apply forward_common_essential in H.
Qed.

Lemma attempts_essential h can_retry node req left attempt last tr r :
  runs (attempts h can_retry node req left attempt last) tr r → Forall (try_call node) (essential tr).
Proof.
  revert attempt last tr. induction left as [|left IH]; intros attempt last tr; simpl.
  { by intros [-> ->]. }
  intros (tr1 & go & tr2 & -> & H1%(before_attempt_essential _ _ _ node) & H)%runs_bind.
  rewrite essential_app. apply Forall_app. split; [done|]. destruct go; simpl in H; [|by destruct H as [-> ->]].
  apply runs_bind in H as (tr3 & r1 & tr4 & -> & H3%forward_http_essential & H). rewrite essential_app.
  apply Forall_app. split; [done|].
  destruct (again r1 && can_retry && (attempt <? max_retries h)); [by eapply IH|by destruct H as [-> ->]].
Qed.

Lemma settle_runs h meta route node {A} (r : result A ConrogateError) tr r' :
  runs (settle h meta route node r) tr r' →
  r' = r ∧ essential tr = [existT (RecordResult (s_id route) (n_id node) (is_ok r)) tt; existT (ReleaseNode route node) tt].
Proof.
  unfold settle. simpl. intros ([] & tr1 & -> & [] & tr2 & -> & H). destruct r as [a|e].
  - by destruct H as [-> ->].
  - simpl in H. by peel H.
Qed.

Lemma finalize_runs h ctx ps route st hs rb ab meta bi tr r :
  runs (finalize_response h ctx ps route st hs rb ab meta bi) tr r →
  ∃ x, essential tr = [existT (AfterResponse ctx (mkPluginResponse st hs ab) ps) x] ∧
    match r with Ok answer => x.2 = Ok tt ∧ rs_status answer = st | Err e => x.2 = Err e end.
Proof.
  unfold finalize_response. simpl. intros ([[c resp] [[]|e]] & tr1 & -> & H); cycle 1.
  { destruct H as [-> ->]. by eexists. }
  simpl in H. peel H. by eexists.
Qed.

(** How a request that passed the gates ends. *)
Definition served (req : Request) (tries : trace → Prop) (route : RouteSnapshot) (ctx : PluginContext) (ps : list P)
    (node : UpstreamNodeDto) (tr : trace) (r : result Response ConrogateError) : Prop :=
  (∃ e, build_upstream_uri node (rq_uri req) = Err e ∧ tr = [] ∧ r = Err e) ∨
  ∃ l ok after, tries l ∧ ending ctx ps l ok after r ∧
    tr = l ++ [existT (RecordResult (s_id route) (n_id node) ok) tt; existT (ReleaseNode route node) tt] ++ after.

Lemma exchanges_essential tr : exchanges (essential tr) = exchanges tr.
Proof. by apply observe_filter; intros [[] x]. Qed.

Lemma grants_essential tr : grants (essential tr) = grants tr.
Proof. unfold grants. do 2 f_equal. by apply observe_filter; intros [[] x]. Qed.

(** Feedback, release and answer after the forwarding. *)
Lemma settled_runs h meta req ctx ps route node {A} (r : result A ConrogateError) (status : A → Z) (headers : A → HeaderMap)
    (body : A → RespBody) (after : A → string) bi tries tr1 tr2 x :
  tries (essential tr1) → (∀ p, r = Ok p → answered_with tr1 (status p)) →
  runs (bind_ok (settle h meta route node r)
          (λ p, finalize_response h ctx ps route (status p) (headers p) (body p) (after p) meta bi)) tr2 x →
  served req tries route ctx ps node (essential (tr1 ++ tr2)) x.
Proof.
  intros H1 Hr H. right. rewrite essential_app.
  apply runs_bind_ok in H as [(e & -> & [<- ->]%settle_runs)|(tr3 & p & tr4 & -> & [<- H3]%settle_runs & (y & H4 & Hy)%finalize_runs)].
  { exists (essential tr1), false, []. split_and!; [done|split; [done|by eexists]|by f_equal]. }
  rewrite essential_app, H3, H4. exists (essential tr1), true, [existT (AfterResponse ctx (mkPluginResponse (status p) (headers p) (after p)) ps) y].
  split_and!; [done| |done]. eexists _, y. split_and!; [done| |exact Hy].
  unfold answered_with. rewrite exchanges_essential. by apply Hr.
Qed.

(** The attempts of the buffered mode. *)
Definition tries_ok (h : HttpProtocolHandler) (can_retry : bool) (node : UpstreamNodeDto) (uq : UpstreamRequest) (l : trace) : Prop :=
  Forall (try_call node) l ∧
  (length (exchanges l) <= Z.to_nat (max_retries h + 1))%nat ∧
  (can_retry = false → (length (exchanges l) <= 1)%nat) ∧
  (retry_budget h = true → (length (exchanges l) <= 1 + grants l)%nat) ∧
  Forall (sent node uq) (exchanges l) ∧
  Forall (λ x, worth_retrying x.2 = true) (removelast (exchanges l)).

Definition can_retry_on (req : Request) (route : RouteSnapshot) : bool :=
  is_idempotent (rq_method req) || s_allow_retry_non_idempotent route.

(** What the two modes send for a request whose client is [ip]. *)
Definition buffered_tries (h : HttpProtocolHandler) (req : Request) (ip : string) (route : RouteSnapshot)
    (ctx : PluginContext) (node : UpstreamNodeDto) (l : trace) : Prop :=
  ∃ meta u, real_ip meta = ip ∧
    tries_ok h (can_retry_on req route) node (upstream_request req meta ctx route node u (Raw (rq_body req))) l.

Definition streamed_tries (req : Request) (ip : string) (route : RouteSnapshot)
    (ctx : PluginContext) (node : UpstreamNodeDto) (l : trace) : Prop :=
  ∃ meta u, real_ip meta = ip ∧ Forall (try_call node) l ∧ (length (exchanges l) <= 1)%nat ∧
    Forall (sent node (upstream_request req meta ctx route node u (Stream (Ok (rq_body req))))) (exchanges l).

Lemma forward_buffered_runs h req meta ctx ps route node tr r :
  runs (forward_buffered h req meta ctx ps route node) tr r →
  served req (buffered_tries h req (real_ip meta) route ctx node) route ctx ps node (essential tr) r.
Proof.
  unfold forward_buffered. destruct (build_upstream_uri node (rq_uri req)) as [u|e] eqn:Eu;
    [rewrite bind_ok_ok|rewrite bind_ok_err; intros [-> ->]; left; by exists e].
  intros (tr1 & r1 & tr2 & -> & H1 & H2)%runs_bind.
  apply (settled_runs h meta req ctx ps route node r1 px_status px_headers (λ p, Raw (px_body p)) px_body
    (Z.of_nat (String.length (rq_body req))) _ tr1 tr2 r); [| |done].
  - exists meta, u. split; [done|]. split; [by eapply attempts_essential|].
    rewrite exchanges_essential, grants_essential. by apply attempts_runs in H1.
  - intros p Hp. by destruct (attempts_answer _ _ _ _ _ _ _ _ _ _ H1 Hp) as [|[_ ?]].
Qed.

Lemma forward_streamed_runs h req meta ctx ps route node tr r :
  runs (forward_streamed h req meta ctx ps route node) tr r →
  served req (streamed_tries req (real_ip meta) route ctx node) route ctx ps node (essential tr) r.
Proof.
  unfold forward_streamed. destruct (build_upstream_uri node (rq_uri req)) as [u|e] eqn:Eu;
    [rewrite bind_ok_ok|rewrite bind_ok_err; intros [-> ->]; left; by exists e].
  intros (tr1 & r1 & tr2 & -> & H1 & H2)%runs_bind.
  set (uq := upstream_request _ _ _ _ _ _ _) in *. unfold forward_http_stream, forward_common in H1.
  apply (settled_runs h meta req ctx ps route node r1 px_status px_headers (λ p, Stream (px_body p)) (λ _, EmptyString) 0 _ tr1 tr2 r);
    [exists meta, u; split; [done|]; rewrite exchanges_essential| |done].
  all: destruct (uri_parse _) as [u'|m]; [destruct H1 as (x & tr' & -> & H1)|destruct H1 as [-> E1]].
  - assert (tr' = []) as -> by (by destruct x, H1).
    simpl. split_and!; [by repeat constructor|lia|by repeat constructor].
  - split_and!; [done|simpl; lia|done].
  - intros p ->. destruct x as [|msg|st hs b]; destruct H1 as [-> E]; simplify_eq. by eexists.
  - intros p ->. discriminate E1.
Qed.

(** The part both modes share: preflight, then forwarding. *)
Lemma served_runs h req meta info body given route forward tries tr r :
  chosen given route → match_info meta = info →
  (∀ ctx ps route node tr r, runs (forward ctx ps route node) tr r → served req (tries route ctx node) route ctx ps node (essential tr) r) →
  runs (bind_ok (preflight h meta (rq_method req) (rq_headers req) body route) (after_preflight h req meta forward)) tr r →
  lifecycle req (real_ip meta) info given body tries
    (existT (IsBlocked (real_ip meta)) false :: lookup given info route ++ essential tr) r.
Proof.
  intros Hg Hi Hf H.
  enough (∃ ps ctx outcome l, essential tr = existT (RoutePlugins (s_id route)) ps ::
      existT (BeforeRequest (initial_context meta (rq_method req) (rq_headers req) body route) ps) (ctx, outcome) :: l ∧
      routed_life req (real_ip meta) tries route ps ctx outcome l r) as (ps & ctx & outcome & l & -> & Hl).
  { apply life_routed; [done| |done]. by exists meta. }
  apply runs_bind_ok in H as [(e & -> & (ps & ctx & outcome & l & E & Hl)%(preflight_runs _ _ _ _ _ tries))|
    (tr1 & pf & tr2 & -> & (ps & ctx & outcome & l & E & Hl)%(preflight_runs _ _ _ _ _ tries) & H2)];
    [by exists ps, ctx, outcome, l|].
  rewrite essential_app, E. exists ps, ctx, outcome, (l ++ essential tr2). split; [done|].
  destruct pf as [ctx' ps' route' node|code b hs|parts addr rid]; cbn zeta iota beta in Hl; cbn [after_preflight] in H2.
  - destruct Hl as (-> & -> & -> & -> & ->).
    apply Hf in H2 as [(e & Hu & -> & ->)|(t & ok & after & Ht & Ha & ->)]; [rewrite app_nil_r; by apply life_no_target|by apply life_served].
  - destruct H2 as [-> ->]. rewrite app_nil_r. by apply Hl.
  - destruct Hl as (Hup & Hst & -> & node & ->). simpl in H2. peel H2. by apply life_upgraded.
Qed.

Lemma handle_runs h req client_ip info pre_matched tr r :
  let ip := resolve_real_ip h client_ip (rq_headers req) in
  runs (handle h req client_ip info pre_matched) tr r →
  lifecycle req ip info pre_matched (Some (rq_body req)) (buffered_tries h req ip) (essential tr) r.
Proof.
  cbv zeta. unfold handle. intros (tr1 & meta & tr2 & -> & (E1 & <- & E3)%build_request_meta_runs & H)%runs_bind.
  rewrite essential_app, E1. simpl app.
  destruct H as ([] & tr3 & -> & H); [destruct H as [-> ->]; by apply life_blocked|]. simpl essential. rewrite E3 in H.
  destruct pre_matched as [given|].
  { rewrite bind_ok_ok in H. apply (served_runs h req meta info _ (Some given) given (forward_buffered h req meta)); try done.
    apply forward_buffered_runs. }
  apply runs_bind_ok in H as [(e & -> & H)|(tr4 & rt & tr5 & -> & H4 & H5)].
  - unfold bind_ok in H. simpl in H.
    destruct H as ([[rt|]|e'] & tr6 & -> & H); destruct H as [-> E]; try discriminate E; by apply life_unrouted; simplify_eq.
  - unfold bind_ok in H4. simpl in H4. destruct H4 as ([[rt'|]|e'] & tr6 & -> & H4); destruct H4 as [-> E]; try discriminate E.
    injection E as <-. apply (served_runs h req meta info _ None rt (forward_buffered h req meta)); try done.
    apply forward_buffered_runs.
Qed.

Lemma handle_stream_runs h req route client_ip info tr r :
  let ip := resolve_real_ip h client_ip (rq_headers req) in
  runs (handle_stream h req route client_ip info) tr r →
  lifecycle req ip info (Some route) None (streamed_tries req ip) (essential tr) r.
Proof.
  cbv zeta. unfold handle_stream. intros (tr1 & meta & tr2 & -> & (E1 & <- & E3)%build_request_meta_runs & H)%runs_bind.
  rewrite essential_app, E1. simpl app.
  destruct H as ([] & tr3 & -> & H); [destruct H as [-> ->]; by apply life_blocked|]. simpl essential.
  apply (served_runs h req meta info None (Some route) route (forward_streamed h req meta)); try done.
  apply forward_streamed_runs.
Qed.

(** C1. The life of a request: whatever the services answer, a request lives one
    of the lives of [lifecycle], call by call. Its route is the one that the caller
    matched or that the routes answer for it; the plugins asked are those bound to
    that route, and they are asked about the request as the client sent it. So nothing
    is sent upstream unless the client is not blacklisted, a route was found, the
    plugins of that route let the request pass, its rate limits granted it, a node
    was selected for it and the breaker of that node lets it through, all for the
    resolved client address; a request that was sent reports one result and
    releases its node once, after the last attempt, and when it succeeded the same
    plugins see the response. The client is answered 403 when blacklisted, an error
    when no route is found, the plugin's status when a plugin ends the request, the
    refusal's own error when a gate refuses, 101 on an upgrade; any other response
    has the status of the last exchange, and its success was reported. (A node
    selected for a request that the breaker then refuses, that has no valid target,
    or that becomes a WebSocket tunnel, is not released.) *)
Theorem request_lifecycle h req client_ip info route pre_matched tr r :
  let ip := resolve_real_ip h client_ip (rq_headers req) in
  (runs (handle h req client_ip info pre_matched) tr r →
     lifecycle req ip info pre_matched (Some (rq_body req)) (buffered_tries h req ip) (essential tr) r) ∧
  (runs (handle_stream h req route client_ip info) tr r →
     lifecycle req ip info (Some route) None (streamed_tries req ip) (essential tr) r).
Proof. split; [apply handle_runs|apply handle_stream_runs]. Qed.

Lemma ending_quiet ctx ps l ok after r : ending ctx ps l ok after r → exchanges after = [] ∧ grants after = 0%nat.
Proof. destruct ok; [by intros (resp & x & -> & _)|by intros [-> _]]. Qed.

Lemma routed_exchanges req ip (tries : RouteSnapshot → PluginContext → UpstreamNodeDto → trace → Prop) route ps ctx outcome l r :
  routed_life req ip tries route ps ctx outcome l r →
  (exchanges l = [] ∧ grants l = 0%nat) ∨
  ∃ node t, tries route ctx node t ∧ exchanges l = exchanges t ∧ grants l = grants t ∧
    (route, Some ip, Ok node) ∈ observe select_of l.
Proof.
  intros [| | | | | | |node t ok after r' Ht [E1 E2]%ending_quiet]; try by left. right. exists node, t. split; [done|].
  rewrite !exchanges_app, !grants_app, E1, E2. split_and!; [apply app_nil_r|apply Nat.add_0_r|].
  rewrite observe_app. apply elem_of_app. left. by apply list_elem_of_here.
Qed.

Lemma lifecycle_exchanges req ip info given body (tries : RouteSnapshot → PluginContext → UpstreamNodeDto → trace → Prop) l r :
  lifecycle req ip info given body tries l r →
  (exchanges l = [] ∧ grants l = 0%nat) ∨
  ∃ route ctx node t, tries route ctx node t ∧ exchanges l = exchanges t ∧ grants l = grants t ∧
    (route, Some ip, Ok node) ∈ observe select_of l.
Proof.
  intros [| |route ps ctx0 ctx outcome t r' _ _ H%routed_exchanges]; [by left..|].
  assert (exchanges (lookup given info route) = [] ∧ grants (lookup given info route) = 0%nat ∧
    observe select_of (lookup given info route) = []) as (E1 & E2 & E3) by (by destruct given).
  change (existT (IsBlocked ip) false :: lookup given info route ++ ?t) with ([existT (IsBlocked ip) false] ++ lookup given info route ++ t).
  rewrite !exchanges_app, !grants_app, !observe_app, E1, E2, E3. destruct H as [H|(node & t' & H)]; [by left|].
  right. by exists route, ctx, node, t'.
Qed.

(** C4. Retries are bounded: whatever the services and the upstream answer, a
    buffered request is sent at most [max_retries + 1] times, with a retry budget
    at most once more than the budget granted, and more than once only if the
    method is idempotent or the selected route allows it; it is sent again only
    after a timeout, a connection failure or a status of 500 and above. A streamed
    request is sent at most once. *)
Theorem attempts_bounded h req client_ip info route pre_matched tr r :
  let ip := resolve_real_ip h client_ip (rq_headers req) in
  0 <= max_retries h →
  (runs (handle h req client_ip info pre_matched) tr r →
     Z.of_nat (length (exchanges tr)) <= max_retries h + 1 ∧
     (retry_budget h = true → (length (exchanges tr) <= 1 + grants tr)%nat) ∧
     ((2 <= length (exchanges tr))%nat →
        ∃ rt node, (rt, Some ip, Ok node) ∈ observe select_of tr ∧ can_retry_on req rt = true) ∧
     Forall (λ x, worth_retrying x.2 = true) (removelast (exchanges tr))) ∧
  (runs (handle_stream h req route client_ip info) tr r → (length (exchanges tr) <= 1)%nat).
Proof.
  intros ip Hmax. rewrite <-(exchanges_essential tr), <-(grants_essential tr).
  assert (observe select_of (essential tr) = observe select_of tr) as <- by (by apply observe_filter; intros [[] x]).
  split.
  - intros [[-> ->]|(rt & ctx & node & t & (meta & u & _ & _ & T1 & T2 & T3 & _ & T5) & -> & -> & Hsel)]%handle_runs%lifecycle_exchanges.
    { simpl. split_and!; [lia|lia|lia|constructor]. }
    split_and!; [lia|done| |done]. intros H2. exists rt, node. split; [done|].
    destruct (can_retry_on req rt); [done|]. specialize (T2 eq_refl). lia.
  - intros [[-> _]|(rt & ctx & node & t & (meta & u & _ & _ & T1 & _) & -> & _)]%handle_stream_runs%lifecycle_exchanges;
      [simpl; lia|done].
Qed.

(** ** What goes upstream *)

Context `{!HttpLibOk HeaderMap HeaderValue Uri}.

Lemma get_insert_text m n s n' :
  hm_get (insert_text m n s) n' =
  if bool_decide (to_lowercase n = to_lowercase n')
  then match hv_parse s with Some v => Some v | None => hm_get m n' end else hm_get m n'.
Proof using All.
  unfold insert_text. destruct (hv_parse s); [rewrite get_insert|]; by case_bool_decide.
Qed.

Lemma get_strip m n : n ∈ SENSITIVE_HEADERS → hm_get (strip_sensitive_headers m) n = None.
Proof using All.
  unfold strip_sensitive_headers. generalize SENSITIVE_HEADERS as l. intros l.
  induction l as [|x l IH] using rev_ind; intros Hn; [by apply not_elem_of_nil in Hn|].
  rewrite foldl_app. simpl. rewrite get_remove. case_bool_decide as Hx; [done|]. apply IH.
  apply elem_of_app in Hn as [|Hn]; [done|]. apply list_elem_of_singleton in Hn as ->. done.
Qed.

Lemma build_out_headers_get route node headers trace request ip n :
  n ∈ ["authorization"; "cookie"; "proxy-authorization"; "x-api-key"]%string →
  hm_get (build_out_headers route node headers trace request ip) n = None ∧
  hm_get (build_out_headers route node headers trace request ip) "x-forwarded-for" = hv_parse ip.
Proof using All.
  intros Hn. unfold build_out_headers. rewrite !get_insert_text. split.
  - repeat (apply elem_of_cons in Hn as [->|Hn]; [simpl; by apply get_strip, (bool_decide_eq_true_1 _)|]).
    by apply not_elem_of_nil in Hn.
  - simpl. destruct (hv_parse ip); [done|]. by apply get_strip, (bool_decide_eq_true_1 _).
Qed.

Lemma find_rev_app {A} (f : A → bool) (l : list A) :
  match List.find f (rev l) with
  | Some x => ∃ l1 l2, l = l1 ++ x :: l2 ∧ f x = true ∧ Forall (λ y, f y = false) l2
  | None => Forall (λ y, f y = false) l
  end.
Proof.
  induction l as [|y l IH] using rev_ind; [constructor|]. rewrite rev_app_distr. simpl.
  destruct (f y) eqn:Hy; [exists l, []; by split_and!|]. destruct (List.find f (rev l)) as [x|].
  - destruct IH as (l1 & l2 & -> & Hx & Hl). exists l1, (l2 ++ [y]). rewrite <-app_assoc. split_and!; [done..|].
    apply Forall_app. by split; [|constructor].
  - apply Forall_app. by split; [|constructor].
Qed.

(** The address that is resolved for a request. *)
Lemma real_ip_direct h peer headers : is_trusted_proxy h peer = false → resolve_real_ip h peer headers = peer.
Proof using IpL. unfold resolve_real_ip. intros ->. by destruct (trusted_proxies h). Qed.

Lemma real_ip_of_chain h peer headers xff :
  is_trusted_proxy h peer = true → get_str headers "x-forwarded-for" = Some xff →
  resolve_real_ip h peer headers =
    default peer (List.find (λ ip, negb (is_trusted_proxy h ip)) (rev (map trim (split_on "," xff)))).
Proof using IpL.
  unfold resolve_real_ip. intros Ht ->. destruct (trusted_proxies h) as [|p ps] eqn:Ep; [|by rewrite Ht].
  unfold is_trusted_proxy in Ht. rewrite Ep in Ht. by destruct (parse_addr peer).
Qed.

Lemma real_ip_forwarded h peer headers xff :
  let ip := resolve_real_ip h peer headers in
  is_trusted_proxy h peer = true → get_str headers "x-forwarded-for" = Some xff →
  (∃ l1 l2, map trim (split_on "," xff) = l1 ++ ip :: l2 ∧ is_trusted_proxy h ip = false ∧
            Forall (λ y, is_trusted_proxy h y = true) l2) ∨
  (ip = peer ∧ Forall (λ y, is_trusted_proxy h y = true) (map trim (split_on "," xff))).
Proof using IpL.
  intros ip Ht Hx. subst ip. rewrite (real_ip_of_chain _ _ _ xff) by done.
  pose proof (find_rev_app (λ y, negb (is_trusted_proxy h y)) (map trim (split_on "," xff))) as Hf.
  destruct (List.find _ _) as [y|]; simpl.
  - destruct Hf as (l1 & l2 & E & Hy%negb_true_iff & Hl). left. exists l1, l2. split_and!; [done|done|].
    apply (Forall_impl _ _ _ Hl). by intros z ?%negb_false_iff.
  - right. split; [done|]. apply (Forall_impl _ _ _ Hf). by intros z ?%negb_false_iff.
Qed.

Lemma real_ip_appended h peer headers xff written y proxies :
  is_trusted_proxy h peer = true → get_str headers "x-forwarded-for" = Some xff →
  map trim (split_on "," xff) = written ++ y :: proxies → is_trusted_proxy h y = false →
  Forall (λ z, is_trusted_proxy h z = true) proxies → resolve_real_ip h peer headers = y.
Proof using IpL.
  intros Ht Hx E Hy Hl. rewrite (real_ip_of_chain _ _ _ xff), E by done. clear E Hx.
  rewrite rev_app_distr. simpl. rewrite <- app_assoc. simpl.
  induction proxies as [|z l IH] using rev_ind; simpl; [by rewrite Hy|].
  apply Forall_app in Hl as [Hl Hz]. inversion_clear Hz as [|? ? Hz' _]. rewrite rev_app_distr. simpl. rewrite Hz'. by apply IH.
Qed.

(** C5. Client identity: every message sent upstream, buffered or streamed,
    carries the resolved client address as [x-forwarded-for] and none of the
    client's credentials, whatever the plugins did to the headers. The resolved
    address is the peer's own unless the peer is a trusted proxy; then it is the
    rightmost address of the first [x-forwarded-for] field that is not a trusted
    proxy (the peer's when there is none), so that what a client wrote into that
    field does not matter once a proxy has appended its address to it. Further
    fields of that name are not read: behind a trusted proxy that adds a field of
    its own instead, a client chooses its address ([later_fields_ignored]). *)
Theorem client_identity h req client_ip info route pre_matched tr r n x :
  let ip := resolve_real_ip h client_ip (rq_headers req) in
  runs (handle h req client_ip info pre_matched) tr r ∨ runs (handle_stream h req route client_ip info) tr r →
  x ∈ exchanges tr → n ∈ ["authorization"; "cookie"; "proxy-authorization"; "x-api-key"]%string →
  hm_get (uq_headers x.1.2) n = None ∧
  hm_get (uq_headers x.1.2) "x-forwarded-for" = hv_parse ip ∧
  (is_trusted_proxy h client_ip = false → ip = client_ip) ∧
  (∀ xff, is_trusted_proxy h client_ip = true → get_str (rq_headers req) "x-forwarded-for" = Some xff →
     (∃ l1 l2, map trim (split_on "," xff) = l1 ++ ip :: l2 ∧ is_trusted_proxy h ip = false ∧
               Forall (λ y, is_trusted_proxy h y = true) l2) ∨
     (ip = client_ip ∧ Forall (λ y, is_trusted_proxy h y = true) (map trim (split_on "," xff)))) ∧
  (∀ xff written y proxies, is_trusted_proxy h client_ip = true → get_str (rq_headers req) "x-forwarded-for" = Some xff →
     map trim (split_on "," xff) = written ++ y :: proxies → is_trusted_proxy h y = false →
     Forall (λ z, is_trusted_proxy h z = true) proxies → ip = y).
Proof using All.
  intros ip Hruns Hx Hn. rewrite <-exchanges_essential in Hx.
  assert (∃ rt ctx node u meta b, real_ip meta = ip ∧ sent node (upstream_request req meta ctx rt node u b) x)
    as (rt & ctx & node & u & meta & b & Hip & _ & _ & Hhs & _).
  { destruct Hruns as [[[E _]|(rt & ctx & node & t & (meta & u & Hip & _ & _ & _ & _ & T & _) & E & _)]%handle_runs%lifecycle_exchanges|
      [[E _]|(rt & ctx & node & t & (meta & u & Hip & _ & _ & T) & E & _)]%handle_stream_runs%lifecycle_exchanges];
      rewrite E in Hx; try by apply not_elem_of_nil in Hx.
    all: rewrite Forall_forall in T; eexists rt, ctx, node, u, meta, _; split; [done|by apply T]. }
  rewrite Hhs. simpl. rewrite Hip. destruct (build_out_headers_get rt node
    (from_option hc_headers (rq_headers req) (pc_http ctx)) (trace_id meta) (request_id meta) ip n Hn) as [H1 H2].
  split_and!; [exact H1|exact H2|apply real_ip_direct|apply real_ip_forwarded|apply real_ip_appended].
Qed.

End Handler.
End HttpHandler.

(** ** A run against scripted services: the first exchange times out, the second
    is answered *)

Module HttpDemo.
Import HttpHandler AccessDemo.
#[local] Existing Instance toy_lib.

(** Header maps with one value per name; every text is a value and a URI. *)
#[local] Instance toy_http : HttpLib (gmap string string) string string :=
  {| hm_empty := ∅;
     hm_get m n := m !! to_lowercase n;
     hm_insert m n v := <[to_lowercase n := v]> m;
     hm_append m n v := <[to_lowercase n := v]> m;
     hm_remove m n := delete (to_lowercase n) m;
     hm_entries m := map_to_list m;
     hv_parse := Some;
     hv_to_str := Some;
     uri_parse := Ok;
     uri_authority _ := None;
     uri_path_and_query u := Some u |}.

#[local] Instance toy_http_ok : HttpLibOk (gmap string string) string string.
Proof.
  split; intros m n; [intros v|]; intros n'; simpl; case_bool_decide as E.
  - rewrite E. apply lookup_insert_eq.
  - by apply lookup_insert_ne.
  - rewrite E. apply lookup_delete_eq.
  - by apply lookup_delete_ne.
Qed.

Definition demo_route : RouteSnapshot := mkSnapshot 7 Http (Some 1) None false false [] false.
Definition demo_node : UpstreamNodeDto := mkNode 3 1 "10.0.0.9:80" 1 true.

Definition serve (s : nat) (c : @call (gmap string string) string unit) : nat * ans c :=
  match c return nat * ans c with
  | GenerateTraceId => (s, "id"%string)
  | Now | UtcNow | Jitter _ => (s, 0)
  | Sleep _ => (s, tt)
  | IsBlocked _ => (s, false)
  | LookupRoute _ _ => (s, Ok (Some demo_route))
  | RoutePlugins _ => (s, [])
  | BeforeRequest ctx _ => (s, (ctx, Ok Continue))
  | AfterResponse ctx resp _ => (s, (ctx, resp, Ok tt))
  | CheckRateLimit _ _ | CheckBreaker _ _ | TryConsume => (s, Ok tt)
  | SelectUpstream _ _ => (s, Ok demo_node)
  | RecordResult _ _ _ | ReleaseNode _ _ | RecordMetric _ | RecordEvent _ | RecordRequest => (s, tt)
  | Exchange _ _ _ => (S s, match s with O => NoAnswer | _ => Head 200 ∅ (Ok "hello"%string) end)
  end.

(** The peer 10.0.0.1 is a trusted proxy; the chain names a client outside. *)
Definition demo_handler : @HttpProtocolHandler toy_net :=
  with_retry_budget (with_trusted_proxies (handler_new "gw") ["net:10."]).
Definition demo_request : @Request (gmap string string) string :=
  mkRequest "GET" "/x" (<["cookie":="c"]> (<["x-forwarded-for":="6.6.6.6, 1.2.3.4, 10.0.0.2"]> ∅))%string "".
Definition demo_info : RouteMatchInfo := mkMatchInfo "/x" (Some "GET"%string) None [] [].
Definition demo_prog := handle (P := unit) (λ k, k) demo_handler demo_request "10.0.0.1" demo_info None.
Definition demo_trace := (exec serve 0%nat demo_prog).1.2.

Lemma attempts_bounded_witness :
  length (exchanges demo_trace) = 2%nat ∧ (length (exchanges demo_trace) <= 1 + grants demo_trace)%nat.
Proof.
  split; [vm_compute; reflexivity|].
  apply (attempts_bounded (P := unit) (λ k, k) demo_handler demo_request "10.0.0.1" demo_info demo_route None demo_trace
    (exec serve 0%nat demo_prog).2); [vm_compute; discriminate|apply exec_runs|reflexivity].
Defined.

Definition demo_ip : string := resolve_real_ip demo_handler "10.0.0.1" (rq_headers demo_request).

Lemma request_lifecycle_witness :
  demo_ip = "1.2.3.4"%string ∧
  lifecycle demo_request demo_ip demo_info None (Some EmptyString) (buffered_tries demo_handler demo_request demo_ip)
    (essential demo_trace) (exec serve 0%nat demo_prog).2 ∧
  length (observe release_of demo_trace) = 1%nat.
Proof.
  split_and!; [vm_compute; reflexivity| |vm_compute; reflexivity].
  apply (request_lifecycle (P := unit) (λ k, k) demo_handler demo_request "10.0.0.1" demo_info demo_route None demo_trace
    (exec serve 0%nat demo_prog).2). apply exec_runs.
Defined.

Lemma client_identity_witness :
  demo_ip = "1.2.3.4"%string ∧
  ∃ x, x ∈ exchanges demo_trace ∧ hm_get (uq_headers x.1.2) "cookie" = None ∧
       hm_get (uq_headers x.1.2) "x-forwarded-for" = hv_parse demo_ip.
Proof.
  split; [vm_compute; reflexivity|].
  destruct (exchanges demo_trace) as [|x l] eqn:E; [exfalso; vm_compute in E; discriminate E|].
  exists x. assert (x ∈ exchanges demo_trace) as Hx by (rewrite E; left). split; [left|].
  destruct (client_identity (P := unit) (λ k, k) demo_handler demo_request "10.0.0.1" demo_info demo_route None demo_trace
    (exec serve 0%nat demo_prog).2 "cookie" x) as (H1 & H2 & _).
  - left. apply exec_runs.
  - exact Hx.
  - apply (bool_decide_eq_true_1 _). vm_compute. reflexivity.
  - split; [exact H1|exact H2].
Defined.
End HttpDemo.
