(* ===== verification/TlsSni.v ===== *)
(** The server name of a TLS ClientHello (conrogate-protocol/src/tls.rs,
    [extract_sni_from_client_hello]), on which the passthrough mode routes.

    The parser reads a packet of a stranger by absolute offsets. Every index and
    every slice is a read that may panic; the two loops take fuel, and running
    out of it is a panic too, so that the theorem that the parser never panics
    also says that its loops end. *)
From Stdlib Require Import ZArith Lia Ascii String.
From stdpp Require Import base tactics option list strings.
From S2P Require Import Prelude Text.
#[local] Open Scope Z_scope.

(** ** Bytes *)

(** [b[i]]. *)
Definition index (b : list Z) (i : nat) : outcome Z := match b !! i with Some x => Ret x | None => Panic end.

(** [u16::from_be_bytes([b[i], b[i + 1]]) as usize]. *)
Definition u16_at (b : list Z) (i : nat) : outcome nat :=
  let! hi := index b i in let! lo := index b (S i) in Ret (Z.to_nat (hi * 256 + lo)).

(** [&b[i..j]]. *)
Definition slice (b : list Z) (i j : nat) : outcome (list Z) :=
  if (i <=? j)%nat && (j <=? length b)%nat then Ret (take (j - i) (drop i b)) else Panic.

(** [std::str::from_utf8]: one well-formed sequence after another (RFC 3629). *)
Definition continuation (b : Z) : bool := (128 <=? b) && (b <=? 191).

Fixpoint utf8_valid (b : list Z) : bool :=
  match b with
  | [] => true
  | b0 :: r0 =>
      if b0 <=? 127 then utf8_valid r0
      else
        match r0 with
        | b1 :: r1 =>
            if (194 <=? b0) && (b0 <=? 223) then continuation b1 && utf8_valid r1
            else
              match r1 with
              | b2 :: r2 =>
                  if (224 <=? b0) && (b0 <=? 239) then
                    continuation b1 && (if b0 =? 224 then 160 <=? b1 else true) &&
                    (if b0 =? 237 then b1 <=? 159 else true) && continuation b2 && utf8_valid r2
                  else
                    match r2 with
                    | b3 :: r3 =>
                        (240 <=? b0) && (b0 <=? 244) && continuation b1 && (if b0 =? 240 then 144 <=? b1 else true) &&
                        (if b0 =? 244 then b1 <=? 143 else true) && continuation b2 && continuation b3 && utf8_valid r3
                    | [] => false
                    end
              | [] => false
              end
        | [] => false
        end
  end.

Fixpoint string_of_bytes (b : list Z) : string :=
  match b with [] => EmptyString | x :: r => String (ascii_of_N (Z.to_N x)) (string_of_bytes r) end.

Fixpoint bytes_of_string (s : string) : list Z :=
  match s with EmptyString => [] | String c r => Z.of_N (N_of_ascii c) :: bytes_of_string r end.

Lemma string_of_bytes_of_string s : string_of_bytes (bytes_of_string s) = s.
Proof. induction s as [|c s IH]; simpl; [done|]. by rewrite N2Z.id, ascii_N_embedding, IH. Qed.

(** ** The parser *)

(** How a loop body ends: it returns from the function, or the loop is over. *)
Inductive flow := Return (r : option string) | Break.

(** The entries of the server name list from [p] on. *)
Fixpoint names_loop (fuel : nat) (body : list Z) (p data_end : nat) : outcome flow :=
  match fuel with
  | O => Panic
  | S fuel =>
      if (p + 3 <=? data_end)%nat then
        let! name_type := index body p in
        let! name_len := u16_at body (p + 1) in
        let p := (p + 3)%nat in
        if (data_end <? p + name_len)%nat then Ret (Return None)
        else if name_type =? 0 then
          let! name := slice body p (p + name_len) in
          if negb (utf8_valid name) then Ret (Return None)
          else match name with
               | [] => names_loop fuel body (p + name_len) data_end
               | _ => Ret (Return (Some (string_of_bytes name)))
               end
        else names_loop fuel body (p + name_len) data_end
      else Ret Break
  end.

(** The extensions from [off] on. *)
Fixpoint ext_loop (fuel : nat) (body : list Z) (off ext_end : nat) : outcome (option string) :=
  match fuel with
  | O => Panic
  | S fuel =>
      if (off + 4 <=? ext_end)%nat then
        let! ext_type := u16_at body off in
        let! ext_len := u16_at body (off + 2) in
        let off := (off + 4)%nat in
        let data_end := Nat.min (off + ext_len) ext_end in
        if (ext_type =? 0)%nat then
          if (data_end <? off + 2)%nat then Ret None
          else
            let! _ := u16_at body off in
            let! f := names_loop (S (length body)) body (off + 2) data_end in
            match f with
            | Return r => Ret r
            | Break => ext_loop fuel body data_end ext_end
            end
        else ext_loop fuel body data_end ext_end
      else Ret None
  end.

(** The ClientHello body after its version and random bytes. *)
Definition client_hello_body (body : list Z) : outcome (option string) :=
  let n := length body in
  if (n <? 34)%nat then Ret None
  else if (n <? 34 + 1)%nat then Ret None
  else
    let! session_len := index body 34 in
    let off := (34 + (1 + Z.to_nat session_len))%nat in
    if (n <? off + 2)%nat then Ret None
    else
      let! ciphers_len := u16_at body off in
      let off := (off + (2 + ciphers_len))%nat in
      if (n <? off + 1)%nat then Ret None
      else
        let! comp_len := index body off in
        let off := (off + (1 + Z.to_nat comp_len))%nat in
        if (n <? off + 2)%nat then Ret None
        else
          let! ext_total := u16_at body off in
          let off := (off + 2)%nat in
          ext_loop (S n) body off (Nat.min (off + ext_total) n).

Definition extract_sni_from_client_hello (buf : list Z) : outcome (option string) :=
  if (length buf <? 5)%nat then Ret None
  else
    let! content_type := index buf 0 in
    if negb (content_type =? 0x16) then Ret None
    else
      let! record_len := u16_at buf 3 in
      if (length buf <? 5 + record_len)%nat then Ret None
      else
        let! hs := slice buf 5 (5 + record_len) in
        if (length hs <? 4)%nat then Ret None
        else
          let! msg_type := index hs 0 in
          if negb (msg_type =? 0x01) then Ret None
          else
            let! _ := index hs 1 in let! _ := index hs 2 in let! _ := index hs 3 in
            let! body := slice hs 4 (length hs) in
            client_hello_body body.

(** ** Reads within bounds *)

Lemma index_ok b i : (i < length b)%nat → ∃ x, index b i = Ret x.
Proof. intros H. unfold index. destruct (lookup_lt_is_Some_2 b i H) as [x ->]. by exists x. Qed.

Lemma u16_at_ok b i : (i + 1 < length b)%nat → ∃ n, u16_at b i = Ret n.
Proof.
  intros H. unfold u16_at. destruct (index_ok b i) as [x ->]; [lia|].
  destruct (index_ok b (S i)) as [y ->]; [lia|]. by eexists.
Qed.

Lemma slice_ok b i j : (i <= j <= length b)%nat → slice b i j = Ret (take (j - i) (drop i b)).
Proof. intros [H1 H2]. unfold slice. by rewrite (proj2 (Nat.leb_le _ _) H1), (proj2 (Nat.leb_le _ _) H2). Qed.

(** Resolves the next read of the goal, whose bounds follow by arithmetic. *)
Ltac read_ok :=
  match goal with
  | |- context [index ?b ?i] =>
      let x := fresh "x" in let E := fresh "E" in destruct (index_ok b i) as [x E]; [lia|]; rewrite E; clear E; cbv beta iota
  | |- context [u16_at ?b ?i] =>
      let x := fresh "x" in let E := fresh "E" in destruct (u16_at_ok b i) as [x E]; [lia|]; rewrite E; clear E; cbv beta iota
  | |- context [slice ?b ?i ?j] => rewrite (slice_ok b i j) by lia; cbv beta iota
  end.

(** The next comparison of the goal. *)
Ltac case_nat :=
  match goal with
  | |- context [(?a <? ?b)%nat] => destruct (Nat.ltb_spec a b)
  | |- context [(?a <=? ?b)%nat] => destruct (Nat.leb_spec a b)
  end; cbv beta iota.

Lemma names_loop_safe fuel body p data_end :
  (data_end <= length body)%nat → (data_end - p < fuel)%nat → names_loop fuel body p data_end ≠ Panic.
Proof.
  revert p. induction fuel as [|fuel IH]; intros p Hd Hf; [lia|]. cbn [names_loop].
  case_nat; [|done]. do 2 read_ok. case_nat; [done|].
  destruct (_ =? 0); [|apply IH; lia]. read_ok.
  destruct (utf8_valid _); [|done]. cbv beta iota. simpl negb. cbv iota.
  destruct (take _ _); [apply IH; lia|done].
Qed.

Lemma ext_loop_safe fuel body off ext_end :
  (ext_end <= length body)%nat → (ext_end - off < fuel)%nat → ext_loop fuel body off ext_end ≠ Panic.
Proof.
  revert off. induction fuel as [|fuel IH]; intros off He Hf; [lia|]. cbn [ext_loop].
  case_nat; [|done]. do 2 read_ok. destruct (_ =? 0)%nat; [|apply IH; lia].
  case_nat; [done|]. read_ok.
  destruct (names_loop _ _ _ _) as [[r|]|] eqn:E; [done|apply IH; lia|].
  exfalso. revert E. apply names_loop_safe; lia.
Qed.

Lemma client_hello_body_safe body : client_hello_body body ≠ Panic.
Proof.
  unfold client_hello_body. do 2 (case_nat; [done|]). read_ok.
  case_nat; [done|]. read_ok. case_nat; [done|]. read_ok. case_nat; [done|]. read_ok.
  apply ext_loop_safe; lia.
Qed.

(** The parser is total: on every packet it returns without an access out of
    range and its loops end. *)
Theorem extract_sni_total buf : ∃ r, extract_sni_from_client_hello buf = Ret r.
Proof.
  destruct (extract_sni_from_client_hello buf) as [r|] eqn:E; [by exists r|]. exfalso. revert E.
  unfold extract_sni_from_client_hello. case_nat; [done|]. read_ok. destruct (negb _); [done|]. read_ok.
  case_nat; [done|]. read_ok. set (hs := take _ _). case_nat; [done|]. read_ok. destruct (negb _); [done|].
  do 4 read_ok. apply client_hello_body_safe.
Qed.

(** ** The wire format *)

Definition be16 (n : nat) : list Z := [Z.of_nat n / 256; Z.of_nat n mod 256].

(** An entry of the server name list and an extension, with their lengths. *)
Definition name_bytes (e : Z * list Z) : list Z := e.1 :: be16 (length e.2) ++ e.2.
Definition ext_bytes (e : nat * list Z) : list Z := be16 e.1 ++ be16 (length e.2) ++ e.2.

(** The entry of a host name. *)
Definition host_entry (s : string) : Z * list Z := (0, bytes_of_string s).

(** The data of a server_name extension. *)
Definition sni_data (entries : list (Z * list Z)) : list Z :=
  let l := entries ≫= name_bytes in be16 (length l) ++ l.

Record ClientHello := mkHello {
  ch_head : list Z;               (* version and random *)
  ch_session : list Z;
  ch_ciphers : list Z;
  ch_compression : list Z;
  ch_extensions : list (nat * list Z) }.

Definition hello_body (c : ClientHello) : list Z :=
  let exts := ch_extensions c ≫= ext_bytes in
  ch_head c ++ [Z.of_nat (length (ch_session c))] ++ ch_session c ++ be16 (length (ch_ciphers c)) ++ ch_ciphers c ++
  [Z.of_nat (length (ch_compression c))] ++ ch_compression c ++ be16 (length exts) ++ exts.

(** The record that carries the ClientHello as one handshake message. *)
Definition hello_record (c : ClientHello) : list Z :=
  let b := hello_body c in
  let n := Z.of_nat (length b) in
  let hs := [1; n / 65536; n / 256 mod 256; n mod 256] ++ b in
  [0x16; 3; 1] ++ be16 (length hs) ++ hs.

(** ** Reading back what was written *)

Lemma index_app pre l i : index (pre ++ l) (length pre + i) = index l i.
Proof. unfold index. by rewrite lookup_app_r, Nat.add_sub' by lia. Qed.

Lemma index_here pre x l : index (pre ++ x :: l) (length pre) = Ret x.
Proof. pose proof (index_app pre (x :: l) 0) as H. by rewrite Nat.add_0_r in H. Qed.

Lemma u16_be16 pre n l : (n < 65536)%nat → u16_at (pre ++ be16 n ++ l) (length pre) = Ret n.
Proof.
  intros Hn. unfold u16_at. simpl. rewrite index_here.
  replace (S (length pre)) with (length pre + 1)%nat by lia. rewrite index_app. simpl. f_equal.
  pose proof (Z.div_mod (Z.of_nat n) 256). lia.
Qed.

Lemma slice_app pre l post :
  slice (pre ++ l ++ post) (length pre) (length pre + length l) = Ret l.
Proof.
  rewrite slice_ok by (rewrite !length_app; lia). rewrite drop_app_length, Nat.add_sub'.
  by rewrite take_app_length.
Qed.

Lemma length_bind {A} (f : A → list Z) l : (∀ x, 1 <= length (f x))%nat → (length l <= length (l ≫= f))%nat.
Proof.
  intros Hf. induction l as [|x l IH]; [done|]. rewrite bind_cons, length_app. specialize (Hf x). cbn [length]. lia.
Qed.

(** An entry that is no host name, or an empty one, is passed over. *)
Lemma names_loop_skip fuel pre e post data_end :
  e.1 ≠ 0 ∨ e.2 = [] → (length e.2 < 65536)%nat →
  (length pre + length (name_bytes e) <= data_end)%nat →
  names_loop (S fuel) (pre ++ name_bytes e ++ post) (length pre) data_end =
  names_loop fuel (pre ++ name_bytes e ++ post) (length (pre ++ name_bytes e)) data_end.
Proof.
  destruct e as [t name]. cbn [fst snd]. intros Ht Hl Hd. unfold name_bytes in *. cbn [fst snd] in *.
  assert (length (t :: be16 (length name) ++ name) = (3 + length name)%nat) as Hlen by done. rewrite Hlen in Hd.
  cbn [names_loop]. case_nat; [|lia].
  rewrite <-app_comm_cons, index_here. cbv iota. rewrite <-app_assoc.
  replace (pre ++ t :: be16 (length name) ++ name ++ post) with ((pre ++ [t]) ++ be16 (length name) ++ name ++ post)
    by (by rewrite <-app_assoc).
  replace (length pre + 1)%nat with (length (pre ++ [t])) by (rewrite length_app; simpl; lia).
  rewrite u16_be16 by done. cbv iota. case_nat; [lia|].
  replace (length (pre ++ t :: be16 (length name) ++ name)) with (length pre + 3 + length name)%nat
    by (rewrite length_app, Hlen; lia).
  destruct (Z.eqb_spec t 0) as [->|]; [|done]. destruct Ht as [|Ht]; [done|]. subst name. cbn [length].
  rewrite slice_ok by (rewrite !length_app; simpl; lia).
  replace (length pre + 3 + 0 - (length pre + 3))%nat with 0%nat by lia. done.
Qed.

(** The first host name is returned. *)
Lemma names_loop_found fuel pre s post data_end :
  s ≠ EmptyString → utf8_valid (bytes_of_string s) = true → (length (bytes_of_string s) < 65536)%nat →
  (length pre + length (name_bytes (host_entry s)) <= data_end)%nat →
  names_loop (S fuel) (pre ++ name_bytes (host_entry s) ++ post) (length pre) data_end = Ret (Return (Some s)).
Proof.
  intros Hs Hu Hl Hd. unfold host_entry, name_bytes in *. cbn [fst snd] in *. set (name := bytes_of_string s) in *.
  assert (length (0 :: be16 (length name) ++ name) = (3 + length name)%nat) as Hlen by done. rewrite Hlen in Hd.
  cbn [names_loop]. case_nat; [|lia].
  rewrite <-app_comm_cons, index_here. cbv iota. rewrite <-app_assoc.
  replace (pre ++ 0 :: be16 (length name) ++ name ++ post) with ((pre ++ [0]) ++ be16 (length name) ++ name ++ post)
    by (by rewrite <-app_assoc).
  replace (length pre + 1)%nat with (length (pre ++ [0])) by (rewrite length_app; simpl; lia).
  rewrite u16_be16 by done. cbv iota. case_nat; [lia|].
  rewrite app_assoc. replace (length pre + 3)%nat with (length ((pre ++ [0]) ++ be16 (length name)))
    by (rewrite !length_app; simpl; lia).
  rewrite slice_app, Hu. cbv beta iota delta [negb]. subst name.
  rewrite string_of_bytes_of_string. by destruct s.
Qed.

(** Entries a ClientHello may have before its host name. *)
Definition other_entry (e : Z * list Z) : Prop := (e.1 ≠ 0 ∨ e.2 = []) ∧ (length e.2 < 65536)%nat.
Definition other_ext (e : nat * list Z) : Prop := (0 < e.1 < 65536)%nat ∧ (length e.2 < 65536)%nat.

Lemma names_loop_entries others s later fuel pre post data_end :
  Forall other_entry others →
  s ≠ EmptyString → utf8_valid (bytes_of_string s) = true → (length (bytes_of_string s) < 65536)%nat →
  (length pre + length ((others ++ (host_entry s) :: later) ≫= name_bytes) <= data_end)%nat →
  (length others < fuel)%nat →
  names_loop fuel (pre ++ ((others ++ (host_entry s) :: later) ≫= name_bytes) ++ post) (length pre) data_end =
  Ret (Return (Some s)).
Proof.
  intros Ho Hs Hu Hl. revert fuel pre. induction Ho as [|e others [He1 He2] Ho IH]; intros fuel pre Hd Hf.
  - destruct fuel as [|fuel]; [simpl in Hf; lia|]. rewrite app_nil_l, bind_cons, <-app_assoc in *.
    apply names_loop_found; [done..|]. rewrite !length_app in Hd. lia.
  - destruct fuel as [|fuel]; [simpl in Hf; lia|]. rewrite <-app_comm_cons, bind_cons, <-app_assoc in *.
    rewrite length_app in Hd.
    rewrite names_loop_skip by (done || lia). rewrite (app_assoc pre). apply IH; [|simpl in Hf; lia].
    rewrite length_app. lia.
Qed.

Lemma ext_loop_skip fuel pre e post ext_end :
  other_ext e → (length pre + length (ext_bytes e) <= ext_end)%nat →
  ext_loop (S fuel) (pre ++ ext_bytes e ++ post) (length pre) ext_end =
  ext_loop fuel (pre ++ ext_bytes e ++ post) (length (pre ++ ext_bytes e)) ext_end.
Proof.
  destruct e as [t d]. intros [Ht Hl] Hd. unfold ext_bytes in *. cbn [fst snd] in *.
  assert (length (be16 t ++ be16 (length d) ++ d) = (4 + length d)%nat) as Hlen by done. rewrite Hlen in Hd.
  cbn [ext_loop]. case_nat; [|lia]. rewrite <-!app_assoc, u16_be16 by lia. cbv iota.
  rewrite (app_assoc pre). replace (length pre + 2)%nat with (length (pre ++ be16 t)) by (rewrite length_app; simpl; lia).
  rewrite u16_be16 by done. cbv iota. rewrite (proj2 (Nat.eqb_neq t 0)) by lia.
  f_equal. rewrite !length_app. simpl. lia.
Qed.

Lemma ext_loop_found fuel pre others s later post ext_end :
  Forall other_entry others →
  s ≠ EmptyString → utf8_valid (bytes_of_string s) = true → (length (bytes_of_string s) < 65536)%nat →
  let e := (0%nat, sni_data (others ++ (host_entry s) :: later)) in
  (length e.2 < 65536)%nat → (length pre + length (ext_bytes e) <= ext_end)%nat →
  ext_loop (S fuel) (pre ++ ext_bytes e ++ post) (length pre) ext_end = Ret (Some s).
Proof.
  intros Ho Hs Hu Hl e Hl2 Hd. subst e. unfold ext_bytes, sni_data in *. cbn [fst snd] in *.
  set (l := (others ++ _) ≫= name_bytes) in *.
  assert (length (be16 (length l) ++ l) = (2 + length l)%nat) as Hdl by done.
  assert (length (be16 0 ++ be16 (length (be16 (length l) ++ l)) ++ be16 (length l) ++ l) = (6 + length l)%nat) as Hlen by done.
  rewrite Hlen in Hd. cbn [ext_loop]. case_nat; [|lia]. rewrite <-!app_assoc, u16_be16 by lia. cbv iota.
  rewrite (app_assoc pre). replace (length pre + 2)%nat with (length (pre ++ be16 0)) by (rewrite length_app; simpl; lia).
  rewrite u16_be16 by done. cbv iota. rewrite Nat.eqb_refl, Hdl. case_nat; [lia|].
  rewrite app_assoc. replace (length pre + 4)%nat with (length ((pre ++ be16 0) ++ be16 (2 + length l)))
    by (rewrite !length_app; simpl; lia).
  rewrite u16_be16 by lia. cbv iota. rewrite app_assoc.
  set (pre' := ((pre ++ be16 0) ++ be16 (2 + length l)) ++ be16 (length l)).
  replace (length ((pre ++ be16 0) ++ be16 (2 + length l)) + 2)%nat with (length pre')
    by (subst pre'; rewrite (length_app _ (be16 (length l))); simpl; lia).
  unfold l at 2. rewrite names_loop_entries; [done|done|done|done|done| |].
  - fold l. subst pre'. rewrite !length_app. simpl. lia.
  - subst l. rewrite !length_app.
    pose proof (length_bind name_bytes (others ++ host_entry s :: later)) as Hb.
    rewrite length_app in Hb. specialize (Hb ltac:(intros []; simpl; lia)). lia.
Qed.

(** What a ClientHello with the host name [s] looks like. *)
Record hello_with_name (c : ClientHello) (s : string) : Prop := {
  hw_head : length (ch_head c) = 34%nat;
  hw_session : (length (ch_session c) < 256)%nat;
  hw_ciphers : (length (ch_ciphers c) < 65536)%nat;
  hw_compression : (length (ch_compression c) < 256)%nat;
  hw_exts : (length (ch_extensions c ≫= ext_bytes) < 65536)%nat;
  hw_fits : (length (hello_body c) + 4 < 65536)%nat;
  hw_nonempty : s ≠ EmptyString;
  hw_utf8 : utf8_valid (bytes_of_string s) = true;
  hw_name : ∃ before others more after,
    ch_extensions c = before ++ (0%nat, sni_data (others ++ (host_entry s) :: more)) :: after ∧
    Forall other_ext before ∧ Forall other_entry others }.

Lemma ext_loop_exts before e after s fuel pre post ext_end :
  Forall other_ext before → (length before < fuel)%nat →
  (∀ fuel pre post, (length pre + length (ext_bytes e) <= ext_end)%nat →
     ext_loop (S fuel) (pre ++ ext_bytes e ++ post) (length pre) ext_end = Ret (Some s)) →
  (length pre + length ((before ++ e :: after) ≫= ext_bytes) <= ext_end)%nat →
  ext_loop fuel (pre ++ ((before ++ e :: after) ≫= ext_bytes) ++ post) (length pre) ext_end = Ret (Some s).
Proof.
  intros Hb Hf He. revert fuel pre Hf. induction Hb as [|x before Hx Hb IH]; intros fuel pre Hf Hd.
  - destruct fuel as [|fuel]; [simpl in Hf; lia|]. rewrite app_nil_l, bind_cons, <-app_assoc in *.
    apply He. rewrite length_app in Hd. lia.
  - destruct fuel as [|fuel]; [simpl in Hf; lia|]. rewrite <-app_comm_cons, bind_cons, <-app_assoc in *.
    rewrite length_app in Hd. rewrite ext_loop_skip by (done || lia). rewrite (app_assoc pre).
    apply IH; [simpl in Hf; lia|]. rewrite length_app. lia.
Qed.

(** The same reads at an offset and in a buffer given up to an equation. *)
Lemma index_eq b i pre x l : b = pre ++ x :: l → i = length pre → index b i = Ret x.
Proof. intros -> ->. apply index_here. Qed.

Lemma u16_eq b i pre n l : b = pre ++ be16 n ++ l → i = length pre → (n < 65536)%nat → u16_at b i = Ret n.
Proof. intros -> ->. apply u16_be16. Qed.

(** The extension block of a hello yields its name. *)
Lemma ext_loop_hello c s pre :
  hello_with_name c s →
  let exts := ch_extensions c ≫= ext_bytes in
  ext_loop (S (length (pre ++ exts))) (pre ++ exts) (length pre) (length pre + length exts) = Ret (Some s).
Proof.
  intros [_ _ _ _ He _ Hne Hu (before & others & more & after & Ee & Hb & Ho)] exts. subst exts. rewrite Ee in *.
  set (e := (0%nat, sni_data _)) in *.
  pose proof (length_bind ext_bytes (before ++ e :: after) ltac:(intros []; simpl; lia)) as Hn.
  rewrite length_app in Hn. rewrite bind_app, bind_cons, !length_app in He.
  assert (length (ext_bytes e) = 4 + length e.2)%nat as Hle by done.
  assert (length (bytes_of_string s) <= length e.2)%nat as Hls.
  { unfold e, sni_data. cbn [snd]. rewrite bind_app, bind_cons, !length_app.
    change (length (name_bytes (host_entry s))) with (3 + length (bytes_of_string s))%nat. lia. }
  rewrite <-(app_nil_r (_ ≫= ext_bytes)) at 2.
  apply ext_loop_exts; [done|rewrite length_app; lia| |lia].
  intros fuel pre' post Hp. assert (length e.2 < 65536)%nat by lia.
  apply ext_loop_found; [done..| |done|done]. lia.
Qed.

Lemma client_hello_body_hello c s : hello_with_name c s → client_hello_body (hello_body c) = Ret (Some s).
Proof.
  intros H. pose proof H as [Hh Hs Hc Hp He _ _ _ _].
  pose (exts := ch_extensions c ≫= ext_bytes).
  assert (length (hello_body c) = 34 + 1 + length (ch_session c) + 2 + length (ch_ciphers c) + 1 +
    length (ch_compression c) + 2 + length exts)%nat as Hlen.
  { unfold hello_body. fold exts. rewrite !length_app, Hh. simpl. lia. }
  unfold client_hello_body. do 2 (case_nat; [lia|]).
  rewrite (index_eq (hello_body c) 34 (ch_head c) (Z.of_nat (length (ch_session c))) _ eq_refl) by done. cbv iota.
  rewrite Nat2Z.id. case_nat; [lia|].
  rewrite (u16_eq _ _ (ch_head c ++ [Z.of_nat (length (ch_session c))] ++ ch_session c) (length (ch_ciphers c))
    (ch_ciphers c ++ [Z.of_nat (length (ch_compression c))] ++ ch_compression c ++ be16 (length exts) ++ exts))
    by (done || (unfold hello_body; rewrite <-?app_assoc; done) || (rewrite !length_app, Hh; simpl; lia)).
  cbv iota. case_nat; [lia|].
  rewrite (index_eq _ _ (ch_head c ++ [Z.of_nat (length (ch_session c))] ++ ch_session c ++ be16 (length (ch_ciphers c))
    ++ ch_ciphers c) (Z.of_nat (length (ch_compression c))) (ch_compression c ++ be16 (length exts) ++ exts))
    by ((unfold hello_body; rewrite <-?app_assoc; done) || (rewrite !length_app, Hh; simpl; lia)).
  cbv iota. rewrite Nat2Z.id. case_nat; [lia|].
  set (pre := ch_head c ++ [Z.of_nat (length (ch_session c))] ++ ch_session c ++ be16 (length (ch_ciphers c))
    ++ ch_ciphers c ++ [Z.of_nat (length (ch_compression c))] ++ ch_compression c).
  assert (length pre = 34 + 1 + length (ch_session c) + 2 + length (ch_ciphers c) + 1 + length (ch_compression c))%nat as Hpre.
  { subst pre. rewrite !length_app, Hh. simpl. lia. }
  assert (hello_body c = pre ++ be16 (length exts) ++ exts) as Eb.
  { subst pre. unfold hello_body. rewrite <-?app_assoc. done. }
  rewrite (u16_eq _ _ pre (length exts) exts) by (done || lia). cbv iota.
  rewrite Nat.min_l by lia. rewrite Eb, app_assoc.
  pose proof (ext_loop_hello c s (pre ++ be16 (length exts)) H) as R. cbv zeta in R. fold exts in R.
  rewrite <-R. f_equal; rewrite !length_app; simpl; lia.
Qed.

(** C39. The server name is found: for every well-formed ClientHello that carries
    the host name [s] (whatever its other fields and extensions, other kinds of
    names first, extensions and bytes after it) the parser answers [s]; and on
    every packet at all it returns, reading nothing out of range. *)
Theorem extract_sni_roundtrip c s rest :
  hello_with_name c s →
  extract_sni_from_client_hello (hello_record c ++ rest) = Ret (Some s) ∧
  ∀ buf, ∃ r, extract_sni_from_client_hello buf = Ret r.
Proof.
  intros H. split; [|apply extract_sni_total]. pose proof (hw_fits _ _ H) as Hf.
  unfold extract_sni_from_client_hello, hello_record. set (b := hello_body c) in *. cbv zeta.
  set (hs := [1; _; _; _] ++ b).
  assert (length hs = 4 + length b)%nat as Hhs by done.
  case_nat; [rewrite !length_app in *; simpl in *; lia|].
  rewrite <-!app_assoc. change (index ([0x16; 3; 1] ++ be16 (length hs) ++ hs ++ rest) 0) with (@Ret Z 0x16).
  cbv iota. change (negb (0x16 =? 0x16)) with false. cbv iota.
  rewrite (u16_eq _ _ [0x16; 3; 1] (length hs) (hs ++ rest)) by (done || lia). cbv iota.
  case_nat; [rewrite !length_app in *; simpl in *; lia|].
  pose proof (slice_app ([0x16; 3; 1] ++ be16 (length hs)) hs rest) as Hsl. rewrite <-app_assoc in Hsl.
  change (length ([0x16; 3; 1] ++ be16 (length hs))) with 5%nat in Hsl. rewrite Hsl. cbv iota.
  case_nat; [lia|]. change (index hs 0) with (@Ret Z 1). cbv iota. change (negb (1 =? 1)) with false. cbv iota.
  do 3 (unfold index at 1; simpl lookup; cbv iota).
  rewrite slice_ok by lia. cbv iota. subst hs. cbn [app drop length]. rewrite Nat.sub_succ.
  replace (S (S (S (length b))) - 3)%nat with (length b) by lia. rewrite firstn_all.
  by apply client_hello_body_hello.
Qed.

(** A hello with a key-share extension first, then an unknown kind of name
    before the host name, then another extension. *)
Definition sample_hello : ClientHello := mkHello (replicate 34 3) [7; 7] [19; 1] [0]
  [(51%nat, [1; 2; 3]); (0%nat, sni_data ([(9, [65])] ++ host_entry "api.example.com" :: [])); (16%nat, [])].

Lemma extract_sni_roundtrip_witness :
  extract_sni_from_client_hello (hello_record sample_hello ++ [20; 3]) = Ret (Some "api.example.com"%string).
Proof.
  apply (extract_sni_roundtrip sample_hello "api.example.com" [20; 3]).
  split; [reflexivity|apply Nat.ltb_lt; reflexivity..|done|reflexivity|].
  exists [(51%nat, [1; 2; 3])], [(9, [65])], [], [(16%nat, [])].
  assert (∀ n, (n <? 65536)%nat = true → (n < 65536)%nat) as Hlt by (intros n; apply Nat.ltb_lt).
  split; [reflexivity|]. rewrite !Forall_singleton. unfold other_ext, other_entry. cbn [fst snd].
  split; (split; [|apply Hlt; reflexivity]); [split; [lia|apply Hlt; reflexivity]|by left].
Defined.
