(* ===== verification/Config.v ===== *)
(** The configuration (conrogate-core/src/config.rs): its structures and their
    defaults, the reading of environment variables, and the validation.

    The environment is a function from names to values ([std::env::var(k).ok()]).
    Durations are nanoseconds. The fields of the structs carry a prefix, since
    the structs share names such as [enabled] and [window]. *)
From Stdlib Require Import ZArith Lia Ascii String SpecFloat.
From stdpp Require Import base tactics option list strings pretty.
From S2P Require Import Prelude Text Errors Core F64 Adaptive Retry.
#[local] Open Scope Z_scope.

Module Config.
Import F64.

(** ** Structures and defaults *)

Record CommonConfig := mkCommon { cm_instance_id : string }.

Record TlsConfig := mkTls { tls_enabled : bool; tls_mode : string; tls_cert_file : string; tls_key : string }.
Definition default_tls : TlsConfig := mkTls false "terminate" "" "".

Record GateListenConfig := mkGateListen {
  gl_host : string; gl_port : Z; gl_protocol : ProtocolId; gl_tls : TlsConfig; gl_trusted_proxies : list string }.

Record ConnectionConfig := mkConnection {
  cn_max_connections : Z; cn_max_body_bytes : Z; cn_max_header_bytes : Z; cn_idle_timeout : Z }.
Definition default_connection : ConnectionConfig := mkConnection 10000 10485760 65536 (from_secs 30).

Record UpstreamPoolConfig := mkPool { up_max_idle_conns : Z; up_idle_timeout : Z }.
Definition default_upstream_pool : UpstreamPoolConfig := mkPool 128 (from_secs 60).

Record TimeoutConfig := mkTimeouts { to_connect : Z; to_total : Z; to_read : Z }.
Definition default_timeouts : TimeoutConfig := mkTimeouts (from_secs 3) (from_secs 30) (from_secs 15).

Record RetryConfig := mkRetry { re_max_attempts : Z; re_base_jitter : Z }.
Definition default_retry : RetryConfig := mkRetry 2 (from_millis 50).

Record RedisStoreConfig := mkRedis { rs_redis_url : string; rs_connect_timeout : Z }.

Record RateLimitConfig := mkRateLimit {
  rl_enabled : bool; rl_mode : string; rl_global_qps : Z; rl_route_qps : Z; rl_ip_qps : Z; rl_conn_qps : Z;
  rl_bandwidth_kbps : Z; rl_cluster_store : option RedisStoreConfig }.
Definition default_rate_limit : RateLimitConfig := mkRateLimit false "local" 1000 200 100 0 0 None.

Record BreakerConfig := mkBreakerCfg {
  br_enabled : bool; br_window : Z; br_failure_rate_threshold : f64; br_min_requests : Z; br_wait : Z;
  br_half_open_max : Z; br_cluster_store : option RedisStoreConfig }.
Definition default_breaker : BreakerConfig := mkBreakerCfg false (from_secs 10) half 10 (from_secs 30) 5 None.

Record AdaptiveConcurrencyConfig := mkAdaptiveCfg {
  ac_enabled : bool; ac_initial_limit : Z; ac_min_limit : Z; ac_max_limit : Z; ac_increase_step : Z;
  ac_decrease_ratio : f64; ac_latency_threshold : Z; ac_window : Z; ac_acquire_timeout : Z }.
Definition default_adaptive : AdaptiveConcurrencyConfig :=
  mkAdaptiveCfg false 100 10 10000 1 half (from_secs 5) (from_secs 10) (from_millis 100).

Record RetryBudgetConfig := mkBudgetCfg {
  rb_enabled : bool; rb_budget_ratio : f64; rb_window : Z; rb_min_requests : Z }.
Definition default_retry_budget : RetryBudgetConfig := mkBudgetCfg false (div (of_Z 1) (of_Z 10)) (from_secs 10) 10.

Record ShutdownConfig := mkShutdown { sd_long_conn_drain : Z }.
Definition default_shutdown : ShutdownConfig := mkShutdown (from_secs 30).

Record AccessLogConfig := mkAccessLog { al_enabled : bool; al_skip_paths : list string }.
Definition default_access_log : AccessLogConfig := mkAccessLog true ["/healthz"; "/readyz"]%string.

Record OutboundTlsConfig := mkOutboundTls { ot_skip_verify : bool }.
Definition default_outbound_tls : OutboundTlsConfig := mkOutboundTls false.

Record RefreshConfig := mkRefresh {
  rf_config_poll_interval : Z; rf_config_source : string; rf_control_api_url : string; rf_control_api_token : string;
  rf_control_api_prefix : string; rf_config_cache_redis_url : string; rf_config_cache_connect_timeout : Z;
  rf_config_cache_snapshot_retention : Z }.
Definition default_refresh : RefreshConfig := mkRefresh (from_secs 5) "db" "" "" "/api/v1" "" (from_secs 2) 10.

Record UpgradeConfig := mkUpgrade { ug_buffer_size : Z; ug_idle_timeout : Z }.
Definition default_upgrade : UpgradeConfig := mkUpgrade 65536 (from_secs 300).

Record TelemetryConfig := mkTelemetry {
  tm_batch_size : Z; tm_batch_interval : Z; tm_buffer_max_messages : Z; tm_db_retry_backoff : Z;
  tm_db_retry_max_backoff : Z; tm_bucket_sec : Z }.
Definition default_telemetry : TelemetryConfig :=
  mkTelemetry 1000 (from_secs 1) 100000 (from_millis 500) (from_secs 30) 10.

Record GateConfig := mkGate {
  gt_listen : GateListenConfig; gt_worker_threads : Z; gt_connection : ConnectionConfig;
  gt_upstream_pool : UpstreamPoolConfig; gt_timeouts : TimeoutConfig; gt_retry : RetryConfig;
  gt_rate_limit : RateLimitConfig; gt_breaker : BreakerConfig; gt_adaptive_concurrency : AdaptiveConcurrencyConfig;
  gt_retry_budget : RetryBudgetConfig; gt_shutdown : ShutdownConfig; gt_refresh : RefreshConfig;
  gt_upgrade : UpgradeConfig; gt_telemetry : TelemetryConfig; gt_access_log : AccessLogConfig;
  gt_outbound_tls : OutboundTlsConfig; gt_gate_id : string }.

Record ControlListenConfig := mkControlListen {
  cl_enabled : bool; cl_host : string; cl_port : Z; cl_api_prefix : string; cl_tls : TlsConfig }.
Definition default_control_listen : ControlListenConfig := mkControlListen true "0.0.0.0" 9000 "/api/v1" default_tls.

Record AuthConfig := mkAuth { au_token : string }.
Definition default_auth : AuthConfig := mkAuth "".

Record ControlConfig := mkControl { ct_listen : ControlListenConfig; ct_auth : AuthConfig }.

Record DbConfig := mkDb { db_url : string; db_read_url : string; db_max_connections : Z; db_connect_timeout : Z }.
Definition default_db : DbConfig := mkDb "" "" 10 (from_secs 5).

Definition database_url (d : DbConfig) : string := db_url d.
Definition read_database_url (d : DbConfig) : string :=
  if negb (is_empty (db_read_url d)) then db_read_url d else db_url d.

Record LogConfig := mkLog {
  lg_level : string; lg_format : string; lg_console : bool; lg_file_enabled : bool; lg_file_path : string;
  lg_rotation_size_mb : Z; lg_retention_days : Z }.
Definition default_log : LogConfig := mkLog "info" "json" true true "/var/log/conrogate/conrogate.log" 100 7.

Record Config := mkConfig {
  cf_common : CommonConfig; cf_gate : GateConfig; cf_control : ControlConfig; cf_db : DbConfig; cf_log : LogConfig }.

Inductive ConfigSource := Redis | Db | Http.

Definition source_display (s : ConfigSource) : string :=
  match s with Redis => "redis" | Db => "db" | Http => "http" end.

Definition source_from_str (s : string) : result ConfigSource ConrogateError :=
  if (s =? "redis")%string then Ok Redis
  else if (s =? "db")%string then Ok Db
  else if (s =? "http")%string then Ok Http
  else Err (ConfigInvalid ("unknown config source: " ++ s)).

(** ** Reading the environment *)

Section Env.
Context (env : string → option string) (parse_f64 : string → option f64).

Definition default_gate_id : string :=
  default (default "conrogate"%string (env "HOSTNAME"%string)) (env "CONROGATE_GATE_ID"%string).

Definition env_str (key dflt : string) : string := default dflt (env key).

(** No character outside ASCII has a lower case form in these words. *)
Definition parse_bool (s : string) : option bool :=
  let s := to_lowercase s in
  if ((s =? "true") || (s =? "1") || (s =? "yes"))%string then Some true
  else if ((s =? "false") || (s =? "0") || (s =? "no"))%string then Some false
  else None.

Definition env_bool (key : string) (dflt : bool) : bool := default dflt (env key ≫= parse_bool).
Definition env_u16 (key : string) (dflt : Z) : Z := default dflt (env key ≫= parse_uint u16_max).
Definition env_u32 (key : string) (dflt : Z) : Z := default dflt (env key ≫= parse_uint u32_max).
Definition env_usize (key : string) (dflt : Z) : Z := default dflt (env key ≫= parse_uint u64_max).
Definition env_f64 (key : string) (dflt : f64) : f64 := default dflt (env key ≫= parse_f64).
Definition env_duration_ms (key : string) (default_ms : Z) : Z :=
  from_millis (default default_ms (env key ≫= parse_uint u64_max)).

Definition env_list (key : string) : list string :=
  match env key with
  | Some s => if is_empty s then [] else map trim (split_on "," s)
  | None => []
  end.

(** [Config::default]. *)
Definition default_config : Config :=
  mkConfig
    (mkCommon "")
    (mkGate (mkGateListen "0.0.0.0" 8080 Core.Http default_tls [])
       0 default_connection default_upstream_pool default_timeouts default_retry default_rate_limit default_breaker
       default_adaptive default_retry_budget default_shutdown default_refresh default_upgrade default_telemetry
       default_access_log default_outbound_tls default_gate_id)
    (mkControl default_control_listen default_auth)
    default_db
    default_log.

(** [d.as_millis() as u64]. *)
Definition millis_u64 (d : Z) : Z := u64_wrap (as_millis d).

(** The shared store of a component in cluster mode, which needs a URL; a
    component in another mode keeps its default. *)
Definition cluster_store_from_env (mode url_key timeout_key missing : string) (dflt : option RedisStoreConfig) :
    result (option RedisStoreConfig) ConrogateError :=
  if (mode =? "cluster")%string then
    let redis_url := env_str url_key "" in
    if is_empty redis_url then Err (ConfigInvalid missing)
    else Ok (Some (mkRedis redis_url (env_duration_ms timeout_key 2000)))
  else Ok dflt.

Definition tls_from_env (enabled mode cert key : string) (d : TlsConfig) : TlsConfig :=
  mkTls (env_bool enabled (tls_enabled d)) (env_str mode (tls_mode d)) (env_str cert (tls_cert_file d))
    (env_str key (tls_key d)).

#[local] Open Scope string_scope.

Definition gate_listen_from_env (d : GateListenConfig) : GateListenConfig :=
  mkGateListen (env_str "CONROGATE_GATE_HOST" (gl_host d)) (env_u16 "CONROGATE_GATE_PORT" (gl_port d))
    (default (gl_protocol d)
       (env "CONROGATE_GATE_PROTOCOL" ≫= λ s, match protocol_from_str s with Ok p => Some p | Err _ => None end))
    (tls_from_env "CONROGATE_GATE_TLS_ENABLED" "CONROGATE_GATE_TLS_MODE" "CONROGATE_GATE_TLS_CERT_FILE"
       "CONROGATE_GATE_TLS_KEY" (gl_tls d))
    (env_list "CONROGATE_GATE_TRUSTED_PROXIES").

Definition connection_from_env (d : ConnectionConfig) : ConnectionConfig :=
  mkConnection (env_usize "CONROGATE_GATE_MAX_CONNECTIONS" (cn_max_connections d))
    (env_usize "CONROGATE_GATE_MAX_BODY_BYTES" (cn_max_body_bytes d))
    (env_usize "CONROGATE_GATE_MAX_HEADER_BYTES" (cn_max_header_bytes d))
    (env_duration_ms "CONROGATE_GATE_IDLE_TIMEOUT_MS" (millis_u64 (cn_idle_timeout d))).

Definition upstream_pool_from_env (d : UpstreamPoolConfig) : UpstreamPoolConfig :=
  mkPool (env_usize "CONROGATE_GATE_UPSTREAM_MAX_IDLE_CONNS" (up_max_idle_conns d))
    (env_duration_ms "CONROGATE_GATE_UPSTREAM_IDLE_TIMEOUT_MS" (millis_u64 (up_idle_timeout d))).

Definition timeouts_from_env (d : TimeoutConfig) : TimeoutConfig :=
  mkTimeouts (env_duration_ms "CONROGATE_GATE_TIMEOUT_CONNECT_MS" (millis_u64 (to_connect d)))
    (env_duration_ms "CONROGATE_GATE_TIMEOUT_TOTAL_MS" (millis_u64 (to_total d)))
    (env_duration_ms "CONROGATE_GATE_TIMEOUT_READ_MS" (millis_u64 (to_read d))).

Definition retry_from_env (d : RetryConfig) : RetryConfig :=
  mkRetry (env_u32 "CONROGATE_GATE_RETRY_MAX_ATTEMPTS" (re_max_attempts d))
    (env_duration_ms "CONROGATE_GATE_RETRY_BASE_JITTER_MS" (millis_u64 (re_base_jitter d))).

Definition rate_limit_from_env (mode : string) (store : option RedisStoreConfig) (d : RateLimitConfig) : RateLimitConfig :=
  mkRateLimit (env_bool "CONROGATE_GATE_RATE_LIMIT_ENABLED" (rl_enabled d)) mode
    (env_u32 "CONROGATE_GATE_RATE_LIMIT_GLOBAL_QPS" (rl_global_qps d))
    (env_u32 "CONROGATE_GATE_RATE_LIMIT_ROUTE_QPS" (rl_route_qps d))
    (env_u32 "CONROGATE_GATE_RATE_LIMIT_IP_QPS" (rl_ip_qps d))
    (env_u32 "CONROGATE_GATE_RATE_LIMIT_CONN_QPS" (rl_conn_qps d))
    (env_u32 "CONROGATE_GATE_RATE_LIMIT_BANDWIDTH_KBPS" (rl_bandwidth_kbps d))
    store.

Definition breaker_from_env (store : option RedisStoreConfig) (d : BreakerConfig) : BreakerConfig :=
  mkBreakerCfg (env_bool "CONROGATE_GATE_BREAKER_ENABLED" (br_enabled d))
    (env_duration_ms "CONROGATE_GATE_BREAKER_WINDOW_MS" (millis_u64 (br_window d)))
    (env_f64 "CONROGATE_GATE_BREAKER_FAILURE_RATE_THRESHOLD" (br_failure_rate_threshold d))
    (env_u32 "CONROGATE_GATE_BREAKER_MIN_REQUESTS" (br_min_requests d))
    (env_duration_ms "CONROGATE_GATE_BREAKER_WAIT_MS" (millis_u64 (br_wait d)))
    (env_u32 "CONROGATE_GATE_BREAKER_HALF_OPEN_MAX" (br_half_open_max d))
    store.

Definition adaptive_from_env (d : AdaptiveConcurrencyConfig) : AdaptiveConcurrencyConfig :=
  mkAdaptiveCfg (env_bool "CONROGATE_GATE_ADAPTIVE_CONCURRENCY_ENABLED" (ac_enabled d))
    (env_usize "CONROGATE_GATE_ADAPTIVE_CONCURRENCY_INITIAL_LIMIT" (ac_initial_limit d))
    (env_usize "CONROGATE_GATE_ADAPTIVE_CONCURRENCY_MIN_LIMIT" (ac_min_limit d))
    (env_usize "CONROGATE_GATE_ADAPTIVE_CONCURRENCY_MAX_LIMIT" (ac_max_limit d))
    (env_usize "CONROGATE_GATE_ADAPTIVE_CONCURRENCY_INCREASE_STEP" (ac_increase_step d))
    (env_f64 "CONROGATE_GATE_ADAPTIVE_CONCURRENCY_DECREASE_RATIO" (ac_decrease_ratio d))
    (env_duration_ms "CONROGATE_GATE_ADAPTIVE_CONCURRENCY_LATENCY_THRESHOLD_MS" (millis_u64 (ac_latency_threshold d)))
    (env_duration_ms "CONROGATE_GATE_ADAPTIVE_CONCURRENCY_WINDOW_MS" (millis_u64 (ac_window d)))
    (env_duration_ms "CONROGATE_GATE_ADAPTIVE_CONCURRENCY_ACQUIRE_TIMEOUT_MS" (millis_u64 (ac_acquire_timeout d))).

Definition retry_budget_from_env (d : RetryBudgetConfig) : RetryBudgetConfig :=
  mkBudgetCfg (env_bool "CONROGATE_GATE_RETRY_BUDGET_ENABLED" (rb_enabled d))
    (env_f64 "CONROGATE_GATE_RETRY_BUDGET_RATIO" (rb_budget_ratio d))
    (env_duration_ms "CONROGATE_GATE_RETRY_BUDGET_WINDOW_MS" (millis_u64 (rb_window d)))
    (env_u32 "CONROGATE_GATE_RETRY_BUDGET_MIN_REQUESTS" (u32_wrap (rb_min_requests d))).

Definition refresh_from_env (d : RefreshConfig) : RefreshConfig :=
  mkRefresh (env_duration_ms "CONROGATE_GATE_REFRESH_CONFIG_POLL_INTERVAL_MS" (millis_u64 (rf_config_poll_interval d)))
    (env_str "CONROGATE_GATE_REFRESH_CONFIG_SOURCE" (rf_config_source d))
    (env_str "CONROGATE_GATE_REFRESH_CONTROL_API_URL" (rf_control_api_url d))
    (env_str "CONROGATE_GATE_REFRESH_CONTROL_API_TOKEN" (rf_control_api_token d))
    (env_str "CONROGATE_GATE_REFRESH_CONTROL_API_PREFIX" (rf_control_api_prefix d))
    (env_str "CONROGATE_GATE_CONFIG_CACHE_REDIS_URL" (rf_config_cache_redis_url d))
    (env_duration_ms "CONROGATE_GATE_CONFIG_CACHE_REDIS_CONNECT_TIMEOUT_MS" (millis_u64 (rf_config_cache_connect_timeout d)))
    (env_u32 "CONROGATE_GATE_CONFIG_CACHE_SNAPSHOT_RETENTION" (rf_config_cache_snapshot_retention d)).

Definition upgrade_from_env (d : UpgradeConfig) : UpgradeConfig :=
  mkUpgrade (env_usize "CONROGATE_GATE_UPGRADE_BUFFER_SIZE_BYTES" (ug_buffer_size d))
    (env_duration_ms "CONROGATE_GATE_UPGRADE_IDLE_TIMEOUT_MS" (millis_u64 (ug_idle_timeout d))).

Definition telemetry_from_env (d : TelemetryConfig) : TelemetryConfig :=
  mkTelemetry (env_usize "CONROGATE_GATE_TELEMETRY_BATCH_SIZE" (tm_batch_size d))
    (env_duration_ms "CONROGATE_GATE_TELEMETRY_BATCH_INTERVAL_MS" (millis_u64 (tm_batch_interval d)))
    (env_usize "CONROGATE_GATE_TELEMETRY_BUFFER_MAX_MESSAGES" (tm_buffer_max_messages d))
    (env_duration_ms "CONROGATE_GATE_TELEMETRY_DB_RETRY_BACKOFF_MS" (millis_u64 (tm_db_retry_backoff d)))
    (env_duration_ms "CONROGATE_GATE_TELEMETRY_DB_RETRY_MAX_BACKOFF_MS" (millis_u64 (tm_db_retry_max_backoff d)))
    (env_u32 "CONROGATE_GATE_TELEMETRY_BUCKET_SEC" (tm_bucket_sec d)).

Definition access_log_from_env (d : AccessLogConfig) : AccessLogConfig :=
  mkAccessLog (env_bool "CONROGATE_GATE_ACCESS_LOG_ENABLED" (al_enabled d))
    (match env "CONROGATE_GATE_ACCESS_LOG_SKIP_PATHS" with
     | Some _ => env_list "CONROGATE_GATE_ACCESS_LOG_SKIP_PATHS"
     | None => al_skip_paths d
     end).

Definition control_listen_from_env (d : ControlListenConfig) : ControlListenConfig :=
  mkControlListen (env_bool "CONROGATE_CONTROL_LISTEN_ENABLED" (cl_enabled d))
    (env_str "CONROGATE_CONTROL_LISTEN_HOST" (cl_host d)) (env_u16 "CONROGATE_CONTROL_LISTEN_PORT" (cl_port d))
    (env_str "CONROGATE_CONTROL_LISTEN_API_PREFIX" (cl_api_prefix d))
    (tls_from_env "CONROGATE_CONTROL_LISTEN_TLS_ENABLED" "CONROGATE_CONTROL_LISTEN_TLS_MODE"
       "CONROGATE_CONTROL_LISTEN_TLS_CERT_FILE" "CONROGATE_CONTROL_LISTEN_TLS_KEY" (cl_tls d)).

Definition db_from_env (d : DbConfig) : DbConfig :=
  mkDb (env_str "CONROGATE_DB_URL" (db_url d)) (env_str "CONROGATE_DB_READ_URL" (db_read_url d))
    (env_u32 "CONROGATE_DB_MAX_CONNECTIONS" (db_max_connections d))
    (env_duration_ms "CONROGATE_DB_CONNECT_TIMEOUT_MS" (millis_u64 (db_connect_timeout d))).

Definition log_from_env (d : LogConfig) : LogConfig :=
  mkLog (env_str "CONROGATE_LOG_LEVEL" (lg_level d)) (env_str "CONROGATE_LOG_FORMAT" (lg_format d))
    (env_bool "CONROGATE_LOG_OUTPUT_CONSOLE" (lg_console d))
    (env_bool "CONROGATE_LOG_OUTPUT_FILE_ENABLED" (lg_file_enabled d))
    (env_str "CONROGATE_LOG_OUTPUT_FILE_PATH" (lg_file_path d))
    (env_u32 "CONROGATE_LOG_OUTPUT_FILE_ROTATION_SIZE_MB" (u32_wrap (lg_rotation_size_mb d)))
    (env_u32 "CONROGATE_LOG_OUTPUT_FILE_RETENTION_DAYS" (lg_retention_days d)).

Definition from_env : result Config ConrogateError :=
  let def := default_config in
  let g := cf_gate def in
  let rate_limit_mode := env_str "CONROGATE_GATE_RATE_LIMIT_MODE" (rl_mode (gt_rate_limit g)) in
  let? cluster_store :=
    cluster_store_from_env rate_limit_mode "CONROGATE_GATE_RATE_LIMIT_REDIS_URL"
      "CONROGATE_GATE_RATE_LIMIT_REDIS_CONNECT_TIMEOUT_MS"
      "rate_limit mode=cluster requires CONROGATE_GATE_RATE_LIMIT_REDIS_URL" (rl_cluster_store (gt_rate_limit g)) in
  let breaker_mode := env_str "CONROGATE_GATE_BREAKER_MODE" "local" in
  let? breaker_cluster_store :=
    cluster_store_from_env breaker_mode "CONROGATE_GATE_BREAKER_REDIS_URL"
      "CONROGATE_GATE_BREAKER_REDIS_CONNECT_TIMEOUT_MS"
      "breaker mode=cluster requires CONROGATE_GATE_BREAKER_REDIS_URL" (br_cluster_store (gt_breaker g)) in
  Ok (mkConfig
    (mkCommon (env_str "CONROGATE_INSTANCE_ID" (cm_instance_id (cf_common def))))
    (mkGate (gate_listen_from_env (gt_listen g)) (env_usize "CONROGATE_GATE_WORKER_THREADS" (gt_worker_threads g))
       (connection_from_env (gt_connection g)) (upstream_pool_from_env (gt_upstream_pool g))
       (timeouts_from_env (gt_timeouts g)) (retry_from_env (gt_retry g))
       (rate_limit_from_env rate_limit_mode cluster_store (gt_rate_limit g))
       (breaker_from_env breaker_cluster_store (gt_breaker g)) (adaptive_from_env (gt_adaptive_concurrency g))
       (retry_budget_from_env (gt_retry_budget g))
       (mkShutdown (env_duration_ms "CONROGATE_GATE_SHUTDOWN_LONG_CONN_DRAIN_MS" (millis_u64 (sd_long_conn_drain (gt_shutdown g)))))
       (refresh_from_env (gt_refresh g)) (upgrade_from_env (gt_upgrade g)) (telemetry_from_env (gt_telemetry g))
       (access_log_from_env (gt_access_log g))
       (mkOutboundTls (env_bool "CONROGATE_GATE_OUTBOUND_TLS_SKIP_VERIFY" (ot_skip_verify (gt_outbound_tls g))))
       (env_str "CONROGATE_GATE_ID" (gt_gate_id g)))
    (mkControl (control_listen_from_env (ct_listen (cf_control def)))
       (mkAuth (env_str "CONROGATE_CONTROL_AUTH_TOKEN" (au_token (ct_auth (cf_control def))))))
    (db_from_env (cf_db def))
    (log_from_env (cf_log def))).
End Env.

(** ** Validation *)

(** The checks in the order of the code: the condition of a refusal and its
    message. *)
Definition validate_adaptive (ac : AdaptiveConcurrencyConfig) : result unit ConrogateError :=
  if ac_enabled ac then
    if (ac_initial_limit ac <? ac_min_limit ac) || (ac_max_limit ac <? ac_initial_limit ac)
    then Err (ConfigInvalid "adaptive_concurrency: min_limit <= initial_limit <= max_limit required")
    else if leb (ac_decrease_ratio ac) zero || ltb one (ac_decrease_ratio ac)
    then Err (ConfigInvalid "adaptive_concurrency: decrease_ratio must be in (0.0, 1.0]")
    else Ok tt
  else Ok tt.

Definition validate_retry_budget (rb : RetryBudgetConfig) : result unit ConrogateError :=
  if rb_enabled rb then
    if leb (rb_budget_ratio rb) zero || ltb one (rb_budget_ratio rb)
    then Err (ConfigInvalid "retry_budget: budget_ratio must be in (0.0, 1.0]")
    else Ok tt
  else Ok tt.

Definition validate (c : Config) : result unit ConrogateError :=
  let g := cf_gate c in
  if is_empty (db_url (cf_db c)) then Err (ConfigInvalid "CONROGATE_DB_URL is required")
  else if gl_port (gt_listen g) =? 0 then Err (ConfigInvalid "gate port must be > 0")
  else if cl_enabled (ct_listen (cf_control c)) && (cl_port (ct_listen (cf_control c)) =? 0)
  then Err (ConfigInvalid "control port must be > 0")
  else if rl_enabled (gt_rate_limit g) && (rl_mode (gt_rate_limit g) =? "cluster")%string &&
          match rl_cluster_store (gt_rate_limit g) with None => true | Some _ => false end
  then Err (ConfigInvalid "rate_limit cluster mode requires redis_url")
  else if br_enabled (gt_breaker g) &&
          match br_cluster_store (gt_breaker g) with Some s => is_empty (rs_redis_url s) | None => false end
  then Err (ConfigInvalid "breaker cluster mode requires non-empty redis_url")
  else
    let? _ := validate_adaptive (gt_adaptive_concurrency g) in
    validate_retry_budget (gt_retry_budget g).

(** ** What the environment can do to a configuration *)

Definition is_u16 (z : Z) : Prop := 0 <= z <= u16_max.
Definition is_u32 (z : Z) : Prop := 0 <= z <= u32_max.
Definition is_u64 (z : Z) : Prop := 0 <= z <= u64_max.

(** A duration of whole milliseconds that fit a [u64]. *)
Definition is_millis (d : Z) : Prop := ∃ m, is_u64 m ∧ d = from_millis m.

(** A store that was configured has a URL. *)
Definition store_ok (s : option RedisStoreConfig) : Prop :=
  match s with Some s => is_empty (rs_redis_url s) = false ∧ is_millis (rs_connect_timeout s) | None => True end.

Definition rate_limit_typed (r : RateLimitConfig) : Prop :=
  is_u32 (rl_global_qps r) ∧ is_u32 (rl_route_qps r) ∧ is_u32 (rl_ip_qps r) ∧ is_u32 (rl_conn_qps r) ∧
  is_u32 (rl_bandwidth_kbps r) ∧ store_ok (rl_cluster_store r) ∧
  ((rl_mode r =? "cluster")%string = true → is_Some (rl_cluster_store r)).

Definition breaker_typed (b : BreakerConfig) : Prop :=
  is_millis (br_window b) ∧ is_u32 (br_min_requests b) ∧ is_millis (br_wait b) ∧ is_u32 (br_half_open_max b) ∧
  store_ok (br_cluster_store b).

Definition adaptive_typed (a : AdaptiveConcurrencyConfig) : Prop :=
  is_u64 (ac_initial_limit a) ∧ is_u64 (ac_min_limit a) ∧ is_u64 (ac_max_limit a) ∧ is_u64 (ac_increase_step a) ∧
  is_millis (ac_latency_threshold a) ∧ is_millis (ac_window a) ∧ is_millis (ac_acquire_timeout a).

Definition gate_typed (g : GateConfig) : Prop :=
  is_u16 (gl_port (gt_listen g)) ∧ is_u64 (gt_worker_threads g) ∧
  (is_u64 (cn_max_connections (gt_connection g)) ∧ is_u64 (cn_max_body_bytes (gt_connection g)) ∧
   is_u64 (cn_max_header_bytes (gt_connection g)) ∧ is_millis (cn_idle_timeout (gt_connection g))) ∧
  (is_u64 (up_max_idle_conns (gt_upstream_pool g)) ∧ is_millis (up_idle_timeout (gt_upstream_pool g))) ∧
  (is_millis (to_connect (gt_timeouts g)) ∧ is_millis (to_total (gt_timeouts g)) ∧ is_millis (to_read (gt_timeouts g))) ∧
  (is_u32 (re_max_attempts (gt_retry g)) ∧ is_millis (re_base_jitter (gt_retry g))) ∧
  rate_limit_typed (gt_rate_limit g) ∧ breaker_typed (gt_breaker g) ∧ adaptive_typed (gt_adaptive_concurrency g) ∧
  (is_millis (rb_window (gt_retry_budget g)) ∧ is_u32 (rb_min_requests (gt_retry_budget g))) ∧
  is_millis (sd_long_conn_drain (gt_shutdown g)) ∧
  (is_millis (rf_config_poll_interval (gt_refresh g)) ∧ is_millis (rf_config_cache_connect_timeout (gt_refresh g)) ∧
   is_u32 (rf_config_cache_snapshot_retention (gt_refresh g))) ∧
  (is_u64 (ug_buffer_size (gt_upgrade g)) ∧ is_millis (ug_idle_timeout (gt_upgrade g))) ∧
  (is_u64 (tm_batch_size (gt_telemetry g)) ∧ is_millis (tm_batch_interval (gt_telemetry g)) ∧
   is_u64 (tm_buffer_max_messages (gt_telemetry g)) ∧ is_millis (tm_db_retry_backoff (gt_telemetry g)) ∧
   is_millis (tm_db_retry_max_backoff (gt_telemetry g)) ∧ is_u32 (tm_bucket_sec (gt_telemetry g))).

Definition config_typed (c : Config) : Prop :=
  gate_typed (cf_gate c) ∧ is_u16 (cl_port (ct_listen (cf_control c))) ∧
  (is_u32 (db_max_connections (cf_db c)) ∧ is_millis (db_connect_timeout (cf_db c))) ∧
  (is_u32 (lg_rotation_size_mb (cf_log c)) ∧ is_u32 (lg_retention_days (cf_log c))).

Section EnvTypes.
Context (env : string → option string).

Lemma env_uint_range max k d :
  0 <= max → 0 <= d <= max → 0 <= default d (env k ≫= parse_uint max) <= max.
Proof.
  intros Hm Hd. destruct (env k) as [s|]; simpl; [|done].
  destruct (parse_uint max s) eqn:E; simpl; [|done]. by eapply parse_uint_range.
Qed.

Lemma env_u16_typed k d : is_u16 d → is_u16 (env_u16 env k d).
Proof. by apply env_uint_range. Qed.
Lemma env_u32_typed k d : is_u32 d → is_u32 (env_u32 env k d).
Proof. by apply env_uint_range. Qed.
Lemma env_usize_typed k d : is_u64 d → is_u64 (env_usize env k d).
Proof. by apply env_uint_range. Qed.
Lemma env_duration_typed k d : is_u64 d → is_millis (env_duration_ms env k d).
Proof. intros Hd. eexists. split; [by apply (env_uint_range u64_max k d)|done]. Qed.
End EnvTypes.

(** The store of a component that loaded. *)
Lemma cluster_store_ok env mode url timeout missing s :
  cluster_store_from_env env mode url timeout missing None = Ok s →
  store_ok s ∧ ((mode =? "cluster")%string = true → is_Some s).
Proof.
  unfold cluster_store_from_env. destruct (mode =? "cluster")%string; [|intros; simplify_eq; done].
  destruct (is_empty _) eqn:E; intros; simplify_eq. split; [|done]. split; [done|]. by apply env_duration_typed.
Qed.

(** A component is in cluster mode but has no URL. *)
Definition store_missing (env : string → option string) (mode_key url_key : string) : bool :=
  (env_str env mode_key "local" =? "cluster")%string && is_empty (env_str env url_key "").

Definition rate_limit_store_missing (env : string → option string) : bool :=
  store_missing env "CONROGATE_GATE_RATE_LIMIT_MODE" "CONROGATE_GATE_RATE_LIMIT_REDIS_URL".
Definition breaker_store_missing (env : string → option string) : bool :=
  store_missing env "CONROGATE_GATE_BREAKER_MODE" "CONROGATE_GATE_BREAKER_REDIS_URL".

Lemma cluster_store_missing env mode_key url timeout missing :
  (∃ s, cluster_store_from_env env (env_str env mode_key "local") url timeout missing None = Ok s ∧
        store_missing env mode_key url = false) ∨
  (cluster_store_from_env env (env_str env mode_key "local") url timeout missing None = Err (ConfigInvalid missing) ∧
   store_missing env mode_key url = true).
Proof.
  unfold cluster_store_from_env, store_missing. destruct (_ =? _)%string; [|left; by eexists].
  destruct (is_empty _); simpl; [by right|left; by eexists].
Qed.

Ltac open_from_env E :=
  unfold from_env in E; cbv zeta in E;
  cbn [cf_gate default_config gt_rate_limit default_rate_limit rl_mode rl_cluster_store gt_breaker default_breaker br_cluster_store] in E.

Lemma from_env_ok env parse_f64 c :
  from_env env parse_f64 = Ok c → rate_limit_store_missing env = false ∧ breaker_store_missing env = false ∧ config_typed c.
Proof.
  intros E. open_from_env E. unfold rate_limit_store_missing, breaker_store_missing. revert E.
  edestruct (cluster_store_missing env "CONROGATE_GATE_RATE_LIMIT_MODE") as [(s1 & E1 & ->)|[E1 ->]]; rewrite E1; [|done].
  edestruct (cluster_store_missing env "CONROGATE_GATE_BREAKER_MODE") as [(s2 & E2 & ->)|[E2 ->]]; rewrite E2; [|done].
  intros [= <-]. apply cluster_store_ok in E1 as [Hs1 Hm1]. apply cluster_store_ok in E2 as [Hs2 _].
  do 2 (split; [done|]).
  unfold config_typed, gate_typed, rate_limit_typed, breaker_typed, adaptive_typed.
  repeat match goal with |- _ ∧ _ => split end; cbn -[env_u16 env_u32 env_usize env_duration_ms];
    first [assumption | apply env_u16_typed | apply env_u32_typed | apply env_usize_typed | apply env_duration_typed];
    by vm_compute.
Qed.

(** C40. Loading the configuration: it fails exactly when the rate limiter, or
    else the breaker, is put in cluster mode without the URL of its store, with
    the message that names the missing variable; in every other environment,
    however malformed its values, it yields a configuration all of whose numbers
    lie in the ranges of their types and whose stores have URLs. *)
Theorem from_env_type env parse_f64 :
  match from_env env parse_f64 with
  | Err e =>
      if rate_limit_store_missing env
      then e = ConfigInvalid "rate_limit mode=cluster requires CONROGATE_GATE_RATE_LIMIT_REDIS_URL"
      else breaker_store_missing env = true ∧
           e = ConfigInvalid "breaker mode=cluster requires CONROGATE_GATE_BREAKER_REDIS_URL"
  | Ok c => rate_limit_store_missing env = false ∧ breaker_store_missing env = false ∧ config_typed c
  end.
Proof.
  destruct (from_env env parse_f64) as [c|e] eqn:E; [by apply from_env_ok in E|].
  open_from_env E. unfold rate_limit_store_missing, breaker_store_missing. revert E.
  edestruct (cluster_store_missing env "CONROGATE_GATE_RATE_LIMIT_MODE") as [(s1 & E1 & ->)|[E1 ->]]; rewrite E1; [|by intros [= <-]].
  edestruct (cluster_store_missing env "CONROGATE_GATE_BREAKER_MODE") as [(s2 & E2 & ->)|[E2 ->]]; rewrite E2; [done|by intros [= <-]].
Qed.

(** An environment that sets none of the gateway's variables yields the
    default configuration: the defaults used in reading agree with those of
    [Config::default], the conversions of durations through milliseconds and of
    numbers through narrower types included. *)
Theorem from_env_default env parse_f64 :
  (∀ k, starts_with "CONROGATE_" k = true → env k = None) →
  from_env env parse_f64 = Ok (default_config env).
Proof.
  intros H. unfold from_env, cluster_store_from_env, gate_listen_from_env, connection_from_env, upstream_pool_from_env,
    timeouts_from_env, retry_from_env, rate_limit_from_env, breaker_from_env, adaptive_from_env, retry_budget_from_env,
    refresh_from_env, upgrade_from_env, telemetry_from_env, access_log_from_env, control_listen_from_env, db_from_env,
    log_from_env, tls_from_env, env_str, env_bool, env_u16, env_u32, env_usize, env_f64, env_duration_ms, env_list.
  cbv zeta.
  repeat match goal with |- context [env (String ?a ?b)] => rewrite (H (String a b)) by done end.
  reflexivity.
Qed.

Definition sample_env (k : string) : option string := if (k =? "HOSTNAME")%string then Some "edge-1" else None.

Lemma from_env_default_witness :
  from_env sample_env (λ _, None) = Ok (default_config sample_env) ∧
  gt_gate_id (cf_gate (default_config sample_env)) = "edge-1".
Proof.
  split; [|reflexivity]. apply (from_env_default sample_env (λ _, None)). intros k Hk. unfold sample_env.
  destruct (String.eqb_spec k "HOSTNAME"); [by subst|done].
Defined.

Definition with_var (env : string → option string) (k v : string) : string → option string :=
  λ k', if (k' =? k)%string then Some v else env k'.

(** Numbers, sources and flags written to the environment are read back:
    the decimal form of a number that fits its type is that number, one that does
    not fit leaves the default instead of being truncated; a printed
    configuration source parses to itself, and no other text parses to it. *)
Theorem env_roundtrip env k (n : N) (d : Z) (src : ConfigSource) (s : string) :
  let env' := with_var env k (pretty n) in
  env_u16 env' k d = (if Z.of_N n <=? u16_max then Z.of_N n else d) ∧
  env_u32 env' k d = (if Z.of_N n <=? u32_max then Z.of_N n else d) ∧
  env_usize env' k d = (if Z.of_N n <=? u64_max then Z.of_N n else d) ∧
  env_duration_ms env' k d = from_millis (if Z.of_N n <=? u64_max then Z.of_N n else d) ∧
  (source_from_str s = Ok src ↔ s = source_display src).
Proof.
  cbv zeta. unfold env_u16, env_u32, env_usize, env_duration_ms, with_var. rewrite String.eqb_refl. simpl.
  rewrite !parse_uint_pretty by done. do 4 (split; [case_Z; (done || lia)|]).
  split; [|intros ->; by destruct src]. unfold source_from_str.
  repeat (case_match; [intros; simplify_eq; by apply String.eqb_eq|]). done.
Qed.
End Config.
