(* ===== verification/Tunnel.v ===== *)
(** Byte streams to the upstream: the DNS cache (conrogate-protocol/src/dns.rs),
    the throttled copy of a TCP tunnel (proxy.rs) and the handshake and relay of a
    WebSocket tunnel (upgrade.rs).

    A stream is the list of what its reads return. What a loop has done when the
    list is used up and the stream is still open is part of the result. *)
From Stdlib Require Import ZArith Lia Ascii String.
From stdpp Require Import base tactics option list gmap strings.
From S2P Require Import Prelude Text Errors.
#[local] Open Scope Z_scope.

(** ** The DNS cache *)

Module Dns.
Section Resolver.
Context {SocketAddr : Type} (parse_socket_addr : string → option SocketAddr).

Record DnsCacheEntry := mkDnsEntry { addrs : list SocketAddr; resolved_at : Z; ttl : Z }.
Record DnsResolver := mkResolver { cache : gmap string DnsCacheEntry; default_ttl : Z }.

Definition resolver_new : DnsResolver := mkResolver ∅ (from_secs 60).

(** The reading of the cache at the start of [resolve]. *)
Definition cached (r : DnsResolver) (addr : string) (now : Z) : option (list SocketAddr) :=
  match cache r !! addr with
  | Some e => if duration_since now (resolved_at e) <? ttl e then Some (addrs e) else None
  | None => None
  end.

Definition put_cache (r : DnsResolver) (key : string) (l : list SocketAddr) (now : Z) : DnsResolver :=
  mkResolver (<[key := mkDnsEntry l now (default_ttl r)]> (cache r)) (default_ttl r).

Definition clear (r : DnsResolver) : DnsResolver := mkResolver ∅ (default_ttl r).

(** The rest of [resolve], after a miss: [lookup] is the answer of
    [lookup_host] to the name asked, [now] the time of the writing, [r] the cache
    then. *)
Definition resolve_miss (lookup : string → result (list SocketAddr) string) (addr : string) (r : DnsResolver) (now : Z) :
    DnsResolver * result (list SocketAddr) string :=
  match rsplit_once ":" addr with
  | None =>
      match lookup addr with
      | Ok l => (put_cache r addr l now, Ok l)
      | Err e => (r, Err e)
      end
  | Some (host, port) =>
      match parse_socket_addr addr with
      | Some a => (put_cache r addr [a] now, Ok [a])
      | None =>
          match lookup (host +:+ ":" +:+ port) with
          | Ok [] => (r, Err ("DNS resolve failed: " +:+ addr))
          | Ok l => (put_cache r addr l now, Ok l)
          | Err e => (r, Err e)
          end
      end
  end.

(** [resolve]: other tasks may have turned [r] into [r'] in between. *)
Definition resolve (lookup : string → result (list SocketAddr) string) (addr : string) (r r' : DnsResolver) (t t' : Z) :
    DnsResolver * result (list SocketAddr) string :=
  match cached r addr t with
  | Some l => (r, Ok l)
  | None => resolve_miss lookup addr r' t'
  end.

(** ** What the cache holds *)

(** Where the addresses of a name come from: the name itself, or the resolver's
    answer to exactly that name. *)
Definition origin (lookup : string → result (list SocketAddr) string) (addr : string) (l : list SocketAddr) : Prop :=
  (∃ a, parse_socket_addr addr = Some a ∧ l = [a]) ∨ lookup addr = Ok l.

(** The caches that calls can leave behind, with the addresses found so far and
    when they were written, at time [t]. *)
Inductive reachable : DnsResolver → list (string * list SocketAddr * Z) → Z → Prop :=
| dr_new t : reachable resolver_new [] t
| dr_clear r log t : reachable r log t → reachable (clear r) log t
| dr_miss r log t t' lookup addr r' l : reachable r log t → t <= t' →
    resolve_miss lookup addr r t' = (r', Ok l) → reachable r' ((addr, l, t') :: log) t'
| dr_failed r log t t' lookup addr r' e : reachable r log t → t <= t' →
    resolve_miss lookup addr r t' = (r', Err e) → reachable r' log t'
| dr_wait r log t t' : reachable r log t → t <= t' → reachable r log t'.

Lemma target_is_addr addr host port : rsplit_once ":" addr = Some (host, port) → host +:+ ":" +:+ port = addr.
Proof. intros [-> _]%rsplit_once_spec. done. Qed.

Lemma resolve_miss_spec lookup addr r now r' x :
  resolve_miss lookup addr r now = (r', x) →
  match x with Ok l => r' = put_cache r addr l now ∧ origin lookup addr l | Err _ => r' = r end.
Proof.
  unfold resolve_miss, origin. destruct (rsplit_once ":" addr) as [[h p]|] eqn:E.
  - rewrite (target_is_addr _ _ _ E). destruct (parse_socket_addr addr) as [a|].
    + intros; simplify_eq. eauto.
    + destruct (lookup addr) as [[|a l]|e] eqn:El; intros; simplify_eq; eauto.
  - destruct (lookup addr) as [l|e] eqn:El; intros; simplify_eq; eauto.
Qed.

Lemma reachable_entries r log t :
  reachable r log t →
  default_ttl r = from_secs 60 ∧
  ∀ k e, cache r !! k = Some e → (k, addrs e, resolved_at e) ∈ log ∧ ttl e = from_secs 60 ∧ resolved_at e <= t.
Proof.
  induction 1 as [|r log t H [Hd IH]|r log t t' lookup addr r' l H [Hd IH] Ht E|r log t t' lookup addr r' e H [Hd IH] Ht E
                 |r log t t' H [Hd IH] Ht].
  - split; [done|]. intros k e. simpl. by rewrite lookup_empty.
  - split; [done|]. intros k e. simpl. by rewrite lookup_empty.
  - apply resolve_miss_spec in E as [-> _]. split; [done|]. intros k e. simpl.
    rewrite lookup_insert_Some. intros [[<- <-]|[_ He]]; simpl; [split_and!; [left|done|lia]|].
    destruct (IH k e He) as (? & ? & ?). split_and!; [by right|done|lia].
  - apply resolve_miss_spec in E as ->. split; [done|]. intros k e' He. destruct (IH k e' He) as (? & ? & ?).
    split_and!; [done|done|lia].
  - split; [done|]. intros k e He. destruct (IH k e He) as (? & ? & ?). split_and!; [done|done|lia].
Qed.

(** The DNS cache: whatever calls came before and wrote in between, the
    addresses a name resolves to are those of the name itself, or the resolver's
    own answer to exactly that name, obtained now or at most sixty seconds ago;
    and a name is not looked up again before they are older than that. *)
Theorem resolve_fresh lookup addr r r' log log' t t' r2 l :
  reachable r log t → reachable r' log' t' → t <= t' →
  resolve lookup addr r r' t t' = (r2, Ok l) →
  (origin lookup addr l ∧ cached r2 addr t' = Some l ∧ cached r addr t = None) ∨
  (r2 = r ∧ ∃ t0, (addr, l, t0) ∈ log ∧ t0 <= t < t0 + from_secs 60).
Proof.
  intros Hr Hr' Ht. destruct (reachable_entries _ _ _ Hr) as [_ He]. destruct (reachable_entries _ _ _ Hr') as [Hd _].
  unfold resolve. destruct (cached r addr t) as [l'|] eqn:Ec.
  - intros; simplify_eq. right. split; [done|]. unfold cached in Ec. destruct (cache r2 !! addr) as [e|] eqn:El; [|done].
    destruct (He _ _ El) as (Hin & Httl & Hle). destruct (Z.ltb_spec (duration_since t (resolved_at e)) (ttl e)); [|done].
    simplify_eq. exists (resolved_at e). split; [done|]. rewrite Httl in *. unfold duration_since in *. lia.
  - intros [-> Ho]%resolve_miss_spec. left. split; [done|]. split; [|done].
    unfold cached, put_cache. simpl. rewrite lookup_insert_eq. simpl. rewrite Hd. unfold duration_since.
    rewrite Z.sub_diag. done.
Qed.
End Resolver.

Definition sample_lookup (s : string) : result (list Z) string := if (s =? "db:5432")%string then Ok [7; 8] else Err "unknown".

Lemma resolve_fresh_witness :
  let r := (resolve_miss (λ _, None) sample_lookup "db:5432" resolver_new 10).1 in
  r = r ∧ ∃ t0, ("db:5432"%string, [7; 8], t0) ∈ [("db:5432"%string, [7; 8], 10)] ∧ t0 <= 20 < t0 + from_secs 60.
Proof.
  set (r := (resolve_miss (λ _, None) sample_lookup "db:5432" resolver_new 10).1). cbv zeta.
  assert (reachable (λ _ : string, None) r [("db:5432"%string, [7; 8], 10)] 10) as Hr.
  { apply (dr_miss _ resolver_new [] 0 10 sample_lookup); [apply dr_new|lia|reflexivity]. }
  destruct (resolve_fresh (λ _, None) sample_lookup "db:5432" r r [("db:5432"%string, [7; 8], 10)]
    [("db:5432"%string, [7; 8], 10)] 20 20 r [7; 8]) as [(_ & _ & H)|H].
  - apply (dr_wait _ _ _ 10); [exact Hr|lia].
  - apply (dr_wait _ _ _ 10); [exact Hr|lia].
  - lia.
  - reflexivity.
  - discriminate H.
  - exact H.
Defined.
End Dns.

(** ** Copying *)

Module Copy.

(** One turn of a copying loop: what the read returned and whether the write and
    the flush went through. *)
Record turn := mkTurn { rd : result string string; wr : result unit string; fl : result unit string }.

(** What the loop has done: the chunks written, the pauses in microseconds, and
    its result, if it has one yet. *)
Record copied := mkCopied { written : list string; pauses : list Z; outcome_of : option (result Z string) }.

Definition len (s : string) : Z := Z.of_nat (String.length s).

(** The pause after [n] bytes at [bps] bytes per second. *)
Definition pause (bps : option Z) (n : Z) : list Z :=
  match bps with
  | Some b => if b =? 0 then [] else let us := u64_wrap (n * 1000000) / b in if 0 <? us then [us] else []
  | None => []
  end.

(** [throttled_copy], [count] bytes into it. *)
Fixpoint throttled_copy (bps : option Z) (turns : list turn) (count : Z) : copied :=
  match turns with
  | [] => mkCopied [] [] None
  | t :: rest =>
      match rd t with
      | Err e => mkCopied [] [] (Some (Err e))
      | Ok chunk =>
          if len chunk =? 0 then mkCopied [] [] (Some (Ok count))
          else
            match wr t, fl t with
            | Err e, _ => mkCopied [] [] (Some (Err e))
            | Ok _, Err e => mkCopied [chunk] [] (Some (Err e))
            | Ok _, Ok _ =>
                let c := throttled_copy bps rest (u64_wrap (count + len chunk)) in
                mkCopied (chunk :: written c) (pause bps (len chunk) ++ pauses c) (outcome_of c)
            end
      end
  end.

Lemma len_app a b : len (a +:+ b) = len a + len b.
Proof. unfold len. induction a as [|x a IH]; [done|]. rewrite app_cons_string. cbn [String.length]. lia. Qed.
Lemma len_nonneg s : 0 <= len s.
Proof. unfold len. lia. Qed.

Definition total (l : list string) : Z := sumZ (map len l).

(** The chunks that were read. *)
Fixpoint chunks (turns : list turn) : list string :=
  match turns with
  | [] => []
  | t :: rest => match rd t with Ok c => if len c =? 0 then [] else c :: chunks rest | Err _ => [] end
  end.

(** The buffer of the loop. *)
Definition fits (turns : list turn) : Prop := Forall (λ t, match rd t with Ok c => len c <= 8192 | Err _ => True end) turns.

Lemma pause_bounds b n :
  0 < b → 0 <= n <= 8192 → sumZ (pause (Some b) n) * b <= n * 1000000 < (sumZ (pause (Some b) n) + 1) * b.
Proof.
  intros Hb Hn. unfold pause. rewrite (proj2 (Z.eqb_neq b 0)) by lia. rewrite u64_wrap_small by lia.
  pose proof (Z.div_mod (n * 1000000) b ltac:(lia)). pose proof (Z.mod_pos_bound (n * 1000000) b Hb).
  destruct (Z.ltb_spec 0 (n * 1000000 / b)); simpl; [lia|].
  assert (0 <= n * 1000000 / b) by (apply Z.div_pos; lia). nia.
Qed.

#[local] Arguments pause : simpl never.

(** The loop from [count] on; the count must not wrap around. *)
Lemma throttled_copy_from b turns count :
  0 < b → fits turns → 0 <= count → count + total (chunks turns) < 2 ^ 64 →
  let c := throttled_copy (Some b) turns count in
  written c `prefix_of` chunks turns ∧
  (∀ n, outcome_of c = Some (Ok n) → written c = chunks turns ∧ n = count + total (written c)) ∧
  sumZ (pauses c) * b <= total (written c) * 1000000 ∧
  ((∀ e, outcome_of c ≠ Some (Err e)) →
     total (written c) * 1000000 <= (sumZ (pauses c) + Z.of_nat (length (written c))) * b).
Proof.
  intros Hb Hf. revert count. induction Hf as [|[[chunk|e] w f] turns Hc Hf IH]; intros count Hn Ht; simpl in *.
  - split_and!; [done|done|done|done].
  - destruct (Z.eqb_spec (len chunk) 0) as [Hz|Hz]; [split_and!; [done| |done|done]|].
    { simpl. intros n ?. simplify_eq. split; [done|]. change (total []) with 0. lia. }
    pose proof (len_nonneg chunk). unfold total in Ht. simpl in Ht. fold (total (chunks turns)) in Ht.
    assert (0 <= total (chunks turns)) as Htot.
    { apply sumZ_nonneg, Forall_fmap, Forall_true. intros s. apply len_nonneg. }
    destruct w as [_|ew], f as [_|ef]; cycle 1; simpl.
    1: { split_and!; [by apply prefix_cons, prefix_nil|done|unfold total; simpl; lia|intros He; by destruct (He ef)]. }
    1, 2: split_and!; [apply prefix_nil|done|done|intros He; by destruct (He ew)].
    destruct (IH (u64_wrap (count + len chunk))) as (H1 & H2 & H3 & H4);
      [rewrite u64_wrap_small; lia|rewrite u64_wrap_small; lia|].
    pose proof (pause_bounds b (len chunk) Hb ltac:(lia)) as [P1 P2].
    rewrite sumZ_app. unfold total in *. simpl. split_and!; [by apply prefix_cons| |nia|].
    + intros n Hr. destruct (H2 n Hr) as [-> ->]. split; [done|]. rewrite u64_wrap_small; lia.
    + intros He. specialize (H4 He). cbn [length]. nia.
  - split_and!; [done|done|done|intros He; by destruct (He e)].
Qed.

(** A throttled copy delivers what it reads, in order and unchanged: what was
    written is a beginning of what was read, the whole of it when the copy ends
    well, and then the result counts exactly its bytes. With a limit of [b] bytes
    per second it pauses no longer than the bytes take at that rate and, unless a
    write failed, at most a microsecond less for each chunk: apart from that
    rounding the tunnel does not run faster than its limit. *)
Theorem throttled_copy_delivers b turns :
  0 < b → fits turns → total (chunks turns) < 2 ^ 64 →
  let c := throttled_copy (Some b) turns 0 in
  written c `prefix_of` chunks turns ∧
  (∀ n, outcome_of c = Some (Ok n) → written c = chunks turns ∧ n = total (written c)) ∧
  sumZ (pauses c) * b <= total (written c) * 1000000 ∧
  ((∀ e, outcome_of c ≠ Some (Err e)) →
     total (written c) * 1000000 <= (sumZ (pauses c) + Z.of_nat (length (written c))) * b).
Proof. intros Hb Hf Ht. apply (throttled_copy_from b turns 0); [done|done|lia|lia]. Qed.

Definition sample_turns : list turn :=
  [mkTurn (Ok "hello ") (Ok tt) (Ok tt); mkTurn (Ok "world") (Ok tt) (Ok tt); mkTurn (Ok "") (Ok tt) (Ok tt)].

Lemma throttled_copy_delivers_witness :
  let c := throttled_copy (Some 1024) sample_turns 0 in
  outcome_of c = Some (Ok 11) ∧ pauses c = [5859; 4882] ∧ sumZ (pauses c) * 1024 <= total (written c) * 1000000.
Proof.
  cbv zeta. split; [reflexivity|]. split; [reflexivity|].
  destruct (throttled_copy_delivers 1024 sample_turns) as (_ & _ & H & _); [lia| |reflexivity|exact H].
  repeat (constructor; [simpl; unfold len; simpl; lia|]). constructor.
Defined.
End Copy.

(** ** The WebSocket tunnel *)

Module WebSocket.
Import Copy.

Definition cr : ascii := ascii_of_nat 13.
Definition lf : ascii := ascii_of_nat 10.
Definition blank_line : string := String cr (String lf (String cr (String lf EmptyString))).

(** Step 3 of [forward_websocket]: read until the head is complete. [None] while
    the upstream may still send. The reads that are left over are returned. *)
Fixpoint read_head (buf : string) (reads : list (result string string)) :
    option (result (string * list (result string string)) string) :=
  match reads with
  | [] => None
  | Err e :: _ => Some (Err e)
  | Ok chunk :: rest =>
      if len chunk =? 0 then Some (Err "upstream closed before accepting upgrade")
      else
        let buf := buf +:+ chunk in
        if contains blank_line buf then Some (Ok (buf, rest))
        else if 8192 <? len buf then Some (Err "upgrade response too large")
        else read_head buf rest
  end.

Definition status_line (buf : string) : string := default EmptyString (head (split_on lf buf)).

Definition accepted (line : string) : bool :=
  starts_with "HTTP/1.1 101" line || starts_with "HTTP/1.1 2" line ||
  starts_with "HTTP/2 101" line || starts_with "HTTP/2 2" line.

(** The bytes after the head. *)
Definition early_frames (buf : string) : string :=
  match split_after blank_line buf with Some (_, t) => t | None => EmptyString end.

(** The handshake: the frames that came with it and the reads left for the
    relay. *)
Definition handshake (reads : list (result string string)) : option (result (string * list (result string string)) string) :=
  match read_head EmptyString reads with
  | None => None
  | Some (Err e) => Some (Err e)
  | Some (Ok (buf, rest)) =>
      if accepted (status_line buf) then Some (Ok (early_frames buf, rest))
      else Some (Err "upstream rejected websocket upgrade")
  end.

(** The relay from the upstream to the client: a read that waits too long is an
    error. What is written to the client, and how the direction ended. *)
Fixpoint relay (reads : list (result string string)) : list string * option (result unit string) :=
  match reads with
  | [] => ([], None)
  | Err e :: _ => ([], Some (Err e))
  | Ok chunk :: rest =>
      if len chunk =? 0 then ([], Some (Ok tt))
      else let '(w, r) := relay rest in (chunk :: w, r)
  end.

(** What the client receives over the tunnel, the writes going through. *)
Definition to_client (reads : list (result string string)) : list string :=
  match handshake reads with
  | Some (Ok (early, rest)) => (if is_empty early then [] else [early]) ++ (relay rest).1
  | _ => []
  end.

Definition concat_str (l : list string) : string := foldr String.append EmptyString l.

(** The bytes the upstream sent. *)
Definition sent_bytes (reads : list (result string string)) : string := concat_str (relay reads).1.

Lemma concat_str_app l k : concat_str (l ++ k) = concat_str l +:+ concat_str k.
Proof. induction l as [|x l IH]; [done|]. simpl. unfold concat_str in *. simpl. rewrite IH. apply string_app_assoc. Qed.

Lemma read_head_spec buf reads buf' rest :
  read_head buf reads = Some (Ok (buf', rest)) →
  contains blank_line buf' = true ∧ buf' +:+ sent_bytes rest = buf +:+ sent_bytes reads ∧
  ((∀ c, Ok c ∈ reads → len c <= 256) → len buf <= 8192 → len buf' <= 8192 + 256).
Proof.
  revert buf. induction reads as [|[chunk|e] reads IH]; intros buf; simpl; [done| |done].
  unfold sent_bytes in *. simpl. destruct (Z.eqb_spec (len chunk) 0); [done|].
  destruct (relay reads) as [w r] eqn:Er. simpl in *.
  destruct (contains blank_line (buf +:+ chunk)) eqn:Ec.
  - intros; simplify_eq. rewrite Er. simpl. split_and!; [done|symmetry; apply string_app_assoc|].
    intros Hk ?. rewrite len_app. specialize (Hk chunk ltac:(left)). lia.
  - destruct (Z.ltb_spec 8192 (len (buf +:+ chunk))); [done|].
    intros (H1 & H2 & H3)%IH. split_and!; [done|rewrite H2; symmetry; apply string_app_assoc|].
    intros Hk ?. apply H3; [|done]. intros c Hc. apply Hk. by right.
Qed.

(** The WebSocket tunnel loses no byte of the upstream: once the handshake is
    accepted, the client receives everything the upstream sent after the first
    blank line, the frames that arrived with the answer first, and nothing of the
    answer itself; the answer is bounded, and its status line said 101 or 2xx. *)
Theorem ws_tunnel_delivers reads early rest :
  (∀ c, Ok c ∈ reads → len c <= 256) →
  handshake reads = Some (Ok (early, rest)) →
  ∃ answer, sent_bytes reads = answer +:+ concat_str (to_client reads) ∧
    (∃ h, answer = h +:+ blank_line) ∧ len answer <= 8192 + 256 ∧
    split_after blank_line (sent_bytes reads) = Some (answer, concat_str (to_client reads)) ∧
    accepted (status_line answer) = true.
Proof.
  intros Hc. unfold to_client, handshake. destruct (read_head EmptyString reads) as [[[buf rest']|e]|] eqn:E; [|done..].
  apply read_head_spec in E as (Hb & Hs & Hl). rewrite app_nil_string in Hs. specialize (Hl Hc ltac:(done)).
  destruct (accepted (status_line buf)) eqn:Ea; [|done]. intros; simplify_eq.
  apply split_after_contains in Hb as [[answer t] Ht]. unfold early_frames in *. rewrite Ht.
  pose proof (split_after_app _ _ _ _ Ht) as Hbuf. destruct (split_after_head _ _ _ _ Ht) as [h Hh].
  assert (concat_str ((if is_empty t then [] else [t]) ++ (relay rest).1) = t +:+ sent_bytes rest) as ->.
  { rewrite concat_str_app. f_equal. destruct t; [done|]. simpl. unfold concat_str. simpl. by rewrite string_app_nil_r. }
  exists answer. rewrite <-Hs. split_and!.
  - by rewrite Hbuf, string_app_assoc.
  - by exists h.
  - rewrite Hbuf, len_app in Hl. pose proof (len_nonneg t). lia.
  - by apply split_after_extend.
  - revert Ea. unfold status_line. rewrite Hbuf, split_on_head; [done|]. rewrite Hh, count_char_app. simpl. lia.
Qed.

Definition sample_reads : list (result string string) :=
  [Ok ("HTTP/1.1 101 OK" +:+ String cr (String lf EmptyString)); Ok (String cr (String lf "frame1")); Ok "frame2"; Ok ""].

Lemma ws_tunnel_delivers_witness :
  to_client sample_reads = ["frame1"; "frame2"]%string ∧
  ∃ answer, sent_bytes sample_reads = answer +:+ concat_str (to_client sample_reads) ∧ accepted (status_line answer) = true.
Proof.
  split; [reflexivity|].
  destruct (ws_tunnel_delivers sample_reads "frame1" [Ok "frame2"%string; Ok ""%string]) as (answer & H1 & _ & _ & _ & H2);
    [|reflexivity|by exists answer].
  intros c Hc. unfold sample_reads in Hc. rewrite !elem_of_cons in Hc. unfold len.
  destruct Hc as [Hc|[Hc|[Hc|[Hc|Hc]]]]; [injection Hc as ->; simpl; lia..|by apply not_elem_of_nil in Hc].
Defined.
End WebSocket.
