(* ===== verification/WsTunnel.v ===== *)
(** The WebSocket tunnel from its connection to its end: the request that is sent
    upstream, and both directions under [try_join]
    (conrogate-protocol/src/upgrade.rs, [forward_websocket] and
    [serialize_request]); the handshake between them is in Tunnel.

    A direction is a machine that one system call at a time moves on; a call may
    return at any moment, so the tunnel takes any sequence of completed calls of
    either side. *)
From Stdlib Require Import ZArith Lia Ascii String.
From stdpp Require Import base tactics option list strings.
From S2P Require Import Prelude Text Errors Tunnel.
#[local] Open Scope Z_scope.

Module WsTunnel.
Import Copy WebSocket.

(** ** The request sent upstream *)

(** A request of the http crate, as far as it is written out: the target is the
    path and query, when the URI has one. *)
Record Request := mkRequest {
  method : string;
  path_and_query : option string;
  headers : list (string * string);
  body : string;
}.

Definition crlf : string := String cr (String lf EmptyString).
Definition colon : string := ": ".

Definition request_line (r : Request) : string :=
  method r +:+ " " +:+ default "/" (path_and_query r) +:+ " HTTP/1.1".

Fixpoint header_lines (l : list (string * string)) : string :=
  match l with
  | [] => EmptyString
  | (name, value) :: l' => name +:+ colon +:+ value +:+ crlf +:+ header_lines l'
  end.

Definition serialize_request (r : Request) : string :=
  request_line r +:+ crlf +:+ header_lines (headers r) +:+ crlf +:+ body r.

(** What the receiver makes of it: the text up to the first [pat], and after it. *)
Fixpoint cut (pat s : string) : option (string * string) :=
  match strip_prefix pat s with
  | Some t => Some (EmptyString, t)
  | None =>
      match s with
      | EmptyString => None
      | String a r => match cut pat r with Some (h, t) => Some (String a h, t) | None => None end
      end
  end.

(** Field lines up to the first empty line. *)
Fixpoint parse_fields (fuel : nat) (s : string) : option (list (string * string) * string) :=
  match cut crlf s with
  | None => None
  | Some (line, t) =>
      if is_empty line then Some ([], t)
      else
        match fuel, cut colon line with
        | S k, Some (name, value) =>
            match parse_fields k t with Some (l, b) => Some ((name, value) :: l, b) | None => None end
        | _, _ => None
        end
  end.

(** The request line, the fields and the body. *)
Definition parse_request (s : string) : option (string * list (string * string) * string) :=
  match cut crlf s with
  | None => None
  | Some (line, t) =>
      match parse_fields (String.length t) t with Some (l, b) => Some (line, l, b) | None => None end
  end.

(** The names and values the http crate lets in: no carriage return anywhere, no
    colon in a name. *)
Definition no_cr (s : string) : Prop := count_char cr s = 0%nat.
Definition field_ok (f : string * string) : Prop := no_cr f.1 ∧ no_cr f.2 ∧ count_char ":" f.1 = 0%nat.
Definition request_ok (r : Request) : Prop :=
  no_cr (method r) ∧ no_cr (default "/" (path_and_query r)) ∧ Forall field_ok (headers r).

Lemma cut_first c p a b : count_char c a = 0%nat → cut (String c p) (a +:+ String c p +:+ b) = Some (a, b).
Proof.
  induction a as [|x a IH]; intros Ha.
  - rewrite app_nil_string. pose proof (proj2 (strip_prefix_app (String c p) _ b) eq_refl) as E.
    rewrite app_cons_string in *. cbn [cut]. by rewrite E.
  - cbn [count_char] in Ha. rewrite app_cons_string. cbn [cut strip_prefix].
    case_bool_decide; [done|]. rewrite (bool_decide_false (c = x)) by congruence. rewrite IH by lia. done.
Qed.

Lemma cut_crlf a b : no_cr a → cut crlf (a +:+ crlf +:+ b) = Some (a, b).
Proof. exact (cut_first cr (String lf EmptyString) a b). Qed.
Lemma cut_colon a b : count_char ":" a = 0%nat → cut colon (a +:+ colon +:+ b) = Some (a, b).
Proof. exact (cut_first ":" " " a b). Qed.

Lemma header_lines_length l : (length l <= String.length (header_lines l))%nat.
Proof.
  induction l as [|[n v] l IH]; [done|]. cbn [header_lines length]. rewrite !length_append.
  change (String.length crlf) with 2%nat. lia.
Qed.

Lemma parse_fields_lines l b fuel :
  Forall field_ok l → (length l <= fuel)%nat → parse_fields fuel (header_lines l +:+ crlf +:+ b) = Some (l, b).
Proof.
  intros Hl. revert fuel. induction Hl as [|[n v] l (Hn & Hv & Hc) Hl IH]; intros fuel Hf.
  - cbn [header_lines]. pose proof (cut_crlf EmptyString b eq_refl) as E. rewrite app_nil_string in *.
    destruct fuel; cbn [parse_fields]; by rewrite E.
  - destruct fuel as [|fuel]; simpl in Hf; [lia|]. cbn [header_lines parse_fields].
    assert ((n +:+ colon +:+ v +:+ crlf +:+ header_lines l) +:+ crlf +:+ b =
      (n +:+ colon +:+ v) +:+ crlf +:+ (header_lines l +:+ crlf +:+ b)) as -> by (by rewrite !string_app_assoc).
    assert (no_cr (n +:+ colon +:+ v)) as Hcr.
    { unfold no_cr in *. simpl in *. rewrite !count_char_app, Hn, Hv. done. }
    rewrite (cut_crlf _ _ Hcr).
    assert (is_empty (n +:+ colon +:+ v) = false) as -> by (by destruct n).
    rewrite (cut_colon n v Hc), IH by (done || lia). done.
Qed.

(** Serialisation: a receiver that reads lines gets the request line, exactly
    the fields in their order, and the body; nothing of a field or of the body is
    taken for another field. *)
Theorem serialize_request_roundtrip r :
  request_ok r → parse_request (serialize_request r) = Some (request_line r, headers r, body r).
Proof.
  intros (Hm & Hp & Hh). unfold parse_request, serialize_request.
  assert (no_cr (request_line r)) as Hl.
  { unfold no_cr, request_line in *. rewrite !count_char_app, Hm, Hp. done. }
  rewrite (cut_crlf _ _ Hl), parse_fields_lines; [done|done|].
  rewrite length_append. pose proof (header_lines_length (headers r)). lia.
Qed.

(** ** One direction *)

(** Where a direction stands: in a read, in [write_all] with what is left of it, in
    a flush, in the final shutdown, or ended. *)
Inductive place := Reading | Writing (rest : string) | Flushing | Closing | Ended (r : result unit string).

(** [taken]: what its reads returned; [given]: what the other side accepted. *)
Record direction := mkDirection { at_ : place; taken : string; given : string }.

(** A completed call: a read, the idle timeout of a read, a write of some bytes, a
    flush, the shutdown. *)
Inductive io :=
| Got (r : result string string)
| TimedOut
| Wrote (r : result Z string)
| Flushed (r : result unit string)
| Closed.

Fixpoint split_at (n : nat) (s : string) : string * string :=
  match n, s with
  | S k, String c r => let '(h, t) := split_at k r in (String c h, t)
  | _, _ => (EmptyString, s)
  end.

(** The loop of [c2s] and [s2c]; [idle] is the text of its timeout. A write of no
    byte makes [write_all] fail. A call the direction is not in changes nothing. *)
Definition dir_step (idle : string) (d : direction) (e : io) : direction :=
  match at_ d, e with
  | Reading, Got (Ok c) =>
      if len c =? 0 then mkDirection Closing (taken d) (given d)
      else mkDirection (Writing c) (taken d +:+ c) (given d)
  | Reading, Got (Err m) => mkDirection (Ended (Err m)) (taken d) (given d)
  | Reading, TimedOut => mkDirection (Ended (Err idle)) (taken d) (given d)
  | Writing rest, Wrote (Ok n) =>
      if n <=? 0 then mkDirection (Ended (Err "failed to write whole buffer")) (taken d) (given d)
      else
        let '(out, over) := split_at (Z.to_nat n) rest in
        mkDirection (if is_empty over then Flushing else Writing over) (taken d) (given d +:+ out)
  | Writing _, Wrote (Err m) => mkDirection (Ended (Err m)) (taken d) (given d)
  | Flushing, Flushed (Ok _) => mkDirection Reading (taken d) (given d)
  | Flushing, Flushed (Err m) => mkDirection (Ended (Err m)) (taken d) (given d)
  | Closing, Closed => mkDirection (Ended (Ok tt)) (taken d) (given d)
  | _, _ => d
  end.

(** ** Both directions *)

Record tunnel := mkTunnel { c2s : direction; s2c : direction; joined : option (result unit string) }.

(** The frames that came with the handshake are written to the client first. *)
Definition relay_start (early : string) : tunnel :=
  mkTunnel (mkDirection Reading EmptyString EmptyString)
    (mkDirection (if is_empty early then Reading else Writing early) early EmptyString) None.

(** [try_join!]: the first error ends it, and drops the other direction where it
    is; otherwise both have to end. *)
Definition try_join (a b : direction) : option (result unit string) :=
  match at_ a, at_ b with
  | Ended (Err e), _ => Some (Err e)
  | _, Ended (Err e) => Some (Err e)
  | Ended (Ok _), Ended (Ok _) => Some (Ok tt)
  | _, _ => None
  end.

Inductive side := FromClient (e : io) | FromUpstream (e : io).

Definition relay_step (t : tunnel) (s : side) : tunnel :=
  match joined t with
  | Some _ => t
  | None =>
      let '(a, b) :=
        match s with
        | FromClient e => (dir_step "client idle timeout" (c2s t) e, s2c t)
        | FromUpstream e => (c2s t, dir_step "upstream idle timeout" (s2c t) e)
        end in
      mkTunnel a b (try_join a b)
  end.

(** ** [forward_websocket] *)

(** What the set-up finds: the addresses, the connection ([None]: not made in
    time), the writing of the request, the reads of the answer. *)
Record setup := mkSetup {
  resolved : result (list string) string;
  connected : option (result unit string);
  sent : result unit string;
  flushed : result unit string;
  answers : list (result string string);
}.

(** How far the call has come. *)
Inductive forwarding :=
| Refused (e : string)
| Waiting
| Relaying (t : tunnel).

(** Up to the relay; [Waiting] for the rest of the answer. *)
Definition open_tunnel (e : setup) : forwarding :=
  match resolved e with
  | Err m => Refused m
  | Ok _ =>
      match connected e with
      | None => Refused "upstream connect timeout"
      | Some (Err m) => Refused m
      | Some (Ok _) =>
          match sent e, flushed e with
          | Err m, _ => Refused m
          | Ok _, Err m => Refused m
          | Ok _, Ok _ =>
              match handshake (answers e) with
              | None => Waiting
              | Some (Err m) => Refused m
              | Some (Ok (early, _)) => Relaying (relay_start early)
              end
          end
      end
  end.

Definition forward_websocket (e : setup) (calls : list side) : forwarding :=
  match open_tunnel e with
  | Relaying t => Relaying (foldl relay_step t calls)
  | f => f
  end.

(** The result of the call, once it has one. *)
Definition forwarded (f : forwarding) : option (result unit string) :=
  match f with Refused m => Some (Err m) | Waiting => None | Relaying t => joined t end.

(** ** What the relay keeps *)

(** Read but not yet accepted by the other side. *)
Definition pending (d : direction) (lost : string) : Prop :=
  match at_ d with
  | Writing rest => lost = rest
  | Ended (Err _) => True
  | _ => lost = EmptyString
  end.

(** Nothing but the bytes still to be written is missing. *)
Definition faithful (d : direction) : Prop := ∃ lost, pending d lost ∧ taken d = given d +:+ lost.

Lemma split_at_app n s : (split_at n s).1 +:+ (split_at n s).2 = s.
Proof.
  revert s. induction n as [|n IH]; intros [|c s]; [done..|]. cbn [split_at]. specialize (IH s).
  destruct (split_at n s) as [h t]. simpl in *. by rewrite app_cons_string, IH.
Qed.

Lemma dir_step_faithful idle d e : faithful d → faithful (dir_step idle d e).
Proof.
  intros (lost & Hp & Ht). unfold faithful, dir_step, pending in *. destruct d as [p tk g]. simpl in *.
  assert (∃ l, tk = g +:+ l) as Hany by eauto.
  destruct p as [|rest| | |r]; destruct e as [[c|m]| |[n|m]|[u|m]|]; simpl; subst; try (by eauto).
  - destruct (Z.eqb_spec (len c) 0); simpl; [by eauto|]. exists c. split; [done|]. by rewrite string_app_nil_r.
  - destruct (Z.leb_spec n 0); simpl; [by eauto|]. pose proof (split_at_app (Z.to_nat n) rest) as E.
    destruct (split_at (Z.to_nat n) rest) as [out over]. simpl in *. exists over.
    destruct over; simpl; (split; [done|]); by rewrite <-E, string_app_assoc.
Qed.

(** The state a relay can be in. *)
Definition relay_ok (t : tunnel) : Prop :=
  faithful (c2s t) ∧ faithful (s2c t) ∧ joined t = try_join (c2s t) (s2c t).

Lemma relay_start_ok early : relay_ok (relay_start early).
Proof.
  unfold relay_ok, relay_start, faithful, pending. simpl. split_and!; [by exists EmptyString| |].
  - destruct early; simpl; eauto.
  - unfold try_join. simpl. by destruct (is_empty early).
Qed.

Lemma relay_step_ok t s : relay_ok t → relay_ok (relay_step t s).
Proof.
  intros H. unfold relay_step. destruct (joined t) as [r|] eqn:E; [exact H|]. destruct H as (Ha & Hb & Hj).
  unfold relay_ok. destruct s; cbn [c2s s2c joined]; (split; [|split]); auto using dir_step_faithful.
Qed.

Lemma relay_run_ok t calls : relay_ok t → relay_ok (foldl relay_step t calls).
Proof. revert t. induction calls as [|c calls IH]; intros t Ht; [done|]. apply IH. by apply relay_step_ok. Qed.

(** What [taken] is: the bytes of the reads that completed while the relay ran. *)
Lemma dir_step_taken idle d e :
  taken (dir_step idle d e) = taken d +:+ match at_ d, e with Reading, Got (Ok c) => c | _, _ => EmptyString end.
Proof.
  unfold dir_step. destruct d as [[|rest| | |r] tk g]; destruct e as [[c|m]| |[n|m]|[u|m]|]; simpl;
    rewrite ?string_app_nil_r; try done.
  - destruct (Z.eqb_spec (len c) 0) as [Hc|]; [|done]. unfold len in Hc. destruct c; [|simpl in Hc; lia].
    by rewrite string_app_nil_r.
  - destruct (n <=? 0); [done|]. by destruct (split_at (Z.to_nat n) rest).
Qed.

(** The buffer of a direction, and the calls whose reads fit into it. *)
Definition buf_size (buffer_size : Z) : Z := Z.max buffer_size 1.

Definition fits (n : Z) (s : side) : Prop :=
  match s with FromClient (Got (Ok c)) | FromUpstream (Got (Ok c)) => len c <= buf_size n | _ => True end.

(** The bytes a direction holds between a read and the end of its writing. *)
Definition held (d : direction) : Z := match at_ d with Writing rest => len rest | _ => 0 end.

Lemma len_split_at n s : len (split_at n s).2 <= len s.
Proof. pose proof (split_at_app n s) as E. apply (f_equal len) in E. rewrite len_app in E. pose proof (len_nonneg (split_at n s).1). lia. Qed.

Lemma dir_step_held idle d e b :
  0 <= b → match e with Got (Ok c) => len c <= b | _ => True end → held d <= b → held (dir_step idle d e) <= b.
Proof.
  intros Hb He. unfold held, dir_step. destruct d as [[|rest| | |r] tk g]; destruct e as [[c|m]| |[n|m]|[u|m]|]; simpl in *; try done.
  - destruct (len c =? 0); simpl; lia.
  - destruct (n <=? 0); [done|]. pose proof (len_split_at (Z.to_nat n) rest) as E.
    destruct (split_at (Z.to_nat n) rest) as [out over]. simpl in *. destruct (is_empty over); simpl; lia.
Qed.

Lemma relay_held n b t calls :
  buf_size n <= b → Forall (fits n) calls → held (c2s t) <= b → held (s2c t) <= b →
  held (c2s (foldl relay_step t calls)) <= b ∧ held (s2c (foldl relay_step t calls)) <= b.
Proof.
  intros Hb Hf. revert t. induction Hf as [|s calls Hs Hf IH]; intros t Ha Hc; [done|]. apply IH.
  all: unfold relay_step; destruct (joined t); [done|]; unfold buf_size in *; destruct s as [e|e]; simpl; try done;
    apply dir_step_held; try done; try lia; destruct e as [[]| | | |]; simpl in *; unfold buf_size in *; try done; lia.
Qed.

Lemma relay_taken t calls : ∃ more, taken (s2c (foldl relay_step t calls)) = taken (s2c t) +:+ more.
Proof.
  revert t. induction calls as [|s calls IH]; intros t; [exists EmptyString; by rewrite string_app_nil_r|].
  destruct (IH (relay_step t s)) as [more E]. cbn [foldl]. rewrite E. unfold relay_step.
  destruct (joined t); [eauto|]. destruct s as [e|e]; simpl; [eauto|]. rewrite dir_step_taken, <-string_app_assoc. eauto.
Qed.

(** What the calls of a side read. *)
Fixpoint client_bytes (calls : list side) : string :=
  match calls with
  | [] => EmptyString
  | FromClient (Got (Ok c)) :: l => c +:+ client_bytes l
  | _ :: l => client_bytes l
  end.
Fixpoint upstream_bytes (calls : list side) : string :=
  match calls with
  | [] => EmptyString
  | FromUpstream (Got (Ok c)) :: l => c +:+ upstream_bytes l
  | _ :: l => upstream_bytes l
  end.

(** The calls a direction can complete where it stands, and the sequences of calls
    of a tunnel: each is one that its direction is in, none follows the end. *)
Definition in_call (p : place) (e : io) : Prop :=
  match p, e with
  | Reading, (Got _ | TimedOut) | Writing _, Wrote _ | Flushing, Flushed _ | Closing, Closed => True
  | _, _ => False
  end.
Definition possible (t : tunnel) (s : side) : Prop :=
  joined t = None ∧ match s with FromClient e => in_call (at_ (c2s t)) e | FromUpstream e => in_call (at_ (s2c t)) e end.
Fixpoint happens (t : tunnel) (calls : list side) : Prop :=
  match calls with [] => True | s :: l => possible t s ∧ happens (relay_step t s) l end.

Lemma dir_step_read idle d e :
  in_call (at_ d) e → taken (dir_step idle d e) = taken d +:+ match e with Got (Ok c) => c | _ => EmptyString end.
Proof. rewrite dir_step_taken. by destruct (at_ d), e as [[]| | | |]. Qed.

(** While both directions run, everything the sides send is read, also by the
    direction that goes on when the other has ended. *)
Lemma relay_reads t calls :
  happens t calls →
  taken (c2s (foldl relay_step t calls)) = taken (c2s t) +:+ client_bytes calls ∧
  taken (s2c (foldl relay_step t calls)) = taken (s2c t) +:+ upstream_bytes calls.
Proof.
  revert t. induction calls as [|s calls IH]; intros t; [by rewrite !string_app_nil_r|].
  intros [[Hj Hc] H]. destruct (IH _ H) as [E1 E2]. cbn [foldl]. rewrite E1, E2. clear E1 E2 H IH.
  unfold relay_step. rewrite Hj. destruct s as [e|e]; cbn [c2s s2c]; rewrite (dir_step_read _ _ _ Hc), <- string_app_assoc;
    (split; destruct e as [[]| | | |]; simpl; by rewrite ?app_nil_string).
Qed.

(** A direction closes only after its side has closed. *)
Definition closes (d : direction) : Prop := at_ d = Closing ∨ at_ d = Ended (Ok tt).

Lemma dir_step_closes idle d e : closes (dir_step idle d e) → closes d ∨ e = Got (Ok EmptyString).
Proof.
  unfold closes, dir_step. destruct d as [[|rest| | |r] tk g]; destruct e as [[c|m]| |[n|m]|[u|m]|]; simpl; auto;
    try (by intros [|]; simplify_eq).
  - destruct (Z.eqb_spec (len c) 0) as [Hc|]; simpl; [|by intros [|]]. unfold len in Hc. destruct c; [auto|simpl in Hc; lia].
  - destruct (n <=? 0); simpl; [by intros [|]|]. destruct (split_at (Z.to_nat n) rest) as [out over]. simpl.
    by destruct (is_empty over); intros [|].
Qed.

Lemma relay_closes t calls :
  (closes (c2s (foldl relay_step t calls)) → closes (c2s t) ∨ FromClient (Got (Ok EmptyString)) ∈ calls) ∧
  (closes (s2c (foldl relay_step t calls)) → closes (s2c t) ∨ FromUpstream (Got (Ok EmptyString)) ∈ calls).
Proof.
  revert t. induction calls as [|s calls IH]; intros t; [by split; left|]. cbn [foldl].
  rewrite !elem_of_cons. destruct (IH (relay_step t s)) as [H1 H2].
  assert ((closes (c2s (relay_step t s)) → closes (c2s t) ∨ s = FromClient (Got (Ok EmptyString))) ∧
          (closes (s2c (relay_step t s)) → closes (s2c t) ∨ s = FromUpstream (Got (Ok EmptyString)))) as [H3 H4].
  { unfold relay_step. destruct (joined t); [by split; left|].
    destruct s as [e|e]; cbn [c2s s2c]; split; auto; intros [|]%dir_step_closes; subst; auto. }
  split; [intros [[]%H3|]%H1|intros [[]%H4|]%H2]; subst; auto.
Qed.

(** What the result of the join says of its directions. *)
Definition join_spec (a b : direction) (r : option (result unit string)) : Prop :=
  match r with
  | Some (Ok _) => at_ a = Ended (Ok tt) ∧ at_ b = Ended (Ok tt)
  | Some (Err m) => at_ a = Ended (Err m) ∨ at_ b = Ended (Err m)
  | None =>
      (∀ m, at_ a ≠ Ended (Err m) ∧ at_ b ≠ Ended (Err m)) ∧ (at_ a ≠ Ended (Ok tt) ∨ at_ b ≠ Ended (Ok tt))
  end.

Lemma try_join_spec a b : join_spec a b (try_join a b).
Proof.
  unfold join_spec, try_join. destruct (at_ a) as [| | | |[[]|]], (at_ b) as [| | | |[[]|]]; simpl; auto; naive_solver.
Qed.

(** ** The tunnel *)

(** C30. What a tunnel does, whatever the sockets answer and in whatever order: it is
    open only after an accepted handshake, whose early frames are the first bytes
    for the client. While it runs, everything either side sends is read; in both
    directions the bytes delivered are a beginning of the bytes read, unchanged and
    in order, and what is missing is only what a write still has before it. It ends
    well exactly when both directions have ended, each only after its side has
    closed, and then everything read has been delivered; one side that closes leaves
    the other running. It fails exactly when a direction has failed, with the error
    of that direction. Neither direction holds more than its buffer, or the early
    frames. *)
Theorem websocket_relays n e calls t :
  Forall (fits n) calls → forward_websocket e calls = Relaying t →
  ∃ early rest,
    handshake (answers e) = Some (Ok (early, rest)) ∧
    (∃ more, taken (s2c t) = early +:+ more) ∧
    (happens (relay_start early) calls →
       taken (c2s t) = client_bytes calls ∧ taken (s2c t) = early +:+ upstream_bytes calls) ∧
    faithful (c2s t) ∧ faithful (s2c t) ∧
    held (c2s t) <= Z.max (len early) (buf_size n) ∧ held (s2c t) <= Z.max (len early) (buf_size n) ∧
    match joined t with
    | Some (Ok _) =>
        at_ (c2s t) = Ended (Ok tt) ∧ at_ (s2c t) = Ended (Ok tt) ∧
        FromClient (Got (Ok EmptyString)) ∈ calls ∧ FromUpstream (Got (Ok EmptyString)) ∈ calls ∧
        given (c2s t) = taken (c2s t) ∧ given (s2c t) = taken (s2c t)
    | Some (Err m) => at_ (c2s t) = Ended (Err m) ∨ at_ (s2c t) = Ended (Err m)
    | None =>
        (∀ m, at_ (c2s t) ≠ Ended (Err m) ∧ at_ (s2c t) ≠ Ended (Err m)) ∧
        (at_ (c2s t) ≠ Ended (Ok tt) ∨ at_ (s2c t) ≠ Ended (Ok tt))
    end.
Proof.
  intros Hf. unfold forward_websocket, open_tunnel. destruct (resolved e); [|done].
  destruct (connected e) as [[]|]; [|done..]. destruct (sent e), (flushed e); [|done..].
  destruct (handshake (answers e)) as [[[early rest]|]|]; [|done..]. intros; simplify_eq. exists early, rest.
  destruct (relay_run_ok (relay_start early) calls (relay_start_ok early)) as (Ha & Hb & Hj).
  destruct (relay_held n (Z.max (len early) (buf_size n)) (relay_start early) calls) as [H1 H2]; [lia|done| | |].
  1, 2: unfold relay_start, held, buf_size; simpl; pose proof (len_nonneg early); destruct (is_empty early); simpl; lia.
  split_and!; try done; [apply (relay_taken (relay_start early))|apply (relay_reads (relay_start early))|].
  destruct (relay_closes (relay_start early) calls) as [Hc Hs]. unfold closes at 1 2 in Hc. unfold closes at 1 2 in Hs.
  pose proof (try_join_spec (c2s (foldl relay_step (relay_start early) calls)) (s2c (foldl relay_step (relay_start early) calls))) as Hspec.
  rewrite <- Hj in Hspec. unfold join_spec in Hspec. destruct (joined _) as [[|m]|]; [|done..]. destruct Hspec as [Ea Eb].
  unfold faithful, pending in *. rewrite Ea in *. rewrite Eb in *.
  destruct Ha as (la & -> & ->), Hb as (lb & -> & ->). rewrite !string_app_nil_r. split_and!; try done.
  - destruct Hc as [[|]|]; [by right|done..].
  - destruct Hs as [[|]|]; [by right|by destruct early..|done].
Qed.

(** A client that says hello and closes; the upstream's second frame still
    arrives, in two writes, and the tunnel ends well. *)
Definition sample_setup : setup := mkSetup (Ok ["10.0.0.1:80"%string]) (Some (Ok tt)) (Ok tt) (Ok tt) sample_reads.
Definition sample_calls : list side :=
  [FromClient (Got (Ok "hello"%string)); FromUpstream (Wrote (Ok 6)); FromClient (Wrote (Ok 5)); FromClient (Flushed (Ok tt));
   FromClient (Got (Ok ""%string)); FromUpstream (Flushed (Ok tt)); FromClient Closed; FromUpstream (Got (Ok "frame2"%string));
   FromUpstream (Wrote (Ok 4)); FromUpstream (Wrote (Ok 2)); FromUpstream (Flushed (Ok tt)); FromUpstream (Got (Ok ""%string));
   FromUpstream Closed].

Definition sample_tunnel : tunnel := foldl relay_step (relay_start "frame1") sample_calls.

Lemma sample_fits : Forall (fits 8) sample_calls.
Proof. unfold sample_calls. rewrite !Forall_cons, Forall_nil. unfold fits, buf_size, len. simpl. lia. Qed.

Lemma sample_happens : happens (relay_start "frame1") sample_calls.
Proof. vm_compute. repeat split. Qed.

Lemma websocket_relays_witness :
  joined sample_tunnel = Some (Ok tt) ∧ given (s2c sample_tunnel) = "frame1frame2"%string ∧
  given (c2s sample_tunnel) = taken (c2s sample_tunnel) ∧ taken (c2s sample_tunnel) = client_bytes sample_calls.
Proof.
  assert (joined sample_tunnel = Some (Ok tt)) as E by (vm_compute; reflexivity).
  split; [exact E|]. split; [vm_compute; reflexivity|].
  assert (forward_websocket sample_setup sample_calls = Relaying sample_tunnel) as H by (vm_compute; reflexivity).
  apply (websocket_relays 8 sample_setup sample_calls sample_tunnel sample_fits) in H as (early & rest & Hs & _ & Hr & _ & _ & _ & _ & H).
  vm_compute in Hs. injection Hs as <- _. rewrite E in H. split; [apply H|]. apply (Hr sample_happens).
Defined.

Definition sample_request : Request :=
  mkRequest "GET" (Some "/ws?a=1"%string) [("upgrade", "websocket"); ("sec-websocket-key", "x: y")]%string "".

Lemma serialize_request_roundtrip_witness :
  parse_request (serialize_request sample_request) =
    Some ("GET /ws?a=1 HTTP/1.1", [("upgrade", "websocket"); ("sec-websocket-key", "x: y")], "")%string.
Proof.
  rewrite (serialize_request_roundtrip sample_request); [reflexivity|].
  split_and!; [reflexivity|reflexivity|]. repeat (constructor; [split_and!; reflexivity|]). constructor.
Defined.

(** Nothing bounds the time of the handshake: as long as the upstream sends pieces
    of a head it does not complete, within the size limit, the call goes on
    waiting, for ever if nothing more comes. *)
Lemma contains_app p a b : contains p a = true → contains p (a +:+ b) = true.
Proof.
  rewrite !split_after_contains. intros [[h t] E]. rewrite (split_after_extend _ _ _ _ b E). eauto.
Qed.

Lemma read_head_waits reads buf :
  Forall (λ r, ∃ c, r = Ok c ∧ len c ≠ 0) reads → contains blank_line (buf +:+ sent_bytes reads) = false →
  len (buf +:+ sent_bytes reads) <= 8192 → read_head buf reads = None.
Proof.
  intros Hr. revert buf. induction Hr as [|r reads (c & -> & Hc) Hr IH]; intros buf Hb Hl; [done|].
  unfold sent_bytes in *. cbn [relay read_head] in *. rewrite (proj2 (Z.eqb_neq _ _) Hc) in *.
  destruct (relay reads) as [w res]. simpl in *. change (concat_str (c :: w)) with (c +:+ concat_str w) in *.
  rewrite string_app_assoc in *. destruct (contains blank_line (buf +:+ c)) eqn:E.
  { apply (contains_app _ _ (concat_str w)) in E. congruence. }
  destruct (Z.ltb_spec 8192 (len (buf +:+ c))); [|by apply IH].
  rewrite len_app in Hl. pose proof (len_nonneg (concat_str w)). lia.
Qed.

Lemma handshake_waits e calls :
  (∃ l, resolved e = Ok l) → connected e = Some (Ok tt) → sent e = Ok tt → flushed e = Ok tt →
  Forall (λ r, ∃ c, r = Ok c ∧ len c ≠ 0) (answers e) → contains blank_line (sent_bytes (answers e)) = false →
  len (sent_bytes (answers e)) <= 8192 → forwarded (forward_websocket e calls) = None.
Proof.
  intros [a Hr] Hc Hs Hf Ha Hb Hl. unfold forward_websocket, open_tunnel, handshake. rewrite Hc, Hs, Hf.
  rewrite Hr. by rewrite read_head_waits.
Qed.
End WsTunnel.
