(* ===== verification/TcpHandler.v ===== *)
(** The TCP tunnel handler (conrogate-protocol/src/tcp.rs), with the forwarding
    of a tunnel (proxy.rs, [forward_tcp]) and the registry of protocol handlers
    (handler.rs), as a program over the services the HTTP handler uses and the
    calls only a tunnel makes. *)
From Stdlib Require Import ZArith Lia Ascii String.
From stdpp Require Import base tactics option list gmap strings pretty.
From S2P Require Import Prelude Text Errors Core BalancerApi F64 Plugin Access Telemetry Effects HttpHandler.
#[local] Open Scope Z_scope.

(** ** The registry of protocol handlers *)

Module Protocols.
Section Registry.
(** Handlers, of any type that tells the protocol. *)
Context {H : Type} (protocol : H → ProtocolId).

Definition ProtocolHandlerRegistry : Type := gmap ProtocolId H.
Definition new : ProtocolHandlerRegistry := ∅.
Definition register (r : ProtocolHandlerRegistry) (h : H) : ProtocolHandlerRegistry := <[protocol h := h]> r.
Definition get (r : ProtocolHandlerRegistry) (p : ProtocolId) : option H := r !! p.
Definition protocols (r : ProtocolHandlerRegistry) : list ProtocolId := map fst (map_to_list r).

(** The answer of a method a handler does not implement. *)
Definition not_supported {A} (h : H) : result A ConrogateError := Err (ProtocolNotSupported (protocol_display (protocol h))).
End Registry.
End Protocols.

Module TcpTunnel.
Local Open Scope prog_scope.
Local Open Scope Z_scope.

Section Handler.
Context {HeaderMap HeaderValue Uri : Type} `{HttpL : HttpLib HeaderMap HeaderValue Uri}.
Context {P SocketAddr : Type}.

(** The text of a status code in the http crate. *)
Context (status_display : Z → string).
Import HttpHandler.
Abbreviation Ctx := (@HttpHandler.PluginContext HeaderMap).

Record TcpTunnelProtocolHandler := mkTcpHandler {
  tcp_timeout : Z;
  conn_qps : Z;
  bandwidth_kbps : Z;
  tcp_gate_id : string }.

Definition tcp_new (gate : string) : TcpTunnelProtocolHandler := mkTcpHandler (from_secs 30) 0 0 gate.
Definition with_config (gate : string) (timeout conn_qps bandwidth_kbps : Z) : TcpTunnelProtocolHandler :=
  mkTcpHandler timeout conn_qps bandwidth_kbps gate.

(** How connecting to the upstream ends. *)
Inductive connect := TimedOut | Refused (msg : string) | Connected.

(** The calls: those of the services, the hooks of a connection, and the network.
    [Relay] is the pair of copies in both directions, which fails as soon as one
    of them does. *)
Inductive tcall : Type :=
| Svc (c : HttpHandler.call (HeaderMap := HeaderMap) (Uri := Uri) (P := P))
| OnConnect (ctx : Ctx) (ps : list P)
| OnDisconnect (ctx : Ctx) (ps : list P)
| Resolve (addr : string)
| Connect (addrs : list SocketAddr) (t : Z)
| Relay (max_bytes_per_sec : option Z).

Definition tans (c : tcall) : Type :=
  match c with
  | Svc c => HttpHandler.ans c
  | OnConnect _ _ => Ctx * result (PluginOutcome Value) ConrogateError
  | OnDisconnect _ _ => Ctx * result unit ConrogateError
  | Resolve _ => result (list SocketAddr) string
  | Connect _ _ => connect
  | Relay _ => result (Z * Z) string
  end.

Abbreviation M := (prog tans).
Definition svc (c : HttpHandler.call) : M (HttpHandler.ans c) := perform (Svc c).
Definition net (c : tcall) : M (tans c) := perform c.

(** [TunnelStats]: out from the client, in from the upstream. *)
Record TunnelStats := mkStats { bytes_out : Z; bytes_in : Z }.

Definition forward_tcp (node : UpstreamNodeDto) (timeout : Z) (max : option Z) : M (result TunnelStats ConrogateError) :=
  resolved <- net (Resolve (n_address node));;
  match resolved with
  | Err e => Done (Err (UpstreamConnectFailed ("DNS resolve: " +:+ e)))
  | Ok addrs =>
      conn <- net (Connect addrs timeout);;
      match conn with
      | TimedOut => Done (Err UpstreamTimeout)
      | Refused e => Done (Err (UpstreamConnectFailed e))
      | Connected =>
          r <- net (Relay max);;
          Done (match r with
                | Ok (o, i) => Ok (mkStats o i)
                | Err e => Err (UpstreamConnectFailed e)
                end)
      end
  end.

Definition record_pre_tunnel_failure (h : TcpTunnelProtocolHandler) (route : option Z) (status_4xx : bool) : M unit :=
  utc <- svc UtcNow;;
  svc (RecordMetric (raw_sample utc (tcp_gate_id h) route F64.zero 0 0 0 0 0 (Z.b2z status_4xx) (Z.b2z (negb status_4xx)) 0 0 0)).

(** [listen_addr.rsplit_once(':')] and the number after it, or zero. *)
Definition listen_port (listen_addr : string) : Z :=
  default 0 (rsplit_once ":" listen_addr ≫= λ hp, parse_uint u16_max hp.2).

Definition tunnel_context (request trace : string) (route : RouteSnapshot) (client_ip listen_addr : string)
    (sni : option string) : Ctx :=
  mkContext request trace (s_id route) client_ip TcpTunnel None
    (Some (mkTunnelContext listen_addr sni None (listen_port listen_addr))) hm_empty.

Definition max_rate (h : TcpTunnelProtocolHandler) : option Z :=
  if 0 <? bandwidth_kbps h then Some (u64_wrap (bandwidth_kbps h * 1024)) else None.

(** Steps 6 to 8: forward, report, release, measure, run the closing hooks. *)
Definition tunnel (h : TcpTunnelProtocolHandler) (ctx : Ctx) (route : RouteSnapshot) (node : UpstreamNodeDto)
    (start_ts : Z) : M (result unit ConrogateError) :=
  r <- forward_tcp node (tcp_timeout h) (max_rate h);;
  let success := is_ok r in
  svc (RecordResult (s_id route) (n_id node) success);;;
  svc (ReleaseNode route node);;;
  let '(i, o) := match r with Ok s => (bytes_in s, bytes_out s) | Err _ => (0, 0) end in
  utc <- svc UtcNow;;
  now <- svc Now;;
  svc (RecordMetric (raw_sample utc (tcp_gate_id h) (Some (s_id route))
         (F64.of_Z (as_millis (duration_since now start_ts))) 0 0 0 (Z.b2z success) 0 0 (Z.b2z (negb success)) 1 i o));;;
  plugins <- svc (RoutePlugins (s_id route));;
  net (OnDisconnect ctx plugins);;;
  Done (match r with Ok _ => Ok tt | Err e => Err e end).

(** Step 3a. *)
Definition check_conn_rate (h : TcpTunnelProtocolHandler) (listen_addr : string) : M (result unit ConrogateError) :=
  if 0 <? conn_qps h then svc (CheckRateLimit u64_max ("conn:" +:+ listen_addr)) else Done (Ok tt).

(** Steps 4 and on. *)
Definition select_and_forward (h : TcpTunnelProtocolHandler) (ctx : Ctx) (route : RouteSnapshot)
    (client_ip : string) (start_ts : Z) : M (result unit ConrogateError) :=
  node <-? svc (SelectUpstream route (Some client_ip));;
  broken <- svc (CheckBreaker (s_id route) (n_id node));;
  match broken with
  | Err e => record_pre_tunnel_failure h (Some (s_id route)) false;;; Done (Err e)
  | Ok _ => tunnel h ctx route node start_ts
  end.

Definition handle (h : TcpTunnelProtocolHandler) (listen_addr : string) (sni : option string) (client_ip : string) :
    M (result unit ConrogateError) :=
  let info := from_tunnel listen_addr sni in
  start_ts <- svc Now;;
  blocked <- svc (IsBlocked client_ip);;
  if (blocked : bool) then record_pre_tunnel_failure h None true;;; Done (Err Forbidden)
  else
    found <-? svc (LookupRoute TcpTunnel info);;
    match found with
    | None => record_pre_tunnel_failure h None false;;; Done (Err (RouteNotFound listen_addr))
    | Some route =>
        request <- svc GenerateTraceId;;
        trace <- svc GenerateTraceId;;
        plugins <- svc (RoutePlugins (s_id route));;
        '(ctx, outcome) <- net (OnConnect (tunnel_context request trace route client_ip listen_addr sni) plugins);;
        match outcome with
        | Err e => Done (Err e)
        | Ok (Terminate code _) =>
            record_pre_tunnel_failure h (Some (s_id route)) false;;;
            Done (Err (PluginRuntime ("plugin rejected: " +:+ status_display code)))
        | Ok Continue =>
            limited <- svc (CheckRateLimit (s_id route) (pc_client_ip ctx));;
            match limited with
            | Err e => record_pre_tunnel_failure h (Some (s_id route)) true;;; Done (Err e)
            | Ok _ =>
                conn <- check_conn_rate h listen_addr;;
                match conn with
                | Err e => record_pre_tunnel_failure h (Some (s_id route)) true;;; Done (Err e)
                | Ok _ => select_and_forward h ctx route client_ip start_ts
                end
            end
        end
    end.

Definition handle_tcp := handle.

(** ** The life of a tunnel *)

Abbreviation trace := (list (Effects.event tans)).

Definition housekeeping_t (c : tcall) : bool := match c with Svc c => housekeeping c | _ => false end.
Definition essential_t (tr : trace) : trace := List.filter (λ e, negb (housekeeping_t (call_of e))) tr.

Definition ev (c : tcall) (x : tans c) : Effects.event tans := existT c x.

(** What the network did for a tunnel to [node], and whether it was a success. *)
Inductive network (h : TcpTunnelProtocolHandler) (node : UpstreamNodeDto) : trace → bool → Prop :=
| nw_unresolved e : network h node [ev (Resolve (n_address node)) (Err e)] false
| nw_unconnected addrs c : c ≠ Connected →
    network h node [ev (Resolve (n_address node)) (Ok addrs); ev (Connect addrs (tcp_timeout h)) c] false
| nw_relayed addrs r :
    network h node [ev (Resolve (n_address node)) (Ok addrs); ev (Connect addrs (tcp_timeout h)) Connected;
                    ev (Relay (max_rate h)) r] (is_ok r).

(** The rate check of connections, passed. *)
Definition conn_gate (h : TcpTunnelProtocolHandler) (listen_addr : string) : trace :=
  if 0 <? conn_qps h then [ev (Svc (CheckRateLimit u64_max ("conn:" +:+ listen_addr))) (Ok tt)] else [].

(** The lives of a connection on the route [route] once its plugins have left the
    context [ctx] and answered [outcome], with its result. *)
Inductive routed_tunnel (h : TcpTunnelProtocolHandler) (listen_addr client_ip : string) (route : RouteSnapshot) (ctx : Ctx) :
    result (PluginOutcome Value) ConrogateError → trace → result unit ConrogateError → Prop :=
| tl_plugin_failed e : routed_tunnel h listen_addr client_ip route ctx (Err e) [] (Err e)
| tl_rejected code b :
    routed_tunnel h listen_addr client_ip route ctx (Ok (Terminate code b)) []
      (Err (PluginRuntime ("plugin rejected: " +:+ status_display code)))
| tl_limited e :
    routed_tunnel h listen_addr client_ip route ctx (Ok Continue)
      [ev (Svc (CheckRateLimit (s_id route) (pc_client_ip ctx))) (Err e)] (Err e)
| tl_conn_limited e : 0 < conn_qps h →
    routed_tunnel h listen_addr client_ip route ctx (Ok Continue)
      [ev (Svc (CheckRateLimit (s_id route) (pc_client_ip ctx))) (Ok tt);
       ev (Svc (CheckRateLimit u64_max ("conn:" +:+ listen_addr))) (Err e)] (Err e)
| tl_no_node e :
    routed_tunnel h listen_addr client_ip route ctx (Ok Continue)
      (ev (Svc (CheckRateLimit (s_id route) (pc_client_ip ctx))) (Ok tt) :: conn_gate h listen_addr ++
       [ev (Svc (SelectUpstream route (Some client_ip))) (Err e)]) (Err e)
| tl_broken node e :
    routed_tunnel h listen_addr client_ip route ctx (Ok Continue)
      (ev (Svc (CheckRateLimit (s_id route) (pc_client_ip ctx))) (Ok tt) :: conn_gate h listen_addr ++
       [ev (Svc (SelectUpstream route (Some client_ip))) (Ok node); ev (Svc (CheckBreaker (s_id route) (n_id node))) (Err e)]) (Err e)
| tl_served node l r ps x : network h node l (is_ok r) →
    routed_tunnel h listen_addr client_ip route ctx (Ok Continue)
      (ev (Svc (CheckRateLimit (s_id route) (pc_client_ip ctx))) (Ok tt) :: conn_gate h listen_addr ++
       [ev (Svc (SelectUpstream route (Some client_ip))) (Ok node); ev (Svc (CheckBreaker (s_id route) (n_id node))) (Ok tt)] ++
       l ++ [ev (Svc (RecordResult (s_id route) (n_id node) (is_ok r))) tt; ev (Svc (ReleaseNode route node)) tt;
             ev (Svc (RoutePlugins (s_id route))) ps; ev (OnDisconnect ctx ps) x]) r.

(** What a failed lookup answers. *)
Definition unrouted_t (listen_addr : string) (x : result (option RouteSnapshot) ConrogateError) : option ConrogateError :=
  match x with Err e => Some e | Ok None => Some (RouteNotFound listen_addr) | Ok (Some _) => None end.

(** The lives a connection of [client_ip] can have from its arrival on. *)
Inductive tunnel_life (h : TcpTunnelProtocolHandler) (listen_addr : string) (sni : option string) (client_ip : string) :
    trace → result unit ConrogateError → Prop :=
| tl_blocked : tunnel_life h listen_addr sni client_ip [ev (Svc (IsBlocked client_ip)) true] (Err Forbidden)
| tl_unrouted x e : unrouted_t listen_addr x = Some e →
    tunnel_life h listen_addr sni client_ip
      [ev (Svc (IsBlocked client_ip)) false; ev (Svc (LookupRoute TcpTunnel (from_tunnel listen_addr sni))) x] (Err e)
| tl_routed route request id ps ctx outcome l r : routed_tunnel h listen_addr client_ip route ctx outcome l r →
    tunnel_life h listen_addr sni client_ip
      ([ev (Svc (IsBlocked client_ip)) false; ev (Svc (LookupRoute TcpTunnel (from_tunnel listen_addr sni))) (Ok (Some route));
        ev (Svc (RoutePlugins (s_id route))) ps;
        ev (OnConnect (tunnel_context request id route client_ip listen_addr sni) ps) (ctx, outcome)] ++ l) r.

Lemma essential_t_app tr1 tr2 : essential_t (tr1 ++ tr2) = essential_t tr1 ++ essential_t tr2.
Proof. apply List.filter_app. Qed.

Lemma essential_t_cons e tr :
  essential_t (e :: tr) = if housekeeping_t (call_of e) then essential_t tr else e :: essential_t tr.
Proof. unfold essential_t. cbn [List.filter]. by destruct (housekeeping_t _). Qed.

(** Leaves the essential calls of a trace. *)
Ltac essentials E := rewrite !essential_t_cons; cbn [call_of projT1 housekeeping_t housekeeping]; rewrite E.

(** Goes through the calls of a run; answers are taken apart where the program
    does so. *)
Ltac walk H :=
  repeat (simpl in H;
    match type of H with
    | ∃ _ _, _ = _ :: _ ∧ _ => let x := fresh "x" in let t := fresh "t" in destruct H as (x & t & -> & H)
    | _ = [] ∧ _ = _ => destruct H as [-> H]; simplify_eq
    end).

#[local] Arguments tunnel : simpl never.
#[local] Arguments select_and_forward : simpl never.
#[local] Arguments check_conn_rate : simpl never.

Lemma forward_tcp_runs h node tr r :
  runs (forward_tcp node (tcp_timeout h) (max_rate h)) tr r → network h node (essential_t tr) (is_ok r).
Proof.
  intros H. walk H. destruct x as [addrs|e]; walk H; [|constructor].
  destruct x as [|m|]; walk H; [by constructor..|]. pose proof (nw_relayed h node addrs x) as N.
  by destruct x as [[]|].
Qed.

Lemma tunnel_runs h ctx route node t0 tr r :
  runs (tunnel h ctx route node t0) tr r →
  ∃ l ps x, network h node l (is_ok r) ∧
    essential_t tr = l ++ [ev (Svc (RecordResult (s_id route) (n_id node) (is_ok r))) tt; ev (Svc (ReleaseNode route node)) tt;
                           ev (Svc (RoutePlugins (s_id route))) ps; ev (OnDisconnect ctx ps) x].
Proof.
  unfold tunnel. intros (tr1 & r1 & tr2 & -> & N%forward_tcp_runs & H)%runs_bind.
  destruct r1 as [[o i]|e]; walk H; repeat match goal with u : () |- _ => destruct u end;
    (do 3 eexists; split; [exact N|]; rewrite essential_t_app; reflexivity).
Qed.

Lemma select_runs h listen_addr ctx route client_ip t0 tr r :
  runs (select_and_forward h ctx route client_ip t0) tr r →
  routed_tunnel h listen_addr client_ip route ctx (Ok Continue)
    (ev (Svc (CheckRateLimit (s_id route) (pc_client_ip ctx))) (Ok tt) :: conn_gate h listen_addr ++ essential_t tr) r.
Proof.
  unfold select_and_forward. intros H. walk H. destruct x as [node|e]; walk H; [|apply tl_no_node].
  destruct x as [[]|e].
  - apply tunnel_runs in H as (l & ps & x & N & E). essentials E. by apply (tl_served h listen_addr client_ip route ctx node l r ps x).
  - walk H. apply tl_broken.
Qed.

(** What follows the opening hooks. *)
Lemma admitted_runs h listen_addr ctx route client_ip t0 tr r :
  runs (limited <- svc (CheckRateLimit (s_id route) (pc_client_ip ctx));;
        match limited with
        | Err e => record_pre_tunnel_failure h (Some (s_id route)) true;;; Done (Err e)
        | Ok _ =>
            conn <- check_conn_rate h listen_addr;;
            match conn with
            | Err e => record_pre_tunnel_failure h (Some (s_id route)) true;;; Done (Err e)
            | Ok _ => select_and_forward h ctx route client_ip t0
            end
        end) tr r →
  routed_tunnel h listen_addr client_ip route ctx (Ok Continue) (essential_t tr) r.
Proof.
  intros H. simpl in H. destruct H as ([[]|e] & tr0 & -> & H); cycle 1.
  { walk H. apply tl_limited. }
  apply runs_bind in H as (tr1 & c & tr2 & -> & Hc & H). unfold check_conn_rate in Hc.
  destruct c as [[]|e].
  - apply (select_runs h listen_addr) in H. revert H. unfold conn_gate.
    rewrite !essential_t_cons, essential_t_app. cbn [call_of projT1 housekeeping_t housekeeping].
    destruct (Z.ltb_spec 0 (conn_qps h)); walk Hc; exact id.
  - walk H. rewrite !essential_t_cons, essential_t_app. cbn [call_of projT1 housekeeping_t housekeeping].
    destruct (Z.ltb_spec 0 (conn_qps h)); walk Hc. by apply tl_conn_limited.
Qed.

(** C29. The life of a tunnel: whatever the services and the network answer, a TCP
    connection lives one of the lives of [tunnel_life], call by call. Its route is
    the one the routes answer for the listening address and the server name, and a
    connection without one ends there; the plugins asked are those bound to that
    route. So no byte is relayed unless the peer is not blacklisted, a route matched,
    the plugins of that route let the connection pass, the rate limits (and, when
    switched on, the limit of connections) granted it, a node was selected for its
    address and the breaker of that node lets it through; a connection for which
    forwarding was tried reports one result, whether the bytes were relayed to the
    end, releases its node exactly once and runs the closing hooks of the plugins
    that are bound to the route by then, whatever went wrong. (A node selected for a
    connection that the breaker refuses is not released, and the plugins that saw it
    open do not see it close.) *)
Theorem tunnel_lifecycle h listen_addr sni client_ip tr r :
  runs (handle_tcp h listen_addr sni client_ip) tr r →
  tunnel_life h listen_addr sni client_ip (essential_t tr) r.
Proof.
  unfold handle_tcp, handle. intros H. walk H. destruct x0.
  { walk H. constructor. }
  walk H. destruct x0 as [[route|]|e]; simpl in H; cycle 1.
  { walk H. by apply tl_unrouted. }
  { walk H. by apply tl_unrouted. }
  destruct H as (request & t1 & -> & id & t2 & -> & ps & t3 & -> & [ctx outcome] & t4 & -> & H).
  apply (tl_routed h listen_addr sni client_ip route request id ps ctx outcome). clear request id ps.
  destruct outcome as [[|code b]|e].
  - by apply admitted_runs in H.
  - walk H. apply tl_rejected.
  - walk H. apply tl_plugin_failed.
Qed.

(** The configured number of connections per second decides only whether the
    check is made: two handlers that differ in it, both limiting, treat every
    connection alike. *)
Lemma conn_qps_switch timeout q1 q2 kbps gate listen_addr sni client_ip :
  0 < q1 → 0 < q2 →
  handle (with_config gate timeout q1 kbps) listen_addr sni client_ip =
  handle (with_config gate timeout q2 kbps) listen_addr sni client_ip.
Proof.
  intros H1 H2. unfold handle, check_conn_rate, with_config. cbn [conn_qps].
  by rewrite !(proj2 (Z.ltb_lt _ _)) by done.
Qed.
End Handler.
End TcpTunnel.

Module TcpDemo.
Import HttpHandler TcpTunnel HttpDemo.
#[local] Existing Instance toy_http.

(** Every service agrees; the relay breaks off. *)
Definition serve_tcp (s : nat) (c : @tcall (gmap string string) string unit Z) : nat * tans c :=
  match c return nat * tans c with
  | Svc c => serve s c
  | OnConnect ctx _ => (s, (ctx, Ok Continue))
  | OnDisconnect ctx _ => (s, (ctx, Ok tt))
  | Resolve _ => (s, Ok [1])
  | Connect _ _ => (s, Connected)
  | Relay _ => (s, Err "reset"%string)
  end.

Definition demo_tcp : TcpTunnelProtocolHandler := with_config "gw" (from_secs 3) 5 64.
Definition tcp_prog := handle_tcp (P := unit) (SocketAddr := Z) pretty demo_tcp "0.0.0.0:443" (Some "a.io"%string) "10.0.0.1".
Definition tcp_trace := (exec serve_tcp 0%nat tcp_prog).1.2.

Lemma tunnel_lifecycle_witness :
  tunnel_life pretty demo_tcp "0.0.0.0:443" (Some "a.io"%string) "10.0.0.1" (essential_t tcp_trace) (exec serve_tcp 0%nat tcp_prog).2 ∧
  (exec serve_tcp 0%nat tcp_prog).2 = Err (UpstreamConnectFailed "reset") ∧ length (essential_t tcp_trace) = 15%nat.
Proof.
  split_and!; [|vm_compute; reflexivity|vm_compute; reflexivity].
  apply (tunnel_lifecycle pretty demo_tcp "0.0.0.0:443" (Some "a.io"%string) "10.0.0.1"). apply exec_runs.
Defined.
End TcpDemo.
