(* ===== verification/Gateway.v ===== *)
(** The gateway server (conrogate-gateway/src/server.rs): how the configuration
    becomes components, and how the running configuration is replaced.

    The construction is a function of the configuration, with the clock and the
    services' name as arguments; a panic while building is an outcome. The
    reloading of routes, upstreams, plugin chains and blacklist is a program over
    the repositories, so that its theorem holds whatever they answer. *)
From Stdlib Require Import ZArith Lia Ascii String SpecFloat.
From stdpp Require Import base tactics option list gmap strings.
From S2P Require Import Prelude Text Errors Core BalancerApi Health F64 Limiter Breaker Adaptive Retry Plugin Access.
From S2P Require Import TrafficControl Telemetry Effects HttpHandler TcpHandler Config.
#[local] Open Scope Z_scope.

(** ** From the configuration to the components *)

Module Wiring.
Import Config.

(** The parts of [from_config_inner] that the configuration determines. *)
Definition adaptive_config (a : AdaptiveConcurrencyConfig) : Adaptive.AdaptiveConfig :=
  Adaptive.mkAdaptiveConfig (ac_initial_limit a) (ac_min_limit a) (ac_max_limit a) (ac_increase_step a)
    (ac_decrease_ratio a) (ac_latency_threshold a) (ac_window a) (ac_acquire_timeout a).

Definition budget_config (b : Config.RetryBudgetConfig) : RetryBudget.RetryBudgetConfig :=
  RetryBudget.mkBudgetConfig (rb_budget_ratio b) (rb_window b) (rb_min_requests b).

Definition breaker_config (b : Config.BreakerConfig) : Breaker.BreakerConfig :=
  Breaker.mkBreakerConfig (br_window b) (br_failure_rate_threshold b) (br_min_requests b) (br_wait b)
    (br_half_open_max b) (rs_redis_url <$> br_cluster_store b).

(** The token bucket, over Redis in cluster mode. *)
Definition limiter_of (r : RateLimitConfig) : TokenBucketL.TokenBucketLimiter :=
  match rl_cluster_store r with
  | Some _ => TokenBucketL.with_redis TokenBucketL.new
  | None => TokenBucketL.new
  end.

Definition traffic_of (g : GateConfig) : @TrafficControl.TrafficControlAdapter TokenBucketL.TokenBucketLimiter :=
  let rl := gt_rate_limit g in
  TrafficControl.with_governance_config (limiter_of rl) (Breaker.factory_new (breaker_config (gt_breaker g)))
    (rl_enabled rl) (rl_global_qps rl) (rl_route_qps rl) (rl_ip_qps rl) (br_enabled (gt_breaker g)).

(** [Duration::from_millis(total.as_millis() as u64)]. *)
Definition total_timeout (g : GateConfig) : Z := from_millis (u64_wrap (as_millis (to_total (gt_timeouts g)))).

Section Build.
Context {IpAddr IpNet : Type} `{IpL : IpLib IpAddr IpNet}.

Record GatewayServer := mkServer {
  gs_http : @HttpHandler.HttpProtocolHandler IpNet;
  gs_tcp : TcpTunnel.TcpTunnelProtocolHandler;
  gs_traffic : @TrafficControl.TrafficControlAdapter TokenBucketL.TokenBucketLimiter;
  gs_max_connections : Z;
  gs_max_body_bytes : Z;
  gs_max_header_bytes : Z;
  gs_idle_timeout : Z;
  gs_adaptive : option Adaptive.Inner;
  gs_retry_budget : option RetryBudget.RetryBudgetImpl }.

(** The HTTP handler as both constructors build it, without a retry budget. *)
Definition http_handler (g : GateConfig) (gate_id : string) : @HttpHandler.HttpProtocolHandler IpNet :=
  HttpHandler.with_max_retries
    (HttpHandler.with_trusted_proxies (HttpHandler.handler_with_timeout gate_id (total_timeout g))
       (gl_trusted_proxies (gt_listen g)))
    (re_max_attempts (gt_retry g)).

Definition tcp_handler (g : GateConfig) (gate_id : string) : TcpTunnel.TcpTunnelProtocolHandler :=
  let on := rl_enabled (gt_rate_limit g) in
  TcpTunnel.with_config gate_id (total_timeout g)
    (if on then rl_conn_qps (gt_rate_limit g) else 0) (if on then rl_bandwidth_kbps (gt_rate_limit g) else 0).

Definition from_config_inner (c : Config) (now : Z) : outcome GatewayServer :=
  let g := cf_gate c in
  let! adaptive :=
    if ac_enabled (gt_adaptive_concurrency g)
    then let! i := Adaptive.adaptive_new (adaptive_config (gt_adaptive_concurrency g)) now in Ret (Some i)
    else Ret None in
  let retry_budget :=
    if rb_enabled (gt_retry_budget g) then Some (RetryBudget.budget_new (budget_config (gt_retry_budget g)) now) else None in
  let http := http_handler g (gt_gate_id g) in
  let http := match retry_budget with Some _ => HttpHandler.with_retry_budget http | None => http end in
  Ret (mkServer http (tcp_handler g (gt_gate_id g)) (traffic_of g)
         (cn_max_connections (gt_connection g)) (cn_max_body_bytes (gt_connection g))
         (cn_max_header_bytes (gt_connection g)) (cn_idle_timeout (gt_connection g)) adaptive retry_budget).

(** [from_components]: over services that the caller assembled. *)
Definition from_components (c : Config) (gate_id : string)
    (traffic : @TrafficControl.TrafficControlAdapter TokenBucketL.TokenBucketLimiter) : GatewayServer :=
  let g := cf_gate c in
  mkServer (http_handler g gate_id) (tcp_handler g gate_id) traffic
    (cn_max_connections (gt_connection g)) (cn_max_body_bytes (gt_connection g))
    (cn_max_header_bytes (gt_connection g)) (cn_idle_timeout (gt_connection g)) None None.

(** The settings [from_config_with_db] takes from the configuration: the Redis
    of the cache, the seconds between polls, the bucket, the batch size. *)
Definition cache_redis_url (g : GateConfig) : option string :=
  if negb (is_empty (rf_config_cache_redis_url (gt_refresh g))) then Some (rf_config_cache_redis_url (gt_refresh g))
  else match rl_cluster_store (gt_rate_limit g) with
       | Some s => if negb (is_empty (rs_redis_url s)) then Some (rs_redis_url s) else None
       | None => None
       end.
Definition poll_interval (g : GateConfig) : Z := Z.max (as_secs (rf_config_poll_interval (gt_refresh g))) 1.
Definition telemetry_bucket_sec (g : GateConfig) : Z := Z.max (tm_bucket_sec (gt_telemetry g)) 1.
Definition telemetry_batch_size (g : GateConfig) : Z := Z.max (tm_batch_size (gt_telemetry g)) 1.

(** ** What validation is for *)

(** A ratio the validation accepts: above zero and at most one, or not a number. *)
Definition ratio_accepted (x : F64.f64) : Prop :=
  F64.is_nan x = true ∨ (F64.ltb F64.zero x = true ∧ F64.leb x F64.one = true).

Lemma ratio_checks x : F64.leb x F64.zero || F64.ltb F64.one x = false → ratio_accepted x.
Proof.
  intros [H1 H2]%orb_false_iff. destruct x as [s|s| |s m e]; [..|destruct s]; try by (vm_compute in H1, H2).
  - destruct s; by vm_compute in H1, H2.
  - by left.
  - right. split; [done|]. unfold F64.leb, F64.ltb, SFleb, SFltb, SFcompare in *.
    change F64.one with (S754_finite false 4503599627370496 (-52)) in *.
    cbv beta iota in *. rewrite (Z.compare_antisym (-52) e). destruct (-52 ?= e); [|done|done]. simpl CompOpp. cbv iota.
    revert H2. generalize 4503599627370496%positive as k. intros k. fold (k ?= m)%positive. fold (m ?= k)%positive.
    rewrite (Pos.compare_antisym k m). by destruct (k ?= m)%positive.
Qed.

(** What a validated configuration satisfies. *)
Lemma validate_ok c :
  validate c = Ok tt →
  let g := cf_gate c in
  is_empty (db_url (cf_db c)) = false ∧ gl_port (gt_listen g) ≠ 0 ∧
  (ac_enabled (gt_adaptive_concurrency g) = true →
     ac_min_limit (gt_adaptive_concurrency g) <= ac_initial_limit (gt_adaptive_concurrency g)
       <= ac_max_limit (gt_adaptive_concurrency g) ∧
     ratio_accepted (ac_decrease_ratio (gt_adaptive_concurrency g))) ∧
  (rb_enabled (gt_retry_budget g) = true → ratio_accepted (rb_budget_ratio (gt_retry_budget g))).
Proof.
  unfold validate. intros H. destruct (is_empty _); [done|]. destruct (Z.eqb_spec (gl_port (gt_listen (cf_gate c))) 0); [done|].
  do 3 (case_match; [done|]). destruct (validate_adaptive _) as [[]|] eqn:Ea; [|done].
  split_and!; [done|done| |]; intros Hen.
  - unfold validate_adaptive in Ea. rewrite Hen in Ea. destruct (_ || _) eqn:E1 in Ea; [done|].
    apply orb_false_iff in E1 as [E1%Z.ltb_ge E2%Z.ltb_ge]. split; [lia|].
    apply ratio_checks. by destruct (_ || _) in Ea |- *.
  - unfold validate_retry_budget in H. rewrite Hen in H. apply ratio_checks. by destruct (_ || _) in H |- *.
Qed.

(** A configuration that loads and validates can be run: the gateway is built
    without a panic; adaptive concurrency starts at exactly the configured limit,
    between its bounds, with no permit taken; the retry budget, if switched on,
    reaches the HTTP handler with an accepted ratio; the handlers have the
    configured timeout and number of retries, the traffic control the configured
    limits, and the tunnel limits apply only if rate limiting is on. *)
Theorem gateway_builds env parse_f64 c now :
  from_env env parse_f64 = Ok c → validate c = Ok tt →
  let g := cf_gate c in
  ∃ s, from_config_inner c now = Ret s ∧
    (ac_enabled (gt_adaptive_concurrency g) = true →
       ∃ i, gs_adaptive s = Some i ∧ Adaptive.inflight i = 0 ∧
         Adaptive.current_limit i = ac_initial_limit (gt_adaptive_concurrency g) ∧
         Adaptive.limit_ok i) ∧
    HttpHandler.retry_budget (gs_http s) = rb_enabled (gt_retry_budget g) ∧
    (rb_enabled (gt_retry_budget g) = true →
       ∃ b, gs_retry_budget s = Some b ∧ ratio_accepted (RetryBudget.budget_ratio (RetryBudget.config b))) ∧
    HttpHandler.timeout (gs_http s) = to_total (gt_timeouts g) ∧
    HttpHandler.max_retries (gs_http s) = re_max_attempts (gt_retry g) ∧
    TrafficControl.global_qps (gs_traffic s) = rl_global_qps (gt_rate_limit g) ∧
    TrafficControl.rate_limit_enabled (gs_traffic s) = rl_enabled (gt_rate_limit g) ∧
    (rl_enabled (gt_rate_limit g) = false → TcpTunnel.conn_qps (gs_tcp s) = 0 ∧ TcpTunnel.bandwidth_kbps (gs_tcp s) = 0).
Proof.
  intros Hl Hv. apply from_env_ok in Hl as (_ & _ & Ht & _).
  apply validate_ok in Hv as (_ & _ & Ha & Hb). destruct Ht as (_ & _ & _ & _ & (_ & (m & Hm & Em) & _) & _). cbv zeta.
  assert (total_timeout (cf_gate c) = to_total (gt_timeouts (cf_gate c))) as Htot.
  { unfold total_timeout. rewrite Em. unfold as_millis, from_millis. rewrite Z.div_mul by done.
    rewrite u64_wrap_small; [done|]. unfold is_u64, u64_max in Hm. lia. }
  unfold from_config_inner. destruct (ac_enabled _) eqn:Hen.
  - destruct (Ha eq_refl) as [Hlim _]. unfold Adaptive.adaptive_new, adaptive_config. cbn [Adaptive.max_limit Adaptive.min_limit Adaptive.initial_limit].
    rewrite (proj2 (Z.ltb_ge _ _)) by lia. cbv beta iota. eexists. split; [reflexivity|]. cbn [gs_adaptive].
    split; [intros _; eexists; split; [reflexivity|]; unfold Adaptive.limit_ok; simpl; lia|].
    destruct (rb_enabled _); simpl; split_and!; first [done | by eauto | intros E; by rewrite E].
  - eexists. split; [reflexivity|]. cbn [gs_adaptive]. split; [done|].
    destruct (rb_enabled _); simpl; split_and!; first [done | by eauto | intros E; by rewrite E].
Qed.
End Build.

(** A ratio that is not a number passes the validation, and a budget with it
    refuses nothing: the comparison with the observed ratio is always false. *)
Lemma nan_budget_unlimited w m now b :
  RetryBudget.budget_ratio (RetryBudget.config b) = S754_nan →
  validate_retry_budget (mkBudgetCfg true S754_nan w m) = Ok tt ∧
  (RetryBudget.try_consume now b).2 = Ok tt.
Proof.
  intros Hr. split; [done|]. unfold RetryBudget.try_consume.
  assert (RetryBudget.budget_ratio (RetryBudget.config (RetryBudget.maybe_refresh_window now b)) = S754_nan) as E.
  { unfold RetryBudget.maybe_refresh_window. by destruct (_ <=? _). }
  rewrite E. destruct (_ <? _); [done|]. by destruct (F64.div _ _).
Qed.

(** Built over assembled services, the gateway has neither adaptive concurrency
    nor a retry budget, whatever the configuration says. *)
Lemma components_unlimited {IpAddr IpNet} `{IpLib IpAddr IpNet} c gate_id traffic :
  let s := from_components c gate_id traffic in
  gs_adaptive s = None ∧ gs_retry_budget s = None ∧ HttpHandler.retry_budget (gs_http s) = false.
Proof. done. Qed.
End Wiring.

Module WiringDemo.
Import Config Wiring AccessDemo.
#[local] Existing Instance toy_lib.
#[local] Open Scope string_scope.

Definition demo_vars : list (string * string) :=
  [("CONROGATE_DB_URL", "sqlite::memory:"); ("CONROGATE_GATE_ADAPTIVE_CONCURRENCY_ENABLED", "yes");
   ("CONROGATE_GATE_ADAPTIVE_CONCURRENCY_INITIAL_LIMIT", "64"); ("CONROGATE_GATE_RETRY_BUDGET_ENABLED", "TRUE");
   ("CONROGATE_GATE_RETRY_MAX_ATTEMPTS", "+4"); ("CONROGATE_GATE_PORT", "70000")].
Definition demo_env (k : string) : option string := snd <$> List.find (λ kv, (fst kv =? k)%string) demo_vars.
Definition demo_config : Config :=
  match from_env demo_env (λ _, None) with Ok c => c | Err _ => default_config demo_env end.

Lemma gateway_builds_witness :
  ∃ s, from_config_inner (IpAddr := string) (IpNet := toy_net) demo_config 0 = Ret s ∧
    HttpHandler.max_retries (gs_http s) = 4%Z ∧ gl_port (gt_listen (cf_gate demo_config)) = 8080%Z ∧
    ∃ i, gs_adaptive s = Some i ∧ Adaptive.current_limit i = 64%Z.
Proof.
  destruct (gateway_builds (IpAddr := string) (IpNet := toy_net) demo_env (λ _, None) demo_config 0)
    as (s & Hs & Ha & _ & _ & _ & Hr & _); [vm_compute; reflexivity|vm_compute; reflexivity|].
  exists s. split; [exact Hs|]. split; [rewrite Hr; vm_compute; reflexivity|]. split; [vm_compute; reflexivity|].
  destruct (Ha ltac:(vm_compute; reflexivity)) as (i & Hi & _ & Hl & _). exists i. split; [exact Hi|]. rewrite Hl. vm_compute. reflexivity.
Defined.
End WiringDemo.

(** ** The connections of a gateway *)

(** Connections ask the adaptive limiter for a permit and give it back; nothing in
    the gateway records a latency. *)
Module Connections.
Import Adaptive.

(** The states of the limiter under any interleaving of connections. *)
Inductive gateway_reachable (cfg : AdaptiveConfig) : Inner → list pc → Prop :=
| g_new now i : adaptive_new cfg now = Ret i → gateway_reachable cfg i []
| g_accept i ts : gateway_reachable cfg i ts → gateway_reachable cfg i (ts ++ [Begin])
| g_step i ts n p i' p' : gateway_reachable cfg i ts → ts !! n = Some p → p ≠ Finished → thread_step i p i' p' →
    gateway_reachable cfg i' (<[n := p']> ts).

(** What a connection knows of the limit is the initial one. *)
Definition knows (l : Z) (p : pc) : Prop :=
  match p with
  | Adjusting _ | Storing _ => False
  | GotLimit l' | Looping l' => l' = l
  | Loaded l' c => l' = l ∧ 0 <= c < l
  | _ => True
  end.

Record static (cfg : AdaptiveConfig) (i : Inner) (ts : list pc) : Prop := {
  st_limit : current_limit i = initial_limit cfg;
  st_samples : window_samples i = [];
  st_inflight : inflight i = holding ts;
  st_bound : holding ts <= Z.max 0 (initial_limit cfg);
  st_threads : Forall (knows (initial_limit cfg)) ts }.

Lemma static_step cfg i ts n p i' p' :
  initial_limit cfg < 2 ^ 64 → static cfg i ts → ts !! n = Some p → p ≠ Finished → thread_step i p i' p' →
  static cfg i' (<[n := p']> ts).
Proof.
  intros Hmax Hst Hn Hp Hstep. pose proof (holding_insert ts n p p' Hn) as Hh.
  pose proof Hst as [Hl Hs Hi Hb Ht]. pose proof (proj1 (Forall_lookup _ _) Ht _ _ Hn) as Hk.
  assert (0 <= holding ts) as Hnn by (unfold holding; lia).
  assert (knows (initial_limit cfg) p' → Forall (knows (initial_limit cfg)) (<[n := p']> ts)) as Hts by (intros; by apply Forall_insert).
  destruct Hstep; simpl in Hk, Hh, Hp.
  - split; [done|done|lia|lia|by apply Hts].
  - split; [done|done|simpl; lia|lia|by apply Hts].
  - rewrite Hs in *. split; [done|done|simpl in *; lia|simpl in *; lia|by apply Hts].
  - done.
  - done.
  - split; [done|done|lia|lia|by apply Hts].
  - split; [done|done|simpl; lia|lia|by apply Hts].
  - split; [done|done|lia|lia|by apply Hts].
  - split; [done|done|simpl; lia|lia|by apply Hts].
  - split; [done|done|lia|lia|]. apply Hts. simpl. lia.
  - destruct Hk as [-> Hk]. split; [done|done| |lia|by apply Hts]; simpl; rewrite u64_wrap_small; lia.
  - split; [done|done|simpl; lia|lia|by apply Hts].
  - destruct Hk as [-> Hk]. split; [done|done|lia|lia|by apply Hts].
  - split; [done|done| |lia|by apply Hts]. simpl. rewrite u64_wrap_small; [lia|].
    assert (0 < holding ts); [|lia]. unfold holding. apply list_elem_of_lookup_2 in Hn. apply list_elem_of_In in Hn.
    assert (In Holding (List.filter is_holding ts)) as Hin by (by apply filter_In).
    destruct (List.filter is_holding ts); [done|]. simpl. lia.
  - done.
Qed.

(** Connections and permits: in a gateway, under every interleaving of
    connections that come and go, the number of connections that hold a permit is
    what the limiter counts and never exceeds the configured initial limit, and
    the limit never moves from it: since no latency is ever recorded, the
    adaptation has nothing to work on. *)
Theorem gateway_limit_static cfg i ts :
  min_limit cfg <= initial_limit cfg <= max_limit cfg → initial_limit cfg < 2 ^ 64 →
  gateway_reachable cfg i ts →
  current_limit i = initial_limit cfg ∧ inflight i = holding ts ∧ holding ts <= Z.max 0 (initial_limit cfg).
Proof.
  intros Hb Hmax Hr. cut (static cfg i ts); [by intros []|].
  induction Hr as [now i Hnew|i ts Hr IH|i ts n p i' p' Hr IH Hn Hp Hs].
  - unfold adaptive_new in Hnew. rewrite (proj2 (Z.ltb_ge _ _)) in Hnew by lia. injection Hnew as <-.
    split; simpl; [lia|done|done|unfold holding; simpl; lia|constructor].
  - destruct IH as [Hl Hs Hi Hb' Ht].
    assert (holding (ts ++ [Begin]) = holding ts) as E by (rewrite holding_app; unfold holding at 2; simpl; lia).
    split; [done|done|by rewrite E|by rewrite E|]. apply Forall_app. split; [done|by repeat constructor].
  - by eapply static_step.
Qed.

(** Two connections: the first holds a permit, the second is about to ask. *)
Lemma gateway_limit_static_witness :
  ∃ i ts, holding ts = 1 ∧ current_limit i = 100 ∧ inflight i = holding ts.
Proof.
  assert (∃ i, gateway_reachable default_adaptive_config i [Holding; Begin]) as [i Hr].
  { set (st := λ n, mkAdaptiveInner 100 n [] 0 0 0 default_adaptive_config).
    pose proof (g_new default_adaptive_config 0 (st 0) eq_refl) as R0.
    pose proof (g_accept _ _ _ R0) as R1.
    pose proof (g_step _ _ _ 0 Begin (st 0) _ R1 eq_refl ltac:(done) (t_window 0 (st 0) eq_refl)) as R2.
    pose proof (g_step _ _ _ 0 Adjusted _ _ R2 eq_refl ltac:(done) (t_limit (st 0))) as R3.
    pose proof (g_step _ _ _ 0 (GotLimit 100) _ _ R3 eq_refl ltac:(done) (t_enter (st 0) 100 ltac:(simpl; lia))) as R4.
    pose proof (g_step _ _ _ 0 (Looping 100) _ _ R4 eq_refl ltac:(done) (t_load (st 0) 100 ltac:(simpl; lia))) as R5.
    pose proof (g_step _ _ _ 0 (Loaded 100 0) _ _ R5 eq_refl ltac:(done) (t_cas_ok (st 0) 100 0 eq_refl)) as R6.
    pose proof (g_step _ _ _ 0 Granted _ _ R6 eq_refl ltac:(done) (t_count _)) as R7.
    eexists. exact (g_accept _ _ _ R7). }
  exists i, [Holding; Begin]. destruct (gateway_limit_static default_adaptive_config i [Holding; Begin]) as (H1 & H2 & _);
    [simpl; lia|simpl; lia|exact Hr|]. split; [reflexivity|]. split; [exact H1|exact H2].
Defined.
End Connections.
