(* ===== verification/Assembly.v ===== *)
(** A running data plane put together: the selector, the traffic control and the
    gateway server as the two kinds of process build them, with the health
    checker that selector and traffic control share in one of them
    (conrogate-gateway/src/server.rs, [from_config_inner];
    conrogate-cli/src/bootstrap.rs, [run]).

    An [Arc] that two components hold is one cell: a report that reaches the
    traffic control changes what the selector sees. *)
From Stdlib Require Import ZArith Lia Ascii String.
From stdpp Require Import base tactics option list list_numbers gmap strings.
From S2P Require Import Prelude Text Errors Core BalancerApi ConsistentHash Health Selector F64 Limiter Breaker Adaptive Retry Plugin Access.
From S2P Require Import TrafficControl Telemetry Effects HttpHandler TcpHandler Config Gateway.
#[local] Open Scope Z_scope.

Module Assembly.
Import Config Wiring.

Section Process.
Context {IpAddr IpNet : Type} `{IpL : IpLib IpAddr IpNet}.
Context {R : Type} (incrby : R → string → Z → R).
Context (hash : string → Z) (vars : string → option string).

Abbreviation Adapter := (@TrafficControl.TrafficControlAdapter TokenBucketL.TokenBucketLimiter).

Record Process := mkProcess {
  pr_selector : UpstreamSelectorImpl;
  pr_traffic : Adapter;
  pr_server : @GatewayServer IpNet;
}.

(** A gateway of its own: nothing gives its selector or its traffic control a
    health checker. *)
Definition gate_process (c : Config) (now : Z) (ups : list UpstreamDto) : outcome Process :=
  let! server := from_config_inner c now in
  Ret (mkProcess (load_upstreams (selector_new (create_default_registry hash)) ups) (gs_traffic server) server).

(** The merged process: both get the same checker; the server sees the part of
    the configuration that is about the gateway. *)
Definition merged_config (c : Config) : Config :=
  let d := default_config vars in mkConfig (cf_common d) (cf_gate c) (cf_control d) (cf_db d) (cf_log d).

Definition merged_process (c : Config) (ups : list UpstreamDto) : Process :=
  let health := PassiveHealth.default_checker in
  let selector := load_upstreams (selector_with_health_checker (selector_new (create_default_registry hash)) health) ups in
  let traffic := TrafficControl.adapter_with_health_checker (traffic_of (cf_gate c)) health in
  mkProcess selector traffic (from_components (merged_config c) (gt_gate_id (cf_gate c)) traffic).

(** ** Calls of the handlers and of the reloading *)

Inductive pcall :=
| Select (clock : nat → Z) (route : RouteSnapshot) (key : option string)
| Report (created failed route_id node_id : Z) (success : bool) (env : Breaker.call_env)
| Release (route : RouteSnapshot) (node : UpstreamNodeDto)
| Load (ups : list UpstreamDto).

(** The selector sees the checker the traffic control has changed, when they
    share one. *)
Definition share (s : UpstreamSelectorImpl) (a : Adapter) : UpstreamSelectorImpl :=
  mkSelector (sel_registry s) (sel_upstreams s)
    (match sel_health s with Some _ => TrafficControl.health_checker a | None => None end).

Definition set_selector (p : Process) (s : UpstreamSelectorImpl) : Process := mkProcess s (pr_traffic p) (pr_server p).

(** One call, with the node it selected, if it is a selection. *)
Definition proc_step (p : Process) (r : R) (c : pcall) :
    outcome (Process * R * list (result UpstreamNodeDto ConrogateError)) :=
  match c with
  | Select clock route key =>
      let! sel := select_upstream (pr_selector p) clock route key in
      Ret (set_selector p sel.1, r, [sel.2])
  | Report created failed route_id node_id success env =>
      let '(a, r') := TrafficControl.record_result incrby (pr_traffic p) created failed route_id node_id success env r in
      Ret (mkProcess (share (pr_selector p) a) a (pr_server p), r', [])
  | Release route node => Ret (set_selector p (release_node (pr_selector p) route node), r, [])
  | Load ups => Ret (set_selector p (load_upstreams (pr_selector p) ups), r, [])
  end.

Fixpoint proc_run (p : Process) (r : R) (calls : list pcall) :
    outcome (Process * R * list (result UpstreamNodeDto ConrogateError)) :=
  match calls with
  | [] => Ret (p, r, [])
  | c :: calls' =>
      let! one := proc_step p r c in
      let! rest := proc_run one.1.1 one.1.2 calls' in
      Ret (rest.1.1, rest.1.2, one.2 ++ rest.2)
  end.

(** The results reported, latest first. *)
Definition event_of (c : pcall) : option PassiveHealth.event :=
  match c with
  | Report _ failed _ node_id success _ =>
      Some (if success then PassiveHealth.Succeeded node_id else PassiveHealth.Failed node_id failed)
  | _ => None
  end.
Definition reported (calls : list pcall) : list PassiveHealth.event := reverse (omap event_of calls).

(** The node has failed and not succeeded since. *)
Definition failing (calls : list pcall) (n : UpstreamNodeDto) : Prop :=
  PassiveHealth.failures_since_success (n_id n) (reported calls) ≠ [].

Definition call_ok (c : pcall) : Prop := match c with Load ups => Forall (λ u, sane (u_nodes u)) ups | _ => True end.

(** ** The shared checker *)

Definition fed (h : option PassiveHealth.PassiveHealthChecker) (calls : list pcall) : option PassiveHealth.PassiveHealthChecker :=
  (λ hc, foldl PassiveHealth.feed hc (omap event_of calls)) <$> h.

(** Selector and traffic control hold the same checker, or the selector none. *)
Definition proc_ok (p : Process) : Prop :=
  selector_inv (pr_selector p) ∧
  (sel_health (pr_selector p) = TrafficControl.health_checker (pr_traffic p) ∨ sel_health (pr_selector p) = None).

Lemma record_health (a : Adapter) created failed route node success env r :
  TrafficControl.health_checker (TrafficControl.record_result incrby a created failed route node success env r).1 =
  fed (TrafficControl.health_checker a) [Report created failed route node success env].
Proof.
  unfold TrafficControl.record_result. destruct (if TrafficControl.breaker_enabled a then _ else _) as [f r']. simpl.
  unfold fed. by destruct success.
Qed.

Lemma release_keeps s route n :
  sel_upstreams (release_node s route n) = sel_upstreams s ∧ sel_health (release_node s route n) = sel_health s.
Proof.
  unfold release_node. destruct (s_upstream_id route); [|done]. destruct (get_algorithm s z); [|done].
  by destruct (registry_get (sel_registry s) a).
Qed.

Lemma proc_step_ok p r c :
  proc_ok p → call_ok c →
  ∃ p' r' outs, proc_step p r c = Ret (p', r', outs) ∧ proc_ok p' ∧
    sel_health (pr_selector p') = fed (sel_health (pr_selector p)) [c].
Proof.
  intros [Hi Hh] Hc. assert (∀ h, fed h [] = h) as Hnil by (by intros [?|]).
  destruct c as [clock route key|created failed route node success env|route node|ups]; cbn [proc_step].
  - destruct (select_step (pr_selector p) clock route key Hi) as (s' & res & -> & Hi' & _ & Hs & _).
    eexists _, _, _. split; [done|]. unfold proc_ok, set_selector. simpl. rewrite Hs. split; [by split|]. symmetry. apply Hnil.
  - pose proof (record_health (pr_traffic p) created failed route node success env r) as E.
    destruct (TrafficControl.record_result _ _ _ _ _ _ _ _ _) as [a r']. simpl in E. eexists _, _, _. split; [done|].
    unfold proc_ok, share. simpl. rewrite E. destruct Hi as [Hr Hu].
    destruct Hh as [Hh|Hh]; rewrite Hh; [destruct (TrafficControl.health_checker _)|]; split; try done; (split; [by split|]); auto.
  - destruct (release_keeps (pr_selector p) route node) as [Hu Hs]. eexists _, _, _. split; [done|].
    unfold proc_ok, set_selector. simpl. rewrite Hs. split; [split; [by apply release_node_inv|done]|]. symmetry. apply Hnil.
  - eexists _, _, _. split; [done|]. unfold proc_ok, set_selector. simpl. split; [split; [by apply load_upstreams_inv|done]|].
    symmetry. apply Hnil.
Qed.

Lemma fed_app h l k : fed (fed h l) k = fed h (l ++ k).
Proof. unfold fed. destruct h; [|done]. simpl. by rewrite omap_app, foldl_app. Qed.

(** No sequence of calls makes a process panic, and the selector has been told
    every result, if it has a checker. *)
Lemma proc_run_ok p r calls :
  proc_ok p → Forall call_ok calls →
  ∃ p' r' outs, proc_run p r calls = Ret (p', r', outs) ∧ proc_ok p' ∧
    sel_health (pr_selector p') = fed (sel_health (pr_selector p)) calls.
Proof.
  intros Hp Hc. revert p r Hp. induction Hc as [|c calls Hc _ IH]; intros p r Hp.
  - eexists _, _, _. split; [done|]. split; [done|]. by destruct (sel_health _).
  - destruct (proc_step_ok p r c Hp Hc) as (p1 & r1 & o1 & E1 & H1 & Hh1).
    destruct (IH p1 r1 H1) as (p2 & r2 & o2 & E2 & H2 & Hh2). exists p2, r2, (o1 ++ o2). cbn [proc_run]. rewrite E1. simpl. rewrite E2.
    split; [done|]. split; [done|]. rewrite Hh2, Hh1, fed_app. done.
Qed.

(** What the handlers see of a run: the nodes selected, and the selector they
    will ask next. *)
Definition picks (p : Process) (r : R) (calls : list pcall) :
    outcome (UpstreamSelectorImpl * list (result UpstreamNodeDto ConrogateError)) :=
  let! x := proc_run p r calls in Ret (pr_selector x.1.1, x.2).

Definition is_report (c : pcall) : bool := match c with Report _ _ _ _ _ _ => true | _ => false end.

(** ** Without a checker *)

Lemma share_none s a : sel_health s = None → share s a = s.
Proof. unfold share. destruct s. simpl. by intros ->. Qed.

Lemma picks_cons p r c calls :
  picks p r (c :: calls) =
    let! one := proc_step p r c in let! rest := picks one.1.1 one.1.2 calls in Ret (rest.1, one.2 ++ rest.2).
Proof. unfold picks. cbn [proc_run]. destruct (proc_step p r c) as [one|]; [|done]. simpl. by destruct (proc_run _ _ calls). Qed.

(** Two processes with the same selector and no checker. *)
Lemma picks_ignore p q r r' calls :
  proc_ok p → proc_ok q → sel_health (pr_selector p) = None → pr_selector p = pr_selector q → Forall call_ok calls →
  picks p r calls = picks q r' (List.filter (λ c, negb (is_report c)) calls).
Proof.
  intros Hp Hq Hn E Hc. revert p q r r' Hp Hq Hn E. induction Hc as [|c calls Hc _ IH]; intros p q r r' Hp Hq Hn E.
  - unfold picks. simpl. by rewrite E.
  - destruct (proc_step_ok p r c Hp Hc) as (p1 & r1 & o1 & E1 & H1 & Hs1). rewrite Hn in Hs1.
    rewrite picks_cons, E1. cbn [List.filter]. destruct (is_report c) eqn:Er; simpl negb.
    + destruct c; try done. cbn [proc_step] in E1. destruct (TrafficControl.record_result _ _ _ _ _ _ _ _ _) as [a ra].
      injection E1 as <- <- <-. cbn [fst snd] in *. rewrite (share_none _ _ Hn) in *.
      rewrite (IH _ q ra r'); try done. by destruct (picks q r' _) as [[]|].
    + destruct (proc_step_ok q r' c Hq Hc) as (q1 & r2 & o2 & E2 & H2 & _). rewrite picks_cons, E2. cbn [fst snd].
      assert (pr_selector p1 = pr_selector q1 ∧ o1 = o2) as [Es ->].
      { destruct c; try done; cbn [proc_step] in E1, E2; rewrite <-E in E2.
        - destruct (select_upstream _ _ _ _); simpl in *; simplify_eq. done.
        - simplify_eq. done.
        - simplify_eq. done. }
      by rewrite (IH p1 q1 r1 r2).
Qed.

(** ** With one *)

Lemma foldl_reverse {A B} (f : A → B → A) a l : foldl f a l = foldr (flip f) a (reverse l).
Proof. induction l as [|x l IH] using rev_ind; [done|]. rewrite foldl_app, reverse_snoc. simpl. by rewrite IH. Qed.

Lemma reported_length calls : (length (reported calls) <= length calls)%nat.
Proof.
  unfold reported. rewrite length_reverse. induction calls as [|c calls IH]; [done|]. csimpl. destruct (event_of c); csimpl; lia.
Qed.

(** A node that is offered although it fails is offered because all fail. *)
Lemma candidates_not_failing s clock nodes calls n m :
  Z.of_nat (length calls) < 2 ^ 32 → sel_health s = fed (Some PassiveHealth.default_checker) calls →
  n ∈ candidates s clock nodes → m ∈ nodes → n_enabled m = true → ¬ failing calls m → ¬ failing calls n.
Proof.
  intros Hl Hs Hn Hm He Hf. unfold fed in Hs. simpl in Hs. rewrite foldl_reverse in Hs. fold (reported calls) in Hs.
  pose proof (reported_length calls) as Hlr. unfold failing in *.
  assert (Z.of_nat (length (reported calls)) < 2 ^ 32) as Hlt by lia.
  pose proof (λ x, PassiveHealth.passive_schedulable_iff 3 (from_secs 30) (reported calls) clock nodes x eq_refl Hlt) as Hiff.
  change (PassiveHealth.new 3 (from_secs 30)) with PassiveHealth.default_checker in Hiff.
  rewrite (candidates_healthy _ _ _ _ Hs) in Hn.
  - apply Hiff in Hn as (_ & _ & Hn). intros H; by apply H.
  - intros Hnil. assert (m ∈ @nil UpstreamNodeDto) as Hin; [|by apply not_elem_of_nil in Hin].
    rewrite <-Hnil. apply Hiff. split_and!; [done|done|]. destruct (PassiveHealth.failures_since_success _ _); [done|].
    by destruct Hf.
Qed.

Lemma fresh_selector_inv : selector_inv (selector_new (create_default_registry hash)).
Proof. split; [apply default_registry_ok|apply map_Forall_empty]. Qed.

(** C26. Where results count. Let no node address that is loaded have a bar ["|"] (the
    program accepts one, and the weighted balancer may then panic: [bar_panics]),
    and let fewer than 2^32 calls be made. In the merged process no sequence of
    selections, results, releases and reloads then makes a selection panic, and a node that failed
    since its last success is not selected while an enabled node of the upstream
    has not. In a gateway of its own, whose selector is given no health checker,
    the results change nothing: the same nodes are selected as if none had been
    reported. *)
Theorem results_steer_selection (c : Config) now ups calls (r r' : R) :
  Forall (λ u, sane (u_nodes u)) ups → Forall call_ok calls → Z.of_nat (length calls) < 2 ^ 32 →
  (∃ p r1 outs, proc_run (merged_process c ups) r calls = Ret (p, r1, outs) ∧
     ∀ clock route key, ∃ s' res, select_upstream (pr_selector p) clock route key = Ret (s', res) ∧
       ∀ n, res = Ok n → ∃ algo nodes, resolves (pr_selector p) route algo nodes ∧ n ∈ nodes ∧
         ∀ m, m ∈ nodes → n_enabled m = true → ¬ failing calls m → ¬ failing calls n) ∧
  (∀ p, gate_process c now ups = Ret p →
     picks p r calls = picks p r' (List.filter (λ c, negb (is_report c)) calls)).
Proof.
  intros Hu Hc Hl. split.
  - destruct (proc_run_ok (merged_process c ups) r calls) as (p & r1 & outs & E & [Hi _] & Hh); [split; [|by left]|done|].
    { unfold merged_process. cbn [pr_selector]. apply load_upstreams_inv; [|done]. apply fresh_selector_inv. }
    exists p, r1, outs. split; [done|]. intros clock route key.
    destruct (select_step (pr_selector p) clock route key Hi) as (s' & res & Es & _ & _ & _ & Hr). exists s', res. split; [done|].
    intros n ->. destruct Hr as (algo & nodes & Hres & Hn & _). exists algo, nodes.
    split_and!; [done|by eapply candidates_incl|]. intros m Hm He Hf. eapply candidates_not_failing; eauto.
  - intros p Hp. unfold gate_process in Hp. destruct (from_config_inner c now) as [server|]; [|done]. simpl in Hp. simplify_eq.
    apply picks_ignore; try done; (split; [|by right]); apply load_upstreams_inv; try done; apply fresh_selector_inv.
Qed.
End Process.
End Assembly.

Module AssemblyDemo.
Import Config Wiring Assembly AccessDemo WiringDemo.
#[local] Existing Instance toy_lib.

Definition backend : UpstreamDto :=
  mkUpstream 1 "backend" RoundRobin true [mkNode 1 1 "10.0.0.1:80" 1 true; mkNode 2 1 "10.0.0.2:80" 1 true] 0 0.
Definition at_rest : Breaker.call_env := Breaker.mkCallEnv (Breaker.mkClock 0 0 0) false 0 0.
Definition failed_once : list pcall :=
  [Report 0 5 1 1 false at_rest; Select (λ _, from_secs 3600) demo_route None; Select (λ _, from_secs 3600) demo_route None].

Definition merged : @Process toy_net := merged_process ConsistentHashLB.sum_hash demo_env demo_config [backend].
Definition gate : outcome (@Process toy_net) := gate_process ConsistentHashLB.sum_hash demo_config 0 [backend].

Definition ids (l : list (result UpstreamNodeDto ConrogateError)) : list Z :=
  omap (λ r, match r with Ok n => Some (n_id n) | Err _ => None end) l.

(** What the run of the merged process gives. *)
Lemma merged_run p r outs :
  proc_run Breaker.map_incrby merged ∅ failed_once = Ret (p, r, outs) →
  ids outs = [2; 2] ∧ sel_upstreams (pr_selector p) !! 1 = Some (RoundRobin, u_nodes backend).
Proof.
  intros E.
  assert (match proc_run Breaker.map_incrby merged ∅ failed_once with
          | Ret x => (ids x.2, sel_upstreams (pr_selector x.1.1) !! 1)
          | Panic => ([], None)
          end = ([2; 2], Some (RoundRobin, u_nodes backend))) as H by (vm_compute; reflexivity).
  rewrite E in H. by injection H.
Qed.

(** Node 1 failed once, an hour ago: the merged process avoids it, the gateway of
    its own alternates as before. *)
Lemma results_steer_selection_witness :
  (∃ p r outs, proc_run Breaker.map_incrby merged ∅ failed_once = Ret (p, r, outs) ∧ ids outs = [2; 2] ∧
     ∀ s' n, select_upstream (pr_selector p) (λ _, from_secs 3600) demo_route None = Ret (s', Ok n) →
       ¬ failing failed_once n) ∧
  match gate with
  | Ret p => match picks Breaker.map_incrby p ∅ failed_once with Ret x => ids x.2 = [1; 2] | Panic => False end
  | Panic => False
  end.
Proof.
  destruct (results_steer_selection Breaker.map_incrby ConsistentHashLB.sum_hash demo_env (IpNet := toy_net) demo_config 0 [backend] failed_once ∅ ∅)
    as [(p & r1 & outs & E & H) G]; [by repeat constructor|by repeat constructor|reflexivity|]. split.
  - destruct (merged_run p r1 outs E) as [Hids Hups]. exists p, r1, outs. split; [exact E|]. split; [exact Hids|].
    intros s' n Es. destruct (H (λ _, from_secs 3600) demo_route None) as (s2 & res & Es2 & Hn).
    rewrite Es in Es2. injection Es2 as <- <-. destruct (Hn n eq_refl) as (algo & nodes & (u & Hu & Hr) & _ & Hm).
    apply (Hm (mkNode 2 1 "10.0.0.2:80" 1 true)); [|reflexivity|].
    + injection Hu as <-. rewrite Hups in Hr. injection Hr as <- <-. right. left.
    + intros Hf. by apply Hf.
  - assert (match gate with Ret p => match picks Breaker.map_incrby p ∅ (List.filter (λ c, negb (is_report c)) failed_once) with
      Ret x => ids x.2 = [1; 2] | Panic => False end | Panic => False end) as Hg by (vm_compute; reflexivity).
    fold gate in G. destruct gate as [p0|]; [|exact Hg]. rewrite (G p0 eq_refl). exact Hg.
Defined.
End AssemblyDemo.
