(* ===== verification/Reload.v ===== *)
(** The replacement of the running configuration (conrogate-gateway/src/server.rs,
    [load_config_snapshot], [refresh_blacklist_from_db] and the loop of
    [from_config_with_db]): a program over the configuration cache and the
    repositories that writes the plugin chains, the route table, the upstreams and
    the blacklist. *)
From Stdlib Require Import ZArith Lia Ascii String.
From stdpp Require Import base tactics option list gmap strings.
From S2P Require Import Prelude Text Errors Core BalancerApi Selector RouteMatcher Plugin Access Effects.
#[local] Open Scope Z_scope.

Module Reload.
Local Open Scope prog_scope.

Section Loading.
Context {P Ctx Resp Body : Type} `{PT : PluginTrait P Ctx Resp Body}.
Context {Regex : Type} (regex_new : string → option Regex).
Context {IpAddr IpNet : Type} `{IpL : IpLib IpAddr IpNet}.

(** Reads of the cache and the repositories, and writes to the running state. *)
Inductive call : Type :=
| GetSnapshot
| ListEnabledRoutes
| ListAllUpstreams
| ListByRoute (route : Z)
| ListBlacklist
| UtcNow
| SetRouteChains (chains : gmap Z (list P))
| LoadWithBindings (routes : list RouteDto) (bindings : list PluginBindingDto) (body_required : list string)
| LoadUpstreams (ups : list UpstreamDto)
| ReloadBlacklist (now : Z) (dtos : list IpBlacklistDto).

Definition ans (c : call) : Type :=
  match c with
  | GetSnapshot => result (option ConfigSnapshot) ConrogateError
  | ListEnabledRoutes => result (list RouteDto) ConrogateError
  | ListAllUpstreams => result (list UpstreamDto) ConrogateError
  | ListByRoute _ => result (list PluginBindingDto) ConrogateError
  | ListBlacklist => result (list IpBlacklistDto) ConrogateError
  | UtcNow => Z
  | _ => unit
  end.

Abbreviation M := (prog ans).
Definition ask (c : call) : M (ans c) := perform c.

(** The bindings of the routes, one query each; [None] as soon as one fails. *)
Fixpoint load_bindings (routes : list RouteDto) (acc : list PluginBindingDto) : M (option (list PluginBindingDto)) :=
  match routes with
  | [] => Done (Some acc)
  | route :: rest =>
      rb <- ask (ListByRoute (r_id route));;
      match rb with
      | Ok l => load_bindings rest (acc ++ l)
      | Err _ => Done None
      end
  end.

(** The part of [load_config_snapshot] that reads the database. *)
Definition load_from_db : M (option ConfigSnapshot) :=
  routes <- ask ListEnabledRoutes;;
  match routes with
  | Err _ => Done None
  | Ok routes =>
      upstreams <- ask ListAllUpstreams;;
      match upstreams with
      | Err _ => Done None
      | Ok upstreams =>
          bindings <- load_bindings routes [];;
          Done (match bindings with
                | Some bindings => Some (mkConfigSnapshot routes upstreams bindings)
                | None => None
                end)
      end
  end.

(** [load_config_snapshot]; [cached]: a cache is configured. *)
Definition load_config_snapshot (cached : bool) : M (option ConfigSnapshot) :=
  if cached then
    snap <- ask GetSnapshot;;
    match snap with
    | Ok (Some s) => Done (Some s)
    | Ok None | Err _ => load_from_db
    end
  else load_from_db.

Definition refresh_blacklist_from_db : M unit :=
  l <- ask ListBlacklist;;
  match l with
  | Ok l => now <- ask UtcNow;; ask (ReloadBlacklist now l)
  | Err _ => Done tt
  end.

(** One turn of the reloading loop. *)
Definition reload_once (registry : @Plugins.PluginRegistryImpl P) (cached : bool) : M unit :=
  snap <- load_config_snapshot cached;;
  match snap with
  | Some s =>
      let body_req := Plugins.body_required_plugin_names registry in
      match Plugins.build_chains registry (cs_plugin_bindings s) with
      | Ok chains =>
          ask (SetRouteChains chains);;;
          ask (LoadWithBindings (cs_routes s) (cs_plugin_bindings s) body_req);;;
          ask (LoadUpstreams (cs_upstreams s))
      | Err _ => Done tt
      end
  | None => Done tt
  end;;;
  refresh_blacklist_from_db.

(** ** The running state *)

Record runtime := mkRuntime {
  rt_chains : gmap Z (list P);
  rt_routes : @RouteMatcher.RouteTable Regex;
  rt_selector : UpstreamSelectorImpl;
  rt_blacklist : list (@BlacklistEntry IpNet) }.

(** What a call writes. *)
Definition effect (s : runtime) (c : call) : runtime :=
  match c with
  | SetRouteChains chains => mkRuntime (Plugins.set_route_chains (rt_chains s) chains) (rt_routes s) (rt_selector s) (rt_blacklist s)
  | LoadWithBindings rs bs req =>
      mkRuntime (rt_chains s) (RouteMatcher.load_with_bindings regex_new rs bs req) (rt_selector s) (rt_blacklist s)
  | LoadUpstreams ups => mkRuntime (rt_chains s) (rt_routes s) (load_upstreams (rt_selector s) ups) (rt_blacklist s)
  | ReloadBlacklist now l => mkRuntime (rt_chains s) (rt_routes s) (rt_selector s) (blacklist_reload now l)
  | _ => s
  end.

Definition after (s : runtime) (tr : list (Effects.event ans)) : runtime := foldl (λ s e, effect s (call_of e)) s tr.

(** The snapshot [snap] was read in full in [tr]: from the cache, or table by
    table from the database with the bindings of each of its routes. *)
Definition read_in (tr : list (Effects.event ans)) (snap : ConfigSnapshot) : Prop :=
  existT GetSnapshot (Ok (Some snap)) ∈ tr ∨
  (existT ListEnabledRoutes (Ok (cs_routes snap)) ∈ tr ∧ existT ListAllUpstreams (Ok (cs_upstreams snap)) ∈ tr ∧
   ∃ ls, cs_plugin_bindings snap = concat ls ∧
     Forall2 (λ route l, existT (ListByRoute (r_id route)) (Ok l) ∈ tr) (cs_routes snap) ls).

Lemma after_app s tr1 tr2 : after s (tr1 ++ tr2) = after (after s tr1) tr2.
Proof. apply foldl_app. Qed.

(** Reads change nothing. *)
Lemma load_bindings_runs routes acc tr r s :
  runs (load_bindings routes acc) tr r →
  after s tr = s ∧ ∀ l, r = Some l → ∃ ls, l = acc ++ concat ls ∧
    Forall2 (λ route l, existT (ListByRoute (r_id route)) (Ok l) ∈ tr) routes ls.
Proof.
  revert acc tr. induction routes as [|d routes IH]; intros acc tr; simpl.
  { intros [-> ->]. split; [done|]. intros l [= <-]. exists []. by rewrite app_nil_r. }
  intros (x & tr' & -> & H). destruct x as [l1|e]; simpl in *; [|by destruct H as [-> ->]].
  apply IH in H as [Ha H]. split; [exact Ha|]. intros l Hl. destruct (H l Hl) as (ls & -> & Hf).
  exists (l1 :: ls). split; [simpl; by rewrite <-app_assoc|]. constructor; [left|].
  eapply Forall2_impl; [exact Hf|]. intros. by right.
Qed.

Lemma load_from_db_runs tr r s :
  runs load_from_db tr r → after s tr = s ∧ ∀ snap, r = Some snap → read_in tr snap.
Proof.
  unfold load_from_db. simpl. intros (x & tr' & -> & H). destruct x as [rs|e]; simpl in H; [|by destruct H as [-> ->]].
  destruct H as (x & tr2 & -> & H). destruct x as [us|e]; simpl in H; [|by destruct H as [-> ->]].
  apply runs_bind in H as (tr3 & b & tr4 & -> & H & [-> ->]). apply (load_bindings_runs _ _ _ _ s) in H as [Ha H].
  rewrite app_nil_r. split; [exact Ha|]. intros snap Hs. destruct b as [b|]; [|done]. injection Hs as <-.
  destruct (H b eq_refl) as (ls & -> & Hf). right. split; [left|]. split; [right; left|]. exists ls. split; [done|].
  eapply Forall2_impl; [exact Hf|]. intros. by right; right.
Qed.

Lemma load_config_snapshot_runs cached tr r s :
  runs (load_config_snapshot cached) tr r → after s tr = s ∧ ∀ snap, r = Some snap → read_in tr snap.
Proof.
  unfold load_config_snapshot. destruct cached; [|apply load_from_db_runs].
  cbn [bind perform ask runs]. intros (x & tr' & -> & H).
  destruct x as [[snap|]|e]; cbn [bind runs] in H; cycle 1.
  1, 2: apply (load_from_db_runs _ _ s) in H as [Ha H]; split; [exact Ha|]; intros snap Hs;
    destruct (H snap Hs) as [Hr|(H1 & H2 & ls & H3 & H4)]; [left; by right|right; split_and!; [by right|by right|]];
    exists ls; (split; [done|]); (eapply Forall2_impl; [exact H4|]); intros; by right.
  destruct H as [-> ->]. split; [done|]. intros snap' [= <-]. left. left.
Qed.

Lemma refresh_runs tr s :
  runs refresh_blacklist_from_db tr tt →
  after s tr = s ∨ ∃ now l, existT ListBlacklist (Ok l) ∈ tr ∧
    after s tr = mkRuntime (rt_chains s) (rt_routes s) (rt_selector s) (blacklist_reload now l).
Proof.
  simpl. intros (x & tr' & -> & H). destruct x as [l|e]; simpl in H; [|destruct H as [-> _]; by left].
  destruct H as (now & tr2 & -> & [] & tr3 & -> & -> & _). right. exists now, l. split; [left|done].
Qed.

(** C7. Reloading is all or nothing: a turn of the reloading loop either leaves
    chains, routes and upstreams as they were, or replaces all three by those of
    one snapshot that was read in full (every query of it succeeded) and all of
    whose plugins could be built; the blacklist stays or becomes the list that was
    read. No failure of the cache, of a repository or of a plugin's configuration
    leaves half a configuration behind. *)
Theorem reload_all_or_nothing registry cached tr s :
  runs (reload_once registry cached) tr tt →
  let s' := after s tr in
  ((rt_chains s' = rt_chains s ∧ rt_routes s' = rt_routes s ∧ rt_selector s' = rt_selector s) ∨
   ∃ snap, read_in tr snap ∧
     Plugins.build_chains registry (cs_plugin_bindings snap) = Ok (rt_chains s') ∧
     rt_routes s' = RouteMatcher.load_with_bindings regex_new (cs_routes snap) (cs_plugin_bindings snap)
                      (Plugins.body_required_plugin_names registry) ∧
     rt_selector s' = load_upstreams (rt_selector s) (cs_upstreams snap)) ∧
  (rt_blacklist s' = rt_blacklist s ∨
   ∃ now l, existT ListBlacklist (Ok l) ∈ tr ∧ rt_blacklist s' = blacklist_reload now l).
Proof.
  unfold reload_once. intros (tr1 & snap & tr2 & -> & [Ha Hr]%(load_config_snapshot_runs _ _ _ s) & H)%runs_bind.
  apply runs_bind in H as (tr3 & [] & tr4 & -> & Hw & Hb). cbv zeta. rewrite !after_app, Ha.
  assert (∀ e, e ∈ tr4 → e ∈ tr1 ++ tr3 ++ tr4) as Hin4 by set_solver.
  assert (∀ sn, read_in tr1 sn → read_in (tr1 ++ tr3 ++ tr4) sn) as Hin1.
  { intros sn [Hs|(H1 & H2 & ls & H3 & H4)]; [left; set_solver|right; split_and!; [set_solver|set_solver|]].
    exists ls. split; [done|]. eapply Forall2_impl; [exact H4|]. set_solver. }
  assert (∀ s1, rt_blacklist s1 = rt_blacklist s → let s' := after s1 tr4 in
    rt_chains s' = rt_chains s1 ∧ rt_routes s' = rt_routes s1 ∧ rt_selector s' = rt_selector s1 ∧
    (rt_blacklist s' = rt_blacklist s ∨ ∃ now l, existT ListBlacklist (Ok l) ∈ tr1 ++ tr3 ++ tr4 ∧ rt_blacklist s' = blacklist_reload now l))
    as Hbl.
  { intros s1 E. cbv zeta. destruct (refresh_runs tr4 s1 Hb) as [->|(now & l & Hl & ->)]; simpl; split_and!; try done; [by left|].
    right. exists now, l. split; [by apply Hin4|done]. }
  destruct snap as [snap|]; [|destruct Hw as [-> _]; simpl; destruct (Hbl s eq_refl) as (-> & -> & -> & ?); by split; [left|]].
  destruct (Plugins.build_chains _ _) as [chains|e] eqn:Eb;
    [|destruct Hw as [-> _]; simpl; destruct (Hbl s eq_refl) as (-> & -> & -> & ?); by split; [left|]].
  simpl in Hw. destruct Hw as ([] & t1 & -> & [] & t2 & -> & [] & t3 & -> & -> & _). simpl.
  destruct (Hbl (after s [existT (SetRouteChains chains) tt;
    existT (LoadWithBindings (cs_routes snap) (cs_plugin_bindings snap) (Plugins.body_required_plugin_names registry)) tt;
    existT (LoadUpstreams (cs_upstreams snap)) tt]) eq_refl) as (E1 & E2 & E3 & E4).
  simpl in E1, E2, E3, E4. rewrite E1, E2, E3. split; [|exact E4]. right. exists snap. split; [by apply Hin1, Hr|].
  by rewrite Eb.
Qed.
End Loading.
End Reload.

Module ReloadDemo.
Import Reload AccessDemo.
#[local] Existing Instance toy_trait.
#[local] Existing Instance toy_lib.

(** No snapshot is cached; the database has one route with one binding; the
    blacklist cannot be read. *)
Definition serve (s : unit) (c : @call toy_plugin) : unit * ans c :=
  match c return unit * ans c with
  | GetSnapshot => (s, Ok None)
  | ListEnabledRoutes => (s, Ok [RouteMatcher.demo_route 7 1 (PathPrefix "/")])
  | ListAllUpstreams => (s, Ok [demo_upstream])
  | ListByRoute _ => (s, Ok [mkBinding 1 7 "auth" VNull 20 true true])
  | ListBlacklist => (s, Err Forbidden)
  | UtcNow => (s, 0)
  | SetRouteChains _ | LoadWithBindings _ _ _ | LoadUpstreams _ | ReloadBlacklist _ _ => (s, tt)
  end.

Definition demo_trace : list (Effects.event (@ans toy_plugin)) :=
  (exec serve tt (reload_once PluginsDemo.demo_registry true)).1.2.
Definition demo_runtime : @runtime toy_plugin string toy_net := mkRuntime ∅ RouteMatcher.empty_table demo_selector [].

Lemma reload_all_or_nothing_witness :
  rt_chains (after RouteMatcher.toy_new demo_runtime demo_trace) = {[ 7 := [mkToy "auth" true] ]} ∧
  ∃ snap, read_in demo_trace snap ∧
    Plugins.build_chains PluginsDemo.demo_registry (cs_plugin_bindings snap) =
      Ok (rt_chains (after RouteMatcher.toy_new demo_runtime demo_trace)).
Proof.
  assert (rt_chains (after RouteMatcher.toy_new demo_runtime demo_trace) = {[ 7 := [mkToy "auth" true] ]}) as E
    by (vm_compute; reflexivity).
  split; [exact E|].
  destruct (reload_all_or_nothing RouteMatcher.toy_new PluginsDemo.demo_registry true demo_trace demo_runtime)
    as [[[H _]|(snap & H1 & H2 & _)] _].
  - pose proof (exec_runs serve (reload_once PluginsDemo.demo_registry true) tt) as R. fold demo_trace in R. revert R.
    generalize (exec serve tt (reload_once PluginsDemo.demo_registry true)).2. intros []. exact id.
  - rewrite E in H. vm_compute in H. discriminate H.
  - exists snap. split; [exact H1|exact H2].
Defined.
End ReloadDemo.
