(* ===== verification/Bridge.v ===== *)
(** The bridge between the HTTP server and the protocol handlers
    (conrogate-gateway/src/server.rs, [HyperServiceBridge]): probes, the choice of
    the streamed or the buffered mode, the limits on bodies, the answers to
    errors, and the hand-over of WebSocket upgrades.

    The handler behind [Arc<dyn ProtocolHandler>] is a call, so the theorems hold
    for any handler; the request's body is what the client will send. *)
From Stdlib Require Import ZArith Lia Ascii String.
From stdpp Require Import base tactics option list gmap strings.
From S2P Require Import Prelude Text Errors Core BalancerApi F64 Plugin Access Telemetry Effects HttpHandler.
#[local] Open Scope Z_scope.

Module Bridge.
Import HttpHandler.
Local Open Scope prog_scope.
Local Open Scope Z_scope.

Section Service.
Context {HeaderMap HeaderValue Uri : Type} `{HttpL : HttpLib HeaderMap HeaderValue Uri}.
(** The path of a URI. *)
Context (uri_path : Uri → string).

Abbreviation Req := (@HttpHandler.Request HeaderMap Uri).
Abbreviation Resp := (@HttpHandler.Response HeaderMap).

Record HyperServiceBridge := mkBridge {
  client_ip : string;
  max_body_bytes : Z;
  read_timeout : Z;
  access_log_enabled : bool;
  access_log_skip_paths : list string }.

(** A WebSocket tunnel to start: where to, and the request that opens it. *)
Record TunnelTask := mkTask { tk_upstream_addr : string; tk_request : @HttpHandler.UpstreamRequest HeaderMap Uri }.

(** A line of the access log. *)
Record AccessLine := mkLine { ln_trace_id : string; ln_method : string; ln_path : string; ln_status : Z; ln_client_ip : string; ln_latency_ms : Z }.

(** The reading of a body. *)
Inductive collect := Collected (bytes : string) | ReadError (msg : string) | ReadTimeout.

Inductive call : Type :=
| GenerateTraceId
| Now
| RoutesEmpty
| MatchHttpRequest (method : string) (uri : Uri) (headers : HeaderMap)
| HandleHttpStream (req : Req) (route : RouteSnapshot) (ip : string) (info : RouteMatchInfo)
| HandleHttp (req : Req) (ip : string) (info : RouteMatchInfo) (pre_matched : option RouteSnapshot)
| CollectBody (t : Z)
| SpawnTunnel (task : TunnelTask)
| Access (line : AccessLine).

Definition ans (c : call) : Type :=
  match c with
  | GenerateTraceId => string
  | Now => Z
  | RoutesEmpty => bool
  | MatchHttpRequest _ _ _ => option RouteSnapshot * RouteMatchInfo
  | HandleHttpStream _ _ _ _ | HandleHttp _ _ _ _ => result Resp ConrogateError
  | CollectBody _ => collect
  | SpawnTunnel _ | Access _ => unit
  end.

Abbreviation M := (prog ans).
Definition ask (c : call) : M (ans c) := perform c.

(** ** Answers of the bridge's own *)

Definition error_response (status code : Z) (msg trace_id : string) : Resp :=
  mkResponse status (append_text (append_text hm_empty "Content-Type" "application/json") "x-trace-id" trace_id)
    (ErrorJson (error_body_with_trace trace_id code msg)).

Definition probe_response (trace_id text : string) : Resp := mkResponse 200 (append_text hm_empty "x-trace-id" trace_id) (Raw text).

Definition too_large (trace_id : string) : Resp := error_response 413 ERR_PAYLOAD_TOO_LARGE "request body too large" trace_id.

(** The answer to an error of the handler. *)
Definition handler_error (trace_id : string) (e : ConrogateError) : Resp :=
  match e with
  | RateLimited | Limited => error_response 429 ERR_LIMITED "rate limited" trace_id
  | CircuitBreakerOpen => error_response 503 ERR_CIRCUIT_BREAKER_OPEN "circuit breaker open" trace_id
  | _ => error_response 502 ERR_GATEWAY_INTERNAL "gateway error" trace_id
  end.

(** [trace_id_from_headers]. *)
Definition trace_id_from_headers (headers : HeaderMap) : M string :=
  match trim <$> get_str headers "x-trace-id" with
  | Some s => if is_empty s then ask GenerateTraceId else Done s
  | None => ask GenerateTraceId
  end.

(** ** Upgrades *)

Definition wants_websocket (req : Req) : bool :=
  bool_decide (rq_method req = "GET"%string) &&
  from_option (λ s, eq_ignore_ascii_case s "websocket") false (get_str (rq_headers req) "upgrade").

(** The request that opens the tunnel at the upstream. *)
Definition upgrade_request (req : Req) (strip : bool) (host : string) : @HttpHandler.UpstreamRequest HeaderMap Uri :=
  let hs := if strip then strip_sensitive_headers (rq_headers req) else rq_headers req in
  mkUpstreamRequest (rq_method req) (rq_uri req) (insert_text hs "host" host) (Raw "").

Definition WS_FIELDS : list string := ["X-WS-Upstream-Addr"; "X-WS-Host-Header"; "X-WS-Strip-Sensitive"; "X-WS-Trace-Id"]%string.

(** The 101 answer without the fields meant for the bridge; the streamed mode
    first turns the trace id among them into the client's. *)
Definition clean_upgrade (streamed : bool) (resp : Resp) : Resp :=
  let hs := if streamed then
              match hm_get (rs_headers resp) "X-WS-Trace-Id" with
              | Some v => hm_insert (rs_headers resp) "x-trace-id" v
              | None => rs_headers resp
              end
            else rs_headers resp in
  mkResponse (rs_status resp) (foldl hm_remove hs WS_FIELDS) (Raw "").

(** What follows a response of the handler. *)
Definition deliver (streamed : bool) (req : Req) (resp : Resp) : M Resp :=
  match (if rs_status resp =? 101 then get_str (rs_headers resp) "X-WS-Upstream-Addr" else None) with
  | None => Done resp
  | Some addr =>
      let host := default addr (get_str (rs_headers resp) "X-WS-Host-Header") in
      let strip := bool_decide (is_Some (hm_get (rs_headers resp) "X-WS-Strip-Sensitive")) in
      (if wants_websocket req then ask (SpawnTunnel (mkTask addr (upgrade_request req strip host))) else Done tt);;;
      Done (clean_upgrade streamed resp)
  end.

(** ** One request *)

Definition buffered (b : HyperServiceBridge) (req : Req) (trace : string) (route : option RouteSnapshot) (info : RouteMatchInfo) : M Resp :=
  body <- ask (CollectBody (read_timeout b));;
  match body with
  | ReadError e => Done (error_response 400 ERR_BODY_READ ("request body read error: " +:+ e) trace)
  | ReadTimeout => Done (error_response 408 ERR_BODY_READ_TIMEOUT "request body read timeout" trace)
  | Collected bytes =>
      if max_body_bytes b <? Z.of_nat (String.length bytes) then Done (too_large trace)
      else
        r <- ask (HandleHttp (mkRequest (rq_method req) (rq_uri req) (rq_headers req) bytes) (client_ip b) info route);;
        match r with
        | Err e => Done (handler_error trace e)
        | Ok resp => deliver false req resp
        end
  end.

(** The length the client declares. *)
Definition declared_length (req : Req) : option Z := get_str (rq_headers req) "content-length" ≫= parse_uint u64_max.

Definition streamed (b : HyperServiceBridge) (req : Req) (trace : string) (route : RouteSnapshot) (info : RouteMatchInfo) : M Resp :=
  if from_option (λ n, max_body_bytes b <? n) false (declared_length req) then Done (too_large trace)
  else
    r <- ask (HandleHttpStream req route (client_ip b) info);;
    match r with
    | Err e => Done (handler_error trace e)
    | Ok resp => deliver true req resp
    end.

Definition process (b : HyperServiceBridge) (req : Req) : M (result Resp ConrogateError) :=
  trace <- trace_id_from_headers (rq_headers req);;
  let is_get := bool_decide (rq_method req = "GET"%string) in
  if is_get && bool_decide (uri_path (rq_uri req) = "/healthz"%string) then Done (Ok (probe_response trace "ok"))
  else if is_get && bool_decide (uri_path (rq_uri req) = "/readyz"%string) then
    empty <- ask RoutesEmpty;;
    Done (Ok (if (empty : bool) then error_response 503 ERR_CONFIG_LOAD "not ready: no routes loaded" trace
              else probe_response trace "ready"))
  else
    '(route, info) <- ask (MatchHttpRequest (rq_method req) (rq_uri req) (rq_headers req));;
    match route with
    | Some r => if negb (s_requires_body r) then resp <- streamed b req trace r info;; Done (Ok resp)
                else resp <- buffered b req trace route info;; Done (Ok resp)
    | None => resp <- buffered b req trace route info;; Done (Ok resp)
    end.

(** [call]: the answer to every request, and the access log. *)
Definition service (b : HyperServiceBridge) (req : Req) : M Resp :=
  start <- ask Now;;
  let path := uri_path (rq_uri req) in
  trace <- trace_id_from_headers (rq_headers req);;
  r <- process b req;;
  let resp := match r with Ok resp => resp | Err _ => error_response 502 ERR_GATEWAY_INTERNAL "gateway error" trace end in
  (if access_log_enabled b && negb (existsb (λ p, starts_with p path) (access_log_skip_paths b)) then
     now <- ask Now;;
     ask (Access (mkLine (default EmptyString (get_str (rs_headers resp) "x-trace-id")) (rq_method req) path (rs_status resp)
                    (client_ip b) (u64_wrap (as_millis (duration_since now start)))))
   else Done tt);;;
  Done resp.

(** ** What a trace shows *)

Abbreviation trace := (list (Effects.event ans)).

(** A call of the handler: whether streamed, the request it got, its result. *)
Definition handler_of (e : Effects.event ans) : option (bool * Req * result Resp ConrogateError) :=
  match e with
  | existT c x =>
      match c return ans c → option (bool * Req * result Resp ConrogateError) with
      | HandleHttpStream q _ _ _ => λ x, Some (true, q, x)
      | HandleHttp q _ _ _ => λ x, Some (false, q, x)
      | _ => λ _, None
      end x
  end.
Definition handled (tr : trace) := observe handler_of tr.

Definition tunnel_of (e : Effects.event ans) : option TunnelTask :=
  match call_of e with SpawnTunnel t => Some t | _ => None end.
Definition tunnels (tr : trace) := observe tunnel_of tr.

(** The id the client sent. *)
Definition inbound (req_headers : HeaderMap) : option string := trim <$> get_str req_headers "x-trace-id".

(** The id under which a request is answered: the client's, or a generated one. *)
Definition traced (headers : HeaderMap) (tr : trace) (id : string) : Prop :=
  inbound headers = Some id ∨ (existT GenerateTraceId id : Effects.event ans) ∈ tr.

Lemma trace_id_runs headers tr id :
  runs (trace_id_from_headers headers) tr id →
  handled tr = [] ∧ tunnels tr = [] ∧ traced headers tr id.
Proof.
  unfold trace_id_from_headers, traced, inbound. destruct (trim <$> _) as [s|]; [destruct (is_empty s)|]; simpl.
  - intros (x & tr' & -> & -> & ->). split_and!; [done|done|right; left].
  - intros [-> ->]. split_and!; [done|done|by left].
  - intros (x & tr' & -> & -> & ->). split_and!; [done|done|right; left].
Qed.

(** The tunnel that the response [x] of the handler asks for, if any. *)
Definition wanted_tunnel (req : Req) (x : Resp) (t : TunnelTask) : Prop :=
  rs_status x = 101 ∧ wants_websocket req = true ∧
  get_str (rs_headers x) "X-WS-Upstream-Addr" = Some (tk_upstream_addr t) ∧
  tk_request t = upgrade_request req (bool_decide (is_Some (hm_get (rs_headers x) "X-WS-Strip-Sensitive")))
                   (default (tk_upstream_addr t) (get_str (rs_headers x) "X-WS-Host-Header")).

(** How a response of the handler is delivered. *)
Definition delivered (s : bool) (req : Req) (x : Resp) (ts : list TunnelTask) (resp : Resp) : Prop :=
  rs_status resp = rs_status x ∧
  (resp = x ∧ ts = [] ∧ (rs_status x = 101 → get_str (rs_headers x) "X-WS-Upstream-Addr" = None) ∨
   resp = clean_upgrade s x ∧ rs_status x = 101 ∧ (length ts <= 1)%nat ∧ Forall (wanted_tunnel req x) ts).

Lemma deliver_runs s req x tr resp :
  runs (deliver s req x) tr resp → handled tr = [] ∧ delivered s req x (tunnels tr) resp.
Proof.
  unfold deliver, delivered. destruct (Z.eqb_spec (rs_status x) 101) as [E|E]; simpl.
  2: { intros [-> ->]. split_and!; [done|done|]. left. split_and!; done. }
  destruct (get_str (rs_headers x) "X-WS-Upstream-Addr") as [addr|] eqn:Ea; simpl.
  2: { intros [-> ->]. split_and!; [done|done|]. left. split_and!; done. }
  destruct (wants_websocket req) eqn:Ew; simpl.
  - intros ([] & tr' & -> & -> & ->). split_and!; [done|done|]. right. split_and!; [done|done|simpl; lia|].
    constructor; [|constructor]. by repeat split.
  - intros [-> ->]. split_and!; [done|done|]. right. split_and!; [done|done|simpl; lia|constructor].
Qed.

(** What one handler call means for the answer. *)
Definition answers (b : HyperServiceBridge) (req : Req) (id : string) (c : bool * Req * result Resp ConrogateError)
    (ts : list TunnelTask) (resp : Resp) : Prop :=
  let '(s, q, r) := c in
  rq_method q = rq_method req ∧ rq_uri q = rq_uri req ∧ rq_headers q = rq_headers req ∧
  (if s then ∀ n, declared_length req = Some n → n <= max_body_bytes b
   else Z.of_nat (String.length (rq_body q)) <= max_body_bytes b) ∧
  match r with
  | Err e => resp = handler_error id e ∧ ts = []
  | Ok x => delivered s req x ts resp
  end.

(** The bridge's own answers. *)
Definition own_answer (id : string) (resp : Resp) : Prop :=
  (∃ text, resp = probe_response id text) ∨
  (∃ status code msg, resp = error_response status code msg id ∧ status ∈ [400; 408; 413; 503]).

Definition outcome_ok (b : HyperServiceBridge) (req : Req) (id : string) (tr : trace) (resp : Resp) : Prop :=
  (handled tr = [] ∧ tunnels tr = [] ∧ own_answer id resp) ∨
  (∃ c, handled tr = [c] ∧ answers b req id c (tunnels tr) resp).

Lemma own_error id status code msg : status ∈ [400; 408; 413; 503] → own_answer id (error_response status code msg id).
Proof. intros H. right. by exists status, code, msg. Qed.

Lemma buffered_runs b req id route info tr resp :
  runs (buffered b req id route info) tr resp → outcome_ok b req id tr resp.
Proof.
  unfold buffered. simpl. intros (x & tr' & -> & H). destruct x as [bytes|e|]; cycle 1.
  1, 2: destruct H as [-> ->]; left; split_and!; [done|done|apply own_error; set_solver].
  destruct (Z.ltb_spec (max_body_bytes b) (Z.of_nat (String.length bytes))); simpl in H.
  { destruct H as [-> ->]. left. split_and!; [done|done|apply own_error; set_solver]. }
  destruct H as (r & tr2 & -> & H). right. destruct r as [x|e]; simpl in H.
  - apply deliver_runs in H as [Hh Hd]. exists (false, mkRequest (rq_method req) (rq_uri req) (rq_headers req) bytes, Ok x).
    split; [unfold handled in *; rewrite !observe_cons; cbn [handler_of]; by rewrite Hh|]. split_and!; [done..|exact Hd].
  - destruct H as [-> ->]. eexists. split; [reflexivity|]. by repeat split.
Qed.

Lemma streamed_runs b req id route info tr resp :
  runs (streamed b req id route info) tr resp → outcome_ok b req id tr resp.
Proof.
  unfold streamed. destruct (from_option _ _ _) eqn:El; simpl.
  { intros [-> ->]. left. split_and!; [done|done|apply own_error; set_solver]. }
  assert (∀ n, declared_length req = Some n → n <= max_body_bytes b) as Hn.
  { intros n Hn. rewrite Hn in El. simpl in El. lia. }
  intros (r & tr2 & -> & H). right. destruct r as [x|e]; simpl in H.
  - apply deliver_runs in H as [Hh Hd]. exists (true, req, Ok x). split; [unfold handled in *; rewrite !observe_cons; cbn [handler_of]; by rewrite Hh|]. split_and!; [done..|exact Hd].
  - destruct H as [-> ->]. eexists. split; [reflexivity|]. by repeat split.
Qed.

Lemma outcome_ok_app b req id tr1 tr2 resp :
  handled tr1 = [] → tunnels tr1 = [] → outcome_ok b req id tr2 resp → outcome_ok b req id (tr1 ++ tr2) resp.
Proof. unfold outcome_ok, handled, tunnels. rewrite !observe_app. intros -> ->. done. Qed.

Lemma process_runs b req tr r :
  runs (process b req) tr r → ∃ id resp, r = Ok resp ∧ traced (rq_headers req) tr id ∧ outcome_ok b req id tr resp.
Proof.
  unfold process. intros (tr1 & id & tr2 & -> & (H1 & H2 & Ht)%trace_id_runs & H)%runs_bind.
  exists id. cut (∃ resp, r = Ok resp ∧ outcome_ok b req id tr2 resp).
  { intros (resp & -> & Ho). exists resp. split; [done|]. split; [|by apply outcome_ok_app].
    destruct Ht as [Ht|Ht]; [by left|right; set_solver]. }
  destruct (_ && bool_decide (_ = "/healthz"%string)).
  { destruct H as [-> ->]. eexists. split; [done|]. left. split_and!; [done|done|]. left. by eexists. }
  destruct (_ && bool_decide (_ = "/readyz"%string)).
  { simpl in H. destruct H as (e & tr3 & -> & -> & ->). eexists. split; [done|]. left. split_and!; [done|done|].
    destruct e; [apply own_error; set_solver|left; by eexists]. }
  cbn [bind ask perform runs] in H. destruct H as ([route info] & tr3 & -> & H).
  assert (∀ p, (∀ tr resp, runs p tr resp → outcome_ok b req id tr resp) →
    runs (resp <- p;; Done (Ok resp)) tr3 r → ∃ resp, r = Ok resp ∧
      outcome_ok b req id (existT (MatchHttpRequest (rq_method req) (rq_uri req) (rq_headers req)) (route, info) :: tr3) resp) as Hp.
  { intros p Hp (tr4 & resp & tr5 & -> & Hr & -> & ->)%runs_bind. exists resp. split; [done|]. rewrite app_nil_r.
    by apply (outcome_ok_app b req id [_]), Hp. }
  destruct route as [route|]; [destruct (s_requires_body route)|]; cbn [negb] in H; apply Hp in H; try exact H;
    intros ? ? Hr; [by eapply buffered_runs|by eapply streamed_runs|by eapply buffered_runs].
Qed.

(** Whatever the access log does, the outcome is that of the processing. *)
Lemma service_runs b req tr resp :
  runs (service b req) tr resp → ∃ id, traced (rq_headers req) tr id ∧ outcome_ok b req id tr resp.
Proof.
  unfold service. cbn [bind ask perform runs]. intros (start & tr1 & -> & H).
  apply runs_bind in H as (tr2 & tid & tr3 & -> & (Ha & Hb & _)%trace_id_runs & H).
  apply runs_bind in H as (tr4 & r & tr5 & -> & (id & resp' & -> & Ht & Ho)%process_runs & H).
  apply runs_bind in H as (tr6 & u & tr7 & -> & Hl & -> & ->).
  assert (handled tr6 = [] ∧ tunnels tr6 = []) as [Hl1 Hl2].
  { destruct (_ && _); simpl in Hl; [by destruct Hl as (now & ? & -> & ? & ? & -> & -> & _)|by destruct Hl as [-> _]]. }
  exists id. split; [destruct Ht as [Ht|Ht]; [by left|right; set_solver]|].
  apply (outcome_ok_app b req id [_]); [done|done|]. apply outcome_ok_app; [done|done|].
  revert Ho. unfold outcome_ok, handled, tunnels in *. by rewrite app_nil_r, !observe_app, Hl1, Hl2, !app_nil_r.
Qed.

(** C6. The bridge answers every request and calls the handler at most once, with
    the client's method, target and fields. A buffered request reaches it only
    with a body within the limit, a streamed one only if the length the client
    declared is. An error of the handler is answered 429 when a limit was hit, 503
    when the breaker is open and 502 otherwise, without its details; a response of
    the handler keeps its status. Without a call of the handler the answer is a
    probe's or one of the bridge's errors 400, 408, 413 and 503. All own answers
    carry the trace id the client sent or a generated one. *)
Theorem bridge_answers b req tr resp :
  runs (service b req) tr resp →
  ∃ id, traced (rq_headers req) tr id ∧
    ((handled tr = [] ∧ own_answer id resp) ∨
     ∃ s q r, handled tr = [(s, q, r)] ∧
       rq_method q = rq_method req ∧ rq_uri q = rq_uri req ∧ rq_headers q = rq_headers req ∧
       (if s then ∀ n, declared_length req = Some n → n <= max_body_bytes b
        else Z.of_nat (String.length (rq_body q)) <= max_body_bytes b) ∧
       match r with Err e => resp = handler_error id e | Ok x => rs_status resp = rs_status x end).
Proof.
  intros (id & Ht & [(H1 & _ & H3)|([[s q] r] & Hh & H1 & H2 & H3 & H4 & H5)])%service_runs; exists id; (split; [done|]).
  - by left.
  - right. exists s, q, r. split_and!; try done. destruct r as [x|e]; [by destruct H5|by destruct H5].
Qed.

(** Removing fields leaves none of them; setting one shows it. *)
Lemma get_removed `{!HttpLibOk HeaderMap HeaderValue Uri} hs l n : n ∈ l → hm_get (foldl hm_remove hs l) n = None.
Proof.
  assert (∀ l hs, hm_get hs n = None → hm_get (foldl hm_remove hs l) n = None) as Hk.
  { clear l hs. intros l. induction l as [|x l IH]; intros hs Hn; [done|]. apply IH. rewrite get_remove. by case_bool_decide. }
  revert hs. induction l as [|x l IH]; intros hs Hn; [by apply not_elem_of_nil in Hn|].
  apply elem_of_cons in Hn as [->|Hn]; simpl; [|by apply IH]. apply Hk. rewrite get_remove. by rewrite bool_decide_true.
Qed.

Lemma upgrade_request_fields `{!HttpLibOk HeaderMap HeaderValue Uri} req strip host :
  (∀ v, hv_parse host = Some v → hm_get (uq_headers (upgrade_request req strip host)) "host" = Some v) ∧
  (strip = true → ∀ n, n ∈ SENSITIVE_HEADERS → hm_get (uq_headers (upgrade_request req strip host)) n = None).
Proof.
  unfold upgrade_request, insert_text. cbn [uq_headers]. split.
  - intros v ->. by rewrite get_insert, bool_decide_true.
  - intros -> n Hn. assert (hm_get (strip_sensitive_headers (rq_headers req)) n = None) as E by (by apply get_removed).
    destruct (hv_parse host); [|done]. rewrite get_insert, bool_decide_false; [done|]. intros Hh. revert Hn. clear -Hh.
    unfold SENSITIVE_HEADERS. rewrite !elem_of_cons. intros Hn. destruct_or! Hn; subst; try done. by apply not_elem_of_nil in Hn.
Qed.

(** The trace id of an upgrade: the streamed mode shows it to the client, the
    buffered mode drops it with the other fields. *)
Lemma upgrade_trace_id `{!HttpLibOk HeaderMap HeaderValue Uri} x v :
  hm_get (rs_headers x) "X-WS-Trace-Id" = Some v → hm_get (rs_headers x) "x-trace-id" = None →
  hm_get (rs_headers (clean_upgrade true x)) "x-trace-id" = Some v ∧
  hm_get (rs_headers (clean_upgrade false x)) "x-trace-id" = None.
Proof.
  intros Hv Hn. unfold clean_upgrade. cbn [rs_headers]. rewrite Hv. cbn [foldl WS_FIELDS].
  split; rewrite !get_remove, !bool_decide_false by done; [by rewrite get_insert, bool_decide_true|done].
Qed.

(** Upgrades are handed over cleanly: a tunnel is opened only for a client that
    asked for a WebSocket and whose request the handler answered 101 with an
    address, at most one, to that address, with the Host the handler chose, and
    without credentials if the handler said so. When the handler's answer asks for
    an upgrade, none of the fields meant for the bridge reaches the client. *)
Theorem upgrade_hand_over b req tr resp `{!HttpLibOk HeaderMap HeaderValue Uri} :
  runs (service b req) tr resp →
  (length (tunnels tr) <= 1)%nat ∧
  (∀ t, t ∈ tunnels tr → wants_websocket req = true ∧ ∃ s q x, handled tr = [(s, q, Ok x)] ∧ rs_status x = 101 ∧
     get_str (rs_headers x) "X-WS-Upstream-Addr" = Some (tk_upstream_addr t) ∧
     (∀ v, hv_parse (default (tk_upstream_addr t) (get_str (rs_headers x) "X-WS-Host-Header")) = Some v →
        hm_get (uq_headers (tk_request t)) "host" = Some v) ∧
     (is_Some (hm_get (rs_headers x) "X-WS-Strip-Sensitive") → ∀ n, n ∈ SENSITIVE_HEADERS → hm_get (uq_headers (tk_request t)) n = None)) ∧
  (∀ s q x, handled tr = [(s, q, Ok x)] → rs_status x = 101 → is_Some (get_str (rs_headers x) "X-WS-Upstream-Addr") →
     ∀ n, n ∈ WS_FIELDS → hm_get (rs_headers resp) n = None).
Proof.
  intros (id & _ & [(H1 & H2 & _)|([[s q] r] & Hh & _ & _ & _ & _ & H5)])%service_runs.
  { rewrite H1, H2. split_and!; [simpl; lia|intros t Ht; by apply not_elem_of_nil in Ht|done]. }
  rewrite Hh. destruct r as [x|e]; [|destruct H5 as [_ ->]; split_and!; [simpl; lia|intros t Ht; by apply not_elem_of_nil in Ht|done]].
  destruct H5 as [_ [(-> & -> & Hno)|(-> & H101 & Hlen & Hw)]].
  - split_and!; [simpl; lia|intros t Ht; by apply not_elem_of_nil in Ht|]. intros ? ? ? [= <- <- <-] E [a Ha].
    by rewrite (Hno E) in Ha.
  - split_and!; [done| |].
    + intros t Ht. rewrite Forall_forall in Hw. destruct (Hw t Ht) as (_ & Hws & Ha & Hr). split; [done|].
      exists s, q, x. split_and!; [done|done|done|..]; rewrite Hr; [apply upgrade_request_fields|].
      intros Hs. apply upgrade_request_fields. by apply bool_decide_eq_true_2.
    + intros ? ? ? [= <- <- <-] _ _ n Hn. unfold clean_upgrade. cbn [rs_headers]. by apply get_removed.
Qed.
End Service.
End Bridge.

Module BridgeDemo.
Import HttpHandler HttpDemo Bridge.
#[local] Existing Instance toy_http.
#[local] Existing Instance toy_http_ok.

Definition demo_bridge : HyperServiceBridge := mkBridge "10.0.0.1" 4 (from_secs 15) true ["/healthz"%string].

(** The handler refuses what is buffered and upgrades what is streamed. *)
Definition serve (streamed : bool) (c : @call (gmap string string) string) : bool * ans c :=
  match c return bool * ans c with
  | GenerateTraceId => (streamed, "id-1"%string)
  | Now => (streamed, 0)
  | RoutesEmpty => (streamed, false)
  | MatchHttpRequest _ _ _ => (streamed, (if streamed then Some demo_route else None, demo_info))
  | HandleHttpStream q route _ _ => (streamed, Ok (upgrade_parts (λ k, k) route demo_node (rq_headers q) "t-9"))
  | HandleHttp _ _ _ _ => (streamed, Err Limited)
  | CollectBody _ => (streamed, Collected "body")
  | SpawnTunnel _ | Access _ => (streamed, tt)
  end.

Definition ws_request : @Request (gmap string string) string :=
  mkRequest "GET" "/chat" (<["cookie":="c"]> (<["upgrade":="WebSocket"]> ∅))%string "".

Definition run_of (streamed : bool) := exec serve streamed (service (λ u : string, u) demo_bridge ws_request).

Lemma bridge_answers_witness :
  handled (run_of false).1.2 = [(false, mkRequest "GET" "/chat" (rq_headers ws_request) "body", Err Limited)]%string ∧
  ∃ id, traced (rq_headers ws_request) (run_of false).1.2 id ∧ (run_of false).2 = handler_error id Limited.
Proof.
  assert (handled (run_of false).1.2 = [(false, mkRequest "GET" "/chat" (rq_headers ws_request) "body", Err Limited)]%string) as E
    by (vm_compute; reflexivity).
  split; [exact E|].
  destruct (bridge_answers (λ u : string, u) demo_bridge ws_request (run_of false).1.2 (run_of false).2)
    as (id & Ht & [[H _]|(s & q & r & H & _ & _ & _ & _ & Hr)]); [apply exec_runs|rewrite E in H; discriminate H|].
  exists id. split; [exact Ht|]. rewrite E in H. injection H as <- <- <-. exact Hr.
Defined.

Lemma upgrade_hand_over_witness :
  rs_status (run_of true).2 = 101 ∧ map tk_upstream_addr (tunnels (run_of true).1.2) = ["10.0.0.9:80"%string] ∧
  hm_get (rs_headers (run_of true).2) "X-WS-Upstream-Addr" = None.
Proof.
  split; [vm_compute; reflexivity|]. split; [vm_compute; reflexivity|].
  destruct (upgrade_hand_over (λ u : string, u) demo_bridge ws_request (run_of true).1.2 (run_of true).2) as (_ & _ & H);
    [apply exec_runs|].
  eapply H; [vm_compute; reflexivity|reflexivity|vm_compute; eexists; reflexivity|left].
Defined.
End BridgeDemo.
