(* ===== verification/HttpPlugins.v ===== *)
(** The plugins cors and header_rewrite (conrogate-plugins/src/cors/mod.rs,
    header_rewrite/mod.rs), on the plugin context of the HTTP handler.

    The deserialisation of a binding's configuration is a parameter, as are the
    header maps; here they are seen with all values of a name. *)
From Stdlib Require Import ZArith Lia Ascii String.
From stdpp Require Import base tactics option list gmap strings pretty.
From S2P Require Import Prelude Text Errors Core F64 Plugin Access Telemetry Effects HttpHandler.
#[local] Open Scope Z_scope.

(** The values of a name in order, and the names the http crate accepts. *)
Class HeaderValues (HeaderMap HeaderValue : Type) : Type := {
  hm_get_all : HeaderMap → string → list HeaderValue;
  header_name_ok : string → bool;
}.

(** Documented behaviour of [insert], [append], [remove] and [get]. *)
Class HeaderValuesOk (HeaderMap HeaderValue Uri : Type) `{HttpLib HeaderMap HeaderValue Uri} `{!HeaderValues HeaderMap HeaderValue} :
    Prop := {
  get_head m n : hm_get m n = head (hm_get_all m n);
  all_empty n : hm_get_all hm_empty n = [];
  all_insert m n v n' :
    hm_get_all (hm_insert m n v) n' = if bool_decide (to_lowercase n = to_lowercase n') then [v] else hm_get_all m n';
  all_append m n v n' :
    hm_get_all (hm_append m n v) n' =
    hm_get_all m n' ++ (if bool_decide (to_lowercase n = to_lowercase n') then [v] else []);
  all_remove m n n' :
    hm_get_all (hm_remove m n) n' = if bool_decide (to_lowercase n = to_lowercase n') then [] else hm_get_all m n';
}.

(** ** Cross-origin requests *)

Module Cors.
Import HttpHandler.

Record CorsPluginConfig := mkCors {
  allow_origins : list string;
  allow_methods : list string;
  allow_headers : list string;
  expose_headers : list string;
  allow_credentials : bool;
  max_age_seconds : Z }.

Definition default_cors : CorsPluginConfig :=
  mkCors ["*"] ["GET"; "POST"; "PUT"; "PATCH"; "DELETE"; "OPTIONS"] ["Content-Type"; "Authorization"] [] false 3600.

Definition resolve_origin (c : CorsPluginConfig) (request_origin : option string) : option string :=
  if existsb (λ o, (o =? "*")%string) (allow_origins c) then Some "*"%string
  else match request_origin with
       | Some origin => if existsb (λ o, (o =? origin)%string) (allow_origins c) then Some origin else None
       | None => None
       end.

Section Plugin.
Context {HeaderMap HeaderValue Uri : Type} `{HttpL : HttpLib HeaderMap HeaderValue Uri}.
(** [serde_json::from_value::<CorsPluginConfig>]. *)
Context (from_value : Value → result CorsPluginConfig string).

Definition validate_config (config : Value) : result unit ConrogateError :=
  if is_null config then Ok tt
  else match from_value config with Ok _ => Ok tt | Err e => Err (PluginConfigInvalid e) end.

Definition configured (config : Value) : result CorsPluginConfig ConrogateError :=
  if is_null config then Ok default_cors
  else match from_value config with Ok c => Ok c | Err e => Err (PluginConfigInvalid e) end.

(** [if let Some(origin) = resolve_origin(..)]. *)
Definition insert_origin (c : CorsPluginConfig) (request_origin : option string) (hs : HeaderMap) : HeaderMap :=
  match resolve_origin c request_origin with
  | Some origin => insert_text hs "Access-Control-Allow-Origin" origin
  | None => hs
  end.

Definition insert_credentials (c : CorsPluginConfig) (hs : HeaderMap) : HeaderMap :=
  if allow_credentials c then insert_text hs "Access-Control-Allow-Credentials" "true" else hs.

(** The fields of the answer to a preflight. *)
Definition preflight_headers (c : CorsPluginConfig) (request_origin : option string) (hs : HeaderMap) : HeaderMap :=
  let hs := insert_origin c request_origin hs in
  let hs := insert_text hs "Access-Control-Allow-Methods" (join ", " (allow_methods c)) in
  let hs := insert_text hs "Access-Control-Allow-Headers" (join ", " (allow_headers c)) in
  let hs := insert_text hs "Access-Control-Max-Age" (pretty (max_age_seconds c)) in
  insert_credentials c hs.

Definition set_response_headers (ctx : @PluginContext HeaderMap) (hs : HeaderMap) : @PluginContext HeaderMap :=
  mkContext (pc_request_id ctx) (pc_trace_id ctx) (pc_route_id ctx) (pc_client_ip ctx) (pc_protocol ctx) (pc_http ctx)
    (pc_tunnel ctx) hs.

Definition before_request (c : CorsPluginConfig) (ctx : @PluginContext HeaderMap) :
    @PluginContext HeaderMap * result (PluginOutcome Value) ConrogateError :=
  match pc_http ctx with
  | Some http =>
      if bool_decide (hc_method http = "OPTIONS"%string) then
        (set_response_headers ctx (preflight_headers c (get_str (hc_headers http) "origin") (pc_response_headers ctx)),
         Ok (Terminate 204 VNull))
      else (ctx, Ok Continue)
  | None => (ctx, Ok Continue)
  end.

Definition request_origin (ctx : @PluginContext HeaderMap) : option string :=
  pc_http ctx ≫= λ h, get_str (hc_headers h) "origin".

Definition after_response (c : CorsPluginConfig) (ctx : @PluginContext HeaderMap) (resp : @PluginResponse HeaderMap) :
    @PluginContext HeaderMap * @PluginResponse HeaderMap * result unit ConrogateError :=
  let hs := insert_origin c (request_origin ctx) (pr_headers resp) in
  let hs := insert_credentials c hs in
  let hs := match expose_headers c with [] => hs | l => insert_text hs "Access-Control-Expose-Headers" (join ", " l) end in
  (ctx, mkPluginResponse (pr_status resp) hs (pr_body resp), Ok tt).

(** ** Who may read an answer *)

Context `{HttpOk : !HttpLibOk HeaderMap HeaderValue Uri}.

Lemma get_str_insert_text hs n s n' :
  hm_get (insert_text hs n s) n' =
  if bool_decide (to_lowercase n = to_lowercase n') then from_option Some (hm_get hs n') (hv_parse s) else hm_get hs n'.
Proof. unfold insert_text. destruct (hv_parse s); simpl; [apply get_insert|]. by case_bool_decide. Qed.

Lemma insert_origin_get c o hs :
  hm_get (insert_origin c o hs) "Access-Control-Allow-Origin" =
  from_option (λ s, from_option Some (hm_get hs "Access-Control-Allow-Origin") (hv_parse s))
    (hm_get hs "Access-Control-Allow-Origin") (resolve_origin c o).
Proof. unfold insert_origin. destruct (resolve_origin c o); simpl; [by rewrite get_str_insert_text|done]. Qed.

(** The origin that is granted, as documented: any when the list has a star, the
    requesting one when it is listed. *)
Lemma resolve_origin_spec c o g :
  resolve_origin c o = Some g ↔
  ("*"%string ∈ allow_origins c ∧ g = "*"%string) ∨ ("*"%string ∉ allow_origins c ∧ g ∈ allow_origins c ∧ o = Some g).
Proof.
  assert (∀ s, existsb (λ o, (o =? s)%string) (allow_origins c) = bool_decide (s ∈ allow_origins c)) as Hex.
  { intros s. apply eq_true_iff_eq. rewrite existsb_exists, bool_decide_eq_true. split.
    - intros (x & Hin & ->%String.eqb_eq). by apply list_elem_of_In.
    - intros Hin. exists s. split; [by apply list_elem_of_In|by apply String.eqb_eq]. }
  unfold resolve_origin. rewrite Hex. case_bool_decide as Hs; [split; [intros [= <-]; by left|intros [[_ ->]|[? _]]; done]|].
  destruct o as [origin|]; [rewrite Hex; case_bool_decide|]; (split; [intros; simplify_eq; try done; right; done|]).
  - intros [[? _]|(_ & _ & [= ->])]; done.
  - intros [[? _]|(_ & ? & [= ->])]; done.
  - intros [[? _]|(_ & _ & ?)]; done.
Qed.

(** Cross-origin grants: a preflight is answered 204 without reaching the
    upstream, and every other request passes unchanged; in both answers the field
    that lets a page read the answer is set to the requesting origin exactly when
    the configuration lists it, to a star exactly when it lists the star, and is
    otherwise what it was before the plugin ran. *)
Theorem cors_grants c ctx resp :
  (∀ http, pc_http ctx = Some http → hc_method http = "OPTIONS"%string →
     (before_request c ctx).2 = Ok (Terminate 204 VNull)) ∧
  (from_option hc_method ""%string (pc_http ctx) ≠ "OPTIONS"%string → before_request c ctx = (ctx, Ok Continue)) ∧
  (let granted hs hs' := ∀ v, hm_get hs' "Access-Control-Allow-Origin" = Some v ↔
       (∃ g, (("*"%string ∈ allow_origins c ∧ g = "*"%string) ∨
              ("*"%string ∉ allow_origins c ∧ g ∈ allow_origins c ∧ request_origin ctx = Some g)) ∧
             from_option Some (hm_get hs "Access-Control-Allow-Origin") (hv_parse g) = Some v) ∨
       (resolve_origin c (request_origin ctx) = None ∧ hm_get hs "Access-Control-Allow-Origin" = Some v) in
   (∀ ctx', before_request c ctx = (ctx', Ok (Terminate 204 VNull)) →
      granted (pc_response_headers ctx) (pc_response_headers ctx')) ∧
   granted (pr_headers resp) (pr_headers (after_response c ctx resp).1.2)).
Proof.
  assert (∀ hs hs', hm_get hs' "Access-Control-Allow-Origin" = hm_get (insert_origin c (request_origin ctx) hs) "Access-Control-Allow-Origin" →
    ∀ v, hm_get hs' "Access-Control-Allow-Origin" = Some v ↔
       (∃ g, (("*"%string ∈ allow_origins c ∧ g = "*"%string) ∨
              ("*"%string ∉ allow_origins c ∧ g ∈ allow_origins c ∧ request_origin ctx = Some g)) ∧
             from_option Some (hm_get hs "Access-Control-Allow-Origin") (hv_parse g) = Some v) ∨
       (resolve_origin c (request_origin ctx) = None ∧ hm_get hs "Access-Control-Allow-Origin" = Some v)) as Hg.
  { intros hs hs' -> v. rewrite insert_origin_get. setoid_rewrite <-resolve_origin_spec.
    destruct (resolve_origin c (request_origin ctx)) as [g|]; simpl; naive_solver. }
  unfold before_request. split_and!.
  - intros http -> ->. done.
  - intros Hm. destruct (pc_http ctx) as [http|]; [|done]. simpl in Hm. by rewrite bool_decide_false.
  - intros ctx' E. apply Hg. unfold request_origin. destruct (pc_http ctx) as [http|]; [|done].
    case_bool_decide; [|done]. injection E as <-. simpl.
    unfold preflight_headers, insert_credentials. destruct (allow_credentials c); rewrite !get_str_insert_text; done.
  - apply Hg. unfold after_response, insert_credentials. cbn [fst snd pr_headers].
    destruct (expose_headers c), (allow_credentials c); rewrite ?get_str_insert_text; done.
Qed.

(** An origin that is not listed still gets the other fields of a preflight. *)
Lemma cors_unlisted_fields c ctx http v :
  pc_http ctx = Some http → hc_method http = "OPTIONS"%string → resolve_origin c (request_origin ctx) = None →
  hv_parse (join ", " (allow_methods c)) = Some v →
  hm_get (pc_response_headers (before_request c ctx).1) "Access-Control-Allow-Methods" = Some v.
Proof.
  intros Hh Hm _ Hv. unfold before_request. rewrite Hh, bool_decide_true by done. simpl.
  unfold preflight_headers, insert_credentials. destruct (allow_credentials c); rewrite !get_str_insert_text, Hv; done.
Qed.
End Plugin.
End Cors.

(** ** Rewriting of header fields *)

Module HeaderRewrite.
Import HttpHandler.

(** A section; the maps as lists in the order of their iteration. *)
Record HeaderRewriteSection := mkSection {
  sec_set : list (string * string);
  sec_add : list (string * string);
  sec_remove : list string }.

Record HeaderRewriteConfig := mkRewrite { cfg_request : HeaderRewriteSection; cfg_response : HeaderRewriteSection }.

Definition default_rewrite : HeaderRewriteConfig := mkRewrite (mkSection [] [] []) (mkSection [] [] []).

Record PlaceholderCtx := mkPlaceholders {
  ph_client_ip : string;
  ph_request_id : string;
  ph_trace_id : string;
  ph_route_id : Z;
  ph_method : string;
  ph_path : string }.

Definition resolve_value (raw : string) (ph : PlaceholderCtx) : string :=
  replace "$path" (ph_path ph)
    (replace "$method" (ph_method ph)
       (replace "$route_id" (pretty (ph_route_id ph))
          (replace "$trace_id" (ph_trace_id ph)
             (replace "$request_id" (ph_request_id ph)
                (replace "$client_ip" (ph_client_ip ph) raw))))).

Section Plugin.
Context {HeaderMap HeaderValue Uri : Type} `{HttpL : HttpLib HeaderMap HeaderValue Uri} `{HV : !HeaderValues HeaderMap HeaderValue}.
(** [serde_json::from_value::<HeaderRewriteConfig>]; the debug form of a text. *)
Context (from_value : Value → result HeaderRewriteConfig string) (debug : string → string).

Definition placeholders (ctx : @PluginContext HeaderMap) : PlaceholderCtx :=
  mkPlaceholders (pc_client_ip ctx) (pc_request_id ctx) (pc_trace_id ctx) (pc_route_id ctx)
    (from_option hc_method EmptyString (pc_http ctx)) (from_option hc_path EmptyString (pc_http ctx)).

(** [HeaderValue::from_str] is the parsing of a field value. *)
Definition validate_section (s : HeaderRewriteSection) : result unit ConrogateError :=
  match List.find (λ n, negb (header_name_ok n)) (map fst (sec_set s) ++ map fst (sec_add s) ++ sec_remove s) with
  | Some name => Err (PluginConfigInvalid ("invalid header name: " +:+ name))
  | None =>
      match List.find (λ v, negb (bool_decide (is_Some (hv_parse v)))) (map snd (sec_set s) ++ map snd (sec_add s)) with
      | Some v => Err (PluginConfigInvalid ("invalid header value for " +:+ debug v +:+ ": contains CR/LF or control characters"))
      | None => Ok tt
      end
  end.

Definition parse_config (config : Value) : result HeaderRewriteConfig ConrogateError :=
  match from_value config with
  | Err e => Err (PluginConfigInvalid e)
  | Ok cfg =>
      let? _ := validate_section (cfg_request cfg) in
      let? _ := validate_section (cfg_response cfg) in
      Ok cfg
  end.

Definition validate_config (config : Value) : result unit ConrogateError :=
  if is_null config then Ok tt else let? _ := parse_config config in Ok tt.

Definition configured (config : Value) : result HeaderRewriteConfig ConrogateError :=
  if is_null config then Ok default_rewrite else parse_config config.

(** One entry of [set] or [add], by [put]. *)
Definition apply_entry (put : HeaderMap → string → HeaderValue → HeaderMap) (ph : PlaceholderCtx) (hs : HeaderMap)
    (e : string * string) : HeaderMap :=
  if header_name_ok e.1 then
    match hv_parse (resolve_value e.2 ph) with Some v => put hs e.1 v | None => hs end
  else hs.

Definition apply_section (s : HeaderRewriteSection) (hs : HeaderMap) (ph : PlaceholderCtx) : HeaderMap :=
  let hs := foldl (λ hs n, if header_name_ok n then hm_remove hs n else hs) hs (sec_remove s) in
  let hs := foldl (apply_entry hm_insert ph) hs (sec_set s) in
  foldl (apply_entry hm_append ph) hs (sec_add s).

Definition before_request (c : HeaderRewriteConfig) (ctx : @PluginContext HeaderMap) :
    @PluginContext HeaderMap * result (PluginOutcome Value) ConrogateError :=
  let ph := placeholders ctx in
  (match pc_http ctx with
   | Some http =>
       mkContext (pc_request_id ctx) (pc_trace_id ctx) (pc_route_id ctx) (pc_client_ip ctx) (pc_protocol ctx)
         (Some (mkHttpContext (hc_method http) (hc_path http) (hc_query http)
                  (apply_section (cfg_request c) (hc_headers http) ph) (hc_body http)))
         (pc_tunnel ctx) (pc_response_headers ctx)
   | None => ctx
   end, Ok Continue).

Definition after_response (c : HeaderRewriteConfig) (ctx : @PluginContext HeaderMap) (resp : @PluginResponse HeaderMap) :
    @PluginContext HeaderMap * @PluginResponse HeaderMap * result unit ConrogateError :=
  (ctx, mkPluginResponse (pr_status resp) (apply_section (cfg_response c) (pr_headers resp) (placeholders ctx)) (pr_body resp), Ok tt).

(** ** What a section does to a field *)

Context `{HVOk : !HeaderValuesOk HeaderMap HeaderValue Uri}.

(** The values that entries give to the name [n], in order. *)
Definition values_for (ph : PlaceholderCtx) (n : string) (l : list (string * string)) : list HeaderValue :=
  omap (λ e, if header_name_ok e.1 && bool_decide (to_lowercase e.1 = to_lowercase n)
             then hv_parse (resolve_value e.2 ph) else None) l.

Lemma removed_values hs l n :
  hm_get_all (foldl (λ hs n, if header_name_ok n then hm_remove hs n else hs) hs l) n =
  if existsb (λ r, header_name_ok r && bool_decide (to_lowercase r = to_lowercase n)) l then [] else hm_get_all hs n.
Proof.
  revert hs. induction l as [|r l IH]; intros hs; [done|]. simpl. rewrite IH.
  destruct (header_name_ok r); simpl; [|done]. rewrite all_remove. by destruct (bool_decide _), (existsb _ l).
Qed.

Lemma set_values ph hs l n :
  hm_get_all (foldl (apply_entry hm_insert ph) hs l) n =
  match last (values_for ph n l) with Some v => [v] | None => hm_get_all hs n end.
Proof.
  revert hs. induction l as [|e l IH]; intros hs; [done|]. simpl. rewrite IH. unfold values_for. cbn [omap list_omap].
  unfold apply_entry. destruct (header_name_ok e.1); simpl; [|done].
  destruct (hv_parse (resolve_value e.2 ph)) as [v|]; [|by case_bool_decide].
  rewrite all_insert. case_bool_decide; [|done].
  destruct (omap _ l) as [|w ws] using rev_ind; [done|]. by rewrite app_comm_cons, !last_snoc.
Qed.

Lemma added_values ph hs l n :
  hm_get_all (foldl (apply_entry hm_append ph) hs l) n = hm_get_all hs n ++ values_for ph n l.
Proof.
  revert hs. induction l as [|e l IH]; intros hs; [by rewrite app_nil_r|]. simpl. rewrite IH. unfold values_for. cbn [omap list_omap].
  unfold apply_entry. destruct (header_name_ok e.1); simpl; [|done].
  destruct (hv_parse (resolve_value e.2 ph)) as [v|]; [|by case_bool_decide].
  rewrite all_append. case_bool_decide; [by rewrite <-app_assoc|by rewrite app_nil_r].
Qed.

(** Names that differ also when case is ignored. *)
Definition distinct_names (l : list (string * string)) : Prop := NoDup (map (λ e, to_lowercase e.1) l).

Lemma values_for_cons ph n e l :
  values_for ph n (e :: l) =
  match (if header_name_ok e.1 && bool_decide (to_lowercase e.1 = to_lowercase n) then hv_parse (resolve_value e.2 ph) else None) with
  | Some v => v :: values_for ph n l
  | None => values_for ph n l
  end.
Proof. done. Qed.

Lemma values_for_other ph n l : to_lowercase n ∉ map (λ e, to_lowercase e.1) l → values_for ph n l = [].
Proof.
  induction l as [|e l IH]; [done|]. simpl map. intros [He Hn]%not_elem_of_cons. rewrite values_for_cons, (IH Hn).
  by rewrite bool_decide_false, andb_false_r by congruence.
Qed.

Lemma values_for_distinct ph n l : distinct_names l → (length (values_for ph n l) <= 1)%nat.
Proof.
  unfold distinct_names. induction l as [|e l IH]; simpl map; [simpl; lia|]. intros [Hn Hd]%NoDup_cons. specialize (IH Hd).
  rewrite values_for_cons. destruct (_ && bool_decide _) eqn:E; [|done].
  apply andb_true_iff in E as [_ E%bool_decide_eq_true]. rewrite E in Hn. rewrite (values_for_other ph n l Hn).
  destruct (hv_parse _); simpl; lia.
Qed.

Lemma values_for_perm ph n l l' : l ≡ₚ l' → values_for ph n l ≡ₚ values_for ph n l'.
Proof. intros H. unfold values_for. by rewrite H. Qed.

Lemma values_for_order ph n l l' : l ≡ₚ l' → distinct_names l → values_for ph n l = values_for ph n l'.
Proof.
  intros Hp Hd. pose proof (values_for_perm ph n l l' Hp) as Hv. pose proof (values_for_distinct ph n l Hd).
  destruct (values_for ph n l) as [|v [|]]; [by apply Permutation_nil_l in Hv as ->|by apply Permutation_singleton_l in Hv as ->|simpl in *; lia].
Qed.

(** A rewriting section acts on every field as documented: the values of a
    name afterwards are the one that [set] gives it, or else none if the name is
    to be removed and the old ones if not, followed by those that [add] gives it;
    removal comes first. When the names of a map differ also without regard to
    case, the order in which the maps are iterated does not matter. *)
Theorem apply_section_values s hs ph n set' add' :
  hm_get_all (apply_section s hs ph) n =
    (match last (values_for ph n (sec_set s)) with
     | Some v => [v]
     | None => if existsb (λ r, header_name_ok r && bool_decide (to_lowercase r = to_lowercase n)) (sec_remove s)
               then [] else hm_get_all hs n
     end) ++ values_for ph n (sec_add s) ∧
  (sec_set s ≡ₚ set' → sec_add s ≡ₚ add' → distinct_names (sec_set s) → distinct_names (sec_add s) →
   hm_get_all (apply_section (mkSection set' add' (sec_remove s)) hs ph) n = hm_get_all (apply_section s hs ph) n).
Proof.
  assert (∀ s, hm_get_all (apply_section s hs ph) n =
    (match last (values_for ph n (sec_set s)) with
     | Some v => [v]
     | None => if existsb (λ r, header_name_ok r && bool_decide (to_lowercase r = to_lowercase n)) (sec_remove s)
               then [] else hm_get_all hs n
     end) ++ values_for ph n (sec_add s)) as H.
  { intros s'. unfold apply_section. by rewrite added_values, set_values, removed_values. }
  split; [apply H|]. intros Hs Ha Ds Da. rewrite !H. simpl.
  by rewrite (values_for_order ph n _ _ Hs Ds), (values_for_order ph n _ _ Ha Da).
Qed.
End Plugin.

(** Without placeholders a value is taken as it is. *)
Lemma resolve_value_plain raw ph : contains "$" raw = false → resolve_value raw ph = raw.
Proof.
  intros H. assert (∀ p, contains (String "$" p) raw = false) as Hp.
  { intros p. revert H. induction raw as [|c raw IH]; [done|]. cbn [contains starts_with].
    intros [H1 H2]%orb_false_iff. rewrite (IH H2), orb_false_r. destruct (bool_decide ("$"%char = c)); [by destruct raw|done]. }
  unfold resolve_value. by do 6 rewrite (replace_none _ _ raw) by apply Hp.
Qed.

(** A value that a client chose is itself searched for the placeholders that
    follow: a trace id that reads "$path" becomes the path. *)
Lemma trace_id_expanded ph : ph_trace_id ph = "$path"%string → resolve_value "$trace_id" ph = ph_path ph.
Proof.
  intros H. unfold resolve_value. rewrite H. vm_compute. apply string_app_nil_r.
Qed.
End HeaderRewrite.

(** ** An instance: fields as a list of pairs *)

Module PluginDemo.
Import HttpHandler.

Definition same (a b : string) : bool := bool_decide (to_lowercase a = to_lowercase b).

#[local] Instance list_http : HttpLib (list (string * string)) string string :=
  {| hm_empty := [];
     hm_get m n := head (map snd (List.filter (λ e, same e.1 n) m));
     hm_insert m n v := List.filter (λ e, negb (same e.1 n)) m ++ [(n, v)];
     hm_append m n v := m ++ [(n, v)];
     hm_remove m n := List.filter (λ e, negb (same e.1 n)) m;
     hm_entries m := m;
     hv_parse := Some;
     hv_to_str := Some;
     uri_parse := Ok;
     uri_authority _ := None;
     uri_path_and_query u := Some u |}.

#[local] Instance list_values : HeaderValues (list (string * string)) string :=
  {| hm_get_all m n := map snd (List.filter (λ e, same e.1 n) m); header_name_ok n := negb (is_empty n) |}.

Lemma filter_other m n n' :
  List.filter (λ e : string * string, same e.1 n') (List.filter (λ e, negb (same e.1 n)) m) =
  if same n n' then [] else List.filter (λ e, same e.1 n') m.
Proof.
  unfold same. induction m as [|[k v] m IH]; simpl; [by destruct (bool_decide _)|].
  destruct (bool_decide_reflect (to_lowercase k = to_lowercase n)) as [E|E]; simpl; rewrite IH.
  - rewrite E. by destruct (bool_decide (to_lowercase n = to_lowercase n')).
  - destruct (bool_decide_reflect (to_lowercase k = to_lowercase n')) as [F|F]; [|done].
    rewrite bool_decide_false; [done|congruence].
Qed.

#[local] Instance list_values_ok : HeaderValuesOk (list (string * string)) string string.
Proof.
  split; simpl; [done|done|..].
  - intros m n v n'. rewrite List.filter_app, filter_other. unfold same. simpl. destruct (bool_decide _); by rewrite ?app_nil_r.
  - intros m n v n'. rewrite List.filter_app, map_app. unfold same. simpl. by destruct (bool_decide _).
  - intros m n n'. rewrite filter_other. unfold same. by destruct (bool_decide _).
Qed.

#[local] Instance list_http_ok : HttpLibOk (list (string * string)) string string.
Proof.
  split; simpl.
  - intros m n v n'. rewrite List.filter_app, filter_other. unfold same. simpl.
    destruct (bool_decide _); simpl; [done|by rewrite app_nil_r].
  - intros m n n'. rewrite filter_other. unfold same. by destruct (bool_decide _).
Qed.

Definition demo_context (method : string) (hs : list (string * string)) : @PluginContext (list (string * string)) :=
  mkContext "req-1" "trace-1" 7 "1.2.3.4" Http (Some (mkHttpContext method "/p" ∅ hs None)) None [].
Definition demo_cors : Cors.CorsPluginConfig := Cors.mkCors ["https://a.io"] ["GET"] [] [] true 600.

Lemma cors_grants_witness :
  (Cors.before_request demo_cors (demo_context "OPTIONS" [("Origin", "https://b.io")])).2 = Ok (Terminate 204 VNull) ∧
  hm_get (pc_response_headers (Cors.before_request demo_cors (demo_context "OPTIONS" [("Origin", "https://a.io")])).1)
    "access-control-allow-origin" = Some "https://a.io"%string.
Proof.
  split; [|vm_compute; reflexivity].
  apply (Cors.cors_grants demo_cors (demo_context "OPTIONS" [("Origin", "https://b.io")]) (mkPluginResponse 200 [] ""))
    with (mkHttpContext "OPTIONS" "/p" ∅ [("Origin", "https://b.io")] None); reflexivity.
Defined.

Definition demo_section : HeaderRewrite.HeaderRewriteSection :=
  HeaderRewrite.mkSection [("X-Real-IP", "$client_ip")] [("x-tag", "$route_id")] ["X-Debug"]%string.
Definition demo_ph : HeaderRewrite.PlaceholderCtx := HeaderRewrite.placeholders (demo_context "GET" []).

Lemma apply_section_values_witness :
  hm_get_all (HeaderRewrite.apply_section demo_section [("x-real-ip", "9.9.9.9"); ("x-debug", "1")]%string demo_ph) "X-Real-IP" =
    ["1.2.3.4"%string].
Proof.
  destruct (HeaderRewrite.apply_section_values demo_section [("x-real-ip", "9.9.9.9"); ("x-debug", "1")]%string demo_ph
    "X-Real-IP" [] []) as [H _]. rewrite H. vm_compute. reflexivity.
Defined.

(** Two names that differ only in case: the order of the map decides. *)
Lemma case_variants_order :
  hm_get (HeaderRewrite.apply_section (HeaderRewrite.mkSection [("X-A", "1"); ("x-a", "2")] [] [])%string [] demo_ph) "x-a" ≠
  hm_get (HeaderRewrite.apply_section (HeaderRewrite.mkSection [("x-a", "2"); ("X-A", "1")] [] [])%string [] demo_ph) "x-a".
Proof. vm_compute. discriminate. Qed.

(** The method is also known to the response section. *)
Lemma response_method_known :
  hm_get (pr_headers (HeaderRewrite.after_response
    (HeaderRewrite.mkRewrite (HeaderRewrite.mkSection [] [] []) (HeaderRewrite.mkSection [("x-m", "$method")] [] []))%string
    (demo_context "GET" []) (mkPluginResponse 200 [] "")).1.2) "x-m" = Some "GET"%string.
Proof. vm_compute. reflexivity. Qed.
(** Only the first x-forwarded-for field is read: behind a proxy that adds a field of
    its own instead of extending the one it received, the client's counts. *)
Lemma later_fields_ignored :
  let h := mkHandler (from_secs 30) [AccessDemo.TPrefix "10."] 100 3 false "g1" in
  resolve_real_ip (IpL := AccessDemo.toy_lib) h "10.0.0.1" [("x-forwarded-for", "6.6.6.6"); ("x-forwarded-for", "1.2.3.4")]%string =
    "6.6.6.6"%string ∧
  resolve_real_ip (IpL := AccessDemo.toy_lib) h "10.0.0.1" [("x-forwarded-for", "6.6.6.6, 1.2.3.4")]%string = "1.2.3.4"%string.
Proof. split; vm_compute; reflexivity. Qed.
End PluginDemo.
