(* ===== verification/AuthPlugin.v ===== *)
(** The auth plugin (conrogate-plugins/src/auth/mod.rs): bearer tokens checked
    against a shared secret, a public key or the keys of a remote key set, which
    it caches.

    The JWT library enters through a class. A call reads the cache under a read
    lock and, on a miss, again under a write lock, between which other calls may
    have written; the model takes both readings. *)
From Stdlib Require Import ZArith Lia Ascii String.
From stdpp Require Import base tactics option list gmap strings.
From S2P Require Import Prelude Text Errors Core F64 Plugin Access Telemetry Effects HttpHandler.
#[local] Open Scope Z_scope.

Module Auth.
Import HttpHandler.

Inductive Algorithm := HS256 | HS384 | HS512 | RS256 | RS384 | RS512.

#[global] Instance Algorithm_eq_dec : EqDecision Algorithm.
Proof. solve_decision. Defined.

(** [Validation::new] with the fields the plugin sets. *)
Record Validation := mkValidation {
  va_algorithm : Algorithm;
  va_validate_exp : bool;
  va_issuer : option string;
  va_audience : option string }.

(** What is used of jsonwebtoken. *)
Class JwtLib (Key Header : Type) : Type := {
  decode_header : string → result Header string;
  header_kid : Header → option string;
  from_secret : string → Key;
  from_rsa_pem : string → result Key string;
  from_rsa_components : string → string → result Key string;
  decode : string → Key → Validation → result unit string;
}.

Record AuthPluginConfig := mkAuthConfig {
  algorithm : string;
  secret : string;
  rsa_pem : option string;
  jwks_url : option string;
  jwks_cache_ttl_seconds : Z;
  issuer : option string;
  audience : option string;
  require_token : bool }.

Definition default_auth : AuthPluginConfig := mkAuthConfig "HS256" "" None None 300 None None true.

Definition parse_algorithm (alg : string) : result Algorithm ConrogateError :=
  let a := to_uppercase alg in
  if (a =? "HS256")%string then Ok HS256
  else if (a =? "HS384")%string then Ok HS384
  else if (a =? "HS512")%string then Ok HS512
  else if (a =? "RS256")%string then Ok RS256
  else if (a =? "RS384")%string then Ok RS384
  else if (a =? "RS512")%string then Ok RS512
  else Err (PluginConfigInvalid ("unsupported algorithm: " +:+ a)).

Definition is_hmac (alg : string) : bool :=
  let a := to_uppercase alg in ((a =? "HS256") || (a =? "HS384") || (a =? "HS512"))%string.

Definition validate (cfg : AuthPluginConfig) : result unit ConrogateError :=
  let? _ := parse_algorithm (algorithm cfg) in
  if is_hmac (algorithm cfg) then
    if require_token cfg && is_empty (secret cfg)
    then Err (PluginConfigInvalid "auth plugin: secret is required when require_token=true and algorithm=HS256")
    else Ok tt
  else
    if require_token cfg && negb (bool_decide (is_Some (rsa_pem cfg))) && negb (bool_decide (is_Some (jwks_url cfg)))
    then Err (PluginConfigInvalid "auth plugin: rsa_pem or jwks_url is required when require_token=true and algorithm=RS256")
    else Ok tt.

(** An entry of a key set. *)
Record Jwk := mkJwk { kty : string; kid : option string; jwk_n : option string; jwk_e : option string }.

Section Plugin.
Context {Key Header : Type} `{Jwt : JwtLib Key Header}.
Context {HeaderMap HeaderValue Uri : Type} `{HttpL : HttpLib HeaderMap HeaderValue Uri}.

Record JwksCache := mkJwks { keys : gmap string Key; fetched_at : option Z }.
Definition jwks_new : JwksCache := mkJwks ∅ None.

Definition is_stale (c : JwksCache) (ttl now : Z) : bool :=
  match fetched_at c with Some t => ttl <? duration_since now t | None => true end.

(** The end of [fetch_jwks]: the usable keys of the document by their id. *)
Definition add_jwk (m : gmap string Key) (j : Jwk) : gmap string Key :=
  if negb (kty j =? "RSA")%string then m
  else match kid j, jwk_n j, jwk_e j with
       | Some k, Some n, Some e => match from_rsa_components n e with Ok key => <[k := key]> m | Err _ => m end
       | _, _, _ => m
       end.
Definition convert_jwks (l : list Jwk) : gmap string Key := foldl add_jwk ∅ l.

(** The answer of the remote key set. *)
Definition fetch_result := result (list Jwk) ConrogateError.

(** One exchange with the key set. The libraries load the trusted certificates, build
    the request, send it, read the body of the answer and parse it. *)
Section Fetch.
Context {Request Response : Type} (native_roots : result unit string) (build : string → result Request string).
Context (send : Request → result Response string) (status : Response → Z) (status_text : Z → string).
Context (collect : Response → result string string) (parse : string → result (list Jwk) string).

Definition runtime_error {A} (what : string) (r : result A string) : result A ConrogateError :=
  match r with Ok a => Ok a | Err e => Err (PluginRuntime (what +:+ e)) end.

Definition is_success (code : Z) : bool := (200 <=? code) && (code <? 300).

Definition fetch_exchange (url : string) : fetch_result :=
  let? _ := runtime_error "failed to load native roots: " native_roots in
  let? req := runtime_error "JWKS request build failed: " (build url) in
  let? resp := runtime_error "JWKS fetch failed: " (send req) in
  if negb (is_success (status resp)) then Err (PluginRuntime ("JWKS fetch returned status: " +:+ status_text (status resp)))
  else
    let? body := runtime_error "JWKS response body read failed: " (collect resp) in
    runtime_error "JWKS parse failed: " (parse body).

(** Keys come only from the body of an answer with a status of success. *)
Lemma fetch_exchange_ok url l :
  fetch_exchange url = Ok l ↔
  native_roots = Ok tt ∧ ∃ req resp body, build url = Ok req ∧ send req = Ok resp ∧ 200 <= status resp < 300 ∧
    collect resp = Ok body ∧ parse body = Ok l.
Proof.
  unfold fetch_exchange, runtime_error, is_success. split.
  - destruct native_roots as [[]|]; [|done]. destruct (build url) as [req|] eqn:Eb; [|done]. cbn.
    destruct (send req) as [resp|] eqn:Es; [|done]. cbn. destruct (_ && _) eqn:Ec; [|done]. cbn.
    destruct (collect resp) as [body|] eqn:El; [|done]. destruct (parse body) as [l'|] eqn:Ep; [|done]. intros [= ->].
    split; [done|]. exists req, resp, body. split_and!; try done; lia.
  - intros (-> & req & resp & body & -> & -> & Hs & Hc & Hp). cbn.
    assert ((200 <=? status resp) && (status resp <? 300) = true) as -> by lia. cbn. by rewrite Hc, Hp.
Qed.
End Fetch.

Definition fetch_jwks (r : fetch_result) : result (gmap string Key) ConrogateError :=
  match r with Ok l => Ok (convert_jwks l) | Err e => Err e end.

(** The look-up of a key id: the cache as read, the cache under the write lock,
    what the key set would answer, and the clock then and after the answer. *)
Definition jwks_lookup (ttl : Z) (k : string) (read locked : JwksCache) (fetch : fetch_result) (now after : Z) :
    JwksCache * option Key :=
  match keys read !! k with
  | Some key => (locked, Some key)
  | None =>
      let c := if is_stale locked ttl now
               then match fetch_jwks fetch with Ok m => mkJwks m (Some after) | Err _ => locked end
               else locked in
      (c, keys c !! k)
  end.

Definition resolve_key (h : Header) (cfg : AuthPluginConfig) (read locked : JwksCache) (fetch : fetch_result) (now after : Z) :
    JwksCache * result (Key * Algorithm) ConrogateError :=
  match parse_algorithm (algorithm cfg) with
  | Err e => (locked, Err e)
  | Ok alg =>
      if is_hmac (algorithm cfg) then
        (locked, if is_empty (secret cfg) then Err (PluginConfigInvalid "auth plugin: secret is required for HMAC algorithms")
                 else Ok (from_secret (secret cfg), alg))
      else
        match jwks_url cfg with
        | Some _ =>
            match header_kid h with
            | None => (locked, Err (PluginRuntime "JWT header missing 'kid' for JWKS lookup"))
            | Some k =>
                let '(c, key) := jwks_lookup (from_secs (jwks_cache_ttl_seconds cfg)) k read locked fetch now after in
                (c, match key with
                    | Some key => Ok (key, alg)
                    | None => Err (PluginRuntime ("JWKS key not found for kid: " +:+ k))
                    end)
            end
        | None =>
            (locked, match rsa_pem cfg with
                     | Some pem =>
                         match from_rsa_pem pem with
                         | Ok key => Ok (key, alg)
                         | Err e => Err (PluginConfigInvalid ("invalid RSA PEM: " +:+ e))
                         end
                     | None => Err (PluginConfigInvalid "auth plugin: rsa_pem or jwks_url is required for RS256")
                     end)
        end
  end.

(** [serde_json::from_value::<AuthPluginConfig>]. *)
Context (from_value : Value → result AuthPluginConfig string).

Definition validate_config (config : Value) : result unit ConrogateError :=
  if is_null config then Ok tt
  else match from_value config with Err e => Err (PluginConfigInvalid e) | Ok cfg => validate cfg end.

Definition configured (config : Value) : result AuthPluginConfig ConrogateError :=
  if is_null config then Ok default_auth
  else match from_value config with
       | Err e => Err (PluginConfigInvalid e)
       | Ok cfg => let? _ := validate cfg in Ok cfg
       end.

(** The bearer token of a request. *)
Definition bearer (ctx : @PluginContext HeaderMap) : option string :=
  pc_http ctx ≫= λ h, get_str (hc_headers h) "authorization" ≫= strip_prefix "Bearer ".

Definition unauthorized (ctx : @PluginContext HeaderMap) (msg : string) : PluginOutcome ErrorBody :=
  Terminate 401 (error_body_with_trace (pc_trace_id ctx) ERR_UNAUTHORIZED ("unauthorized: " +:+ msg)).

Definition validation (cfg : AuthPluginConfig) (alg : Algorithm) : Validation :=
  mkValidation alg true (issuer cfg) (audience cfg).

Definition before_request (cfg : AuthPluginConfig) (ctx : @PluginContext HeaderMap) (read locked : JwksCache)
    (fetch : fetch_result) (now after : Z) : JwksCache * result (PluginOutcome ErrorBody) ConrogateError :=
  match bearer ctx with
  | Some token =>
      match decode_header token with
      | Err e => (locked, Ok (unauthorized ctx ("invalid token header: " +:+ e)))
      | Ok h =>
          let '(c, r) := resolve_key h cfg read locked fetch now after in
          (c, match r with
              | Err e => Ok (unauthorized ctx (display e))
              | Ok (key, alg) =>
                  match decode token key (validation cfg alg) with
                  | Ok _ => Ok Continue
                  | Err e => Ok (unauthorized ctx e)
                  end
              end)
      end
  | None =>
      (locked, if require_token cfg then Ok (unauthorized ctx "missing bearer token") else Ok Continue)
  end.

(** ** What the cache holds *)

(** The caches refreshes can leave behind, with the documents of the key set that
    were fetched so far. *)
Inductive reachable (cfg : AuthPluginConfig) : JwksCache → list (list Jwk) → Prop :=
| ar_new : reachable cfg jwks_new []
| ar_refresh c log l now after : reachable cfg c log → is_stale c (from_secs (jwks_cache_ttl_seconds cfg)) now = true →
    reachable cfg (mkJwks (convert_jwks l) (Some after)) (l :: log).

(** A key is the one that a fetched document names by [k]. *)
Definition published (log : list (list Jwk)) (k : string) (key : Key) : Prop := ∃ l, l ∈ log ∧ convert_jwks l !! k = Some key.

Lemma reachable_published cfg c log k key : reachable cfg c log → keys c !! k = Some key → published log k key.
Proof.
  intros Hr Hk. destruct Hr as [|c log l now after Hr Hs]; [simpl in Hk; by rewrite lookup_empty in Hk|].
  exists l. split; [left|done].
Qed.

Lemma jwks_lookup_ok cfg k read locked fetch now after log log' c key :
  reachable cfg read log → reachable cfg locked log' →
  jwks_lookup (from_secs (jwks_cache_ttl_seconds cfg)) k read locked fetch now after = (c, key) →
  ∃ log'', reachable cfg c log'' ∧ (log'' = log' ∨ ∃ l, fetch = Ok l ∧ log'' = l :: log') ∧
    ∀ ky, key = Some ky → published log k ky ∨ published log'' k ky.
Proof.
  intros Hr Hl. unfold jwks_lookup. destruct (keys read !! k) as [key0|] eqn:Ek.
  { intros [= <- <-]. exists log'. split_and!; [done|by left|]. intros ky [= <-]. left. by eapply reachable_published. }
  destruct (is_stale locked _ now) eqn:Es; [|intros [= <- <-]; exists log'; split_and!; [done|by left|]; intros; right; by eapply reachable_published].
  destruct fetch as [l|e]; simpl; intros [= <- <-].
  - assert (reachable cfg (mkJwks (convert_jwks l) (Some after)) (l :: log')) as Hn by (by eapply ar_refresh).
    exists (l :: log'). split_and!; [done|right; by eexists|]. intros ky Hky. right. by apply (reachable_published _ _ _ _ _ Hn).
  - exists log'. split_and!; [done|by left|]. intros. right. by eapply reachable_published.
Qed.

(** Where the key of a token comes from, and with which algorithm it is used. *)
Definition key_origin (cfg : AuthPluginConfig) (h : Header) (known : string → Key → Prop) (key : Key) (alg : Algorithm) : Prop :=
  parse_algorithm (algorithm cfg) = Ok alg ∧
  ((alg ∈ [HS256; HS384; HS512] ∧ is_empty (secret cfg) = false ∧ key = from_secret (secret cfg)) ∨
   (alg ∈ [RS256; RS384; RS512] ∧ jwks_url cfg = None ∧ ∃ pem, rsa_pem cfg = Some pem ∧ from_rsa_pem pem = Ok key) ∨
   (alg ∈ [RS256; RS384; RS512] ∧ is_Some (jwks_url cfg) ∧ ∃ k, header_kid h = Some k ∧ known k key)).

Lemma is_hmac_algorithm a alg :
  parse_algorithm a = Ok alg → alg ∈ (if is_hmac a then [HS256; HS384; HS512] else [RS256; RS384; RS512]).
Proof.
  unfold parse_algorithm, is_hmac. repeat (destruct (_ =? _)%string; [intros [= <-]; cbn; set_solver|]). done.
Qed.

Lemma resolve_key_ok h cfg read locked fetch now after log log' c r :
  reachable cfg read log → reachable cfg locked log' →
  resolve_key h cfg read locked fetch now after = (c, r) →
  ∃ log'', reachable cfg c log'' ∧ (log'' = log' ∨ ∃ l, fetch = Ok l ∧ log'' = l :: log') ∧
    ∀ key alg, r = Ok (key, alg) → key_origin cfg h (λ k ky, published log k ky ∨ published log'' k ky) key alg.
Proof.
  intros Hr Hl. unfold resolve_key, key_origin.
  destruct (parse_algorithm (algorithm cfg)) as [alg|e] eqn:Ea; [|intros [= <- <-]; exists log'; split_and!; [done|by left|done]].
  pose proof (is_hmac_algorithm _ _ Ea) as Hm. destruct (is_hmac (algorithm cfg)).
  { intros [= <- <-]. exists log'. split_and!; [done|by left|]. intros key alg'. destruct (is_empty _) eqn:Ee; [done|].
    intros [= <- <-]. split; [done|]. left. done. }
  destruct (jwks_url cfg) as [url|] eqn:Eu; cycle 1.
  { intros [= <- <-]. exists log'. split_and!; [done|by left|]. intros key alg'. destruct (rsa_pem cfg) as [pem|]; [|done].
    destruct (from_rsa_pem pem) eqn:Ep; [|done]. intros [= <- <-]. split; [done|]. right. left. eauto. }
  destruct (header_kid h) as [k|] eqn:Ek; [|intros [= <- <-]; exists log'; split_and!; [done|by left|done]].
  destruct (jwks_lookup _ _ _ _ _ _ _) as [c1 key] eqn:E. intros [= <- <-].
  destruct (jwks_lookup_ok _ _ _ _ _ _ _ _ _ _ _ Hr Hl E) as (log'' & H1 & H2 & H3). exists log''. split_and!; [done|done|].
  intros ky alg'. destruct key as [ky'|]; [|done]. intros [= <- <-]. split; [done|]. right. right.
  split_and!; [done|by eexists|]. exists k. split; [done|]. by apply H3.
Qed.

(** Who is admitted: the plugin never fails, it lets a request pass or ends it
    with 401, the code of unauthorised access and the request's trace id. A
    request passes only without a bearer token where none is required, or with one
    that the library accepts, expiry included, for the configured issuer and
    audience, under the configured algorithm and a key that belongs to it: the
    secret for an HMAC algorithm and never for an RSA one; the configured public
    key; or, with a key set, the key a document fetched from it publishes under
    the token's key id. Whatever calls run meanwhile, the cache holds only keys of
    a fetched document. *)
Theorem auth_admits cfg ctx read locked fetch now after log log' c r :
  reachable cfg read log → reachable cfg locked log' →
  before_request cfg ctx read locked fetch now after = (c, r) →
  ∃ log'', reachable cfg c log'' ∧ (log'' = log' ∨ ∃ l, fetch = Ok l ∧ log'' = l :: log') ∧
    ((r = Ok Continue ∧
      ((bearer ctx = None ∧ require_token cfg = false) ∨
       ∃ token h key alg, bearer ctx = Some token ∧ decode_header token = Ok h ∧
         decode token key (mkValidation alg true (issuer cfg) (audience cfg)) = Ok tt ∧
         key_origin cfg h (λ k ky, published log k ky ∨ published log'' k ky) key alg)) ∨
     ∃ msg, r = Ok (Terminate 401 (mkErrorBody ERR_UNAUTHORIZED msg (pc_trace_id ctx)))).
Proof.
  intros Hr Hl. unfold before_request. destruct (bearer ctx) as [token|] eqn:Eb; cycle 1.
  { intros [= <- <-]. exists log'. split_and!; [done|by left|]. destruct (require_token cfg); [right; by eexists|left]. eauto. }
  destruct (decode_header token) as [h|e] eqn:Eh; [|intros [= <- <-]; exists log'; split_and!; [done|by left|right; by eexists]].
  destruct (resolve_key h cfg read locked fetch now after) as [c1 k] eqn:Ek. intros [= <- <-].
  destruct (resolve_key_ok _ _ _ _ _ _ _ _ _ _ _ Hr Hl Ek) as (log'' & H1 & H2 & H3). exists log''. split_and!; [done|done|].
  destruct k as [[key alg]|e]; [|right; by eexists].
  destruct (decode token key (validation cfg alg)) as [[]|e] eqn:Ed; [|right; by eexists].
  left. split; [done|]. right. exists token, h, key, alg. split_and!; [done|done|done|]. by apply H3.
Qed.

(** A key that is cached is used however old the cache is and whatever the key
    set says by now. *)
Lemma jwks_cached_forever ttl k read locked fetch now after key :
  keys read !! k = Some key → (jwks_lookup ttl k read locked fetch now after).2 = Some key.
Proof. intros H. unfold jwks_lookup. by rewrite H. Qed.

(** A configuration that the plugin accepts and that requires a token has the
    material to check one: with an HMAC algorithm every look-up of the key
    succeeds; with an RSA algorithm it fails only for a public key that cannot be
    read, a token without a key id, or an id no fetched document has. *)
Theorem auth_config_usable config cfg h read locked fetch now after :
  from_value config = Ok cfg → is_null config = false → configured config = Ok cfg → require_token cfg = true →
  (is_hmac (algorithm cfg) = true → is_ok (resolve_key h cfg read locked fetch now after).2 = true) ∧
  (is_hmac (algorithm cfg) = false → ∀ e, (resolve_key h cfg read locked fetch now after).2 = Err e →
     (∃ m pem, rsa_pem cfg = Some pem ∧ from_rsa_pem pem = Err m) ∨
     (is_Some (jwks_url cfg) ∧ header_kid h = None) ∨
     (is_Some (jwks_url cfg) ∧ ∃ k, header_kid h = Some k ∧
        (jwks_lookup (from_secs (jwks_cache_ttl_seconds cfg)) k read locked fetch now after).2 = None)).
Proof.
  intros Hf Hn Hc Hreq. unfold configured in Hc. rewrite Hn, Hf in Hc. destruct (validate cfg) eqn:Hv; [|done].
  unfold validate in Hv. unfold resolve_key. destruct (parse_algorithm (algorithm cfg)) as [alg|e0]; [|done].
  rewrite Hreq in Hv. split; intros Hh; rewrite Hh in *; simpl in *.
  - by destruct (is_empty (secret cfg)).
  - intros e. destruct (jwks_url cfg) as [url|].
    + destruct (header_kid h) as [k|]; [|intros _; right; left; by eauto].
      destruct (jwks_lookup _ _ _ _ _ _ _) as [c [key|]] eqn:E; [done|]. intros _. right. right. split; [eauto|].
      exists k. by rewrite E.
    + destruct (rsa_pem cfg) as [pem|]; [|done]. simpl. destruct (from_rsa_pem pem) as [key|m] eqn:Ep; [done|].
      intros _. left. eauto.
Qed.
End Plugin.
End Auth.

Module AuthDemo.
Import HttpHandler HttpDemo Auth.
#[local] Existing Instance toy_http.

(** A toy library: a token names its key, and is accepted under the key "good". *)
#[local] Instance toy_jwt : JwtLib string string :=
  {| decode_header t := if is_empty t then Err "empty"%string else Ok t;
     header_kid h := Some h;
     from_secret s := s;
     from_rsa_pem p := Ok p;
     from_rsa_components n _ := Ok n;
     decode _ key _ := if (key =? "good")%string then Ok tt else Err "bad signature"%string |}.

Definition demo_auth : AuthPluginConfig := mkAuthConfig "rs256" "" None (Some "https://keys"%string) 300 None None true.
Definition demo_keys : list Jwk := [mkJwk "EC" (Some "k1") None None; mkJwk "RSA" (Some "k1") (Some "good") (Some "AQAB")]%string.
Definition demo_ctx : @PluginContext (gmap string string) :=
  mkContext "r" "t" 7 "1.2.3.4" Http (Some (mkHttpContext "GET" "/" ∅ (<["authorization":="Bearer k1"]> ∅)%string None)) None ∅.

(** A key that the set publishes is fetched and admits its token. *)
Lemma auth_admits_witness :
  (before_request demo_auth demo_ctx jwks_new jwks_new (Ok demo_keys) 0 1).2 = Ok Continue ∧
  ∃ key, key_origin demo_auth "k1" (λ k ky, published [] k ky ∨ published [demo_keys] k ky) key RS256.
Proof.
  split; [vm_compute; reflexivity|].
  destruct (auth_admits demo_auth demo_ctx jwks_new jwks_new (Ok demo_keys) 0 1 [] []
    (mkJwks (convert_jwks demo_keys) (Some 1)) (Ok Continue)) as (log & _ & Hlog & [[_ [[H _]|H]]|[msg H]]).
  - apply ar_new.
  - apply ar_new.
  - reflexivity.
  - discriminate H.
  - destruct H as (token & h & key & alg & Hb & Hh & _ & Ho). exists key.
    assert (token = "k1"%string) as -> by (vm_compute in Hb; injection Hb as <-; reflexivity).
    assert (h = "k1"%string) as -> by (vm_compute in Hh; injection Hh as <-; reflexivity).
    assert (alg = RS256) as -> by (destruct Ho as [Ha _]; vm_compute in Ha; injection Ha as <-; reflexivity).
    destruct Ho as [Ha Ho]. split; [exact Ha|].
    destruct Ho as [(Hm & _)|[(_ & Hu & _)|(H1 & H2 & k & H3 & H4)]].
    + exfalso. rewrite !elem_of_cons in Hm. destruct Hm as [Hm|[Hm|[Hm|Hm]]]; [discriminate Hm..|by apply not_elem_of_nil in Hm].
    + discriminate Hu.
    + right. right. split; [exact H1|]. split; [exact H2|]. exists k. split; [exact H3|].
      destruct Hlog as [->|(l & El & ->)]; [destruct H4 as [H4|H4]; left; exact H4|]. injection El as <-. exact H4.
  - discriminate H.
Defined.

Definition demo_value : Value := VObject [].
Definition hmac_auth : AuthPluginConfig := mkAuthConfig "HS512" "s3cret" None None 300 None None true.

Lemma auth_config_usable_witness :
  is_ok (resolve_key "k1" hmac_auth jwks_new jwks_new (Err Forbidden) 0 1).2 = true.
Proof.
  apply (auth_config_usable (λ _, Ok hmac_auth) demo_value hmac_auth "k1" jwks_new jwks_new (Err Forbidden) 0 1); reflexivity.
Defined.
End AuthDemo.
