(* ===== verification/Builtins.v ===== *)
(** The official plugins together: the four plugins of conrogate-plugins/src as
    implementations of the plugin trait, the registry the processes fill with them
    (conrogate-cli/src/cmd_gate.rs, bootstrap.rs), and what a chain built from
    bindings guards (over Plugin, AuthPlugin, HttpPlugins and Access). *)
From Stdlib Require Import ZArith Lia Ascii String.
From stdpp Require Import base tactics option list gmap strings.
From S2P Require Import Prelude Text Errors Core F64 Plugin Access Telemetry Effects HttpHandler HttpPlugins AuthPlugin.
#[local] Open Scope Z_scope.

Module Builtins.
Import HttpHandler.

Section Builtins.
Context {Key Header : Type} `{Jwt : Auth.JwtLib Key Header}.
Context {HeaderMap HeaderValue Uri : Type} `{HttpL : HttpLib HeaderMap HeaderValue Uri} `{HV : !HeaderValues HeaderMap HeaderValue}.
Context {IpAddr IpNet : Type} `{IpL : IpLib IpAddr IpNet}.

(** The deserialisation of the four configurations, and the debug form of a text. *)
Context (cors_value : Value → result Cors.CorsPluginConfig string) (auth_value : Value → result Auth.AuthPluginConfig string).
Context (rewrite_value : Value → result HeaderRewrite.HeaderRewriteConfig string) (ip_value : Value → result IpAllowDenyConfig string).
Context (debug : string → string).

Abbreviation Ctx := (@PluginContext HeaderMap).

(** What a call of the auth plugin finds: its key cache when it reads it and under
    the write lock, the answer of the key set, and the clock then and after it. *)
Context (found : Auth.AuthPluginConfig → Ctx → @Auth.JwksCache Key * @Auth.JwksCache Key * Auth.fetch_result * Z * Z).

(** An instance of a plugin with its configuration. *)
Inductive builtin :=
| CorsB (config : Cors.CorsPluginConfig)
| AuthB (config : Auth.AuthPluginConfig)
| RewriteB (config : HeaderRewrite.HeaderRewriteConfig)
| IpB (compiled : @Compiled IpNet).

(** What a plugin says of itself. *)
Record face := mkFace { f_name : string; f_kind : PluginKind; f_protocols : list ProtocolId; f_blocking : bool }.

Definition cors_face : face := mkFace "cors" Native [Http] false.
Definition auth_face : face := mkFace "auth" Native [Http; WebSocket] true.
Definition rewrite_face : face := mkFace "header_rewrite" Native [Http] false.
Definition ip_face : face := mkFace "ip_allow_deny" Native [Http; WebSocket; TcpTunnel] true.

Definition face_of (p : builtin) : face :=
  match p with CorsB _ => cors_face | AuthB _ => auth_face | RewriteB _ => rewrite_face | IpB _ => ip_face end.
Abbreviation name p := (f_name (face_of p)).

Definition validate_config (p : builtin) (config : Value) : result unit ConrogateError :=
  match p with
  | CorsB _ => Cors.validate_config cors_value config
  | AuthB _ => Auth.validate_config auth_value config
  | RewriteB _ => HeaderRewrite.validate_config rewrite_value debug config
  | IpB _ => Access.validate_config ip_value config
  end.

Definition configured (p : builtin) (config : Value) : result builtin ConrogateError :=
  match p with
  | CorsB _ => let? c := Cors.configured cors_value config in Ok (CorsB c)
  | AuthB _ => let? c := Auth.configured auth_value config in Ok (AuthB c)
  | RewriteB _ => let? c := HeaderRewrite.configured rewrite_value debug config in Ok (RewriteB c)
  | IpB _ => let? c := Access.configured ip_value config in Ok (IpB c)
  end.

(** The bodies of terminating answers: values, or error envelopes. *)
Abbreviation Body := (Value + ErrorBody)%type.

Definition outcome_map {A B} (f : A → B) (r : result (PluginOutcome A) ConrogateError) : result (PluginOutcome B) ConrogateError :=
  match r with
  | Ok Continue => Ok Continue
  | Ok (Terminate status body) => Ok (Terminate status (f body))
  | Err e => Err e
  end.

Definition before_request (p : builtin) (ctx : Ctx) : Ctx * result (PluginOutcome Body) ConrogateError :=
  match p with
  | CorsB c => let '(ctx', r) := Cors.before_request c ctx in (ctx', outcome_map inl r)
  | AuthB c => let '(read, locked, fetch, now, after) := found c ctx in
               (ctx, outcome_map inr (Auth.before_request c ctx read locked fetch now after).2)
  | RewriteB c => let '(ctx', r) := HeaderRewrite.before_request c ctx in (ctx', outcome_map inl r)
  | IpB rules => (ctx, outcome_map inr (ip_gate rules (pc_client_ip ctx) (pc_trace_id ctx)))
  end.

Definition after_response (p : builtin) (ctx : Ctx) (resp : @PluginResponse HeaderMap) :
    Ctx * @PluginResponse HeaderMap * result unit ConrogateError :=
  match p with
  | CorsB c => Cors.after_response c ctx resp
  | RewriteB c => HeaderRewrite.after_response c ctx resp
  | AuthB _ | IpB _ => (ctx, resp, Ok tt)
  end.

Definition on_connect (p : builtin) (ctx : Ctx) : Ctx * result (PluginOutcome Body) ConrogateError :=
  match p with
  | IpB rules => (ctx, outcome_map inr (ip_gate rules (pc_client_ip ctx) (pc_trace_id ctx)))
  | CorsB _ | AuthB _ | RewriteB _ => (ctx, Ok Continue)
  end.

#[global] Instance builtin_trait : PluginTrait builtin Ctx (@PluginResponse HeaderMap) Body :=
  {| pl_name p := name p; pl_kind p := f_kind (face_of p); pl_protocols p := f_protocols (face_of p); pl_is_blocking p := f_blocking (face_of p); pl_requires_body _ := false;
     pl_validate_config := validate_config; pl_configured := configured; pl_before_request := before_request;
     pl_after_response := after_response; pl_on_connect := on_connect; pl_on_disconnect _ ctx := (ctx, Ok tt);
     ctx_protocol := pc_protocol |}.

(** ** The registry *)

Definition official_plugins : list builtin :=
  [CorsB Cors.default_cors; AuthB Auth.default_auth; RewriteB HeaderRewrite.default_rewrite; IpB no_rules].

Definition register_all (ps : list builtin) (r : @Plugins.PluginRegistryImpl builtin) : @Plugins.PluginRegistryImpl builtin :=
  foldl Plugins.register r ps.

Definition registry : @Plugins.PluginRegistryImpl builtin := register_all official_plugins Plugins.registry_new.

(** [init]: only the auth plugin reads its argument. *)
Definition init (p : builtin) (config : Value) : result builtin ConrogateError :=
  match p with
  | AuthB c => if is_null config then Ok p
               else match auth_value config with Ok c' => Ok (AuthB c') | Err e => Err (PluginConfigInvalid e) end
  | _ => Ok p
  end.

(** The processes initialise every plugin without a configuration, which none of
    them refuses or takes note of. *)
Lemma init_null p : init p VNull = Ok p.
Proof. by destruct p. Qed.

Lemma registry_get n :
  Plugins.get registry n =
  if (n =? "cors")%string then Some (CorsB Cors.default_cors)
  else if (n =? "auth")%string then Some (AuthB Auth.default_auth)
  else if (n =? "header_rewrite")%string then Some (RewriteB HeaderRewrite.default_rewrite)
  else if (n =? "ip_allow_deny")%string then Some (IpB no_rules)
  else None.
Proof.
  unfold registry, register_all, official_plugins, Plugins.get. cbn.
  destruct (String.eqb_spec n "cors"), (String.eqb_spec n "auth"), (String.eqb_spec n "header_rewrite"), (String.eqb_spec n "ip_allow_deny");
    subst; try done; simplify_map_eq; done.
Qed.

(** A configured instance is one of the same plugin. *)
Lemma configured_name p config p' : configured p config = Ok p' → name p' = name p.
Proof. intros E. destruct p; simpl in E; match type of E with context [match ?x with _ => _ end] => destruct x end; by simplify_eq/=. Qed.

(** ** What a chain guards *)

(** Two contexts of one request: plugins may change its fields. *)
Definition same_request (c c' : Ctx) : Prop :=
  pc_request_id c = pc_request_id c' ∧ pc_trace_id c = pc_trace_id c' ∧ pc_route_id c = pc_route_id c' ∧
  pc_client_ip c = pc_client_ip c' ∧ pc_protocol c = pc_protocol c' ∧ pc_tunnel c = pc_tunnel c' ∧
  (hc_method <$> pc_http c) = (hc_method <$> pc_http c') ∧ (hc_path <$> pc_http c) = (hc_path <$> pc_http c').

Lemma hook_keeps p ctx ctx' r :
  before_request p ctx = (ctx', r) → same_request ctx ctx' ∧ ((∀ c, p ≠ RewriteB c) → pc_http ctx' = pc_http ctx).
Proof.
  unfold same_request. destruct p as [c|c|c|rules]; cbn [before_request].
  - unfold Cors.before_request. destruct (pc_http ctx) as [h|] eqn:Eh; [case_bool_decide|]; intros [= <- _]; cbn; rewrite ?Eh; by split_and!.
  - destruct (found c ctx) as [[[[read locked] fetch] now] after]. intros [= <- _]. by split_and!.
  - unfold HeaderRewrite.before_request. intros [= <- _]. destruct (pc_http ctx) as [h|] eqn:Eh; cbn; rewrite ?Eh.
    + split; [by split_and!|]. intros Hp. by destruct (Hp c).
    + by split_and!.
  - intros [= <- _]. by split_and!.
Qed.

Lemma passes_keeps ctx ps ctx' :
  Plugins.passes before_request ctx ps ctx' →
  same_request ctx ctx' ∧ ((∀ p c, p ∈ ps → p ≠ RewriteB c) → pc_http ctx' = pc_http ctx).
Proof.
  assert (∀ a b c, same_request a b → same_request b c → same_request a c) as Htr.
  { unfold same_request. intros a b c (?&?&?&?&?&?&?&?) (?&?&?&?&?&?&?&?). split_and!; congruence. }
  induction 1 as [ctx|ctx p ps ctx' Ha Hp [IH1 IH2]|ctx p ps c1 ctx' Ha Hh Hp [IH1 IH2]].
  - split; [by unfold same_request; split_and!|done].
  - split; [done|]. intros H. apply IH2. intros q c Hq. apply H. by right.
  - apply hook_keeps in Hh as [H1 H2]. split; [by eapply Htr|]. intros H. rewrite IH2; [apply H2; intros c; apply H; by left|].
    intros q c Hq. apply H. by right.
Qed.

(** A rewriting instance comes from a binding of that plugin. *)
Lemma rewrite_instance b t c :
  Plugins.get registry (b_plugin_name b) = Some t → configured t (b_config b) = Ok (RewriteB c) → b_plugin_name b = "header_rewrite"%string.
Proof.
  intros Ht Hn%configured_name. rewrite registry_get in Ht.
  destruct (String.eqb_spec (b_plugin_name b) "cors"), (String.eqb_spec (b_plugin_name b) "auth"),
    (String.eqb_spec (b_plugin_name b) "header_rewrite"), (String.eqb_spec (b_plugin_name b) "ip_allow_deny"); try done; by injection Ht as <-.
Qed.

Context (found_ok : ∀ cfg ctx, ∃ log log', Auth.reachable cfg (found cfg ctx).1.1.1.1 log ∧ Auth.reachable cfg (found cfg ctx).1.1.1.2 log').

(** What the auth plugin says to continue on. *)
Lemma auth_continues cfg ctx ctx' :
  Auth.require_token cfg = true → before_request (AuthB cfg) ctx = (ctx', Ok Continue) →
  ∃ token h key alg, Auth.bearer ctx = Some token ∧ Auth.decode_header token = Ok h ∧
    Auth.decode token key (Auth.mkValidation alg true (Auth.issuer cfg) (Auth.audience cfg)) = Ok tt ∧
    Auth.key_origin cfg h (λ k ky, ∃ log, Auth.published log k ky) key alg.
Proof using found_ok.
  intros Hreq. cbn [before_request]. destruct (found_ok cfg ctx) as (log & log' & Hr & Hl).
  destruct (found cfg ctx) as [[[[read locked] fetch] now] after]. cbn [fst snd] in Hr, Hl. intros [= _ E].
  unfold Auth.before_request in E. destruct (Auth.bearer ctx) as [token|]; [|rewrite Hreq in E; done].
  destruct (Auth.decode_header token) as [h|e] eqn:Eh; [|done].
  destruct (Auth.resolve_key h cfg read locked fetch now after) as [c k] eqn:Ek.
  destruct (Auth.resolve_key_ok _ _ _ _ _ _ _ _ _ _ _ Hr Hl Ek) as (log'' & _ & _ & Hk). destruct k as [[key alg]|e]; [|done]. cbn in E.
  destruct (Auth.decode token key (Auth.validation cfg alg)) as [[]|e] eqn:Ed; [|done].
  exists token, h, key, alg. split_and!; try done.
  destruct (Hk key alg eq_refl) as [Ha [?|[?|(? & ? & kid & ? & Hp)]]]; (split; [done|]); [by left|by right; left|].
  right. right. split_and!; try done. exists kid. split; [done|]. destruct Hp; eauto.
Qed.

(** A route with the auth plugin is guarded: whatever else is bound to it, on
    whatever order, a request over HTTP or WebSocket passes the chain that was built
    from the bindings only if it carried, when the auth plugin saw it, a bearer token
    that the JWT library accepts, expiry included, for the issuer and audience of
    the binding, under its algorithm and a key that belongs to it. What the auth
    plugin saw is this request, and with the very fields the client sent unless a
    header_rewrite of the route is bound at the same order or before. *)
Theorem guarded_route bs chains b cfg ctx ctx' :
  Plugins.build_chains registry bs = Ok chains → b ∈ bs → b_enabled b = true → b_plugin_name b = "auth"%string →
  Auth.configured auth_value (b_config b) = Ok cfg → Auth.require_token cfg = true →
  pc_protocol ctx = Http ∨ pc_protocol ctx = WebSocket →
  Plugins.execute_before_request ctx (Plugins.get_route_chain chains (b_route_id b)) = (ctx', Ok Continue) →
  ∃ seen token h key alg, same_request ctx seen ∧
    ((∀ b', b' ∈ bs → b_enabled b' = true → b_route_id b' = b_route_id b → b_plugin_name b' = "header_rewrite"%string → b_order b < b_order b') →
       pc_http seen = pc_http ctx) ∧
    Auth.bearer seen = Some token ∧ Auth.decode_header token = Ok h ∧
    Auth.decode token key (Auth.mkValidation alg true (Auth.issuer cfg) (Auth.audience cfg)) = Ok tt ∧
    Auth.key_origin cfg h (λ k ky, ∃ log, Auth.published log k ky) key alg.
Proof using found_ok.
  intros Hb Hin He Hn Hc Hreq Hproto Hex.
  destruct (Plugins.chain_at registry bs chains b (AuthB Auth.default_auth) Hb Hin He) as (pre & p & post & Hch & Hp & Hpre).
  { by rewrite registry_get, Hn. }
  cbn in Hp. rewrite Hc in Hp. injection Hp as <-. rewrite Hch in Hex.
  pose proof (Plugins.gate_sound before_request ctx (pre ++ AuthB cfg :: post)) as Hg. unfold Plugins.execute_before_request in Hex.
  cbn [pl_before_request builtin_trait] in Hex. rewrite Hex in Hg. destruct Hg as [[_ Hg]|[[] _]]. cbn [fst] in Hg.
  apply Plugins.passes_at in Hg as (seen & Hpass & Hhook). apply passes_keeps in Hpass as [Hsame Hhttp].
  destruct Hhook as [Happ|[c2 Hhook]].
  { exfalso. unfold Plugins.applies in Happ. apply bool_decide_eq_false in Happ. apply Happ. cbn.
    destruct Hsame as (_ & _ & _ & _ & <- & _). destruct Hproto as [-> | ->]; set_solver. }
  destruct (auth_continues cfg seen c2 Hreq Hhook) as (token & h & key & alg & H1 & H2 & H3 & H4).
  exists seen, token, h, key, alg. split_and!; try done. intros Hrw. apply Hhttp. intros q c Hq ->.
  destruct (Hpre _ Hq) as (b' & t' & Hb' & He' & Hr' & Ho & Ht' & Hc'). pose proof (rewrite_instance b' t' c Ht' Hc') as Hname.
  specialize (Hrw b' Hb' He' Hr' Hname). lia.
Qed.

(** Over a tunnel the chain asks for addresses only. *)
Lemma tunnels_unauthenticated ctx ps :
  pc_protocol ctx = TcpTunnel → (∀ p rules, p ∈ ps → p ≠ IpB rules) → Plugins.execute_on_connect ctx ps = (ctx, Ok Continue).
Proof.
  intros Hp H. unfold Plugins.execute_on_connect. induction ps as [|p ps IH]; simpl; [done|].
  assert (Plugins.applies p ctx = false) as ->.
  { unfold Plugins.applies. cbn. rewrite Hp. apply bool_decide_eq_false. destruct p as [c|c|c|rules]; cbn; try set_solver. }
  apply IH. intros q rules Hq. apply H. by right.
Qed.
End Builtins.
End Builtins.

(** A route with CORS and the auth plugin, its key in the configuration. *)
Module BuiltinsDemo.
Import HttpHandler HttpPlugins.PluginDemo Builtins.
#[local] Existing Instance list_http.
#[local] Existing Instance list_values.
#[local] Existing Instance AccessDemo.toy_lib.

(** A token is its signature key; the library refuses tokens that expired. *)
#[local] Instance demo_jwt : Auth.JwtLib string string :=
  {| Auth.decode_header t := Ok t;
     Auth.header_kid _ := None;
     Auth.from_secret s := s;
     Auth.from_rsa_pem p := Ok p;
     Auth.from_rsa_components n _ := Ok n;
     Auth.decode t key _ := if (t =? key)%string then Ok tt else Err "bad signature"%string |}.

Definition demo_auth : Auth.AuthPluginConfig := Auth.mkAuthConfig "HS256" "s3cret" None None 300 None None true.

Definition demo_found (_ : Auth.AuthPluginConfig) (_ : @PluginContext (list (string * string))) :
    @Auth.JwksCache string * @Auth.JwksCache string * Auth.fetch_result * Z * Z :=
  (Auth.jwks_new, Auth.jwks_new, Err Forbidden, 0, 1).

Definition demo_ctx (headers : list (string * string)) : @PluginContext (list (string * string)) :=
  mkContext "r" "t" 7 "1.2.3.4" Http (Some (mkHttpContext "GET" "/" ∅ headers None)) None [].

Definition value_error {A} (_ : Value) : result A string := Err "not this plugin"%string.
Definition demo_auth_value (_ : Value) : result Auth.AuthPluginConfig string := Ok demo_auth.
Definition demo_cors_value (_ : Value) : result Cors.CorsPluginConfig string := Ok Cors.default_cors.

Definition demo_bindings : list PluginBindingDto :=
  [mkBinding 1 7 "auth" (VObject []) 10 true true; mkBinding 2 7 "cors" (VObject []) 5 false true]%string.

#[local] Instance demo_trait : PluginTrait builtin (@PluginContext (list (string * string))) (@PluginResponse (list (string * string)))
    (Value + ErrorBody) :=
  builtin_trait demo_cors_value demo_auth_value value_error value_error id demo_found.

Definition demo_chains : gmap Z (list builtin) :=
  from_option id ∅ (match Plugins.build_chains (registry demo_cors_value demo_auth_value value_error value_error id demo_found) demo_bindings with
                    | Ok c => Some c | Err _ => None end).

Lemma found_new cfg ctx :
  ∃ log log', Auth.reachable cfg (demo_found cfg ctx).1.1.1.1 log ∧ Auth.reachable cfg (demo_found cfg ctx).1.1.1.2 log'.
Proof. exists [], []. split; apply Auth.ar_new. Qed.

Definition good : @PluginContext (list (string * string)) := demo_ctx [("authorization", "Bearer s3cret")]%string.

(** The chain refuses a request without the token, and one that has it passed
    with a token that is checked. *)
Lemma guarded_route_witness :
  (Plugins.execute_before_request (demo_ctx []) (Plugins.get_route_chain demo_chains 7)).2 ≠ Ok Continue ∧
  ∃ token, token = "s3cret"%string ∧ Auth.decode token "s3cret"%string (Auth.mkValidation Auth.HS256 true None None) = Ok tt.
Proof.
  split; [vm_compute; discriminate|].
  destruct (guarded_route demo_cors_value demo_auth_value value_error value_error id demo_found found_new
    demo_bindings demo_chains (mkBinding 1 7 "auth" (VObject []) 10 true true) demo_auth good good) as (seen & token & h & key & alg & Hs & Hh & Hb & _ & Hd & Ho).
  - vm_compute. reflexivity.
  - left.
  - reflexivity.
  - reflexivity.
  - reflexivity.
  - reflexivity.
  - left. reflexivity.
  - vm_compute. reflexivity.
  - exists token. assert (pc_http seen = pc_http good) as E.
    { apply Hh. intros b'. unfold demo_bindings. rewrite !elem_of_cons, elem_of_nil. intros [-> |[-> |[]]]; discriminate. }
    unfold Auth.bearer in Hb. rewrite E in Hb. vm_compute in Hb. injection Hb as <-. split; reflexivity.
Defined.
End BuiltinsDemo.
