(* ===== verification/Storage.v ===== *)
(** The database of the control plane (conrogate-storage/src/entity): its
    tables, the constraints the migrations declare, and the statements the
    repositories run.

    A table is the list of its rows, in the order a query without an ordering
    returns them. Every statement may fail, and a statement that would break a
    constraint fails and changes nothing: primary keys and the width of
    their columns, the unique indexes of the backend and the foreign keys are checked on the whole database after each
    write. What the program cannot choose is a parameter ([DbEnv]): the ids the
    database gives to new rows, the clock and the faults. *)
From Stdlib Require Import ZArith Lia Ascii String.
From stdpp Require Import base tactics option list gmap strings.
From S2P Require Import Prelude Text Errors Core F64.
#[local] Open Scope Z_scope.

Module Storage.

(** ** Rows *)

Record UpstreamRow := mkUpRow {
  up_id : Z; up_name : string; up_algorithm : Z; up_retry_enabled : bool;
  up_created_at : Z; up_updated_at : Z; up_deleted_at : option Z }.

Record NodeRow := mkNodeRow {
  nd_id : Z; nd_upstream_id : Z; nd_address : string; nd_weight : Z; nd_enabled : bool;
  nd_created_at : Z; nd_updated_at : Z; nd_deleted_at : option Z }.

Record RouteRow := mkRouteRow {
  rt_id : Z; rt_name : string; rt_protocol : Z; rt_match_conditions : Value; rt_priority : Z;
  rt_upstream_id : option Z; rt_host_header : option string;
  rt_allow_retry_non_idempotent : bool; rt_ws_strip_sensitive_headers : bool; rt_enabled : bool;
  rt_created_at : Z; rt_updated_at : Z; rt_deleted_at : option Z }.

Record BindingRow := mkBindingRow {
  bd_id : Z; bd_route_id : Z; bd_plugin_name : string; bd_config : Value; bd_order : Z;
  bd_blocking : bool; bd_enabled : bool;
  bd_created_at : Z; bd_updated_at : Z; bd_deleted_at : option Z }.

Record VersionRow := mkVersionRow {
  vr_id : Z; vr_version : Z; vr_base_version : Z; vr_publish_type : Z; vr_content_hash : string;
  vr_snapshot_content : Value; vr_created_by : option string; vr_remark : option string; vr_created_at : Z }.

Record BlacklistRow := mkBlacklistRow {
  ib_id : Z; ib_ip_or_cidr : string; ib_reason : option string; ib_expires_at : option Z;
  ib_created_by : option string; ib_created_at : Z }.

Record MetricAggRow := mkMetricAgg {
  mt_id : Z; mt_ts : Z; mt_bucket_sec : Z; mt_route_id : option Z; mt_gate_id : string; mt_qps : Z; mt_total_requests : Z;
  mt_avg_latency_ms : F64.f64; mt_p50_ms : Z; mt_p90_ms : Z; mt_p99_ms : Z;
  mt_status_2xx : Z; mt_status_3xx : Z; mt_status_4xx : Z; mt_status_5xx : Z;
  mt_sessions : Z; mt_bytes_in : Z; mt_bytes_out : Z; mt_created_at : Z }.

Record GatewayEventRow := mkGatewayEvent {
  ge_id : Z; ge_ts : Z; ge_event_type : string; ge_route_id : option Z; ge_upstream_id : option Z;
  ge_trace_id : option string; ge_detail : option Value; ge_created_at : Z }.

Record AuditRow := mkAuditRow {
  al_id : Z; al_ts : Z; al_operator : option string; al_action : string; al_resource : string;
  al_resource_id : option Z; al_detail : option Value; al_trace_id : option string; al_created_at : Z }.

Record NodeAppRow := mkNodeApp {
  na_id : Z; na_gate_id : string; na_version : Z; na_applied_at : Z; na_last_seen : Z; na_updated_at : Z }.

Record InstalledPluginRow := mkInstalled {
  in_id : Z; in_name : string; in_version : string; in_api_version : Z; in_kind : Z; in_status : Z;
  in_package_hash : option string; in_manifest : Value; in_installed_at : Z; in_activated_at : option Z;
  in_deleted_at : option Z }.

Record Db := mkDb {
  d_upstreams : list UpstreamRow;
  d_nodes : list NodeRow;
  d_routes : list RouteRow;
  d_bindings : list BindingRow;
  d_versions : list VersionRow;
  d_blacklist : list BlacklistRow;
  d_metrics : list MetricAggRow;
  d_events : list GatewayEventRow;
  d_audit_logs : list AuditRow;
  d_gates : list NodeAppRow;
  d_plugins : list InstalledPluginRow }.

Definition empty_db : Db := mkDb [] [] [] [] [] [] [] [] [] [] [].

(** ** Constraints *)

Definition option_list {A} (o : option A) : list A := match o with Some a => [a] | None => [] end.

Definition live (deleted_at : option Z) : bool := bool_decide (deleted_at = None).

(** The rows a partial index covers. On MySQL the index is over the name and the
    time of deletion instead, so it covers the deleted rows only. *)
Definition route_key (mysql : bool) (r : RouteRow) : option (string * option Z) :=
  if mysql then match rt_deleted_at r with Some t => Some (rt_name r, Some t) | None => None end
  else if live (rt_deleted_at r) then Some (rt_name r, None) else None.

Definition binding_key (mysql : bool) (b : BindingRow) : option (Z * string * option Z) :=
  if mysql then match bd_deleted_at b with Some t => Some (bd_route_id b, bd_plugin_name b, Some t) | None => None end
  else if live (bd_deleted_at b) then Some (bd_route_id b, bd_plugin_name b, None) else None.

(** A unique index does not compare rows with a NULL in one of its columns. *)
Definition metric_key (m : MetricAggRow) : option (Z * Z * Z * string) :=
  (λ r, (mt_ts m, mt_bucket_sec m, r, mt_gate_id m)) <$> mt_route_id m.

Definition event_key (e : GatewayEventRow) : option (string * Z * string) :=
  (λ t, (t, ge_ts e, ge_event_type e)) <$> ge_trace_id e.

Record db_ok (mysql : bool) (d : Db) : Prop := {
  pk_upstreams : NoDup (map up_id (d_upstreams d));
  pk_nodes : NoDup (map nd_id (d_nodes d));
  pk_routes : NoDup (map rt_id (d_routes d));
  pk_bindings : NoDup (map bd_id (d_bindings d));
  pk_versions : NoDup (map vr_id (d_versions d));
  pk_blacklist : NoDup (map ib_id (d_blacklist d));
  pk_metrics : NoDup (map mt_id (d_metrics d));
  pk_events : NoDup (map ge_id (d_events d));
  pk_audit_logs : NoDup (map al_id (d_audit_logs d));
  pk_gates : NoDup (map na_id (d_gates d));
  pk_plugins : NoDup (map in_id (d_plugins d));
  uk_route_name : NoDup (omap (route_key mysql) (d_routes d));
  uk_route_plugin : NoDup (omap (binding_key mysql) (d_bindings d));
  uk_version : NoDup (map vr_version (d_versions d));
  uk_ip : NoDup (map ib_ip_or_cidr (d_blacklist d));
  uk_metric : NoDup (omap metric_key (d_metrics d));
  uk_event : NoDup (omap event_key (d_events d));
  uk_gate : NoDup (map na_gate_id (d_gates d));
  ty_upstream_id : Forall (λ u, - 2 ^ 63 <= up_id u < 2 ^ 63) (d_upstreams d);
  ty_route_id : Forall (λ r, - 2 ^ 63 <= rt_id r < 2 ^ 63) (d_routes d);
  fk_nodes : Forall (λ n, nd_upstream_id n ∈ map up_id (d_upstreams d)) (d_nodes d);
  fk_routes : Forall (λ r, Forall (λ u, u ∈ map up_id (d_upstreams d)) (option_list (rt_upstream_id r))) (d_routes d);
  fk_bindings : Forall (λ b, bd_route_id b ∈ map rt_id (d_routes d)) (d_bindings d) }.

#[global] Instance db_ok_dec mysql d : Decision (db_ok mysql d).
Proof.
  refine (cast_if (decide
    (NoDup (map up_id (d_upstreams d)) ∧
     NoDup (map nd_id (d_nodes d)) ∧
     NoDup (map rt_id (d_routes d)) ∧
     NoDup (map bd_id (d_bindings d)) ∧
     NoDup (map vr_id (d_versions d)) ∧
     NoDup (map ib_id (d_blacklist d)) ∧
     NoDup (map mt_id (d_metrics d)) ∧
     NoDup (map ge_id (d_events d)) ∧
     NoDup (map al_id (d_audit_logs d)) ∧
     NoDup (map na_id (d_gates d)) ∧
     NoDup (map in_id (d_plugins d)) ∧
     NoDup (omap (route_key mysql) (d_routes d)) ∧
     NoDup (omap (binding_key mysql) (d_bindings d)) ∧
     NoDup (map vr_version (d_versions d)) ∧
     NoDup (map ib_ip_or_cidr (d_blacklist d)) ∧
     NoDup (omap metric_key (d_metrics d)) ∧
     NoDup (omap event_key (d_events d)) ∧
     NoDup (map na_gate_id (d_gates d)) ∧
     Forall (λ u, - 2 ^ 63 <= up_id u < 2 ^ 63) (d_upstreams d) ∧
     Forall (λ r, - 2 ^ 63 <= rt_id r < 2 ^ 63) (d_routes d) ∧
     Forall (λ n, nd_upstream_id n ∈ map up_id (d_upstreams d)) (d_nodes d) ∧
     Forall (λ r, Forall (λ u, u ∈ map up_id (d_upstreams d)) (option_list (rt_upstream_id r))) (d_routes d) ∧
     Forall (λ b, bd_route_id b ∈ map rt_id (d_routes d)) (d_bindings d))));
    [destruct_and!; by split|abstract (intros []; match goal with Hn : ¬ _ |- _ => apply Hn end; by split_and!)].
Defined.

(** ** Statements *)

(** What the database and the machine decide: whether the backend is MySQL, the
    id of a new row (a sequence may have moved on meanwhile, so it depends on when
    it is asked for), whether a text matches [LIKE '%kw%'],
    whether a filter that compares a column with an absent value selects the rows
    where the column is NULL, the error (if any) of an insertion that leaves out all its rows as
    duplicates, what a violated constraint is reported with, the time that the column
    of a time keeps of it, the clock, which statements fail, and which commands to Redis
    that fail were carried out all the same (the reply was lost). Names are compared
    byte by byte: a collation that identifies more is not modelled. *)
Class DbEnv := {
  mysql : bool;
  new_id : nat → list Z → Z;
  like : string → string → bool;
  null_eq : bool;
  none_inserted : option string;
  violation : string;
  column_time : Z → Z;
  utc : nat → Z;
  fault : nat → option string;
  reply_lost : nat → bool }.

Section Statements.
Context `{DbEnv}.

(** The Redis server that caches the configuration: its texts and the messages
    published so far. *)
Record Redis := mkRedis { rd_keys : gmap string string; rd_published : list (string * string) }.

(** The database, the cache and the number of statements and clock readings so far. *)
Record World := mkWorld { w_db : Db; w_redis : Redis; w_tick : nat }.

Definition with_db (d : Db) (w : World) : World := mkWorld d (w_redis w) (w_tick w).
Definition with_redis (r : Redis) (w : World) : World := mkWorld (w_db w) r (w_tick w).
Definition ticked (w : World) : World := mkWorld (w_db w) (w_redis w) (S (w_tick w)).

Definition Q (A : Type) : Type := World → World * result A ConrogateError.

Definition qret {A} (a : A) : Q A := λ w, (w, Ok a).
Definition qfail {A} (e : ConrogateError) : Q A := λ w, (w, Err e).
Definition qbind {A B} (q : Q A) (k : A → Q B) : Q B :=
  λ w, match q w with (w', Ok a) => k a w' | (w', Err e) => (w', Err e) end.

Definition now : Q Z := λ w, (ticked w, Ok (utc (w_tick w))).

(** What depends on when it runs. *)
Definition at_tick {A} (q : nat → Q A) : Q A := λ w, q (w_tick w) w.

(** One statement: [f] is its effect and its answer, [e] the error a failure becomes. *)
Definition stmt {A} (e : string → ConrogateError) (f : Db → Db * result A string) : Q A :=
  λ w, match fault (w_tick w) with
       | Some msg => (ticked w, Err (e msg))
       | None =>
           match f (w_db w) with
           | (d, Ok a) => if decide (db_ok mysql d) then (ticked (with_db d w), Ok a)
                          else (ticked w, Err (e violation))
           | (_, Err msg) => (ticked w, Err (e msg))
           end
       end.

(** A command to Redis, on a connection that has to be opened first. *)
Definition redis {A} (connect_err command_err : string → ConrogateError) (f : Redis → Redis * A) : Q A :=
  λ w, match fault (w_tick w) with
       | Some msg => (ticked w, Err (connect_err msg))
       | None =>
           let w := ticked w in
           match fault (w_tick w) with
           | Some msg => (ticked (if reply_lost (w_tick w) then with_redis (f (w_redis w)).1 w else w), Err (command_err msg))
           | None => let '(r, a) := f (w_redis w) in (ticked (with_redis r w), Ok a)
           end
       end.

(** The two ways the repositories translate a failure. *)
Definition db_internal (_ : string) : ConrogateError := DatabaseInternal.
Definition data_mapping (msg : string) : ConrogateError := DataMapping msg.

(** [begin] ... [commit]: a failure on the way leaves the database as it was. *)
Definition transaction {A} (q : Q A) : Q A :=
  λ w, match stmt db_internal (λ d, (d, Ok tt)) w with
       | (w0, Err e) => (w0, Err e)
       | (w0, Ok _) =>
           match q w0 with
           | (w1, Err e) => (with_db (w_db w) w1, Err e)
           | (w1, Ok a) =>
               match stmt db_internal (λ d, (d, Ok tt)) w1 with
               | (w2, Ok _) => (w2, Ok a)
               | (w2, Err e) => (with_db (w_db w) w2, Err e)
               end
           end
       end.

(** A loop whose body updates an accumulator. *)
Fixpoint for_each {A S} (l : list A) (s : S) (body : S → A → Q S) : Q S :=
  match l with
  | [] => qret s
  | x :: rest => qbind (body s x) (λ s', for_each rest s' body)
  end.

End Statements.

(** ** Tables *)

(** A table: where its rows are, and their primary key. *)
Class Table (R : Type) := {
  rows : Db → list R;
  set_rows : list R → Db → Db;
  row_id : R → Z }.

#[global] Instance upstreams_table : Table UpstreamRow :=
  {| rows := d_upstreams; row_id := up_id;
     set_rows l d := mkDb l (d_nodes d) (d_routes d) (d_bindings d) (d_versions d) (d_blacklist d) (d_metrics d) (d_events d) (d_audit_logs d) (d_gates d) (d_plugins d) |}.
#[global] Instance nodes_table : Table NodeRow :=
  {| rows := d_nodes; row_id := nd_id;
     set_rows l d := mkDb (d_upstreams d) l (d_routes d) (d_bindings d) (d_versions d) (d_blacklist d) (d_metrics d) (d_events d) (d_audit_logs d) (d_gates d) (d_plugins d) |}.
#[global] Instance routes_table : Table RouteRow :=
  {| rows := d_routes; row_id := rt_id;
     set_rows l d := mkDb (d_upstreams d) (d_nodes d) l (d_bindings d) (d_versions d) (d_blacklist d) (d_metrics d) (d_events d) (d_audit_logs d) (d_gates d) (d_plugins d) |}.
#[global] Instance bindings_table : Table BindingRow :=
  {| rows := d_bindings; row_id := bd_id;
     set_rows l d := mkDb (d_upstreams d) (d_nodes d) (d_routes d) l (d_versions d) (d_blacklist d) (d_metrics d) (d_events d) (d_audit_logs d) (d_gates d) (d_plugins d) |}.
#[global] Instance versions_table : Table VersionRow :=
  {| rows := d_versions; row_id := vr_id;
     set_rows l d := mkDb (d_upstreams d) (d_nodes d) (d_routes d) (d_bindings d) l (d_blacklist d) (d_metrics d) (d_events d) (d_audit_logs d) (d_gates d) (d_plugins d) |}.
#[global] Instance blacklist_table : Table BlacklistRow :=
  {| rows := d_blacklist; row_id := ib_id;
     set_rows l d := mkDb (d_upstreams d) (d_nodes d) (d_routes d) (d_bindings d) (d_versions d) l (d_metrics d) (d_events d) (d_audit_logs d) (d_gates d) (d_plugins d) |}.
#[global] Instance metrics_table : Table MetricAggRow :=
  {| rows := d_metrics; row_id := mt_id;
     set_rows l d := mkDb (d_upstreams d) (d_nodes d) (d_routes d) (d_bindings d) (d_versions d) (d_blacklist d) l (d_events d) (d_audit_logs d) (d_gates d) (d_plugins d) |}.
#[global] Instance events_table : Table GatewayEventRow :=
  {| rows := d_events; row_id := ge_id;
     set_rows l d := mkDb (d_upstreams d) (d_nodes d) (d_routes d) (d_bindings d) (d_versions d) (d_blacklist d) (d_metrics d) l (d_audit_logs d) (d_gates d) (d_plugins d) |}.
#[global] Instance audit_table : Table AuditRow :=
  {| rows := d_audit_logs; row_id := al_id;
     set_rows l d := mkDb (d_upstreams d) (d_nodes d) (d_routes d) (d_bindings d) (d_versions d) (d_blacklist d) (d_metrics d) (d_events d) l (d_gates d) (d_plugins d) |}.
#[global] Instance gates_table : Table NodeAppRow :=
  {| rows := d_gates; row_id := na_id;
     set_rows l d := mkDb (d_upstreams d) (d_nodes d) (d_routes d) (d_bindings d) (d_versions d) (d_blacklist d) (d_metrics d) (d_events d) (d_audit_logs d) l (d_plugins d) |}.
#[global] Instance plugins_table : Table InstalledPluginRow :=
  {| rows := d_plugins; row_id := in_id;
     set_rows l d := mkDb (d_upstreams d) (d_nodes d) (d_routes d) (d_bindings d) (d_versions d) (d_blacklist d) (d_metrics d) (d_events d) (d_audit_logs d) (d_gates d) l |}.

Section Queries.
Context `{DbEnv} {R : Type} `{!Table R}.

(** The effect of each kind of statement on the rows. *)
Definition updated (r : R) (l : list R) : list R := map (λ x, if row_id x =? row_id r then r else x) l.
Definition updated_many (p : R → bool) (f : R → R) (l : list R) : list R := map (λ x, if p x then f x else x) l.

Definition all (e : string → ConrogateError) (p : R → bool) : Q (list R) :=
  stmt e (λ d, (d, Ok (List.filter p (rows d)))).

Definition one (e : string → ConrogateError) (p : R → bool) : Q (option R) :=
  stmt e (λ d, (d, Ok (List.find p (rows d)))).

Definition count (e : string → ConrogateError) (p : R → bool) : Q Z :=
  stmt e (λ d, (d, Ok (Z.of_nat (length (List.filter p (rows d)))))).

(** [ActiveModel::insert]: the row with the id the database gives it. *)
Definition insert (e : string → ConrogateError) (mk : Z → R) : Q R :=
  at_tick (λ n, stmt e (λ d, let r := mk (new_id n (map row_id (rows d))) in (set_rows (rows d ++ [r]) d, Ok r))).

(** [ActiveModel::update]: the row with the same primary key is replaced. *)
Definition update (e : string → ConrogateError) (r : R) : Q R :=
  stmt e (λ d, if bool_decide (row_id r ∈ map row_id (rows d))
               then (set_rows (updated r (rows d)) d, Ok r)
               else (d, Err "None of the records are updated"%string)).

(** [update_many]: the number of rows changed. *)
Definition update_many (e : string → ConrogateError) (p : R → bool) (f : R → R) : Q Z :=
  stmt e (λ d, (set_rows (updated_many p f (rows d)) d, Ok (Z.of_nat (length (List.filter p (rows d)))))).

(** [insert_many] with [on_conflict .. do_nothing]: the rows are inserted in order,
    those whose key is already there are left out. *)
Definition inserted {K} `{!EqDecision K} (tick : nat) (key : R → option K) (l : list R) (mk : Z → R) : list R :=
  let r := mk (new_id tick (map row_id l)) in
  if bool_decide (is_Some (key r) ∧ key r ∈ map key l) then l else l ++ [r].

Definition insert_many {K} `{!EqDecision K} (e : string → ConrogateError) (key : R → option K) (mks : list (Z → R)) : Q unit :=
  at_tick (λ n, stmt e (λ d,
    let l := foldl (inserted n key) (rows d) mks in
    match none_inserted with
    | Some msg => if bool_decide (length l = length (rows d)) then (d, Err msg) else (set_rows l d, Ok tt)
    | None => (set_rows l d, Ok tt)
    end)).

(** [delete_by_id]. *)
Definition delete_rows (e : string → ConrogateError) (p : R → bool) : Q Z :=
  stmt e (λ d, (set_rows (List.filter (λ x, negb (p x)) (rows d)) d, Ok (Z.of_nat (length (List.filter p (rows d)))))).

End Queries.

(** ** What a successful statement did *)

Section Facts.
Context `{DbEnv}.

Lemma qbind_ok {A B} (q : Q A) (k : A → Q B) w w' b :
  qbind q k w = (w', Ok b) → ∃ w1 a, q w = (w1, Ok a) ∧ k a w1 = (w', Ok b).
Proof. unfold qbind. destruct (q w) as [w1 [a|e]]; naive_solver. Qed.

Lemma stmt_ok {A} e (f : Db → Db * result A string) w w' a :
  stmt e f w = (w', Ok a) → f (w_db w) = (w_db w', Ok a) ∧ db_ok mysql (w_db w').
Proof.
  unfold stmt. destruct (fault _); [done|]. destruct (f (w_db w)) as [d [x|msg]]; [|done].
  case_decide; [|done]. intros [= <- <-]. done.
Qed.

Lemma now_ok w w' t : now w = (w', Ok t) → w_db w' = w_db w.
Proof. by intros [= <- <-]. Qed.

Context {R : Type} `{!Table R}.

Lemma all_ok e (p : R → bool) w w' l : all e p w = (w', Ok l) → w_db w' = w_db w ∧ l = List.filter p (rows (w_db w)).
Proof. intros [[= -> ->] _]%stmt_ok. done. Qed.

Lemma one_ok e (p : R → bool) w w' o : one e p w = (w', Ok o) → w_db w' = w_db w ∧ o = List.find p (rows (w_db w)).
Proof. intros [[= -> ->] _]%stmt_ok. done. Qed.

Lemma insert_ok e (mk : Z → R) w w' r :
  insert e mk w = (w', Ok r) →
  r = mk (new_id (w_tick w) (map row_id (rows (w_db w)))) ∧ w_db w' = set_rows (rows (w_db w) ++ [r]) (w_db w) ∧ db_ok mysql (w_db w').
Proof. intros [[= <- <-] Hok]%stmt_ok. done. Qed.

Lemma update_ok e (r r' : R) w w' :
  update e r w = (w', Ok r') →
  r' = r ∧ row_id r ∈ map row_id (rows (w_db w)) ∧ w_db w' = set_rows (updated r (rows (w_db w))) (w_db w) ∧ db_ok mysql (w_db w').
Proof. intros [Hf Hok]%stmt_ok. case_bool_decide; [|done]. by simplify_eq. Qed.

Lemma update_many_ok e (p : R → bool) f w w' n :
  update_many e p f w = (w', Ok n) → w_db w' = set_rows (updated_many p f (rows (w_db w))) (w_db w) ∧ db_ok mysql (w_db w').
Proof. intros [[= <- _] Hok]%stmt_ok. done. Qed.

(** A transaction either succeeds as its body does, or changes nothing. *)
Lemma transaction_spec {A} (q : Q A) w :
  match transaction q w with
  | (w', Ok a) => ∃ w1 w2, w_db w1 = w_db w ∧ q w1 = (w2, Ok a) ∧ w_db w' = w_db w2 ∧ db_ok mysql (w_db w')
  | (w', Err _) => w_db w' = w_db w
  end.
Proof.
  unfold transaction. destruct (stmt _ _ w) as [w0 [u|e]] eqn:E0.
  - apply stmt_ok in E0 as [[= E0 _] _]. destruct (q w0) as [w1 [a|e]] eqn:E1; [|done].
    destruct (stmt _ _ w1) as [w2 [v|e]] eqn:E2; [|done]. apply stmt_ok in E2 as [[= E2 _] Hok]. by exists w0, w1.
  - unfold stmt in E0. destruct (fault _); [|case_decide]; by simplify_eq/=.
Qed.

End Facts.

(** ** What a query leaves alone *)

(** Whatever happens, the part [proj] of the database and of the cache is the same
    afterwards. *)
Definition keeps {X A} (proj : Db → Redis → X) (q : Q A) : Prop :=
  ∀ w, proj (w_db (q w).1) (w_redis (q w).1) = proj (w_db w) (w_redis w).

Section Keeps.
Context `{DbEnv} {X : Type} (proj : Db → Redis → X).

Lemma keeps_ret {A} (a : A) : keeps proj (qret a).
Proof. done. Qed.

Lemma keeps_fail {A} e : keeps proj (A := A) (qfail e).
Proof. done. Qed.

Lemma keeps_now : keeps proj now.
Proof. done. Qed.

Lemma keeps_bind {A B} (q : Q A) (k : A → Q B) : keeps proj q → (∀ a, keeps proj (k a)) → keeps proj (qbind q k).
Proof.
  intros Hq Hk w. unfold qbind. specialize (Hq w). destruct (q w) as [w1 [a|e]]; simpl in *; [|done].
  rewrite (Hk a w1). exact Hq.
Qed.

Lemma keeps_stmt {A} e (f : Db → Db * result A string) : (∀ d r, proj (f d).1 r = proj d r) → keeps proj (stmt e f).
Proof.
  intros Hf w. unfold stmt. destruct (fault _); [done|]. specialize (Hf (w_db w) (w_redis w)).
  destruct (f (w_db w)) as [d [a|msg]]; [|done]. by case_decide.
Qed.

Lemma keeps_at_tick {A} (q : nat → Q A) : (∀ n, keeps proj (q n)) → keeps proj (at_tick q).
Proof. intros Hq w. apply (Hq (w_tick w) w). Qed.

Lemma keeps_redis {A} e1 e2 (f : Redis → Redis * A) : (∀ d r, proj d (f r).1 = proj d r) → keeps proj (redis e1 e2 f).
Proof.
  intros Hf w. unfold redis. destruct (fault _); [done|]. specialize (Hf (w_db w) (w_redis w)).
  destruct (fault _); [by destruct (reply_lost _)|]. simpl. by destruct (f (w_redis w)).
Qed.

Lemma stmt_redis {A} e (f : Db → Db * result A string) w : w_redis (stmt e f w).1 = w_redis w.
Proof. unfold stmt. destruct (fault _); [done|]. destruct (f (w_db w)) as [d [a|msg]]; [|done]. by case_decide. Qed.

Lemma keeps_transaction {A} (q : Q A) : (∀ w, w_redis (q w).1 = w_redis w) → keeps proj q → keeps proj (transaction q).
Proof.
  intros Hr Hq w. unfold transaction.
  pose proof (keeps_stmt db_internal (λ d, (d, Ok tt)) (λ _ _, eq_refl) w) as H0.
  pose proof (stmt_redis db_internal (λ d, (d, Ok tt)) w) as R0. destruct (stmt _ _ w) as [w0 [u|e]]; [|done].
  specialize (Hq w0). specialize (Hr w0). destruct (q w0) as [w1 [a|e]]; simpl in *; [|congruence].
  pose proof (keeps_stmt db_internal (λ d, (d, Ok tt)) (λ _ _, eq_refl) w1) as H1.
  pose proof (stmt_redis db_internal (λ d, (d, Ok tt)) w1) as R1. destruct (stmt _ _ w1) as [w2 [v|e]]; simpl in *; congruence.
Qed.

Lemma keeps_for_each {A S} (l : list A) (s : S) body : (∀ s x, keeps proj (body s x)) → keeps proj (for_each l s body).
Proof. intros Hb. revert s. induction l as [|x l IH]; simpl; intros s; [done|]. by apply keeps_bind. Qed.

Context {R : Type} `{!Table R}.

Lemma keeps_all e (p : R → bool) : keeps proj (all e p).
Proof. by apply keeps_stmt. Qed.

Lemma keeps_one e (p : R → bool) : keeps proj (one e p).
Proof. by apply keeps_stmt. Qed.

Lemma keeps_count e (p : R → bool) : keeps proj (count e p).
Proof. by apply keeps_stmt. Qed.

(** The statements that write this table. *)
Context (other : ∀ l d r, proj (set_rows (R := R) l d) r = proj d r).

Lemma keeps_insert e (mk : Z → R) : keeps proj (insert e mk).
Proof using other. apply keeps_at_tick. intros n. apply keeps_stmt. intros d r'. apply other. Qed.

Lemma keeps_update e (r : R) : keeps proj (update e r).
Proof using other. apply keeps_stmt. intros d r'. case_bool_decide; [apply other|done]. Qed.

Lemma keeps_update_many e (p : R → bool) f : keeps proj (update_many e p f).
Proof using other. apply keeps_stmt. intros d r'. apply other. Qed.

Lemma keeps_delete_rows e (p : R → bool) : keeps proj (delete_rows e p).
Proof using other. apply keeps_stmt. intros d r'. apply other. Qed.

Lemma keeps_insert_many {K} `{!EqDecision K} e (key : R → option K) mks : keeps proj (insert_many e key mks).
Proof using other. apply keeps_at_tick. intros n. apply keeps_stmt. intros d r'. cbv zeta. destruct none_inserted; [case_bool_decide; [done|]|]; apply other. Qed.
End Keeps.

(** ** Constraints and errors *)

(** Whatever happens the constraints hold afterwards, and a failure is one that the
    caller can see from its code. *)
Record sound `{DbEnv} {A} (q : Q A) : Prop := {
  sound_ok : ∀ w, db_ok mysql (w_db w) → db_ok mysql (w_db (q w).1);
  sound_err : ∀ w w' e, q w = (w', Err e) → code e ≠ OK_CODE }.

Section Sound.
Context `{DbEnv}.

Lemma sound_ret {A} (a : A) : sound (qret a).
Proof. by split. Qed.

Lemma sound_now : sound now.
Proof. by split. Qed.

Lemma sound_fail {A} e : code e ≠ OK_CODE → sound (A := A) (qfail e).
Proof. intros He. split; [done|]. by intros w w' e' [= <- <-]. Qed.

Lemma sound_bind {A B} (q : Q A) (k : A → Q B) : sound q → (∀ a, sound (k a)) → sound (qbind q k).
Proof.
  intros Hq Hk. split.
  - intros w Hw. unfold qbind. pose proof (sound_ok _ Hq w Hw) as H1. destruct (q w) as [w1 [a|e]]; [|done].
    by apply (sound_ok _ (Hk a)).
  - intros w w' e. unfold qbind. destruct (q w) as [w1 [a|e1]] eqn:E; [apply (sound_err _ (Hk a))|].
    intros [= <- <-]. by eapply (sound_err _ Hq).
Qed.

Lemma sound_stmt {A} e (f : Db → Db * result A string) : (∀ msg, code (e msg) ≠ OK_CODE) → sound (stmt e f).
Proof.
  intros He. split.
  - intros w Hw. unfold stmt. destruct (fault _); [done|]. destruct (f (w_db w)) as [d [a|msg]]; [|done]. by case_decide.
  - intros w w' e'. unfold stmt. destruct (fault _); [by intros [= <- <-]|]. destruct (f (w_db w)) as [d [a|msg]]; [|by intros [= <- <-]].
    case_decide; by intros [= <- <-].
Qed.

Lemma sound_at_tick {A} (q : nat → Q A) : (∀ n, sound (q n)) → sound (at_tick q).
Proof. intros Hq. split; [intros w; apply (sound_ok _ (Hq (w_tick w)))|intros w w' e; apply (sound_err _ (Hq (w_tick w)))]. Qed.

Lemma sound_transaction {A} (q : Q A) : sound q → sound (transaction q).
Proof.
  intros Hq. assert (sound (stmt db_internal (λ d, (d, Ok tt)))) as Hs by (by apply sound_stmt). split.
  - intros w Hw. unfold transaction. pose proof (sound_ok _ Hs w Hw) as H0. destruct (stmt _ _ w) as [w0 [u|e]]; [|done].
    pose proof (sound_ok _ Hq w0 H0) as H1. destruct (q w0) as [w1 [a|e]]; [|done].
    pose proof (sound_ok _ Hs w1 H1) as H2. by destruct (stmt _ _ w1) as [w2 [v|e]].
  - intros w w' e. unfold transaction. destruct (stmt _ _ w) as [w0 [u|e0]] eqn:E0.
    + destruct (q w0) as [w1 [a|e1]] eqn:E1; [|intros [= <- <-]; by eapply (sound_err _ Hq)].
      destruct (stmt _ _ w1) as [w2 [v|e2]] eqn:E2; [done|intros [= <- <-]; by eapply (sound_err _ Hs)].
    + intros [= <- <-]. by eapply (sound_err _ Hs).
Qed.

Lemma sound_for_each {A S} (l : list A) (s : S) body : (∀ s x, sound (body s x)) → sound (for_each l s body).
Proof. intros Hb. revert s. induction l as [|x l IH]; simpl; intros s; [apply sound_ret|]. by apply sound_bind. Qed.
End Sound.

(** ** Queries that only read *)

(** Without faults the query answers [f] of the tables, and leaves them as they are. *)
Definition reads `{DbEnv} {A} (q : Q A) (f : Db → A) : Prop :=
  ∀ w, db_ok mysql (w_db w) → ∃ w', q w = (w', Ok (f (w_db w))) ∧ w_db w' = w_db w.

Section Reads.
Context `{DbEnv} (no_faults : ∀ n, fault n = None).

Lemma reads_ret {A} (a : A) : reads (qret a) (λ _, a).
Proof. intros w _. by exists w. Qed.

Lemma reads_bind {A B} (q : Q A) (k : A → Q B) f g : reads q f → (∀ a, reads (k a) (g a)) → reads (qbind q k) (λ d, g (f d) d).
Proof.
  intros Hq Hk w Hw. destruct (Hq w Hw) as (w1 & E1 & D1). destruct (Hk (f (w_db w)) w1 ltac:(by rewrite D1)) as (w2 & E2 & D2).
  exists w2. unfold qbind. rewrite E1, E2, D1. split; [done|congruence].
Qed.

Lemma reads_stmt {A} e (f : Db → A) : reads (stmt e (λ d, (d, Ok (f d)))) f.
Proof using no_faults. intros w Hw. unfold stmt. rewrite no_faults, decide_True by done. by eexists. Qed.

Lemma reads_all {R} `{!Table R} e (p : R → bool) : reads (all e p) (λ d, List.filter p (rows d)).
Proof using no_faults. apply reads_stmt. Qed.

Lemma reads_one {R} `{!Table R} e (p : R → bool) : reads (one e p) (λ d, List.find p (rows d)).
Proof using no_faults. apply reads_stmt. Qed.

Lemma reads_count {R} `{!Table R} e (p : R → bool) : reads (count e p) (λ d, Z.of_nat (length (List.filter p (rows d)))).
Proof using no_faults. apply reads_stmt. Qed.

Lemma reads_for_each {A S} (l : list A) (s : S) body g :
  (∀ s x, reads (body s x) (λ d, g d s x)) → reads (for_each l s body) (λ d, foldl (g d) s l).
Proof.
  intros Hb. revert s. induction l as [|x l IH]; simpl; intros s; [apply reads_ret|].
  exact (reads_bind _ _ _ (λ s' d, foldl (g d) s' l) (Hb s x) IH).
Qed.

Lemma reads_ext {A} (q : Q A) f g : reads q f → (∀ d, f d = g d) → reads q g.
Proof. intros Hq E w Hw. rewrite <- E. by apply Hq. Qed.
End Reads.

(** ** Live rows *)

(** The rows of a table that are not deleted, identified by a key. *)
Section Lives.
Context {R K : Type} `{!Table R} (lv : R → bool) (key : R → K).

Definition lives (l : list R) : list R := List.filter lv l.

Lemma elem_of_lives x l : x ∈ lives l ↔ x ∈ l ∧ lv x = true.
Proof. apply filter_elem_of. Qed.

Lemma elem_of_updated r l x : x ∈ updated r l ↔ ∃ y, y ∈ l ∧ x = if row_id y =? row_id r then r else y.
Proof. unfold updated. rewrite list_elem_of_fmap. naive_solver. Qed.

Lemma elem_of_updated_many p f l x : x ∈ updated_many p f l ↔ ∃ y : R, y ∈ l ∧ x = if p y then f y else y.
Proof. unfold updated_many. rewrite list_elem_of_fmap. naive_solver. Qed.

(** Replacing a live row by one with the same id and key. *)
Lemma lives_update r0 r l :
  NoDup (map row_id l) → NoDup (map key (lives l)) → r0 ∈ lives l →
  row_id r = row_id r0 → lv r = true → key r = key r0 →
  ∀ x, x ∈ lives (updated r l) ↔ x = r ∨ (x ∈ lives l ∧ key x ≠ key r).
Proof.
  intros Hid Hkey Hr0 Er Hlr Ek x. pose proof Hr0 as [Hin _]%elem_of_lives. rewrite elem_of_lives, elem_of_updated. split.
  - intros [(y & Hy & ->) Hl]. destruct (Z.eqb_spec (row_id y) (row_id r)) as [E|Hne]; [by left|right].
    split; [by apply elem_of_lives|]. intros E. apply Hne. rewrite Er. f_equal.
    apply (NoDup_map_inj key (lives l)); [done|by apply elem_of_lives|done|congruence].
  - intros [->|[Hx Hne]].
    + split; [|done]. exists r0. split; [done|]. by rewrite Er, Z.eqb_refl.
    + pose proof Hx as [Hx' Hl]%elem_of_lives. split; [|done]. exists x. split; [done|].
      destruct (Z.eqb_spec (row_id x) (row_id r)) as [E|]; [|done]. exfalso. apply Hne. rewrite Ek. f_equal.
      apply (NoDup_map_inj row_id l); [done..|congruence].
Qed.

Lemma lives_insert r l :
  (∀ x, x ∈ lives l → key x ≠ key r) → lv r = true →
  ∀ x, x ∈ lives (l ++ [r]) ↔ x = r ∨ (x ∈ lives l ∧ key x ≠ key r).
Proof.
  intros Hne Hlr x. rewrite !elem_of_lives, elem_of_app, list_elem_of_singleton. split.
  - intros [[Hx| ->] Hl]; [right|by left]. split; [done|]. apply Hne. by apply elem_of_lives.
  - intros [->|[[Hx Hl] _]]; auto.
Qed.

(** Deleting the rows a predicate picks. *)
Lemma lives_delete p f l :
  (∀ x : R, lv (f x) = false) → ∀ x, x ∈ lives (updated_many p f l) ↔ x ∈ lives l ∧ p x = false.
Proof.
  intros Hf x. rewrite !elem_of_lives, elem_of_updated_many. split.
  - intros [(y & Hy & ->) Hl]. destruct (p y) eqn:Ep; [by rewrite Hf in Hl|done].
  - intros [[Hx Hl] Hp]. split; [|done]. exists x. by rewrite Hp.
Qed.

(** The keys of the live rows. *)
Lemma keys_update r0 r l :
  NoDup (map row_id l) → r0 ∈ lives l → row_id r = row_id r0 → lv r = true → key r = key r0 →
  map key (lives (updated r l)) = map key (lives l).
Proof.
  intros Hid [Hr0 Hl0]%elem_of_lives Er Hlr Ek.
  assert (∀ y, y ∈ l → row_id y = row_id r → lv y = true ∧ key y = key r) as Hy.
  { intros y Hy E. rewrite (NoDup_map_inj row_id l y r0) by (done || congruence). done. }
  clear Hid Hr0. unfold lives, updated. induction l as [|y l IH]; simpl; [done|].
  assert (∀ y, y ∈ l → row_id y = row_id r → lv y = true ∧ key y = key r) as Hy' by (intros; apply Hy; [by right|done]).
  specialize (IH Hy'). destruct (Z.eqb_spec (row_id y) (row_id r)) as [E|].
  - destruct (Hy y (ltac:(by left)) E) as [-> Ek']. rewrite Hlr. simpl. by rewrite Ek', IH.
  - destruct (lv y); simpl; by rewrite IH.
Qed.

Lemma keys_insert r l :
  NoDup (map key (lives l)) → (∀ x, x ∈ lives l → key x ≠ key r) → NoDup (map key (lives (l ++ [r]))).
Proof.
  intros Hnd Hne. unfold lives. rewrite List.filter_app. simpl. destruct (lv r); [|by rewrite app_nil_r].
  rewrite map_app. apply NoDup_app. split_and!; [done| |apply NoDup_singleton].
  intros k (x & -> & Hx)%list_elem_of_fmap Hk. apply list_elem_of_singleton in Hk. by apply (Hne x).
Qed.

Lemma keys_delete p f l :
  (∀ x : R, lv (f x) = false) → NoDup (map key (lives l)) → NoDup (map key (lives (updated_many p f l))).
Proof.
  intros Hf. unfold lives, updated_many. induction l as [|y l IH]; simpl; [done|]. destruct (p y).
  - rewrite Hf. destruct (lv y); simpl; [rewrite NoDup_cons; naive_solver|done].
  - destruct (lv y); simpl; [|done]. rewrite !NoDup_cons. intros [Hn Hnd]. split; [|by apply IH].
    intros (x & Ek & Hx)%list_elem_of_fmap. apply Hn. apply list_elem_of_fmap. exists x. split; [done|].
    apply (lives_delete p f l Hf) in Hx as [Hx _]. done.
Qed.

(** What [one] found. *)
Lemma find_live (p : R → bool) l k :
  (∀ x : R, p x = true ↔ key x = k ∧ lv x = true) →
  match List.find p l with
  | Some m => m ∈ lives l ∧ key m = k
  | None => ∀ x, x ∈ lives l → key x ≠ k
  end.
Proof.
  intros Hp. pose proof (find_elem_of p l) as Hf. destruct (List.find p l) as [m|].
  - destruct Hf as [Hm [Ek Hl]%Hp]. by rewrite elem_of_lives.
  - intros x [Hx Hl]%elem_of_lives Ek. assert (p x = true) as E by (by apply Hp). by rewrite Hf in E.
Qed.
End Lives.
End Storage.

Declare Scope query_scope.
Delimit Scope query_scope with query.
Notation "x <-- q ;; k" := (Storage.qbind q (λ x, k)) (at level 98, q at next level, right associativity) : query_scope.
Notation "q ;;- k" := (Storage.qbind q (λ _, k)) (at level 98, right associativity) : query_scope.

(** Walks through a query whose statements write no part of the projection. *)
Create HintDb keeps.
#[export] Hint Resolve Storage.keeps_ret Storage.keeps_fail Storage.keeps_now
  Storage.keeps_all Storage.keeps_one Storage.keeps_count : keeps.

Ltac keeps_step :=
  match goal with
  | |- Storage.keeps _ (Storage.qbind _ _) => apply Storage.keeps_bind; [|intros ?]
  | |- Storage.keeps _ (Storage.transaction ?q) => apply Storage.keeps_transaction; [change (Storage.keeps (λ _ r, r) q)|]
  | |- Storage.keeps _ (Storage.for_each _ _ _) => apply Storage.keeps_for_each; intros ? ?
  | |- Storage.keeps _ (Storage.insert _ _) => apply Storage.keeps_insert; done
  | |- Storage.keeps _ (Storage.update _ _) => apply Storage.keeps_update; done
  | |- Storage.keeps _ (Storage.update_many _ _ _) => apply Storage.keeps_update_many; done
  | |- Storage.keeps _ (Storage.delete_rows _ _) => apply Storage.keeps_delete_rows; done
  | |- Storage.keeps _ (Storage.insert_many _ _ _) => apply Storage.keeps_insert_many; done
  | |- Storage.keeps _ (Storage.redis _ _ _) => apply Storage.keeps_redis; done
  | |- Storage.keeps _ (Storage.stmt _ _) => apply Storage.keeps_stmt; done
  | |- Storage.keeps _ _ => solve [auto with keeps nocore]
  | |- Storage.keeps _ (match ?x with _ => _ end) => destruct x
  end.
Ltac keeps := repeat keeps_step.

(** Walks through a query made of statements. *)
Ltac sound_step :=
  match goal with
  | |- Storage.sound (Storage.qret _) => apply Storage.sound_ret
  | |- Storage.sound (Storage.qfail _) => apply Storage.sound_fail; done
  | |- Storage.sound Storage.now => apply Storage.sound_now
  | |- Storage.sound (Storage.qbind _ _) => apply Storage.sound_bind; [|intros ?]
  | |- Storage.sound (Storage.transaction _) => apply Storage.sound_transaction
  | |- Storage.sound (Storage.for_each _ _ _) => apply Storage.sound_for_each; intros ? ?
  | |- Storage.sound (match ?x with _ => _ end) => destruct x
  | |- Storage.sound (Storage.insert _ _) => apply Storage.sound_at_tick; intros ?; apply Storage.sound_stmt; done
  | |- Storage.sound (Storage.insert_many _ _ _) => apply Storage.sound_at_tick; intros ?; apply Storage.sound_stmt; done
  | |- Storage.sound _ => apply Storage.sound_stmt; done
  end.
Ltac sound := repeat sound_step.
