(* ===== verification/Migrations.v ===== *)
(** The schema of the control plane's database (conrogate-storage/src/migration):
    what each migration creates and drops, what a database that has been migrated
    accepts, and that this is what Storage.v enforces on the tables. *)
From Stdlib Require Import ZArith Lia Ascii String.
From stdpp Require Import base tactics option list gmap strings.
From S2P Require Import Prelude Text Errors Core F64 Storage.
#[local] Open Scope Z_scope.

Module Migrations.
Local Open Scope string_scope.

(** ** Statements *)

Inductive ColumnType := BigInteger | Integer | SmallInteger | VarChar | Boolean | Json | Double | Timestamp.
Inductive ForeignKeyAction := Cascade | SetNull.

Record ColumnDef := mkColumn {
  c_name : string; c_type : ColumnType; c_null : bool; c_primary : bool; c_default : option string }.
Record ForeignKey := mkForeignKey {
  f_name : string; f_column : string; f_table : string; f_target : string; f_on_delete : ForeignKeyAction }.

(** An index; [i_live]: only over the rows whose deleted_at is NULL. *)
Record Index := mkIndex { i_name : string; i_columns : list string; i_unique : bool; i_live : bool }.

Definition nullable (name : string) (ty : ColumnType) : ColumnDef := mkColumn name ty true false None.
Definition not_null (name : string) (ty : ColumnType) : ColumnDef := mkColumn name ty false false None.
Definition default_value (v : string) (c : ColumnDef) : ColumnDef :=
  mkColumn (c_name c) (c_type c) (c_null c) (c_primary c) (Some v).
Definition id_column : ColumnDef := mkColumn "id" BigInteger false true None.
Definition stamp (name : string) : ColumnDef := default_value "CURRENT_TIMESTAMP" (not_null name Timestamp).

Inductive Statement :=
| CreateTable (name : string) (columns : list ColumnDef) (foreign_keys : list ForeignKey)
| CreateIndex (table : string) (ix : Index)
| DropTable (name : string).

Definition create_index (table name : string) (columns : list string) (unique : bool) : Statement :=
  CreateIndex table (mkIndex name columns unique false).
Definition create_unique_live_index (table name : string) (columns : list string) : Statement :=
  CreateIndex table (mkIndex name columns true true).

(** ** The migrations *)

(** [up] may ask which database it runs on. *)
Record Migration := mkMigration { m_name : string; m_up : bool → list Statement; m_down : list Statement }.

Definition upstreams : Migration :=
  mkMigration "m20260101_000001_upstreams" (λ _,
   CreateTable "upstreams"
      [id_column; not_null "name" VarChar; default_value "1" (not_null "algorithm" SmallInteger);
       default_value "true" (not_null "retry_enabled" Boolean); stamp "created_at"; stamp "updated_at";
       nullable "deleted_at" Timestamp]
      [] ::
   [create_index "upstreams" "idx_upstreams_name" ["name"] false])
   [DropTable "upstreams"].

Definition upstream_nodes : Migration :=
  mkMigration "m20260101_000002_upstream_nodes" (λ _,
   CreateTable "upstream_nodes"
      [id_column; not_null "upstream_id" BigInteger; not_null "address" VarChar; default_value "1" (not_null "weight" Integer);
       default_value "true" (not_null "enabled" Boolean); stamp "created_at"; stamp "updated_at";
       nullable "deleted_at" Timestamp]
      [mkForeignKey "fk_nodes_upstream" "upstream_id" "upstreams" "id" Cascade] ::
   [create_index "upstream_nodes" "idx_upstream_nodes_upstream" ["upstream_id"; "enabled"] false])
   [DropTable "upstream_nodes"].

Definition routes : Migration :=
  mkMigration "m20260101_000003_routes" (λ mysql,
   CreateTable "routes"
      [id_column; not_null "name" VarChar; default_value "1" (not_null "protocol" SmallInteger);
       not_null "match_conditions" Json; default_value "10" (not_null "priority" Integer); nullable "upstream_id" BigInteger;
       nullable "host_header" VarChar; default_value "false" (not_null "allow_retry_non_idempotent" Boolean);
       default_value "false" (not_null "ws_strip_sensitive_headers" Boolean);
       default_value "true" (not_null "enabled" Boolean); stamp "created_at"; stamp "updated_at";
       nullable "deleted_at" Timestamp]
      [mkForeignKey "fk_routes_upstream" "upstream_id" "upstreams" "id" SetNull] ::
   [if mysql then create_index "routes" "idx_routes_name" ["name"; "deleted_at"] true
    else create_unique_live_index "routes" "idx_routes_name" ["name"];
    create_index "routes" "idx_routes_protocol_enabled" ["protocol"; "enabled"] false])
   [DropTable "routes"].

Definition route_plugin_bindings : Migration :=
  mkMigration "m20260101_000004_route_plugin_bindings" (λ mysql,
   CreateTable "route_plugin_bindings"
      [id_column; not_null "route_id" BigInteger; not_null "plugin_name" VarChar; not_null "config" Json;
       default_value "1" (not_null "order" Integer); default_value "true" (not_null "blocking" Boolean);
       default_value "true" (not_null "enabled" Boolean); stamp "created_at"; stamp "updated_at";
       nullable "deleted_at" Timestamp]
      [mkForeignKey "fk_bindings_route" "route_id" "routes" "id" Cascade] ::
   [if mysql then create_index "route_plugin_bindings" "uk_route_plugin" ["route_id"; "plugin_name"; "deleted_at"] true
    else create_unique_live_index "route_plugin_bindings" "uk_route_plugin" ["route_id"; "plugin_name"]])
   [DropTable "route_plugin_bindings"].

Definition config_versions : Migration :=
  mkMigration "m20260101_000005_config_versions" (λ _,
   CreateTable "config_versions"
      [id_column; not_null "version" BigInteger; nullable "base_version" BigInteger;
       default_value "0" (not_null "publish_type" SmallInteger); not_null "content_hash" VarChar;
       not_null "snapshot_content" Json; nullable "created_by" VarChar; nullable "remark" VarChar; stamp "created_at"]
      [] ::
   [create_index "config_versions" "idx_config_versions_version" ["version"] true])
   [DropTable "config_versions"].

Definition metric_aggregates : Migration :=
  mkMigration "m20260101_000006_metric_aggregates" (λ _,
   CreateTable "metric_aggregates"
      [id_column; not_null "ts" Timestamp; default_value "10" (not_null "bucket_sec" Integer); nullable "route_id" BigInteger;
       nullable "gate_id" VarChar; default_value "0" (not_null "qps" Integer);
       default_value "0" (not_null "total_requests" BigInteger); default_value "0.0" (not_null "avg_latency_ms" Double);
       default_value "0" (not_null "p50_ms" Integer); default_value "0" (not_null "p90_ms" Integer);
       default_value "0" (not_null "p99_ms" Integer); default_value "0" (not_null "status2xx" BigInteger);
       default_value "0" (not_null "status3xx" BigInteger); default_value "0" (not_null "status4xx" BigInteger);
       default_value "0" (not_null "status5xx" BigInteger); default_value "0" (not_null "sessions" BigInteger);
       default_value "0" (not_null "bytes_in" BigInteger); default_value "0" (not_null "bytes_out" BigInteger);
       stamp "created_at"]
      [] ::
   [create_index "metric_aggregates" "uk_metric_aggregate" ["ts"; "bucket_sec"; "route_id"; "gate_id"] true;
    create_index "metric_aggregates" "idx_metric_ts" ["ts"] false])
   [DropTable "metric_aggregates"].

Definition gateway_events : Migration :=
  mkMigration "m20260101_000007_gateway_events" (λ _,
   CreateTable "gateway_events"
      [id_column; not_null "ts" Timestamp; not_null "event_type" VarChar; nullable "route_id" BigInteger;
       nullable "upstream_id" BigInteger; nullable "trace_id" VarChar; nullable "detail" Json; stamp "created_at"]
      [] ::
   [create_index "gateway_events" "idx_events_type_ts" ["event_type"; "ts"] false;
    create_index "gateway_events" "uk_event_dedup" ["trace_id"; "ts"; "event_type"] true])
   [DropTable "gateway_events"].

Definition audit_logs : Migration :=
  mkMigration "m20260101_000008_audit_logs" (λ _,
   CreateTable "audit_logs"
      [id_column; not_null "ts" Timestamp; nullable "operator" VarChar; not_null "action" VarChar; not_null "resource" VarChar;
       nullable "resource_id" BigInteger; nullable "detail" Json; nullable "trace_id" VarChar; stamp "created_at"]
      [] ::
   [create_index "audit_logs" "idx_audit_ts" ["ts"] false])
   [DropTable "audit_logs"].

Definition node_applications : Migration :=
  mkMigration "m20260101_000009_node_applications" (λ _,
   CreateTable "node_applications"
      [id_column; not_null "gate_id" VarChar; default_value "0" (not_null "version" BigInteger); stamp "applied_at";
       stamp "last_seen"; stamp "updated_at"]
      [] ::
   [create_index "node_applications" "idx_node_apps_gate_id" ["gate_id"] true])
   [DropTable "node_applications"].

Definition installed_plugins : Migration :=
  mkMigration "m20260101_000010_installed_plugins" (λ _,
   CreateTable "installed_plugins"
      [id_column; not_null "name" VarChar; not_null "version" VarChar; default_value "1" (not_null "api_version" Integer);
       default_value "0" (not_null "kind" SmallInteger); default_value "0" (not_null "status" SmallInteger);
       nullable "package_hash" VarChar; not_null "manifest" Json; stamp "installed_at"; nullable "activated_at" Timestamp;
       nullable "deleted_at" Timestamp]
      [] ::
   [create_index "installed_plugins" "idx_plugins_name" ["name"] false])
   [DropTable "installed_plugins"].

Definition ip_blacklist : Migration :=
  mkMigration "m20260101_000011_ip_blacklist" (λ _,
   CreateTable "ip_blacklist"
      [id_column; not_null "ip_or_cidr" VarChar; nullable "reason" VarChar; nullable "expires_at" Timestamp;
       nullable "created_by" VarChar; stamp "created_at"]
      [] ::
   [create_index "ip_blacklist" "uk_ip_blacklist_ip" ["ip_or_cidr"] true;
    create_index "ip_blacklist" "idx_ip_blacklist_expires" ["expires_at"] false])
   [DropTable "ip_blacklist"].

(** [ConrogateMigrator::migrations]. *)
Definition migrations : list Migration :=
  [upstreams; upstream_nodes; routes; route_plugin_bindings; config_versions; metric_aggregates; gateway_events; audit_logs; node_applications; installed_plugins; ip_blacklist].

(** ** What the statements do *)

Local Close Scope string_scope.

Record Table := mkTable { t_columns : list ColumnDef; t_foreign_keys : list ForeignKey; t_indexes : list Index }.

(** The tables, the newest last. *)
Abbreviation schema := (list (string * Table)).

Definition table_of (s : schema) (name : string) : option Table := snd <$> List.find (λ t, (t.1 =? name)%string) s.
Definition has_column (t : Table) (c : string) : bool := existsb (λ x, (c_name x =? c)%string) (t_columns t).
Definition refers_to (name : string) (t : string * Table) : bool :=
  negb (t.1 =? name)%string && existsb (λ f, (f_table f =? name)%string) (t_foreign_keys t.2).

(** A table is created once, and its foreign keys refer to columns that exist; an
    index is over columns of its table and its name is new; a table that another
    one refers to is not dropped. *)
Definition exec (s : schema) (st : Statement) : option schema :=
  match st with
  | CreateTable name columns fks =>
      let t := mkTable columns fks [] in
      if bool_decide (table_of s name = None) &&
         forallb (λ f, has_column t (f_column f) &&
                       match table_of (s ++ [(name, t)]) (f_table f) with Some u => has_column u (f_target f) | None => false end) fks
      then Some (s ++ [(name, t)]) else None
  | CreateIndex table ix =>
      match table_of s table with
      | Some t =>
          if forallb (has_column t) (i_columns ix) && implb (i_live ix) (has_column t "deleted_at"%string) &&
             forallb (λ u, forallb (λ j, negb (i_name j =? i_name ix)%string) (t_indexes u.2)) s
          then Some (map (λ u, if (u.1 =? table)%string
                               then (u.1, mkTable (t_columns u.2) (t_foreign_keys u.2) (t_indexes u.2 ++ [ix])) else u) s)
          else None
      | None => None
      end
  | DropTable name =>
      match table_of s name with
      | Some _ => if existsb (refers_to name) s then None else Some (List.filter (λ u, negb (u.1 =? name)%string) s)
      | None => None
      end
  end.

Fixpoint run (s : schema) (sts : list Statement) : option schema :=
  match sts with [] => Some s | st :: rest => exec s st ≫= λ s', run s' rest end.

(** [ConrogateMigrator::up]: every migration, in order. *)
Definition migrate (mysql : bool) (ms : list Migration) (s : schema) : option schema :=
  run s (concat (map (λ m, m_up m mysql) ms)).

(** Every migration succeeds after the ones before it, and its [down] undoes it. *)
Lemma migrations_reversible mysql n m :
  migrations !! n = Some m →
  ∃ s s', migrate mysql (take n migrations) [] = Some s ∧ run s (m_up m mysql) = Some s' ∧ run s' (m_down m) = Some s.
Proof.
  intros Hm. assert (n < 11)%nat as Hn by (by apply lookup_lt_Some in Hm).
  do 11 (destruct n as [|n]; [injection Hm as <-; destruct mysql; do 2 eexists; (split; [vm_compute; reflexivity|split; vm_compute; reflexivity])|]).
  lia.
Qed.

(** ** Rows as the database sees them *)

Inductive Sql := SNull | SInt (z : Z) | SStr (s : string) | SBool (b : bool) | SDouble (x : F64.f64) | SJson (v : Value) | STime (t : Z).
Abbreviation sql_row := (list (string * Sql)).

Definition or_null {A} (f : A → Sql) (o : option A) : Sql := match o with Some a => f a | None => SNull end.
Definition is_sql_null (v : Sql) : bool := match v with SNull => true | _ => false end.
Definition field (r : sql_row) (c : string) : Sql := default SNull (snd <$> List.find (λ x, (x.1 =? c)%string) r).

Section Rows.
Import Storage.
Local Open Scope string_scope.

Definition upstream_row (u : UpstreamRow) : sql_row :=
  [("id", SInt (up_id u)); ("name", SStr (up_name u)); ("algorithm", SInt (up_algorithm u)); ("retry_enabled", SBool (up_retry_enabled u));
   ("created_at", STime (up_created_at u)); ("updated_at", STime (up_updated_at u)); ("deleted_at", or_null STime (up_deleted_at u))].

Definition node_row (n : NodeRow) : sql_row :=
  [("id", SInt (nd_id n)); ("upstream_id", SInt (nd_upstream_id n)); ("address", SStr (nd_address n)); ("weight", SInt (nd_weight n));
   ("enabled", SBool (nd_enabled n)); ("created_at", STime (nd_created_at n)); ("updated_at", STime (nd_updated_at n));
   ("deleted_at", or_null STime (nd_deleted_at n))].

Definition route_row (r : RouteRow) : sql_row :=
  [("id", SInt (rt_id r)); ("name", SStr (rt_name r)); ("protocol", SInt (rt_protocol r)); ("match_conditions", SJson (rt_match_conditions r));
   ("priority", SInt (rt_priority r)); ("upstream_id", or_null SInt (rt_upstream_id r)); ("host_header", or_null SStr (rt_host_header r));
   ("allow_retry_non_idempotent", SBool (rt_allow_retry_non_idempotent r));
   ("ws_strip_sensitive_headers", SBool (rt_ws_strip_sensitive_headers r)); ("enabled", SBool (rt_enabled r));
   ("created_at", STime (rt_created_at r)); ("updated_at", STime (rt_updated_at r)); ("deleted_at", or_null STime (rt_deleted_at r))].

Definition binding_row (b : BindingRow) : sql_row :=
  [("id", SInt (bd_id b)); ("route_id", SInt (bd_route_id b)); ("plugin_name", SStr (bd_plugin_name b)); ("config", SJson (bd_config b));
   ("order", SInt (bd_order b)); ("blocking", SBool (bd_blocking b)); ("enabled", SBool (bd_enabled b));
   ("created_at", STime (bd_created_at b)); ("updated_at", STime (bd_updated_at b)); ("deleted_at", or_null STime (bd_deleted_at b))].

Definition version_row (v : VersionRow) : sql_row :=
  [("id", SInt (vr_id v)); ("version", SInt (vr_version v)); ("base_version", SInt (vr_base_version v));
   ("publish_type", SInt (vr_publish_type v)); ("content_hash", SStr (vr_content_hash v)); ("snapshot_content", SJson (vr_snapshot_content v));
   ("created_by", or_null SStr (vr_created_by v)); ("remark", or_null SStr (vr_remark v)); ("created_at", STime (vr_created_at v))].

Definition blacklist_row (b : BlacklistRow) : sql_row :=
  [("id", SInt (ib_id b)); ("ip_or_cidr", SStr (ib_ip_or_cidr b)); ("reason", or_null SStr (ib_reason b));
   ("expires_at", or_null STime (ib_expires_at b)); ("created_by", or_null SStr (ib_created_by b)); ("created_at", STime (ib_created_at b))].

Definition metric_row (m : MetricAggRow) : sql_row :=
  [("id", SInt (mt_id m)); ("ts", STime (mt_ts m)); ("bucket_sec", SInt (mt_bucket_sec m)); ("route_id", or_null SInt (mt_route_id m));
   ("gate_id", SStr (mt_gate_id m)); ("qps", SInt (mt_qps m)); ("total_requests", SInt (mt_total_requests m));
   ("avg_latency_ms", SDouble (mt_avg_latency_ms m)); ("p50_ms", SInt (mt_p50_ms m)); ("p90_ms", SInt (mt_p90_ms m));
   ("p99_ms", SInt (mt_p99_ms m)); ("status2xx", SInt (mt_status_2xx m)); ("status3xx", SInt (mt_status_3xx m));
   ("status4xx", SInt (mt_status_4xx m)); ("status5xx", SInt (mt_status_5xx m)); ("sessions", SInt (mt_sessions m));
   ("bytes_in", SInt (mt_bytes_in m)); ("bytes_out", SInt (mt_bytes_out m)); ("created_at", STime (mt_created_at m))].

Definition event_row (e : GatewayEventRow) : sql_row :=
  [("id", SInt (ge_id e)); ("ts", STime (ge_ts e)); ("event_type", SStr (ge_event_type e)); ("route_id", or_null SInt (ge_route_id e));
   ("upstream_id", or_null SInt (ge_upstream_id e)); ("trace_id", or_null SStr (ge_trace_id e)); ("detail", or_null SJson (ge_detail e));
   ("created_at", STime (ge_created_at e))].

Definition audit_row (a : AuditRow) : sql_row :=
  [("id", SInt (al_id a)); ("ts", STime (al_ts a)); ("operator", or_null SStr (al_operator a)); ("action", SStr (al_action a));
   ("resource", SStr (al_resource a)); ("resource_id", or_null SInt (al_resource_id a)); ("detail", or_null SJson (al_detail a));
   ("trace_id", or_null SStr (al_trace_id a)); ("created_at", STime (al_created_at a))].

Definition gate_row (n : NodeAppRow) : sql_row :=
  [("id", SInt (na_id n)); ("gate_id", SStr (na_gate_id n)); ("version", SInt (na_version n)); ("applied_at", STime (na_applied_at n));
   ("last_seen", STime (na_last_seen n)); ("updated_at", STime (na_updated_at n))].

Definition plugin_row (p : InstalledPluginRow) : sql_row :=
  [("id", SInt (in_id p)); ("name", SStr (in_name p)); ("version", SStr (in_version p)); ("api_version", SInt (in_api_version p));
   ("kind", SInt (in_kind p)); ("status", SInt (in_status p)); ("package_hash", or_null SStr (in_package_hash p));
   ("manifest", SJson (in_manifest p)); ("installed_at", STime (in_installed_at p)); ("activated_at", or_null STime (in_activated_at p));
   ("deleted_at", or_null STime (in_deleted_at p))].

Definition stored (d : Db) (name : string) : list sql_row :=
  match name with
  | "upstreams" => map upstream_row (d_upstreams d)
  | "upstream_nodes" => map node_row (d_nodes d)
  | "routes" => map route_row (d_routes d)
  | "route_plugin_bindings" => map binding_row (d_bindings d)
  | "config_versions" => map version_row (d_versions d)
  | "ip_blacklist" => map blacklist_row (d_blacklist d)
  | "metric_aggregates" => map metric_row (d_metrics d)
  | "gateway_events" => map event_row (d_events d)
  | "audit_logs" => map audit_row (d_audit_logs d)
  | "node_applications" => map gate_row (d_gates d)
  | "installed_plugins" => map plugin_row (d_plugins d)
  | _ => []
  end.
End Rows.

(** ** What a migrated database accepts *)

(** The key of a row in an index: none for a row the index leaves out or that is NULL
    in one of its columns. *)
Definition index_key (ix : Index) (r : sql_row) : option (list Sql) :=
  let ks := map (field r) (i_columns ix) in
  if (i_live ix && negb (is_sql_null (field r "deleted_at"))) || existsb is_sql_null ks then None else Some ks.

Definition primary_index (t : Table) : Index := mkIndex "PRIMARY" (map c_name (List.filter c_primary (t_columns t))) true false.

Definition unique_indexes (t : Table) : list Index := primary_index t :: List.filter i_unique (t_indexes t).

Definition unique_ok (rs : list sql_row) (ix : Index) : Prop := NoDup (omap (index_key ix) rs).

Definition foreign_ok (data : string → list sql_row) (rs : list sql_row) (f : ForeignKey) : Prop :=
  Forall (λ r, field r (f_column f) = SNull ∨ field r (f_column f) ∈ map (λ r', field r' (f_target f)) (data (f_table f))) rs.

Definition table_ok (data : string → list sql_row) (t : string * Table) : Prop :=
  Forall (unique_ok (data t.1)) (unique_indexes t.2) ∧
  Forall (foreign_ok data (data t.1)) (t_foreign_keys t.2).

Definition schema_ok (s : schema) (data : string → list sql_row) : Prop := Forall (table_ok data) s.

(** A value fits a column. *)
Definition fits (c : ColumnDef) (v : Sql) : bool :=
  match v, c_type c with
  | SNull, _ => c_null c
  | SInt _, (BigInteger | Integer | SmallInteger) | SStr _, VarChar | SBool _, Boolean | SDouble _, Double | SJson _, Json
  | STime _, Timestamp => true
  | _, _ => false
  end.

Fixpoint row_fits (columns : list ColumnDef) (r : sql_row) : bool :=
  match columns, r with
  | [], [] => true
  | c :: columns, (name, v) :: r => (name =? c_name c)%string && fits c v && row_fits columns r
  | _, _ => false
  end.

(** ** The tables of Storage.v are such a database *)

Lemma omap_keys {R K S} (enc : R → S) (key : R → option K) (gkey : S → option (list Sql)) (g : K → list Sql) l :
  (∀ r, gkey (enc r) = g <$> key r) → omap gkey (map enc l) = map g (omap key l).
Proof.
  intros E. induction l as [|r l IH]; [done|]. csimpl. rewrite E. destruct (key r); csimpl; by rewrite IH.
Qed.

(** A unique index over encoded rows is one over the keys themselves. *)
Lemma unique_keys {R K S} (enc : R → S) (key : R → option K) (gkey : S → option (list Sql)) (g : K → list Sql) l :
  Inj eq eq g → (∀ r, gkey (enc r) = g <$> key r) → NoDup (omap gkey (map enc l)) ↔ NoDup (omap key l).
Proof. intros Hg E. rewrite (omap_keys enc key gkey g) by done. apply NoDup_fmap, Hg. Qed.

Lemma omap_some {R K} (f : R → K) l : omap (λ r, Some (f r)) l = map f l.
Proof. induction l as [|r l IH]; [done|]. csimpl. by rewrite IH. Qed.

Lemma unique_column {R K S} (enc : R → S) (f : R → K) (gkey : S → option (list Sql)) (g : K → list Sql) l :
  Inj eq eq g → (∀ r, gkey (enc r) = Some (g (f r))) → NoDup (omap gkey (map enc l)) ↔ NoDup (map f l).
Proof. intros Hg E. rewrite <- (omap_some f). by apply (unique_keys enc _ gkey g). Qed.

#[local] Instance int_key_inj : Inj eq eq (λ z, [SInt z]).
Proof. by intros ?? [=]. Qed.
#[local] Instance str_key_inj : Inj eq eq (λ s, [SStr s]).
Proof. by intros ?? [=]. Qed.

Lemma foreign_key_iff {R T} (enc : R → sql_row) (enc' : T → sql_row) (col : R → option Z) (id : T → Z) c c' l l' :
  (∀ r, field (enc r) c = or_null SInt (col r)) → (∀ t, field (enc' t) c' = SInt (id t)) →
  Forall (λ r, field r c = SNull ∨ field r c ∈ map (λ r', field r' c') (map enc' l')) (map enc l) ↔
  Forall (λ r, Forall (λ u, u ∈ map id l') (Storage.option_list (col r))) l.
Proof.
  intros E E'. rewrite map_map, (map_ext _ (λ t, SInt (id t)) E'), Forall_map. apply Forall_iff. intros r. simpl. rewrite E.
  assert (∀ z, SInt z ∈ map (λ t, SInt (id t)) l' ↔ z ∈ map id l') as Hin.
  { intros z. rewrite <- (map_map id SInt). split; [intros (? & [=<-] & ?)%list_elem_of_fmap; done|apply list_elem_of_fmap_2]. }
  destruct (col r) as [z|]; simpl; rewrite ?Forall_singleton; [rewrite Hin; naive_solver|].
  split; [constructor|by left].
Qed.

(** The composite keys, as the indexes store them. *)
Definition route_index_key (k : string * option Z) : list Sql := SStr k.1 :: map STime (Storage.option_list k.2).
Definition binding_index_key (k : Z * string * option Z) : list Sql := SInt k.1.1 :: SStr k.1.2 :: map STime (Storage.option_list k.2).
Definition metric_index_key (k : Z * Z * Z * string) : list Sql := [STime k.1.1.1; SInt k.1.1.2; SInt k.1.2; SStr k.2].
Definition event_index_key (k : string * Z * string) : list Sql := [SStr k.1.1; STime k.1.2; SStr k.2].

#[local] Instance route_index_key_inj : Inj eq eq route_index_key.
Proof. by intros [n [t|]] [n' [t'|]] [=]; subst. Qed.
#[local] Instance binding_index_key_inj : Inj eq eq binding_index_key.
Proof. by intros [[r p] [t|]] [[r' p'] [t'|]] [=]; subst. Qed.
#[local] Instance metric_index_key_inj : Inj eq eq metric_index_key.
Proof. by intros [[[a b] c] e] [[[a' b'] c'] e'] [=]; simpl in *; subst. Qed.
#[local] Instance event_index_key_inj : Inj eq eq event_index_key.
Proof. by intros [[a b] c] [[a' b'] c'] [=]; simpl in *; subst. Qed.

Lemma route_index_iff (mysql : bool) l :
  NoDup (omap (index_key (mkIndex "idx_routes_name" (if mysql then ["name"; "deleted_at"]%string else ["name"%string]) true (negb mysql)))
    (map route_row l)) ↔ NoDup (omap (Storage.route_key mysql) l).
Proof.
  apply (unique_keys _ _ _ route_index_key); [apply _|]. intros [????????????[t|]]; by destruct mysql.
Qed.

Lemma binding_index_iff (mysql : bool) l :
  NoDup (omap (index_key (mkIndex "uk_route_plugin"
      (if mysql then ["route_id"; "plugin_name"; "deleted_at"]%string else ["route_id"; "plugin_name"]%string) true (negb mysql)))
    (map binding_row l)) ↔ NoDup (omap (Storage.binding_key mysql) l).
Proof.
  apply (unique_keys _ _ _ binding_index_key); [apply _|]. intros [?????????[t|]]; by destruct mysql.
Qed.

Lemma metric_index_iff name l :
  NoDup (omap (index_key (mkIndex name ["ts"; "bucket_sec"; "route_id"; "gate_id"]%string true false)) (map metric_row l)) ↔
  NoDup (omap Storage.metric_key l).
Proof.
  apply (unique_keys _ _ _ metric_index_key); [apply _|]. by intros [???[r|]].
Qed.

Lemma event_index_iff name l :
  NoDup (omap (index_key (mkIndex name ["trace_id"; "ts"; "event_type"]%string true false)) (map event_row l)) ↔
  NoDup (omap Storage.event_key l).
Proof.
  apply (unique_keys _ _ _ event_index_key); [apply _|]. by intros [?????[t|]].
Qed.

(** The ids of upstreams and routes are 64-bit numbers. *)
Definition ids_fit (d : Storage.Db) : Prop :=
  Forall (λ u, - 2 ^ 63 <= Storage.up_id u < 2 ^ 63) (Storage.d_upstreams d) ∧
  Forall (λ r, - 2 ^ 63 <= Storage.rt_id r < 2 ^ 63) (Storage.d_routes d).

(** An index on one column. *)
Lemma int_index_iff {R} (enc : R → sql_row) (f : R → Z) name c l :
  (∀ r, field (enc r) c = SInt (f r)) → NoDup (omap (index_key (mkIndex name [c] true false)) (map enc l)) ↔ NoDup (map f l).
Proof.
  intros E. apply (unique_column _ _ _ (λ z, [SInt z])); [apply _|]. intros r. unfold index_key. simpl. by rewrite E.
Qed.

Lemma str_index_iff {R} (enc : R → sql_row) (f : R → string) name c l :
  (∀ r, field (enc r) c = SStr (f r)) → NoDup (omap (index_key (mkIndex name [c] true false)) (map enc l)) ↔ NoDup (map f l).
Proof.
  intros E. apply (unique_column _ _ _ (λ s, [SStr s])); [apply _|]. intros r. unfold index_key. simpl. by rewrite E.
Qed.

(** What constrains the rows of a table. *)
Definition constraints (t : string * Table) : string * list Index * list ForeignKey := (t.1, unique_indexes t.2, t_foreign_keys t.2).

(** A conjunction over a list. *)
Definition all_of {A} (P : A → Prop) (l : list A) : Prop := foldr (λ x Q, P x ∧ Q) True l.

Lemma all_of_Forall {A} (P : A → Prop) l : Forall P l ↔ all_of P l.
Proof. induction l as [|x l IH]; simpl; [by rewrite Forall_nil|by rewrite Forall_cons, IH]. Qed.

Definition constraints_hold (data : string → list sql_row) (c : string * list Index * list ForeignKey) : Prop :=
  all_of (unique_ok (data c.1.1)) c.1.2 ∧ all_of (foreign_ok data (data c.1.1)) c.2.

Lemma schema_ok_iff s data : schema_ok s data ↔ all_of (constraints_hold data) (map constraints s).
Proof.
  rewrite <- all_of_Forall, Forall_map. apply Forall_iff. intros t. unfold table_ok, constraints_hold. by rewrite !all_of_Forall.
Qed.

(** The constraints after all migrations. *)
Definition by_id : Index := mkIndex "PRIMARY" ["id"%string] true false.

Definition migrated_constraints (mysql : bool) : list (string * list Index * list ForeignKey) :=
  [("upstreams", [by_id], []);
   ("upstream_nodes", [by_id], [mkForeignKey "fk_nodes_upstream" "upstream_id" "upstreams" "id" Cascade]);
   ("routes", [by_id; mkIndex "idx_routes_name" (if mysql then ["name"; "deleted_at"] else ["name"]) true (negb mysql)],
      [mkForeignKey "fk_routes_upstream" "upstream_id" "upstreams" "id" SetNull]);
   ("route_plugin_bindings",
      [by_id; mkIndex "uk_route_plugin" (if mysql then ["route_id"; "plugin_name"; "deleted_at"] else ["route_id"; "plugin_name"]) true (negb mysql)],
      [mkForeignKey "fk_bindings_route" "route_id" "routes" "id" Cascade]);
   ("config_versions", [by_id; mkIndex "idx_config_versions_version" ["version"] true false], []);
   ("metric_aggregates", [by_id; mkIndex "uk_metric_aggregate" ["ts"; "bucket_sec"; "route_id"; "gate_id"] true false], []);
   ("gateway_events", [by_id; mkIndex "uk_event_dedup" ["trace_id"; "ts"; "event_type"] true false], []);
   ("audit_logs", [by_id], []);
   ("node_applications", [by_id; mkIndex "idx_node_apps_gate_id" ["gate_id"] true false], []);
   ("installed_plugins", [by_id], []);
   ("ip_blacklist", [by_id; mkIndex "uk_ip_blacklist_ip" ["ip_or_cidr"] true false], [])]%string.

Lemma migrated mysql : ∃ s, migrate mysql migrations [] = Some s ∧ map constraints s = migrated_constraints mysql.
Proof. destruct mysql; (eexists; split; vm_compute; reflexivity). Qed.

Lemma nodes_foreign_iff d : foreign_ok (stored d) (map node_row (Storage.d_nodes d))
    (mkForeignKey "fk_nodes_upstream" "upstream_id" "upstreams" "id" Cascade) ↔
  Forall (λ n, Storage.nd_upstream_id n ∈ map Storage.up_id (Storage.d_upstreams d)) (Storage.d_nodes d).
Proof.
  etransitivity; [exact (foreign_key_iff node_row upstream_row (λ n, Some (Storage.nd_upstream_id n)) Storage.up_id "upstream_id" "id" _ _ (λ _, eq_refl) (λ _, eq_refl))|].
  apply Forall_iff. intros n. simpl. by rewrite Forall_singleton.
Qed.

Lemma routes_foreign_iff d : foreign_ok (stored d) (map route_row (Storage.d_routes d))
    (mkForeignKey "fk_routes_upstream" "upstream_id" "upstreams" "id" SetNull) ↔
  Forall (λ r, Forall (λ u, u ∈ map Storage.up_id (Storage.d_upstreams d)) (Storage.option_list (Storage.rt_upstream_id r))) (Storage.d_routes d).
Proof. exact (foreign_key_iff route_row upstream_row Storage.rt_upstream_id Storage.up_id "upstream_id" "id" _ _ (λ _, eq_refl) (λ _, eq_refl)). Qed.

Lemma bindings_foreign_iff d : foreign_ok (stored d) (map binding_row (Storage.d_bindings d))
    (mkForeignKey "fk_bindings_route" "route_id" "routes" "id" Cascade) ↔
  Forall (λ b, Storage.bd_route_id b ∈ map Storage.rt_id (Storage.d_routes d)) (Storage.d_bindings d).
Proof.
  etransitivity; [exact (foreign_key_iff binding_row route_row (λ b, Some (Storage.bd_route_id b)) Storage.rt_id "route_id" "id" _ _ (λ _, eq_refl) (λ _, eq_refl))|].
  apply Forall_iff. intros b. simpl. by rewrite Forall_singleton.
Qed.

Lemma by_id_iff {R} (enc : R → sql_row) (f : R → Z) l :
  (∀ r, field (enc r) "id" = SInt (f r)) → unique_ok (map enc l) by_id ↔ NoDup (map f l).
Proof. apply int_index_iff. Qed.

(** ** The rows fit their tables *)

(** The table a migration creates. *)
Definition created (mysql : bool) (m : Migration) : string * list ColumnDef :=
  match m_up m mysql with CreateTable name columns _ :: _ => (name, columns) | _ => (EmptyString, []) end.

Lemma migrated_columns mysql s : migrate mysql migrations [] = Some s →
  map (λ t, (t.1, t_columns t.2)) s = map (created mysql) migrations.
Proof.
  intros Hs. assert ((λ s, map (λ t, (t.1, t_columns t.2)) s) <$> migrate mysql migrations [] = Some (map (created mysql) migrations)) as H
    by (destruct mysql; vm_compute; reflexivity).
  rewrite Hs in H. by injection H.
Qed.

(** Goes through the fields of any row. *)
Ltac fits_all :=
  apply Forall_map, Forall_true; let r := fresh in intros r; destruct r; simpl;
  repeat match goal with o : option _ |- _ => destruct o end; reflexivity.

Lemma rows_fit mysql d s :
  migrate mysql migrations [] = Some s → Forall (λ t, Forall (λ r, row_fits (t_columns t.2) r = true) (stored d t.1)) s.
Proof.
  intros Hs%migrated_columns.
  assert (Forall (λ c, Forall (λ r, row_fits c.2 r = true) (stored d c.1)) (map (created mysql) migrations)) as H.
  { unfold migrations. cbn [map]. repeat constructor; cbn [fst snd created m_up stored]; fits_all. }
  rewrite <- Hs in H. by rewrite Forall_map in H.
Qed.

(** C16. The schema and the model of the tables agree: on every backend all
    migrations succeed, in order, on an empty database; every row of every entity
    then fits its table (the columns in their order, of their types, NULL only
    where it is allowed); and the database accepts a state of the tables (primary
    keys, unique indexes with their NULLs and partial indexes, foreign keys) exactly
    when it satisfies the constraints [db_ok] that every statement of Storage.v is
    checked against, ids in the range of their columns. (Texts are compared byte by
    byte, not by a collation, and times as they are stored: what a column keeps of a
    time is [column_time] of Storage.v.) *)
Theorem constraints_enforced mysql d :
  ∃ s, migrate mysql migrations [] = Some s ∧
    Forall (λ t, Forall (λ r, row_fits (t_columns t.2) r = true) (stored d t.1)) s ∧
    (Storage.db_ok mysql d ↔ schema_ok s (stored d) ∧ ids_fit d).
Proof.
  destruct (migrated mysql) as (s & Hs & Hc). exists s. split; [done|]. split; [by apply (rows_fit mysql)|]. rewrite schema_ok_iff, Hc. unfold migrated_constraints, constraints_hold.
  cbn [all_of foldr fst snd stored].
  rewrite (by_id_iff upstream_row Storage.up_id), (by_id_iff node_row Storage.nd_id), (by_id_iff route_row Storage.rt_id),
    (by_id_iff binding_row Storage.bd_id), (by_id_iff version_row Storage.vr_id), (by_id_iff metric_row Storage.mt_id),
    (by_id_iff event_row Storage.ge_id), (by_id_iff audit_row Storage.al_id), (by_id_iff gate_row Storage.na_id),
    (by_id_iff plugin_row Storage.in_id), (by_id_iff blacklist_row Storage.ib_id) by done.
  rewrite nodes_foreign_iff, routes_foreign_iff, bindings_foreign_iff. unfold unique_ok.
  rewrite route_index_iff, binding_index_iff, metric_index_iff, event_index_iff.
  rewrite (int_index_iff version_row Storage.vr_version), (str_index_iff gate_row Storage.na_gate_id),
    (str_index_iff blacklist_row Storage.ib_ip_or_cidr) by done.
  unfold ids_fit. split; [intros []; by split_and!|intros; destruct_and!; by split].
Qed.

(** A column that may be NULL but whose field in the entity is not optional: such a row
    fits the table, and no value of the entity is stored as it. *)
Lemma null_not_readable :
  let r := [("id", SInt 1); ("version", SInt 2); ("base_version", SNull); ("publish_type", SInt 0); ("content_hash", SStr "h");
            ("snapshot_content", SJson VNull); ("created_by", SNull); ("remark", SNull); ("created_at", STime 0)]%string in
  row_fits (created false config_versions).2 r = true ∧ ∀ v, version_row v ≠ r.
Proof. split; [reflexivity|]. by intros v [=]. Qed.
End Migrations.
