(* ===== verification/Repositories.v ===== *)
(** The repositories of the control plane (conrogate-storage/src/convert.rs and
    conrogate-storage/src/repository): conversion between rows and transfer
    objects, and the operations on routes, upstreams, plugin bindings and the IP
    blacklist, as programs over the statements of Storage.v.

    The derived JSON serialisation of the match conditions is a parameter with
    the law that reading back what was written gives the same value. *)
From Stdlib Require Import ZArith Lia Ascii String.
From stdpp Require Import base tactics option list gmap strings pretty.
From S2P Require Import Prelude Text Errors Core F64 Storage.
#[local] Open Scope Z_scope.

(** [serde_json::to_value] and [from_value] of a type with derived instances. *)
Class Serde (A : Type) := { to_value : A → Value; from_value : Value → result A string }.
Class SerdeOk (A : Type) `{!Serde A} : Prop := from_to_value : ∀ a : A, from_value (to_value a) = Ok a.

(** ** Transfer objects of the control plane *)

Record CreateRouteDto := mkCreateRoute {
  cr_name : string; cr_protocol : ProtocolId; cr_match_conditions : RouteMatchConditions; cr_priority : option Z;
  cr_upstream_id : option Z; cr_host_header : option string; cr_allow_retry_non_idempotent : option bool;
  cr_ws_strip_sensitive_headers : option bool; cr_enabled : option bool }.

Record UpdateRouteDto := mkUpdateRoute {
  ur_id : Z; ur_name : option string; ur_match_conditions : option RouteMatchConditions; ur_priority : option Z;
  ur_upstream_id : option Z; ur_host_header : option string; ur_allow_retry_non_idempotent : option bool;
  ur_ws_strip_sensitive_headers : option bool; ur_enabled : option bool }.

Record CreateUpstreamNodeDto := mkCreateNode { cn_address : string; cn_weight : option Z; cn_enabled : option bool }.

Record CreateUpstreamDto := mkCreateUpstream {
  cu_name : string; cu_algorithm : BalancerAlgorithm; cu_retry_enabled : option bool; cu_nodes : list CreateUpstreamNodeDto }.

Record UpdateUpstreamDto := mkUpdateUpstream {
  uu_id : Z; uu_name : option string; uu_algorithm : option BalancerAlgorithm; uu_retry_enabled : option bool;
  uu_nodes : option (list CreateUpstreamNodeDto) }.

Record UpstreamRouteBindingDto := mkRouteBinding { rb_id : Z; rb_name : string }.

Record BindPluginDto := mkBindPlugin {
  bp_plugin_name : string; bp_config : Value; bp_order : option Z; bp_blocking : option bool; bp_enabled : option bool }.

Record UpdatePluginBindingDto := mkUpdateBinding {
  ub_config : option Value; ub_order : option Z; ub_blocking : option bool; ub_enabled : option bool }.

Record CreateIpBlacklistDto := mkCreateIp { ci_ip_or_cidr : string; ci_reason : option string; ci_expires_in_seconds : option Z }.

Record PaginatedResult (A : Type) := mkPage { pg_list : list A; pg_total : Z; pg_page : Z; pg_page_size : Z }.
Arguments mkPage {A}.
Arguments pg_list {A}.
Arguments pg_total {A}.
Arguments pg_page {A}.
Arguments pg_page_size {A}.

Module Convert.
Import Storage.

Definition protocol_to_i16 (p : ProtocolId) : Z := match p with Http => 1 | WebSocket => 2 | TcpTunnel => 3 end.
Definition i16_to_protocol (v : Z) : ProtocolId := match v with 2 => WebSocket | 3 => TcpTunnel | _ => Http end.

Definition algorithm_to_i16 (a : BalancerAlgorithm) : Z :=
  match a with RoundRobin => 1 | WeightedRoundRobin => 2 | LeastConnections => 3 | ConsistentHash => 4 end.
Definition i16_to_algorithm (v : Z) : BalancerAlgorithm :=
  match v with 2 => WeightedRoundRobin | 3 => LeastConnections | 4 => ConsistentHash | _ => RoundRobin end.

Section Rows.
Context `{Serde RouteMatchConditions}.

Definition route_model_to_dto (m : RouteRow) : option RouteDto :=
  match from_value (rt_match_conditions m) with
  | Err _ => None
  | Ok conditions =>
      Some (mkRoute (u64_wrap (rt_id m)) (rt_name m) (i16_to_protocol (rt_protocol m)) conditions (rt_priority m)
              (u64_wrap <$> rt_upstream_id m) (rt_host_header m) (rt_allow_retry_non_idempotent m)
              (rt_ws_strip_sensitive_headers m) (rt_enabled m) (rt_created_at m) (rt_updated_at m))
  end.

(** An [ActiveModel] without its primary key is a row for every id. *)
Definition route_create_to_active_model (dto : CreateRouteDto) (created updated : Z) (id : Z) : RouteRow :=
  mkRouteRow id (cr_name dto) (protocol_to_i16 (cr_protocol dto)) (to_value (cr_match_conditions dto))
    (default 10 (cr_priority dto)) (i64_wrap <$> cr_upstream_id dto) (cr_host_header dto)
    (default false (cr_allow_retry_non_idempotent dto)) (default false (cr_ws_strip_sensitive_headers dto))
    (default true (cr_enabled dto)) created updated None.

Definition upstream_node_model_to_dto (m : NodeRow) : option UpstreamNodeDto :=
  Some (mkNode (u64_wrap (nd_id m)) (u64_wrap (nd_upstream_id m)) (nd_address m) (nd_weight m) (nd_enabled m)).

Definition upstream_model_to_dto (m : UpstreamRow) (nodes : list NodeRow) : option UpstreamDto :=
  Some (mkUpstream (u64_wrap (up_id m)) (up_name m) (i16_to_algorithm (up_algorithm m)) (up_retry_enabled m)
          (omap upstream_node_model_to_dto nodes) (up_created_at m) (up_updated_at m)).

Definition upstream_create_to_active_model (dto : CreateUpstreamDto) (created updated : Z) (id : Z) : UpstreamRow :=
  mkUpRow id (cu_name dto) (algorithm_to_i16 (cu_algorithm dto)) (default true (cu_retry_enabled dto)) created updated None.

Definition node_create_to_active_model (upstream_id : Z) (dto : CreateUpstreamNodeDto) (created updated : Z) (id : Z) : NodeRow :=
  mkNodeRow id upstream_id (cn_address dto) (default 1 (cn_weight dto)) (default true (cn_enabled dto)) created updated None.

Definition binding_model_to_dto (m : BindingRow) : option PluginBindingDto :=
  Some (mkBinding (u64_wrap (bd_id m)) (u64_wrap (bd_route_id m)) (bd_plugin_name m) (bd_config m) (bd_order m)
          (bd_blocking m) (bd_enabled m)).

Definition binding_create_to_active_model (route_id : Z) (dto : BindPluginDto) (created updated : Z) (id : Z) : BindingRow :=
  mkBindingRow id route_id (bp_plugin_name dto) (bp_config dto) (default 0 (bp_order dto)) (default false (bp_blocking dto))
    (default true (bp_enabled dto)) created updated None.

Definition ip_blacklist_model_to_dto (m : BlacklistRow) : option IpBlacklistDto :=
  Some (mkIpBlacklist (u64_wrap (ib_id m)) (ib_ip_or_cidr m) (ib_reason m) (ib_expires_at m) (ib_created_by m) (ib_created_at m)).

End Rows.
End Convert.

(** Newest first, the order of the paginated lists. *)
Definition desc {R} (key : R → Z) (a b : R) : bool := key b <=? key a.
Definition asc {R} (key : R → Z) (a b : R) : bool := key a <=? key b.

(** ** Pages *)

(** [page_size.clamp(1, 200)]. *)
Definition clamp_page_size (page_size : Z) : Z := Z.max 1 (Z.min page_size 200).

(** The rows of a page: [offset] then [limit]. *)
Definition page_rows {R} (offset limit : Z) (l : list R) : list R := take (Z.to_nat limit) (drop (Z.to_nat offset) l).

(** [((page - 1) * page_size) as u64], in 32-bit arithmetic. *)
Definition page_offset (page page_size : Z) : Z := u32_wrap (u32_wrap (page - 1) * page_size).

Module Repos.
Import Storage Convert.
#[local] Open Scope query_scope.

Section Repositories.
Context `{DbEnv} `{Serde RouteMatchConditions}.

(** The statements of a paginated listing: the count, then the page. *)
Definition paginate {R} `{!Table R} (p : R → bool) (leb : R → R → bool) (offset : Z → Z) (page_size : Z) : Q (list R * Z) :=
  total <-- count db_internal p;;
  models <-- stmt db_internal (λ d, (d, Ok (page_rows (offset page_size) page_size (stable_sort leb (List.filter p (rows d))))));;
  qret (models, total).

(** *** Routes *)

Definition live_route (r : RouteRow) : bool := live (rt_deleted_at r).

Definition list_enabled : Q (list RouteDto) :=
  models <-- stmt db_internal (λ d, (d, Ok (stable_sort (desc rt_priority) (List.filter (λ r, rt_enabled r && live_route r) (rows d)))));;
  qret (omap route_model_to_dto models).

Definition find_route_by_id (id : Z) : Q (option RouteDto) :=
  model <-- one db_internal (λ r, (rt_id r =? i64_wrap id) && live_route r);;
  qret (model ≫= route_model_to_dto).

Definition create_route (dto : CreateRouteDto) : Q RouteDto :=
  dup <-- count db_internal (λ r, (rt_name r =? cr_name dto)%string && live_route r);;
  if 0 <? dup then qfail (Conflict ("route name '" +:+ cr_name dto +:+ "' already exists"))
  else
    c <-- now;; u <-- now;;
    model <-- insert data_mapping (route_create_to_active_model dto c u);;
    match route_model_to_dto model with Some r => qret r | None => qfail (DataMapping "insert returned no model") end.

(** The fields of the row that the request names. *)
Definition patch_route (dto : UpdateRouteDto) (updated : Z) (m : RouteRow) : RouteRow :=
  mkRouteRow (rt_id m) (default (rt_name m) (ur_name dto)) (rt_protocol m)
    (default (rt_match_conditions m) (to_value <$> ur_match_conditions dto)) (default (rt_priority m) (ur_priority dto))
    (match ur_upstream_id dto with Some v => Some (i64_wrap v) | None => rt_upstream_id m end)
    (match ur_host_header dto with Some h => Some h | None => rt_host_header m end)
    (default (rt_allow_retry_non_idempotent m) (ur_allow_retry_non_idempotent dto))
    (default (rt_ws_strip_sensitive_headers m) (ur_ws_strip_sensitive_headers dto))
    (default (rt_enabled m) (ur_enabled dto)) (rt_created_at m) updated (rt_deleted_at m).

Definition update_route (dto : UpdateRouteDto) : Q RouteDto :=
  found <-- one db_internal (λ r, (rt_id r =? i64_wrap (ur_id dto)) && live_route r);;
  match found with
  | None => qfail (NotFound ("route " +:+ pretty (ur_id dto)))
  | Some model =>
      (match ur_name dto with
       | Some name =>
           if (name =? rt_name model)%string then qret tt
           else
             dup <-- count db_internal (λ r, (rt_name r =? name)%string && live_route r && negb (rt_id r =? i64_wrap (ur_id dto)));;
             if 0 <? dup then qfail (Conflict ("route name '" +:+ name +:+ "' already exists")) else qret tt
       | None => qret tt
       end);;-
      u <-- now;;
      model <-- update data_mapping (patch_route dto u model);;
      match route_model_to_dto model with Some r => qret r | None => qfail (DataMapping "update returned no model") end
  end.

(** The row with its deletion time set. *)
Definition delete_route_row (t : Z) (r : RouteRow) : RouteRow :=
  mkRouteRow (rt_id r) (rt_name r) (rt_protocol r) (rt_match_conditions r) (rt_priority r) (rt_upstream_id r) (rt_host_header r)
    (rt_allow_retry_non_idempotent r) (rt_ws_strip_sensitive_headers r) (rt_enabled r) (rt_created_at r) (rt_updated_at r) (Some t).

Definition soft_delete_route (id : Z) : Q unit :=
  t <-- now;;
  update_many db_internal (λ r, (rt_id r =? i64_wrap id) && live_route r) (delete_route_row t);;-
  qret tt.

Definition list_routes (page page_size : Z) : Q (PaginatedResult RouteDto) :=
  let page_size := clamp_page_size page_size in
  r <-- paginate live_route (desc rt_id) (page_offset page) page_size;;
  qret (mkPage (omap route_model_to_dto r.1) r.2 page page_size).

(** *** Upstreams *)

Definition live_upstream (u : UpstreamRow) : bool := live (up_deleted_at u).
Definition live_node_of (id : Z) (n : NodeRow) : bool := (nd_upstream_id n =? id) && live (nd_deleted_at n).

Definition load_nodes (upstream_id : Z) : Q (list NodeRow) := all db_internal (live_node_of upstream_id).

Definition with_nodes (m : UpstreamRow) : Q (option UpstreamDto) :=
  nodes <-- load_nodes (up_id m);; qret (upstream_model_to_dto m nodes).

Definition list_upstreams_all : Q (list UpstreamDto) :=
  models <-- all db_internal live_upstream;;
  for_each models [] (λ result m,
    dto <-- with_nodes m;;
    match dto with Some u => qret (result ++ [u]) | None => qfail (DataMapping "upstream convert failed") end).

Definition find_upstream_by_id (id : Z) : Q (option UpstreamDto) :=
  model <-- one db_internal (λ u, (up_id u =? i64_wrap id) && live_upstream u);;
  match model with Some m => with_nodes m | None => qret None end.

Definition find_upstream_by_route (route_id : Z) : Q (option UpstreamDto) :=
  route <-- one db_internal (λ r, (rt_id r =? i64_wrap route_id) && live_route r);;
  match route ≫= rt_upstream_id with
  | Some upstream_id => find_upstream_by_id (u64_wrap upstream_id)
  | None => qret None
  end.

(** The nodes of an upstream, inserted one by one. *)
Definition insert_nodes (e : string → ConrogateError) (upstream_id : Z) (nodes : list CreateUpstreamNodeDto) : Q unit :=
  for_each nodes tt (λ _ n,
    c <-- now;; u <-- now;;
    insert e (node_create_to_active_model upstream_id n c u);;- qret tt).

Definition delete_node_row (t : Z) (n : NodeRow) : NodeRow :=
  mkNodeRow (nd_id n) (nd_upstream_id n) (nd_address n) (nd_weight n) (nd_enabled n) (nd_created_at n) (nd_updated_at n) (Some t).

Definition delete_nodes (upstream_id : Z) : Q unit :=
  t <-- now;; update_many db_internal (live_node_of upstream_id) (delete_node_row t);;- qret tt.

Definition create_upstream (dto : CreateUpstreamDto) : Q UpstreamDto :=
  c <-- now;; u <-- now;;
  model <-- insert data_mapping (upstream_create_to_active_model dto c u);;
  insert_nodes data_mapping (up_id model) (cu_nodes dto);;-
  r <-- with_nodes model;;
  match r with Some x => qret x | None => qfail (DataMapping "insert returned no model") end.

Definition patch_upstream (dto : UpdateUpstreamDto) (updated : Z) (m : UpstreamRow) : UpstreamRow :=
  mkUpRow (up_id m) (default (up_name m) (uu_name dto)) (default (up_algorithm m) (algorithm_to_i16 <$> uu_algorithm dto))
    (default (up_retry_enabled m) (uu_retry_enabled dto)) (up_created_at m) updated (up_deleted_at m).

Definition update_upstream (dto : UpdateUpstreamDto) : Q UpstreamDto :=
  found <-- one db_internal (λ u, (up_id u =? i64_wrap (uu_id dto)) && live_upstream u);;
  match found with
  | None => qfail (NotFound ("upstream " +:+ pretty (uu_id dto)))
  | Some model =>
      t <-- now;;
      model <-- update data_mapping (patch_upstream dto t model);;
      (match uu_nodes dto with
       | Some nodes => delete_nodes (up_id model);;- insert_nodes data_mapping (up_id model) nodes
       | None => qret tt
       end);;-
      r <-- with_nodes model;;
      match r with Some x => qret x | None => qfail (DataMapping "update returned no model") end
  end.

Definition delete_upstream_row (t : Z) (u : UpstreamRow) : UpstreamRow :=
  mkUpRow (up_id u) (up_name u) (up_algorithm u) (up_retry_enabled u) (up_created_at u) (up_updated_at u) (Some t).

Definition soft_delete_upstream (id : Z) : Q unit :=
  t <-- now;;
  update_many db_internal (λ u, (up_id u =? i64_wrap id) && live_upstream u) (delete_upstream_row t);;-
  delete_nodes (i64_wrap id).

Definition list_upstreams (page page_size : Z) : Q (PaginatedResult UpstreamDto) :=
  let page_size := clamp_page_size page_size in
  r <-- paginate live_upstream (desc up_id) (page_offset page) page_size;;
  list <-- for_each r.1 [] (λ acc m, dto <-- with_nodes m;; qret (match dto with Some u => acc ++ [u] | None => acc end));;
  qret (mkPage list r.2 page page_size).

Definition list_route_bindings (id : Z) : Q (list UpstreamRouteBindingDto) :=
  models <-- all db_internal (λ r, bool_decide (rt_upstream_id r = Some (i64_wrap id)) && live_route r);;
  qret (map (λ m, mkRouteBinding (u64_wrap (rt_id m)) (rt_name m)) models).

(** *** Plugin bindings *)

Definition live_binding (b : BindingRow) : bool := live (bd_deleted_at b).
Definition binding_of (route_id : Z) (plugin_name : string) (b : BindingRow) : bool :=
  (bd_route_id b =? route_id) && (bd_plugin_name b =? plugin_name)%string && live_binding b.

Definition list_by_route (route_id : Z) : Q (list PluginBindingDto) :=
  models <-- stmt db_internal (λ d, (d, Ok (stable_sort (asc bd_order)
    (List.filter (λ b, (bd_route_id b =? i64_wrap route_id) && live_binding b && bd_enabled b) (rows d)))));;
  qret (omap binding_model_to_dto models).

Definition bind (route_id : Z) (dto : BindPluginDto) : Q PluginBindingDto :=
  dup <-- count db_internal (binding_of (i64_wrap route_id) (bp_plugin_name dto));;
  if 0 <? dup then
    qfail (Conflict ("plugin '" +:+ bp_plugin_name dto +:+ "' already bound to route " +:+ pretty route_id))
  else
    c <-- now;; u <-- now;;
    model <-- insert data_mapping (binding_create_to_active_model (i64_wrap route_id) dto c u);;
    match binding_model_to_dto model with Some b => qret b | None => qfail (DataMapping "insert returned no model") end.

Definition patch_binding (dto : UpdatePluginBindingDto) (updated : Z) (m : BindingRow) : BindingRow :=
  mkBindingRow (bd_id m) (bd_route_id m) (bd_plugin_name m) (default (bd_config m) (ub_config dto))
    (default (bd_order m) (ub_order dto)) (default (bd_blocking m) (ub_blocking dto)) (default (bd_enabled m) (ub_enabled dto))
    (bd_created_at m) updated (bd_deleted_at m).

Definition update_binding (route_id : Z) (plugin_name : string) (dto : UpdatePluginBindingDto) : Q PluginBindingDto :=
  found <-- one db_internal (binding_of (i64_wrap route_id) plugin_name);;
  match found with
  | None => qfail (NotFound ("binding route=" +:+ pretty route_id +:+ " plugin=" +:+ plugin_name))
  | Some model =>
      t <-- now;;
      model <-- update data_mapping (patch_binding dto t model);;
      match binding_model_to_dto model with Some b => qret b | None => qfail (DataMapping "update returned no model") end
  end.

Definition delete_binding_row (t : Z) (b : BindingRow) : BindingRow :=
  mkBindingRow (bd_id b) (bd_route_id b) (bd_plugin_name b) (bd_config b) (bd_order b) (bd_blocking b) (bd_enabled b)
    (bd_created_at b) (bd_updated_at b) (Some t).

Definition unbind (route_id : Z) (plugin_name : string) : Q unit :=
  t <-- now;;
  update_many db_internal (binding_of (i64_wrap route_id) plugin_name) (delete_binding_row t);;- qret tt.

(** *** The IP blacklist *)

Definition list_blacklist : Q (list IpBlacklistDto) :=
  models <-- stmt db_internal (λ d, (d, Ok (stable_sort (desc ib_id) (rows d))));;
  qret (omap ip_blacklist_model_to_dto models).

(** The offset of this list saturates and is computed in 64 bits. *)
Definition list_blacklist_page (keyword : option string) (page page_size : Z) : Q (PaginatedResult IpBlacklistDto) :=
  let page_size := clamp_page_size page_size in
  let p (b : BlacklistRow) := match keyword with
                              | Some kw => if is_empty (trim kw) then true else like (trim kw) (ib_ip_or_cidr b)
                              | None => true
                              end in
  r <-- paginate p (desc ib_id) (λ ps, saturating_sub page 1 * ps) page_size;;
  qret (mkPage (omap ip_blacklist_model_to_dto r.1) r.2 page page_size).

(** The expiry is meant for durations that [chrono] can represent. *)
Definition upsert_blacklist (dto : CreateIpBlacklistDto) (operator : option string) : Q IpBlacklistDto :=
  t <-- now;;
  let expires_at := (λ secs, t + from_secs (i64_wrap secs)) <$> ci_expires_in_seconds dto in
  found <-- one db_internal (λ b, (ib_ip_or_cidr b =? ci_ip_or_cidr dto)%string);;
  model <-- match found with
            | Some m => update db_internal (mkBlacklistRow (ib_id m) (ib_ip_or_cidr m) (ci_reason dto) expires_at (ib_created_by m) (ib_created_at m))
            | None => insert data_mapping (λ id, mkBlacklistRow id (ci_ip_or_cidr dto) (ci_reason dto) expires_at operator t)
            end;;
  match ip_blacklist_model_to_dto model with Some x => qret x | None => qfail (DataMapping "blacklist row unmappable") end.

Definition delete_blacklist (id : Z) : Q unit :=
  n <-- delete_rows db_internal (λ b : BlacklistRow, ib_id b =? i64_wrap id);;
  if n =? 0 then qfail (NotFound "blacklist entry not found") else qret tt.

End Repositories.
End Repos.
