(* ===== verification/Versions.v ===== *)
(** Configuration versions (conrogate-storage/src/repository/config_version_repo.rs):
    publishing, rolling back, listing and comparing versions.

    Publishing and rolling back read the latest version and then insert the next
    one, in two statements, so several of them may interleave; the unique index
    on the version number decides which of them succeeds. *)
From Stdlib Require Import ZArith Lia Ascii String.
From stdpp Require Import base tactics option list gmap strings pretty.
From S2P Require Import Prelude Text Errors Core F64 Storage Repositories.
#[local] Open Scope Z_scope.

Inductive PublishType := Publish | Rollback.

Record ConfigVersionDto := mkVersionDto {
  cv_version : Z; cv_base_version : Z; cv_publish_type : PublishType; cv_content_hash : string;
  cv_created_by : option string; cv_remark : option string; cv_applied_count : Z; cv_created_at : Z }.

Record ConfigDiff := mkDiff { df_added : list string; df_modified : list string; df_removed : list string }.

Module Versions.
Import Storage.
#[local] Open Scope query_scope.

Definition i16_to_publish_type (v : Z) : PublishType := match v with 1 => Rollback | _ => Publish end.

Definition config_version_model_to_dto (m : VersionRow) : option ConfigVersionDto :=
  Some (mkVersionDto (u64_wrap (vr_version m)) (u64_wrap (vr_base_version m)) (i16_to_publish_type (vr_publish_type m))
          (vr_content_hash m) (vr_created_by m) (vr_remark m) 0 (vr_created_at m)).

Section Versions.
Context `{DbEnv} `{Serde ConfigSnapshot}.

(** [sha2] over the text of a JSON value, in hexadecimal. *)
Context (sha256_hash : Value → string).

(** [order_by_desc(Version).one]. *)
Definition latest_row : Q (option VersionRow) :=
  stmt db_internal (λ d, (d, Ok (head (stable_sort (desc vr_version) (rows d))))).

Definition latest_version : Q (option ConfigVersionDto) :=
  m <-- latest_row;; qret (m ≫= config_version_model_to_dto).

Definition row_of_version (version : Z) : Q (option VersionRow) := one db_internal (λ m, vr_version m =? i64_wrap version).

Definition find_by_version (version : Z) : Q (option ConfigVersionDto) :=
  m <-- row_of_version version;; qret (m ≫= config_version_model_to_dto).

(** The second statement of a publication, once the latest version was read. *)
Definition insert_version (row : Z → VersionRow) : Q ConfigVersionDto :=
  model <-- insert data_mapping row;;
  match config_version_model_to_dto model with Some v => qret v | None => qfail (DataMapping "insert returned no model") end.

Definition publish_row (base_version current_latest : Z) (snapshot : ConfigSnapshot) (created_by remark : option string)
    (t id : Z) : VersionRow :=
  let content := to_value snapshot in
  mkVersionRow id (i64_wrap (current_latest + 1)) (i64_wrap base_version) 0 ("sha256:" +:+ sha256_hash content) content created_by remark t.

(** What follows the reading of the latest version. *)
Definition publish_on (latest : option VersionRow) (base_version : Z) (snapshot : ConfigSnapshot)
    (created_by remark : option string) : Q ConfigVersionDto :=
  let current_latest := from_option vr_version 0 latest in
  if base_version =? u64_wrap current_latest then
    t <-- now;; insert_version (publish_row base_version current_latest snapshot created_by remark t)
  else qfail ConfigConcurrencyConflict.

Definition publish (base_version : Z) (snapshot : ConfigSnapshot) (created_by remark : option string) : Q ConfigVersionDto :=
  latest <-- latest_row;; publish_on latest base_version snapshot created_by remark.

Definition rollback_row (target_version current_latest : Z) (target : VersionRow) (created_by : option string) (t id : Z) : VersionRow :=
  mkVersionRow id (i64_wrap (u64_wrap (current_latest + 1))) (i64_wrap current_latest) 1 (vr_content_hash target)
    (vr_snapshot_content target) created_by (Some ("rollback to v" +:+ pretty target_version)) t.

Definition rollback_on (target_version : Z) (target : VersionRow) (latest : option ConfigVersionDto) (created_by : option string) :
    Q ConfigVersionDto :=
  t <-- now;; insert_version (rollback_row target_version (from_option cv_version 0 latest) target created_by t).

Definition rollback (target_version : Z) (created_by : option string) : Q ConfigVersionDto :=
  found <-- row_of_version target_version;;
  match found with
  | None => qfail (NotFound ("version " +:+ pretty target_version))
  | Some target => latest <-- latest_version;; rollback_on target_version target latest created_by
  end.

Definition get_snapshot_by_version (version : Z) : Q (option ConfigSnapshot) :=
  model <-- row_of_version version;;
  match model with
  | None => qret None
  | Some m => match from_value (vr_snapshot_content m) with
              | Ok snap => qret (Some snap)
              | Err e => qfail (DataMapping e)
              end
  end.

Definition list_versions (page page_size : Z) : Q (PaginatedResult ConfigVersionDto) :=
  let page_size := clamp_page_size page_size in
  r <-- Repos.paginate (R := VersionRow) (λ _, true) (desc vr_version) (page_offset page) page_size;;
  qret (mkPage (omap config_version_model_to_dto r.1) r.2 page page_size).

(** [added] and [removed] are collected from hash sets, in some order. *)
Definition diff_of (from to : ConfigSnapshot) : ConfigDiff :=
  let from_names := map r_name (cs_routes from) in
  let to_names := map r_name (cs_routes to) in
  mkDiff (List.filter (λ n, bool_decide (n ∉ from_names)) (remove_dups to_names))
         (List.filter (λ n, bool_decide (n ∈ from_names)) to_names)
         (List.filter (λ n, bool_decide (n ∉ to_names)) (remove_dups from_names)).

Definition diff (from to : Z) : Q ConfigDiff :=
  from_model <-- row_of_version from;;
  to_model <-- row_of_version to;;
  match from_model, to_model with
  | Some f, Some t =>
      match from_value (A := ConfigSnapshot) (vr_snapshot_content f) with
      | Err e => qfail (DataMapping e)
      | Ok from_snap =>
          match from_value (vr_snapshot_content t) with
          | Err e => qfail (DataMapping e)
          | Ok to_snap => qret (diff_of from_snap to_snap)
          end
      end
  | _, _ => qfail (NotFound "version not found")
  end.

(** ** Concurrent publications *)

(** A process between its statements: a publication that has read the latest
    version, a rollback that has read its target, and then the latest version. *)
Inductive pending :=
| Publishing (latest : option VersionRow) (base : Z) (snapshot : ConfigSnapshot) (by_ remark : option string)
| Targeted (target_version : Z) (target : VersionRow) (by_ : option string)
| RollingBack (target_version : Z) (target : VersionRow) (latest : option ConfigVersionDto) (by_ : option string).

(** Any number of processes, one statement at a time; in between the rest of the
    database changes at will. *)
Inductive vstep : World * list pending → World * list pending → Prop :=
| v_read_latest w w' ps l base snap by_ remark :
    latest_row w = (w', Ok l) → vstep (w, ps) (w', Publishing l base snap by_ remark :: ps)
| v_read_target w w' ps v m by_ :
    row_of_version v w = (w', Ok (Some m)) → vstep (w, ps) (w', Targeted v m by_ :: ps)
| v_read_latest_back w w' ps1 ps2 v m by_ l :
    latest_version w = (w', Ok l) →
    vstep (w, ps1 ++ Targeted v m by_ :: ps2) (w', ps1 ++ RollingBack v m l by_ :: ps2)
| v_publish w w' ps1 ps2 l base snap by_ remark r :
    publish_on l base snap by_ remark w = (w', r) →
    vstep (w, ps1 ++ Publishing l base snap by_ remark :: ps2) (w', ps1 ++ ps2)
| v_rollback w w' ps1 ps2 v m l by_ r :
    rollback_on v m l by_ w = (w', r) →
    vstep (w, ps1 ++ RollingBack v m l by_ :: ps2) (w', ps1 ++ ps2)
| v_other w w' ps : d_versions (w_db w') = d_versions (w_db w) → vstep (w, ps) (w', ps).

Inductive vreachable : World * list pending → Prop :=
| vr_start w : d_versions (w_db w) = [] → vreachable (w, [])
| vr_step s s' : vreachable s → vstep s s' → vreachable s'.

(** The versions form a chain: they are numbered from 1 in the order they were
    made, each is based on the one before, and a rollback repeats the content of
    an earlier one. *)
Definition chain (rows : list VersionRow) : Prop :=
  ∀ i row, rows !! i = Some row →
    vr_version row = Z.of_nat i + 1 ∧ vr_base_version row = Z.of_nat i ∧
    (vr_publish_type row = 0 ∨
     vr_publish_type row = 1 ∧
     ∃ j old, (j < i)%nat ∧ rows !! j = Some old ∧
       vr_snapshot_content row = vr_snapshot_content old ∧ vr_content_hash row = vr_content_hash old).

(** What a waiting process knows is still true. *)
Definition knows (rows : list VersionRow) (p : pending) : Prop :=
  match p with
  | Publishing l _ _ _ _ => ∀ m, l = Some m → m ∈ rows
  | Targeted _ m _ => m ∈ rows
  | RollingBack _ m l _ => m ∈ rows ∧ ∀ v, l = Some v → ∃ m', m' ∈ rows ∧ config_version_model_to_dto m' = Some v
  end.

Definition vinv (s : World * list pending) : Prop :=
  chain (d_versions (w_db s.1)) ∧ Forall (knows (d_versions (w_db s.1))) s.2.

Lemma chain_snoc rows row :
  chain rows → vr_version row = Z.of_nat (length rows) + 1 → vr_base_version row = Z.of_nat (length rows) →
  (vr_publish_type row = 0 ∨
   vr_publish_type row = 1 ∧ ∃ old, old ∈ rows ∧
     vr_snapshot_content row = vr_snapshot_content old ∧ vr_content_hash row = vr_content_hash old) →
  chain (rows ++ [row]).
Proof.
  intros Hc Hv Hb Ht i r Hi. apply lookup_app_Some in Hi as [Hi|[Hlen Hi]].
  - destruct (Hc i r Hi) as (? & ? & Hr). split_and!; [done..|].
    destruct Hr as [|(? & j & old & Hj & Ho & ?)]; [by left|right]. split; [done|].
    exists j, old. rewrite lookup_app_l by (apply lookup_lt_Some in Ho; lia). done.
  - apply list_lookup_singleton_Some in Hi as [Hi <-]. assert (i = length rows) as -> by lia. split_and!; [lia|lia|].
    destruct Ht as [|(? & old & [j Ho]%list_elem_of_lookup & ?)]; [by left|right]. split; [done|].
    pose proof (lookup_lt_Some _ _ _ Ho). exists j, old. rewrite lookup_app_l by lia. done.
Qed.

Lemma chain_member rows m :
  chain rows → m ∈ rows → 1 <= vr_version m <= Z.of_nat (length rows).
Proof.
  intros Hc [i Hi]%list_elem_of_lookup. destruct (Hc i m Hi) as [-> _]. apply lookup_lt_Some in Hi. lia.
Qed.

(** The number after [l] is free only when [l] is the last one. *)
Lemma chain_free rows row l :
  chain rows → NoDup (map vr_version (rows ++ [row])) → 0 <= l <= Z.of_nat (length rows) → vr_version row = l + 1 →
  l = Z.of_nat (length rows).
Proof.
  intros Hc Hnd Hl Hv. destruct (decide (l = Z.of_nat (length rows))) as [|Hne]; [done|exfalso].
  destruct (lookup_lt_is_Some_2 rows (Z.to_nat l)) as [m Hm]; [lia|]. destruct (Hc _ _ Hm) as [Hmv _].
  rewrite map_app, NoDup_app in Hnd. destruct Hnd as (_ & Hnd & _). apply (Hnd (vr_version m)).
  - apply list_elem_of_fmap. exists m. split; [done|]. by apply list_elem_of_lookup_2 in Hm.
  - simpl. apply list_elem_of_singleton. lia.
Qed.

Lemma head_sorted_elem {R} (leb : R → R → bool) l m : head (stable_sort leb l) = Some m → m ∈ l.
Proof.
  intros Hm. rewrite <- (stable_sort_perm leb l). destruct (stable_sort leb l); simplify_eq/=. by left.
Qed.

Lemma knows_grow rows new ps : Forall (knows rows) ps → Forall (knows (rows ++ new)) ps.
Proof.
  intros H'. eapply Forall_impl; [exact H'|]. intros p. assert (∀ m, m ∈ rows → m ∈ rows ++ new) as Hm by set_solver.
  destruct p; simpl; naive_solver.
Qed.

(** An insertion that succeeds adds its row at the end; one that fails adds nothing. *)
Lemma insert_version_spec mk w w' r :
  insert_version mk w = (w', r) →
  match r with
  | Ok v => ∃ row, row = mk (new_id (w_tick w) (map vr_id (d_versions (w_db w)))) ∧ config_version_model_to_dto row = Some v ∧
              d_versions (w_db w') = d_versions (w_db w) ++ [row] ∧ NoDup (map vr_version (d_versions (w_db w')))
  | Err _ => d_versions (w_db w') = d_versions (w_db w)
  end.
Proof.
  unfold insert_version, qbind. destruct (insert data_mapping mk w) as [w1 [row|e]] eqn:E; simpl.
  - apply insert_ok in E as (-> & E & Hok). intros [= <- <-]. eexists. split_and!; [done|done| |apply Hok].
    rewrite E. done.
  - unfold insert, at_tick, stmt in E. destruct (fault _); [|case_decide]; intros; simplify_eq/=; done.
Qed.

Lemma latest_row_spec w w' l :
  latest_row w = (w', Ok l) → w_db w' = w_db w ∧ ∀ m, l = Some m → m ∈ d_versions (w_db w).
Proof. intros [[= <- <-] _]%stmt_ok. split; [done|]. intros m. apply head_sorted_elem. Qed.

Lemma latest_version_spec w w' l :
  latest_version w = (w', Ok l) →
  w_db w' = w_db w ∧ ∀ v, l = Some v → ∃ m, m ∈ d_versions (w_db w) ∧ config_version_model_to_dto m = Some v.
Proof.
  intros (w1 & m & E & [= <- <-])%qbind_ok. apply latest_row_spec in E as [-> Hm]. split; [done|].
  intros v. destruct m as [m|]; simpl; [|done]. intros [= <-]. exists m. split; [by apply Hm|done].
Qed.

Lemma row_of_version_spec v w w' m :
  row_of_version v w = (w', Ok (Some m)) → w_db w' = w_db w ∧ m ∈ d_versions (w_db w).
Proof.
  intros [-> E]%one_ok. split; [done|]. symmetry in E. apply find_some in E as [E _]. by apply list_elem_of_In.
Qed.

(** The two kinds of insertion extend the chain. *)
Lemma publish_on_chain l base snap by_ remark w w' r :
  chain (d_versions (w_db w)) → (∀ m, l = Some m → m ∈ d_versions (w_db w)) →
  Z.of_nat (length (d_versions (w_db w))) < 2 ^ 63 - 1 →
  publish_on l base snap by_ remark w = (w', r) →
  match r with
  | Ok v => ∃ row, d_versions (w_db w') = d_versions (w_db w) ++ [row] ∧ chain (d_versions (w_db w')) ∧
              base = Z.of_nat (length (d_versions (w_db w))) ∧ vr_snapshot_content row = to_value snap ∧
              config_version_model_to_dto row = Some v
  | Err _ => d_versions (w_db w') = d_versions (w_db w)
  end.
Proof.
  intros Hc Hl Hlen. unfold publish_on. set (cur := from_option vr_version 0 l).
  assert (0 <= cur <= Z.of_nat (length (d_versions (w_db w)))) as Hcur.
  { subst cur. destruct l as [m|]; simpl; [|lia]. pose proof (chain_member _ m Hc (Hl m eq_refl)). lia. }
  rewrite (u64_wrap_small cur) by lia. destruct (Z.eqb_spec base cur) as [->|Hne]; [|by intros [= <- <-]].
  unfold qbind at 1, now. intros E%insert_version_spec. simpl in E. destruct r as [v|e]; [|done].
  destruct E as (row & Erow & Ev & E & Hnd). exists row. split; [done|].
  assert (vr_version row = cur + 1) as Hv by (rewrite Erow; cbn [vr_version publish_row]; apply i64_wrap_small; lia).
  assert (vr_base_version row = cur) as Hb by (rewrite Erow; cbn [vr_base_version publish_row]; apply i64_wrap_small; lia).
  rewrite E in *. pose proof (chain_free _ row cur Hc Hnd Hcur Hv) as Hfree.
  split_and!; [|done|by rewrite Erow|done]. apply chain_snoc; [done|lia|lia|]. left. by rewrite Erow.
Qed.

Lemma rollback_on_chain v m l by_ w w' r :
  chain (d_versions (w_db w)) → knows (d_versions (w_db w)) (RollingBack v m l by_) →
  Z.of_nat (length (d_versions (w_db w))) < 2 ^ 63 - 1 →
  rollback_on v m l by_ w = (w', r) →
  match r with
  | Ok _ => ∃ row, d_versions (w_db w') = d_versions (w_db w) ++ [row] ∧ chain (d_versions (w_db w')) ∧
              vr_snapshot_content row = vr_snapshot_content m
  | Err _ => d_versions (w_db w') = d_versions (w_db w)
  end.
Proof.
  intros Hc [Hm Hl] Hlen. unfold rollback_on. set (cur := from_option cv_version 0 l).
  assert (0 <= cur <= Z.of_nat (length (d_versions (w_db w)))) as Hcur.
  { subst cur. destruct l as [x|]; simpl; [|lia]. destruct (Hl x eq_refl) as (m' & Hm' & [= <-]). simpl.
    pose proof (chain_member _ m' Hc Hm'). rewrite u64_wrap_small; lia. }
  unfold qbind at 1, now. intros E%insert_version_spec. simpl in E. destruct r as [x|e]; [|done].
  destruct E as (row & Erow & Ev & E & Hnd). exists row. split; [done|].
  assert (vr_version row = cur + 1) as Hv.
  { rewrite Erow. cbn [vr_version rollback_row]. rewrite u64_wrap_small by lia. apply i64_wrap_small; lia. }
  assert (vr_base_version row = cur) as Hb by (rewrite Erow; cbn [vr_base_version rollback_row]; apply i64_wrap_small; lia).
  rewrite E in *. pose proof (chain_free _ row cur Hc Hnd Hcur Hv) as Hfree.
  split; [|by rewrite Erow]. apply chain_snoc; [done|lia|lia|]. right. split; [by rewrite Erow|]. exists m. by rewrite Erow.
Qed.

Lemma vstep_grows s s' : vstep s s' → ∃ new, d_versions (w_db s'.1) = d_versions (w_db s.1) ++ new.
Proof.
  intros [w w' ps l base snap by_ remark E|w w' ps v m by_ E|w w' ps1 ps2 v m by_ l E
    |w w' ps1 ps2 l base snap by_ remark r E|w w' ps1 ps2 v m l by_ r E|w w' ps E]; cbn [fst].
  - apply latest_row_spec in E as [-> _]. exists []. by rewrite app_nil_r.
  - apply row_of_version_spec in E as [-> _]. exists []. by rewrite app_nil_r.
  - apply latest_version_spec in E as [-> _]. exists []. by rewrite app_nil_r.
  - unfold publish_on in E. destruct (base =? _); [|injection E as <- <-; exists []; by rewrite app_nil_r].
    apply (insert_version_spec _ (ticked _)) in E. destruct r; [naive_solver|exists []; by rewrite app_nil_r].
  - apply (insert_version_spec _ (ticked _)) in E. destruct r; [naive_solver|exists []; by rewrite app_nil_r].
  - exists []. by rewrite app_nil_r.
Qed.

Lemma vinv_step s s' :
  vinv s → vstep s s' → Z.of_nat (length (d_versions (w_db s.1))) < 2 ^ 63 - 1 → vinv s'.
Proof.
  intros [Hc Hk] Hs Hlen. destruct Hs as [w w' ps l base snap by_ remark E|w w' ps v m by_ E|w w' ps1 ps2 v m by_ l E
    |w w' ps1 ps2 l base snap by_ remark r E|w w' ps1 ps2 v m l by_ r E|w w' ps E]; unfold vinv; cbn [fst snd] in *.
  - apply latest_row_spec in E as [-> Hm]. split; [done|by constructor].
  - apply row_of_version_spec in E as [-> Hm]. split; [done|by constructor].
  - apply latest_version_spec in E as [-> Hm]. split; [done|].
    apply Forall_app in Hk as [H1 [Ht H2]%Forall_cons]. apply Forall_app. split; [done|]. by constructor.
  - apply Forall_app in Hk as [H1 [Hp H2]%Forall_cons].
    pose proof (publish_on_chain l base snap by_ remark w w' r Hc Hp Hlen E) as Hr. destruct r as [x|e].
    + destruct Hr as (row & E' & Hc' & _). split; [done|]. rewrite E'. apply (knows_grow _ [row]). by apply Forall_app.
    + rewrite Hr. split; [done|by apply Forall_app].
  - apply Forall_app in Hk as [H1 [Hp H2]%Forall_cons].
    pose proof (rollback_on_chain v m l by_ w w' r Hc Hp Hlen E) as Hr. destruct r as [x|e].
    + destruct Hr as (row & E' & Hc' & _). split; [done|]. rewrite E'. apply (knows_grow _ [row]). by apply Forall_app.
    + rewrite Hr. split; [done|by apply Forall_app].
  - rewrite E. done.
Qed.

Lemma vreachable_inv s : vreachable s → Z.of_nat (length (d_versions (w_db s.1))) < 2 ^ 63 - 1 → vinv s.
Proof.
  induction 1 as [w E|s s' Hr IH Hs]; intros Hlen.
  - split; [|done]. cbn [fst]. rewrite E. by intros i row Hi.
  - destruct (vstep_grows s s' Hs) as [new E]. rewrite E, length_app in Hlen.
    apply (vinv_step s s'); [apply IH; lia|done|lia].
Qed.

(** C15. Versions never fork: however publications and rollbacks interleave, and
    whichever statements fail, the versions form a chain (numbered 1, 2, ... in the
    order they were made, each based on the one before, a rollback with the
    content of an earlier version), and a publication that succeeds was based on
    the version that is the latest at that moment and stores its snapshot there.
    Of two publications based on the same version at most one succeeds. *)
Theorem versions_chain w ps :
  vreachable (w, ps) → Z.of_nat (length (d_versions (w_db w))) < 2 ^ 63 - 1 →
  chain (d_versions (w_db w)) ∧
  ∀ l base snap by_ remark w' v,
    Publishing l base snap by_ remark ∈ ps → publish_on l base snap by_ remark w = (w', Ok v) →
    base = Z.of_nat (length (d_versions (w_db w))) ∧
    ∃ row, d_versions (w_db w') = d_versions (w_db w) ++ [row] ∧ vr_version row = base + 1 ∧
           config_version_model_to_dto row = Some v ∧ vr_snapshot_content row = to_value snap.
Proof.
  intros Hr Hlen. destruct (vreachable_inv _ Hr Hlen) as [Hc Hk]. cbn [fst snd] in *. split; [done|]. intros l base snap by_ remark w' v Hp E.
  rewrite Forall_forall in Hk. pose proof (Hk _ Hp) as Hl.
  destruct (publish_on_chain l base snap by_ remark w w' (Ok v) Hc Hl Hlen E) as (row & E' & Hc' & Hb & Hs & Hv).
  split; [done|]. exists row. split_and!; try done. rewrite E' in Hc'.
  destruct (Hc' (length (d_versions (w_db w))) row) as [Hrv _]; [by rewrite list_lookup_middle|]. lia.
Qed.

(** A publication without a base (the default 0) is refused once there is a version. *)
Lemma default_base_refused row snap by_ remark w :
  0 < vr_version row < 2 ^ 63 → publish_on (Some row) 0 snap by_ remark w = (w, Err ConfigConcurrencyConflict).
Proof. intros Hv. unfold publish_on. cbn [from_option]. rewrite u64_wrap_small by lia. destruct (Z.eqb_spec 0 (vr_version row)); [lia|done]. Qed.

(** ** Reading back *)

Context `{!SerdeOk ConfigSnapshot}.

(** What was published under a number is what is read under it. *)
Lemma publish_get_snapshot base snap by_ remark w w' v :
  vreachable (w, []) → Z.of_nat (length (d_versions (w_db w))) < 2 ^ 63 - 1 →
  publish base snap by_ remark w = (w', Ok v) → fault (w_tick w') = None →
  (get_snapshot_by_version (cv_version v) w').2 = Ok (Some snap).
Proof.
  intros Hr Hlen (w1 & l & E1 & E2)%qbind_ok Hf. pose proof (latest_row_spec _ _ _ E1) as [Hw1 Hl].
  pose proof (vr_step _ _ Hr (v_read_latest w w1 [] l base snap by_ remark E1)) as Hr1.
  destruct (vreachable_inv _ Hr1) as [Hc Hk]; [by cbn [fst]; rewrite Hw1|]. cbn [fst snd] in *.
  rewrite Hw1 in *. apply Forall_cons in Hk as [Hk _]. rewrite <- Hw1 in Hk, Hlen, Hc.
  destruct (publish_on_chain l base snap by_ remark w1 w' (Ok v) Hc Hk Hlen E2) as (row & E' & Hc' & Hb & Hs & Hv).
  assert (db_ok mysql (w_db w')) as Hok.
  { unfold publish_on in E2. destruct (base =? _); [|done]. apply qbind_ok in E2 as (w2 & t & _ & E2).
    apply qbind_ok in E2 as (w3 & m & E3 & E4). apply insert_ok in E3 as (_ & _ & Hok). injection E4 as <- _. done. }
  destruct (Hc' (length (d_versions (w_db w1))) row) as (Hrv & _ & _); [by rewrite E', list_lookup_middle|].
  unfold get_snapshot_by_version, qbind, row_of_version, one, stmt. rewrite Hf. cbn [w_db].
  rewrite decide_True by done. injection Hv as <-. cbn [cv_version].
  rewrite (u64_wrap_small (vr_version row)), i64_wrap_small by lia.
  change (@rows VersionRow versions_table (w_db w')) with (d_versions (w_db w')). rewrite E'.
  destruct (List.find _ _) as [m|] eqn:Ef.
  - apply find_some in Ef as [Hin Heq]. apply Z.eqb_eq in Heq. rewrite <- E' in Hin.
    assert (m = row) as ->.
    { apply list_elem_of_In, list_elem_of_lookup in Hin as [i Hi]. destruct (Hc' i m Hi) as [Hmv _].
      assert (i = length (d_versions (w_db w1))) as -> by lia. rewrite E', list_lookup_middle in Hi by done. by injection Hi as ->. }
    rewrite Hs, from_to_value. done.
  - pose proof (find_none _ _ Ef row ltac:(apply list_elem_of_In; set_solver)) as Hn. simpl in Hn. by rewrite Z.eqb_refl in Hn.
Qed.

(** Two versions with the same routes are reported as modified in all of them. *)
Lemma diff_unchanged_modified s : df_modified (diff_of s s) = map r_name (cs_routes s) ∧ df_added (diff_of s s) = [] ∧ df_removed (diff_of s s) = [].
Proof.
  assert (∀ l l' : list string, (∀ x, x ∈ l → x ∈ l') → List.filter (λ n, bool_decide (n ∉ l')) l = []) as Hnone.
  { intros l l' Hsub. induction l as [|x l IH]; simpl; [done|].
    rewrite bool_decide_eq_false_2 by (intros Hx; apply Hx, Hsub; by left). apply IH. intros y Hy. apply Hsub. by right. }
  unfold diff_of. cbn [df_modified df_added df_removed]. split_and!.
  - assert (∀ l l' : list string, (∀ x, x ∈ l → x ∈ l') → List.filter (λ n, bool_decide (n ∈ l')) l = l) as Hall.
    { intros l l' Hsub. induction l as [|x l IH]; simpl; [done|].
      rewrite bool_decide_eq_true_2 by (apply Hsub; by left). f_equal. apply IH. intros y Hy. apply Hsub. by right. }
    by apply Hall.
  - apply Hnone. intros x. by rewrite elem_of_remove_dups.
  - apply Hnone. intros x. by rewrite elem_of_remove_dups.
Qed.

End Versions.
End Versions.

(** ** Sample database *)

Module VersionsDemo.
Import Storage Versions.

#[local] Instance demo_env : DbEnv :=
  {| mysql := false; new_id _ l := 1 + foldr Z.max 0 l;
     like _ _ := false; null_eq := false; none_inserted := None; violation := "constraint violation"; column_time t := t; utc n := Z.of_nat n; fault _ := None; reply_lost _ := false |}.
#[local] Instance demo_serde : Serde ConfigSnapshot :=
  {| to_value s := VArray (map (λ r, VString (r_name r)) (cs_routes s)); from_value _ := Err EmptyString |}.

Definition demo_hash (_ : Value) : string := "00".
Definition demo_snapshot : ConfigSnapshot := mkConfigSnapshot [] [] [].
Definition start : World := mkWorld empty_db (mkRedis ∅ []) 0.
Definition publisher : pending := Publishing None 0 demo_snapshot (Some "ann") None.

(** Two publishers read the same base; the second one to insert is refused. *)
Lemma versions_chain_witness :
  vreachable demo_hash (mkWorld empty_db (mkRedis ∅ []) 2, [publisher; publisher]) ∧
  chain (d_versions (w_db (mkWorld empty_db (mkRedis ∅ []) 2))) ∧
  (publish_on demo_hash None 0 demo_snapshot (Some "ann"%string) None
     (publish_on demo_hash None 0 demo_snapshot (Some "ann"%string) None (mkWorld empty_db (mkRedis ∅ []) 2)).1).2
    = Err (DataMapping "constraint violation").
Proof.
  assert (vreachable demo_hash (mkWorld empty_db (mkRedis ∅ []) 2, [publisher; publisher])) as Hr.
  { apply (vr_step demo_hash (mkWorld empty_db (mkRedis ∅ []) 1, [publisher])).
    - apply (vr_step demo_hash (start, [])); [by constructor|]. apply v_read_latest. vm_compute. reflexivity.
    - apply v_read_latest. vm_compute. reflexivity. }
  split; [exact Hr|split; [|vm_compute; reflexivity]].
  exact (proj1 (versions_chain demo_hash (mkWorld empty_db (mkRedis ∅ []) 2) [publisher; publisher] Hr ltac:(vm_compute; reflexivity))).
Defined.

End VersionsDemo.
