(* ===== verification/Snapshot.v ===== *)
(** Writing a snapshot back to the tables (apply_snapshot of
    conrogate-storage/src/repository/config_version_repo.rs), the step of a
    rollback that the data plane sees. *)
From Stdlib Require Import ZArith Lia Ascii String.
From stdpp Require Import base tactics option list gmap strings pretty.
From S2P Require Import Prelude Text Errors Core F64 Storage Repositories.
#[local] Open Scope Z_scope.

Module Snapshot.
Import Storage Convert Repos.
#[local] Open Scope query_scope.

Section Apply.
Context `{DbEnv} `{Serde RouteMatchConditions}.

Definition node_request (n : UpstreamNodeDto) : CreateUpstreamNodeDto :=
  mkCreateNode (n_address n) (Some (n_weight n)) (Some (n_enabled n)).

(** *** 1. Upstreams, by name *)

Definition upstream_row (up : UpstreamDto) (t : Z) (m : UpstreamRow) : UpstreamRow :=
  mkUpRow (up_id m) (up_name m) (algorithm_to_i16 (u_algorithm up)) (u_retry_enabled up) (up_created_at m) t (up_deleted_at m).

Definition upsert_upstream (ids : gmap Z Z) (up : UpstreamDto) : Q (gmap Z Z) :=
  existing <-- one db_internal (λ u, (up_name u =? u_name up)%string && live_upstream u);;
  actual_id <-- match existing with
                | Some m =>
                    t <-- now;;
                    update db_internal (upstream_row up t m);;-
                    delete_nodes (up_id m);;-
                    insert_nodes db_internal (up_id m) (map node_request (u_nodes up));;-
                    qret (up_id m)
                | None =>
                    c <-- now;; t <-- now;;
                    model <-- insert db_internal (upstream_create_to_active_model
                      (mkCreateUpstream (u_name up) (u_algorithm up) (Some (u_retry_enabled up)) (map node_request (u_nodes up))) c t);;
                    qret (up_id model)
                end;;
  qret (<[u_id up := actual_id]> ids).

(** *** 2. Upstreams that are not in the snapshot *)

Definition drop_upstream (names : list string) (_ : unit) (m : UpstreamRow) : Q unit :=
  if bool_decide (up_name m ∈ names) then qret tt
  else
    t <-- now;;
    update_many db_internal (λ u, (up_id u =? up_id m) && live_upstream u) (delete_upstream_row t);;-
    delete_nodes (up_id m).

Definition drop_upstreams (s : ConfigSnapshot) : Q unit :=
  current <-- all db_internal live_upstream;;
  for_each current tt (drop_upstream (map u_name (cs_upstreams s))).

(** *** 3. Routes, by name, with the upstream they refer to *)

Definition resolve_upstream (s : ConfigSnapshot) (ids : gmap Z Z) (r : RouteDto) : option Z :=
  match r_upstream_id r with
  | Some sid => List.find (λ u, u_id u =? sid) (cs_upstreams s) ≫= λ u, ids !! u_id u
  | None => None
  end.

Definition route_row (r : RouteDto) (upstream_id : option Z) (t : Z) (m : RouteRow) : RouteRow :=
  mkRouteRow (rt_id m) (rt_name m) (protocol_to_i16 (r_protocol r)) (to_value (r_match_conditions r)) (r_priority r)
    upstream_id (r_host_header r) (r_allow_retry_non_idempotent r) (r_ws_strip_sensitive_headers r) (r_enabled r)
    (rt_created_at m) t (rt_deleted_at m).

Definition upsert_route (s : ConfigSnapshot) (upstream_ids : gmap Z Z) (ids : gmap Z Z) (r : RouteDto) : Q (gmap Z Z) :=
  let upstream_id := resolve_upstream s upstream_ids r in
  existing <-- one db_internal (λ x, (rt_name x =? r_name r)%string && live_route x);;
  actual_id <-- match existing with
                | Some m =>
                    t <-- now;;
                    update db_internal (route_row r upstream_id t m);;-
                    qret (rt_id m)
                | None =>
                    c <-- now;; t <-- now;;
                    model <-- insert db_internal (route_create_to_active_model
                      (mkCreateRoute (r_name r) (r_protocol r) (r_match_conditions r) (Some (r_priority r))
                         (u64_wrap <$> upstream_id) (r_host_header r) (Some (r_allow_retry_non_idempotent r))
                         (Some (r_ws_strip_sensitive_headers r)) (Some (r_enabled r))) c t);;
                    qret (rt_id model)
                end;;
  qret (<[r_id r := actual_id]> ids).

(** *** 4. Enabled routes that are not in the snapshot *)

Definition drop_route (names : list string) (deleted : list Z) (m : RouteRow) : Q (list Z) :=
  if bool_decide (rt_name m ∈ names) then qret deleted
  else
    t <-- now;;
    update_many db_internal (λ x, (rt_id x =? rt_id m) && live_route x) (delete_route_row t);;-
    qret (deleted ++ [rt_id m]).

Definition drop_routes (s : ConfigSnapshot) : Q (list Z) :=
  current <-- all db_internal (λ x, live_route x && rt_enabled x);;
  for_each current [] (drop_route (map r_name (cs_routes s))).

(** *** 5. Bindings *)

Definition drop_bindings_of (_ : unit) (rid : Z) : Q unit :=
  t <-- now;;
  update_many db_internal (λ b, (bd_route_id b =? rid) && live_binding b) (delete_binding_row t);;- qret tt.

Definition binding_row (b : PluginBindingDto) (t : Z) (m : BindingRow) : BindingRow :=
  mkBindingRow (bd_id m) (bd_route_id m) (bd_plugin_name m) (b_config b) (b_order b) (b_blocking b) (b_enabled b)
    (bd_created_at m) t (bd_deleted_at m).

Definition upsert_binding (route_ids : gmap Z Z) (desired : gset (Z * string)) (b : PluginBindingDto) : Q (gset (Z * string)) :=
  match route_ids !! b_route_id b with
  | None => qfail (DataMapping ("binding route " +:+ pretty (b_route_id b) +:+ " not found in snapshot routes"))
  | Some actual =>
      existing <-- one db_internal (binding_of actual (b_plugin_name b));;
      (match existing with
       | Some m => t <-- now;; update db_internal (binding_row b t m);;- qret tt
       | None =>
           c <-- now;; t <-- now;;
           insert db_internal (binding_create_to_active_model actual
             (mkBindPlugin (b_plugin_name b) (b_config b) (Some (b_order b)) (Some (b_blocking b)) (Some (b_enabled b))) c t);;-
           qret tt
       end);;-
      qret ({[ (actual, b_plugin_name b) ]} ∪ desired)
  end.

Definition drop_binding (desired : gset (Z * string)) (actual : Z) (_ : unit) (m : BindingRow) : Q unit :=
  if bool_decide ((actual, bd_plugin_name m) ∈ desired) then qret tt
  else
    t <-- now;;
    update_many db_internal (λ b, (bd_id b =? bd_id m) && live_binding b) (delete_binding_row t);;- qret tt.

Definition drop_bindings (desired : gset (Z * string)) (_ : unit) (actual : Z) : Q unit :=
  current <-- all db_internal (λ b, (bd_route_id b =? actual) && live_binding b);;
  for_each current tt (drop_binding desired actual).

(** *** All of it, in one transaction *)

Definition apply_snapshot (s : ConfigSnapshot) : Q unit :=
  transaction (
    upstream_ids <-- for_each (cs_upstreams s) ∅ upsert_upstream;;
    drop_upstreams s;;-
    route_ids <-- for_each (cs_routes s) ∅ (upsert_route s upstream_ids);;
    deleted <-- drop_routes s;;
    for_each deleted tt drop_bindings_of;;-
    desired <-- for_each (cs_plugin_bindings s) ∅ (upsert_binding route_ids);;
    for_each (map snd (map_to_list route_ids)) tt (drop_bindings desired)).

(** ** Upstreams and their nodes *)

Definition live_nodes (d : Db) (id : Z) : list NodeRow := List.filter (live_node_of id) (d_nodes d).
Definition live_upstreams (d : Db) : list UpstreamRow := lives live_upstream (d_upstreams d).
Definition upstream_names (d : Db) : list string := map up_name (live_upstreams d).

(** What the snapshot and a row say of a node. *)
Definition node_spec (n : NodeRow) : string * Z * bool := (nd_address n, nd_weight n, nd_enabled n).
Definition dto_spec (n : UpstreamNodeDto) : string * Z * bool := (n_address n, n_weight n, n_enabled n).

(** The tables that the statements on upstreams leave alone. *)
Definition frame (d d' : Db) : Prop :=
  d_routes d' = d_routes d ∧ d_bindings d' = d_bindings d ∧ d_versions d' = d_versions d.

Lemma insert_nodes_ok e id l w w' :
  insert_nodes e id (map node_request l) w = (w', Ok tt) →
  ∃ new, d_nodes (w_db w') = d_nodes (w_db w) ++ new ∧ d_upstreams (w_db w') = d_upstreams (w_db w) ∧
    frame (w_db w) (w_db w') ∧ map node_spec new = map dto_spec l ∧ Forall (λ n, live_node_of id n = true) new.
Proof.
  unfold insert_nodes. revert w. induction l as [|n l IH]; simpl; intros w.
  { intros [= <-]. exists []. rewrite app_nil_r. by repeat split. }
  intros (w1 & [] & E1 & E2)%qbind_ok. apply qbind_ok in E1 as (wa & c & Ea & E1). apply qbind_ok in E1 as (wb & t & Eb & E1).
  apply qbind_ok in E1 as (wc & r & Ec & E1). injection E1 as ->. apply insert_ok in Ec as (-> & Ec & _).
  apply now_ok in Ea, Eb. rewrite Eb, Ea in Ec. destruct (IH w1 E2) as (new & Hn & Hu & (Hr & Hb & Hv) & Hs & Hl).
  rewrite Ec in *. simpl in *. eexists (_ :: new). rewrite Hn, <- app_assoc.
  split_and!; [done|done|by repeat split|by simpl; rewrite Hs|].
  constructor; [|done]. unfold live_node_of. simpl. by rewrite Z.eqb_refl.
Qed.

Lemma delete_nodes_ok id w w' :
  delete_nodes id w = (w', Ok tt) →
  d_upstreams (w_db w') = d_upstreams (w_db w) ∧ frame (w_db w) (w_db w') ∧
  live_nodes (w_db w') id = [] ∧ ∀ id', id' ≠ id → live_nodes (w_db w') id' = live_nodes (w_db w) id'.
Proof.
  intros (w1 & t & E1 & E2)%qbind_ok. apply qbind_ok in E2 as (w2 & n & E2 & E3). injection E3 as <-.
  apply now_ok in E1. apply update_many_ok in E2 as [E2 _]. rewrite E2, E1. split_and!; [done|by repeat split| |].
  - unfold live_nodes. simpl. unfold updated_many. induction (d_nodes (w_db w)) as [|x l IH]; simpl; [done|].
    destruct (live_node_of id x) eqn:E; [|by rewrite E]. unfold live_node_of at 1. simpl. by rewrite andb_false_r.
  - intros id' Hne. unfold live_nodes. simpl. unfold updated_many. induction (d_nodes (w_db w)) as [|x l IH]; simpl; [done|].
    destruct (live_node_of id x) eqn:E; simpl; [|by rewrite IH].
    assert (live_node_of id' (delete_node_row t x) = false) as -> by (unfold live_node_of; simpl; apply andb_false_r).
    assert (live_node_of id' x = false) as ->; [|done].
    unfold live_node_of in *. apply andb_prop in E as [E%Z.eqb_eq _]. apply andb_false_iff. left. apply Z.eqb_neq. congruence.
Qed.

(** A row says of an upstream what the snapshot says. *)
Definition upstream_matches (up : UpstreamDto) (row : UpstreamRow) : Prop :=
  up_name row = u_name up ∧ up_algorithm row = algorithm_to_i16 (u_algorithm up) ∧
  up_retry_enabled row = u_retry_enabled up ∧ up_deleted_at row = None.

Lemma live_node_other id id' n : live_node_of id n = true → id' ≠ id → live_node_of id' n = false.
Proof.
  unfold live_node_of. intros [E%Z.eqb_eq _]%andb_prop Hne. apply andb_false_iff. left. apply Z.eqb_neq. congruence.
Qed.

Lemma live_nodes_app d id l new :
  d_nodes d = l ++ new → Forall (λ n, live_node_of id n = true) new →
  live_nodes d id = List.filter (live_node_of id) l ++ new ∧ ∀ id', id' ≠ id → live_nodes d id' = List.filter (live_node_of id') l.
Proof.
  intros E Hnew. unfold live_nodes. rewrite E. split; [|intros id' Hne]; rewrite List.filter_app.
  - f_equal. clear E. induction Hnew as [|n new Hn _ IH]; simpl; [done|]. by rewrite Hn, IH.
  - assert (List.filter (live_node_of id') new = []) as ->; [|by rewrite app_nil_r]. clear E.
    induction Hnew as [|n new Hn _ IH]; simpl; [done|]. by rewrite (live_node_other id id' n).
Qed.

(** An id that no upstream has belongs to no node. *)
Lemma no_nodes d id : db_ok mysql d → id ∉ map up_id (d_upstreams d) → live_nodes d id = [].
Proof.
  intros Hok Hid. unfold live_nodes. pose proof (fk_nodes _ _ Hok) as Hfk.
  induction Hfk as [|n l Hn _ IH]; simpl; [done|]. destruct (live_node_of id n) eqn:E; [|done].
  unfold live_node_of in E. apply andb_prop in E as [E%Z.eqb_eq _]. congruence.
Qed.

Lemma upsert_upstream_ok ids up w w' ids' :
  NoDup (upstream_names (w_db w)) → upsert_upstream ids up w = (w', Ok ids') →
  ∃ row, ids' = <[u_id up := up_id row]> ids ∧ upstream_matches up row ∧
    (∀ x, x ∈ live_upstreams (w_db w') ↔ x = row ∨ x ∈ live_upstreams (w_db w) ∧ up_name x ≠ up_name row) ∧
    NoDup (upstream_names (w_db w')) ∧ frame (w_db w) (w_db w') ∧
    map node_spec (live_nodes (w_db w') (up_id row)) =
      (if bool_decide (u_name up ∈ upstream_names (w_db w)) then map dto_spec (u_nodes up) else []) ∧
    ∀ x, x ∈ live_upstreams (w_db w') → x ≠ row → live_nodes (w_db w') (up_id x) = live_nodes (w_db w) (up_id x).
Proof.
  intros Hnd (w1 & found & E1 & E2)%qbind_ok. assert (db_ok mysql (w_db w)) as Hok by (by apply stmt_ok in E1 as [[= <- _] Hok]).
  apply one_ok in E1 as [Hw1 ->]. apply qbind_ok in E2 as (w2 & id & E2 & [= <- <-]).
  pose proof (find_live live_upstream up_name (λ u, (up_name u =? u_name up)%string && live_upstream u)
    (d_upstreams (w_db w)) (u_name up)) as Hfind.
  change (@rows UpstreamRow _ (w_db w)) with (d_upstreams (w_db w)) in E2.
  destruct (List.find _ _) as [m|].
  - destruct Hfind as [Hm Hname]; [intros; by rewrite andb_true_iff, String.eqb_eq|].
    apply qbind_ok in E2 as (wa & t & Ea & E2). apply qbind_ok in E2 as (wb & row & Eb & E2).
    apply qbind_ok in E2 as (wc & [] & Ec & E2). apply qbind_ok in E2 as (wd & [] & Ed & [= <- <-]).
    apply now_ok in Ea. apply update_ok in Eb as (-> & _ & Eb & _). rewrite Ea, Hw1 in Eb.
    apply delete_nodes_ok in Ec as (Hu1 & (Hr1 & Hb1 & Hv1) & Hn1 & Ho1).
    apply insert_nodes_ok in Ed as (new & Hn2 & Hu2 & (Hr2 & Hb2 & Hv2) & Hs2 & Hl2).
    rewrite Eb in *. simpl in *. pose proof Hm as [_ Hlive]%elem_of_lives.
    assert (live_upstream (upstream_row up t m) = true) as Hlrow by done.
    exists (upstream_row up t m). destruct (live_nodes_app _ _ _ _ Hn2 Hl2) as [Hown Hother].
    assert (up_deleted_at m = None) as Hdel by (unfold live_upstream, live in Hlive; by apply bool_decide_eq_true_1 in Hlive).
    split_and!; [done|by repeat split| | |repeat split; congruence| |].
    + unfold live_upstreams. rewrite Hu2, Hu1.
      apply (lives_update live_upstream up_name m); try done; apply Hok.
    + unfold upstream_names, live_upstreams. rewrite Hu2, Hu1.
      rewrite (keys_update live_upstream up_name m); try done. apply Hok.
    + simpl. rewrite Hown. unfold live_nodes in Hn1. rewrite Hn1. simpl. rewrite Hs2, bool_decide_eq_true_2; [done|].
      apply list_elem_of_fmap. by exists m.
    + intros x Hx Hne. unfold live_upstreams in Hx. rewrite Hu2, Hu1 in Hx.
      apply (lives_update live_upstream up_name m) in Hx as [|[Hx Hne']]; try done; try apply Hok.
      assert (up_id x ≠ up_id m) as Hid.
      { intros Hid. apply Hne'. simpl. f_equal. apply elem_of_lives in Hx as [Hx _].
        apply elem_of_lives in Hm as [Hm _]. by apply (NoDup_map_inj up_id _ x m (pk_upstreams _ _ Hok)). }
      rewrite (Hother _ Hid). apply (Ho1 _ Hid).
  - specialize (Hfind ltac:(intros; by rewrite andb_true_iff, String.eqb_eq)).
    apply qbind_ok in E2 as (wa & c & Ea & E2). apply qbind_ok in E2 as (wb & t & Eb & E2).
    apply qbind_ok in E2 as (wc & row & Ec & [= <- <-]). apply now_ok in Ea, Eb.
    apply insert_ok in Ec as (Erow & Ec & Hok'). rewrite Eb, Ea, Hw1 in Ec.
    assert (upstream_matches up row) as Hmatch by (rewrite Erow; by repeat split).
    assert (live_upstream row = true) as Hlrow by (unfold live_upstream; destruct Hmatch as (_ & _ & _ & ->); done).
    assert (∀ x, x ∈ lives live_upstream (d_upstreams (w_db w)) → up_name x ≠ up_name row) as Hfresh.
    { destruct Hmatch as [-> _]. done. }
    assert (up_id row ∉ map up_id (d_upstreams (w_db w))) as Hid.
    { pose proof (pk_upstreams _ _ Hok') as Hpk. rewrite Ec in Hpk. simpl in Hpk. rewrite map_app, NoDup_app in Hpk.
      destruct Hpk as (_ & Hpk & _). intros Hin. apply (Hpk _ Hin). by left. }
    exists row. rewrite Ec. split_and!; [done|done| | |by repeat split| |].
    + apply (lives_insert live_upstream up_name); done.
    + apply (keys_insert live_upstream up_name); done.
    + change (live_nodes _ (up_id row)) with (live_nodes (w_db w) (up_id row)). rewrite no_nodes by done.
      rewrite bool_decide_eq_false_2; [done|]. intros (x & E & Hx)%list_elem_of_fmap. by apply (Hfind x).
    + done.
Qed.


(** The nodes an upstream of the snapshot ends up with: those of the snapshot
    when an upstream of that name was there before, none when it is created. *)
Definition nodes_expected (d0 : Db) (up : UpstreamDto) : list (string * Z * bool) :=
  if bool_decide (u_name up ∈ upstream_names d0) then map dto_spec (u_nodes up) else [].

Definition upstream_restored (d0 d : Db) (ids : gmap Z Z) (up : UpstreamDto) : Prop :=
  ∃ row, row ∈ live_upstreams d ∧ ids !! u_id up = Some (up_id row) ∧ upstream_matches up row ∧
         map node_spec (live_nodes d (up_id row)) = nodes_expected d0 up.

(** The live rows with the names in question are kept, with their nodes. *)
Definition keeps_named (keep : string → Prop) (d d' : Db) : Prop :=
  ∀ x, x ∈ live_upstreams d → keep (up_name x) → x ∈ live_upstreams d' ∧ live_nodes d' (up_id x) = live_nodes d (up_id x).

Lemma frame_trans d1 d2 d3 : frame d1 d2 → frame d2 d3 → frame d1 d3.
Proof. intros (? & ? & ?) (? & ? & ?). repeat split; congruence. Qed.

Lemma restored_kept d0 d d' (ids ids' : gmap Z Z) (keep : string → Prop) up :
  upstream_restored d0 d ids up → keeps_named keep d d' → keep (u_name up) → ids' !! u_id up = ids !! u_id up →
  upstream_restored d0 d' ids' up.
Proof.
  intros (row & Hrow & Hid & Hm & Hn) Hk Hkeep Hids. pose proof Hm as (Hname & _).
  destruct (Hk row Hrow) as [Hrow' Hn']; [by rewrite Hname|]. exists row. by rewrite Hids, Hn'.
Qed.

Lemma upsert_upstreams_ok ups ids w w' ids' :
  NoDup (map u_name ups) → NoDup (map u_id ups) → NoDup (upstream_names (w_db w)) →
  for_each ups ids upsert_upstream w = (w', Ok ids') →
  NoDup (upstream_names (w_db w')) ∧ frame (w_db w) (w_db w') ∧
  (∀ up, up ∈ ups → upstream_restored (w_db w) (w_db w') ids' up) ∧
  keeps_named (λ n, n ∉ map u_name ups) (w_db w) (w_db w') ∧
  (∀ k, k ∉ map u_id ups → ids' !! k = ids !! k).
Proof.
  revert ids w. induction ups as [|up ups IH]; simpl; intros ids w Hnames Hids Hnd.
  { intros [= <- <-]. split_and!; try done. set_solver. }
  apply NoDup_cons in Hnames as [Hname Hnames]. apply NoDup_cons in Hids as [Hid Hids].
  intros (w1 & ids1 & E1 & E2)%qbind_ok.
  destruct (upsert_upstream_ok ids up w w1 ids1 Hnd E1) as (row & -> & Hm & Hlive & Hnd1 & Hf1 & Hn & Hother).
  pose proof Hm as [Hrn _].
  destruct (IH _ w1 Hnames Hids Hnd1 E2) as (Hnd' & Hf2 & Hall & Hkeep & Hmap).
  assert (row ∈ live_upstreams (w_db w1)) as Hrow by (apply Hlive; by left).
  assert (∀ n, n ≠ u_name up → n ∈ upstream_names (w_db w1) ↔ n ∈ upstream_names (w_db w)) as Hsame.
  { intros n Hn'. unfold upstream_names. rewrite !list_elem_of_fmap. split; intros (x & -> & Hx).
    - apply Hlive in Hx as [->|[Hx _]]; [congruence|eauto].
    - exists x. split; [done|]. apply Hlive. right. split; [done|congruence]. }
  split_and!; [done|by eapply frame_trans| | |].
  - intros u [->|Hu]%elem_of_cons.
    + apply (restored_kept (w_db w) (w_db w1) _ (<[u_id up:=up_id row]> ids) _ (λ n, n ∉ map u_name ups)); [|done|done|by apply Hmap].
      exists row. by rewrite lookup_insert_eq.
    + destruct (Hall u Hu) as (x & Hx & Hxi & Hxm & Hxn). exists x. split_and!; try done. rewrite Hxn. unfold nodes_expected.
      assert (u_name u ≠ u_name up) as Hne by (intros E; apply Hname; rewrite <- E; apply list_elem_of_fmap; by exists u).
      by rewrite (bool_decide_ext _ _ (Hsame _ Hne)).
  - intros x Hx [Hxn Hxs]%not_elem_of_cons.
    assert (x ∈ live_upstreams (w_db w1)) as Hx1 by (apply Hlive; right; split; [done|congruence]).
    assert (x ≠ row) as Hne by congruence. destruct (Hkeep x Hx1 Hxs) as [Hx' Hxn']. split; [done|].
    rewrite Hxn'. by apply Hother.
  - intros k [Hk Hks]%not_elem_of_cons. rewrite (Hmap k Hks). by apply lookup_insert_ne.
Qed.

(** A statement that deletes rows by id. *)
Lemma drop_upstream_ok names m w w' :
  drop_upstream names tt m w = (w', Ok tt) →
  frame (w_db w) (w_db w') ∧
  (∀ x, x ∈ live_upstreams (w_db w') ↔ x ∈ live_upstreams (w_db w) ∧ (up_id x = up_id m → up_name m ∈ names)) ∧
  ∀ x, x ∈ live_upstreams (w_db w') → live_nodes (w_db w') (up_id x) = live_nodes (w_db w) (up_id x).
Proof.
  unfold drop_upstream. case_bool_decide as Hin.
  { intros [= <-]. split_and!; [by repeat split|naive_solver|done]. }
  intros (w1 & t & E1 & E2)%qbind_ok. apply qbind_ok in E2 as (w2 & n & E2 & E3).
  apply now_ok in E1. apply update_many_ok in E2 as [E2 _]. rewrite E1 in E2.
  apply delete_nodes_ok in E3 as (Hu & Hf & Hn & Ho). rewrite E2 in *.
  assert (∀ x, x ∈ live_upstreams (w_db w') ↔ x ∈ live_upstreams (w_db w) ∧ up_id x ≠ up_id m) as Hlive.
  { intros x. unfold live_upstreams. rewrite Hu. simpl. rewrite lives_delete by done.
    rewrite andb_false_iff, Z.eqb_neq, elem_of_lives. split; [|by intros [[] ?]; auto].
    intros [[Hx Hl] [Hne|Hne]]; [done|congruence]. }
  split_and!; [done| |].
  - intros x. rewrite Hlive. naive_solver.
  - intros x [_ Hx]%Hlive. rewrite (Ho _ Hx). done.
Qed.

Lemma drop_upstreams_loop names todo w w' :
  for_each todo tt (drop_upstream names) w = (w', Ok tt) →
  frame (w_db w) (w_db w') ∧
  (∀ x, x ∈ live_upstreams (w_db w') ↔
        x ∈ live_upstreams (w_db w) ∧ ∀ m, m ∈ todo → up_id x = up_id m → up_name m ∈ names) ∧
  ∀ x, x ∈ live_upstreams (w_db w') → live_nodes (w_db w') (up_id x) = live_nodes (w_db w) (up_id x).
Proof.
  revert w. induction todo as [|m todo IH]; simpl; intros w.
  { intros [= <-]. split_and!; [by repeat split|set_solver|done]. }
  intros (w1 & [] & E1 & E2)%qbind_ok. apply drop_upstream_ok in E1 as (Hf1 & Hl1 & Hn1).
  destruct (IH _ E2) as (Hf2 & Hl2 & Hn2). split_and!; [by eapply frame_trans| |].
  - intros x. rewrite Hl2, Hl1. set_solver.
  - intros x Hx. rewrite (Hn2 x Hx). apply Hn1. by apply Hl2 in Hx as [Hx _].
Qed.

Lemma drop_upstreams_ok s w w' :
  drop_upstreams s w = (w', Ok tt) →
  frame (w_db w) (w_db w') ∧
  (∀ x, x ∈ live_upstreams (w_db w') ↔ x ∈ live_upstreams (w_db w) ∧ up_name x ∈ map u_name (cs_upstreams s)) ∧
  keeps_named (λ n, n ∈ map u_name (cs_upstreams s)) (w_db w) (w_db w').
Proof.
  intros (w1 & current & E1 & E2)%qbind_ok. assert (db_ok mysql (w_db w)) as Hok by (by apply stmt_ok in E1 as [[= <- _] Hok]).
  apply all_ok in E1 as [E1 ->]. apply drop_upstreams_loop in E2 as (Hf & Hl & Hn). rewrite E1 in *.
  assert (∀ x, x ∈ live_upstreams (w_db w') ↔ x ∈ live_upstreams (w_db w) ∧ up_name x ∈ map u_name (cs_upstreams s)) as Hlive.
  { intros x. rewrite Hl. split; intros [Hx Hm]; (split; [done|]); [by apply (Hm x)|]. intros m Hm' Hid.
    assert (m = x) as ->; [|done]. apply elem_of_lives in Hx as [Hx _]. apply elem_of_lives in Hm' as [Hm' _].
    by apply (NoDup_map_inj up_id _ m x (pk_upstreams _ _ Hok)). }
  split_and!; [done|done|]. intros x Hx Hk. assert (x ∈ live_upstreams (w_db w')) as Hx' by (by apply Hlive). by split; [|apply Hn].
Qed.

(** ** Routes *)

Definition live_routes (d : Db) : list RouteRow := lives live_route (d_routes d).

(** Rows that a key tells apart. *)
Definition told_apart {A K} (key : A → K) (l : list A) : Prop := ∀ x y, x ∈ l → y ∈ l → key x = key y → x = y.

Lemma told_apart_NoDup {A K} (key : A → K) (id : A → Z) l : NoDup (map id l) → told_apart key l → NoDup (map key l).
Proof. intros Hid Ht. apply (NoDup_map_by _ _ _ Hid). intros x y Hx Hy E. f_equal. by apply Ht. Qed.

Lemma told_apart_written {A K} (key : A → K) row l l' :
  told_apart key l → (∀ x, x ∈ l' ↔ x = row ∨ x ∈ l ∧ key x ≠ key row) → told_apart key l'.
Proof. intros Ht Hl x y [->|[Hx Hx']]%Hl [->|[Hy Hy']]%Hl E; [done|congruence|congruence|by apply Ht]. Qed.

Lemma told_apart_subset {A K} (key : A → K) l l' : told_apart key l → (∀ x, x ∈ l' → x ∈ l) → told_apart key l'.
Proof. intros Ht Hl x y Hx Hy. apply Ht; by apply Hl. Qed.

(** The unique index of PostgreSQL and SQLite covers the live rows, that of MySQL
    the deleted ones only. *)
Lemma live_route_names d : mysql = false → db_ok mysql d → NoDup (map rt_name (live_routes d)).
Proof.
  intros partial_indexes Hok. pose proof (uk_route_name _ _ Hok) as Hnd. rewrite partial_indexes in Hnd.
  apply (NoDup_fmap_1 (λ n : string, (n, @None Z))). unfold live_routes, lives.
  replace ((λ n, (n, None)) <$> map rt_name (List.filter live_route (d_routes d))) with (omap (route_key false) (d_routes d)); [done|].
  clear. induction (d_routes d) as [|r l IH]; simpl; [done|]. unfold route_key at 1. unfold live_route at 1.
  destruct (live (rt_deleted_at r)); simpl; [f_equal|]; exact IH.
Qed.

Definition route_matches (r : RouteDto) (upstream_id : option Z) (row : RouteRow) : Prop :=
  rt_name row = r_name r ∧ rt_protocol row = protocol_to_i16 (r_protocol r) ∧
  rt_match_conditions row = to_value (r_match_conditions r) ∧ rt_priority row = r_priority r ∧
  rt_upstream_id row = upstream_id ∧ rt_host_header row = r_host_header r ∧
  rt_allow_retry_non_idempotent row = r_allow_retry_non_idempotent r ∧
  rt_ws_strip_sensitive_headers row = r_ws_strip_sensitive_headers r ∧ rt_enabled row = r_enabled r ∧
  rt_deleted_at row = None.

(** The tables that the statements on routes leave alone. *)
Definition frame_r (d d' : Db) : Prop :=
  d_upstreams d' = d_upstreams d ∧ d_nodes d' = d_nodes d ∧ d_bindings d' = d_bindings d ∧ d_versions d' = d_versions d.

Lemma frame_r_trans d1 d2 d3 : frame_r d1 d2 → frame_r d2 d3 → frame_r d1 d3.
Proof. intros (? & ? & ? & ?) (? & ? & ? & ?). repeat split; congruence. Qed.

Lemma i64_u64_i64 z : - 2 ^ 63 <= z < 2 ^ 63 → i64_wrap (u64_wrap z) = z.
Proof.
  intros Hz. unfold i64_wrap, u64_wrap. rewrite Zplus_mod_idemp_l. rewrite Z.mod_small; lia.
Qed.

Lemma route_names_distinct d : db_ok mysql d → told_apart rt_name (live_routes d) → NoDup (map rt_name (live_routes d)).
Proof. intros Hok. apply (told_apart_NoDup rt_name rt_id). apply NoDup_map_filter, Hok. Qed.

Lemma upsert_route_ok s uids ids r w w' ids' :
  told_apart rt_name (live_routes (w_db w)) →
  (∀ z, resolve_upstream s uids r = Some z → - 2 ^ 63 <= z < 2 ^ 63) →
  upsert_route s uids ids r w = (w', Ok ids') →
  ∃ row, ids' = <[r_id r := rt_id row]> ids ∧ route_matches r (resolve_upstream s uids r) row ∧
    (∀ x, x ∈ live_routes (w_db w') ↔ x = row ∨ x ∈ live_routes (w_db w) ∧ rt_name x ≠ rt_name row) ∧
    frame_r (w_db w) (w_db w').
Proof.
  intros Hapart Hrange (w1 & found & E1 & E2)%qbind_ok. assert (db_ok mysql (w_db w)) as Hok by (by apply stmt_ok in E1 as [[= <- _] Hok]).
  apply one_ok in E1 as [Hw1 ->]. apply qbind_ok in E2 as (w2 & id & E2 & [= <- <-]).
  pose proof (find_live live_route rt_name (λ x, (rt_name x =? r_name r)%string && live_route x)
    (d_routes (w_db w)) (r_name r)) as Hfind.
  change (@rows RouteRow _ (w_db w)) with (d_routes (w_db w)) in E2.
  destruct (List.find _ _) as [m|].
  - destruct Hfind as [Hm Hname]; [intros; by rewrite andb_true_iff, String.eqb_eq|].
    apply qbind_ok in E2 as (wa & t & Ea & E2). apply qbind_ok in E2 as (wb & row & Eb & [= <- <-]).
    apply now_ok in Ea. apply update_ok in Eb as (-> & _ & Eb & _). rewrite Ea, Hw1 in Eb. rewrite Eb.
    pose proof Hm as [_ Hlive]%elem_of_lives.
    assert (rt_deleted_at m = None) as Hdel by (unfold live_route, live in Hlive; by apply bool_decide_eq_true_1 in Hlive).
    exists (route_row r (resolve_upstream s uids r) t m). split_and!; [done|by repeat split| |by repeat split].
    apply (lives_update live_route rt_name m); try done; [apply Hok|by apply route_names_distinct].
  - specialize (Hfind ltac:(intros; by rewrite andb_true_iff, String.eqb_eq)).
    apply qbind_ok in E2 as (wa & c & Ea & E2). apply qbind_ok in E2 as (wb & t & Eb & E2).
    apply qbind_ok in E2 as (wc & row & Ec & [= <- <-]). apply now_ok in Ea, Eb.
    apply insert_ok in Ec as (Erow & Ec & _). rewrite Eb, Ea, Hw1 in Ec. rewrite Ec.
    assert (route_matches r (resolve_upstream s uids r) row) as Hmatch.
    { rewrite Erow. repeat split. cbn [rt_upstream_id route_create_to_active_model cr_upstream_id].
      destruct (resolve_upstream s uids r) as [z|]; simpl; [|done]. f_equal. by apply i64_u64_i64, Hrange. }
    exists row. split_and!; [done|done| |by repeat split].
    apply (lives_insert live_route rt_name); [by destruct Hmatch as [-> _]|].
    unfold live_route. by destruct Hmatch as (_ & _ & _ & _ & _ & _ & _ & _ & _ & ->).
Qed.

Definition route_restored (s : ConfigSnapshot) (uids ids : gmap Z Z) (d : Db) (r : RouteDto) : Prop :=
  ∃ row, row ∈ live_routes d ∧ ids !! r_id r = Some (rt_id row) ∧ route_matches r (resolve_upstream s uids r) row.

Lemma upsert_routes_ok s uids rs ids w w' ids' :
  told_apart rt_name (live_routes (w_db w)) →
  (∀ r z, r ∈ rs → resolve_upstream s uids r = Some z → - 2 ^ 63 <= z < 2 ^ 63) →
  NoDup (map r_name rs) → NoDup (map r_id rs) →
  for_each rs ids (upsert_route s uids) w = (w', Ok ids') →
  (∀ r, r ∈ rs → route_restored s uids ids' (w_db w') r) ∧ frame_r (w_db w) (w_db w') ∧
  (∀ x, x ∈ live_routes (w_db w) → rt_name x ∉ map r_name rs → x ∈ live_routes (w_db w')) ∧
  (∀ k, k ∉ map r_id rs → ids' !! k = ids !! k).
Proof.
  revert ids w. induction rs as [|r rs IH]; simpl; intros ids w Hapart Hrange Hnames Hids.
  { intros [= <- <-]. split_and!; [set_solver|by repeat split|done|done]. }
  apply NoDup_cons in Hnames as [Hname Hnames]. apply NoDup_cons in Hids as [Hid Hids].
  intros (w1 & ids1 & E1 & E2)%qbind_ok.
  apply upsert_route_ok in E1 as (row & -> & Hm & Hlive & Hf1); [|done|intros z; apply Hrange; by left]. pose proof Hm as [Hrn _].
  destruct (IH _ w1 (told_apart_written _ _ _ _ Hapart Hlive) (λ x z Hx, Hrange x z (list_elem_of_further _ _ _ Hx)) Hnames Hids E2) as (Hall & Hf2 & Hkeep & Hmap).
  split_and!; [|by eapply frame_r_trans| |].
  - intros x [->|Hx]%elem_of_cons; [|by apply Hall]. exists row.
    split_and!; [apply Hkeep; [apply Hlive; by left|congruence]| |done]. rewrite (Hmap _ Hid). by apply lookup_insert_eq.
  - intros x Hx [Hxn Hxs]%not_elem_of_cons. apply Hkeep; [|done]. apply Hlive. right. split; [done|congruence].
  - intros k [Hk Hks]%not_elem_of_cons. rewrite (Hmap k Hks). by apply lookup_insert_ne.
Qed.

Lemma drop_route_ok names deleted m w w' deleted' :
  drop_route names deleted m w = (w', Ok deleted') →
  frame_r (w_db w) (w_db w') ∧
  ∀ x, x ∈ live_routes (w_db w') ↔ x ∈ live_routes (w_db w) ∧ (rt_id x = rt_id m → rt_name m ∈ names).
Proof.
  unfold drop_route. case_bool_decide as Hin.
  { intros [= <- <-]. split; [by repeat split|naive_solver]. }
  intros (w1 & t & E1 & E2)%qbind_ok. apply qbind_ok in E2 as (w2 & n & E2 & [= <- <-]).
  apply now_ok in E1. apply update_many_ok in E2 as [E2 _]. rewrite E1 in E2. rewrite E2. split; [by repeat split|].
  intros x. unfold live_routes. simpl. rewrite lives_delete by done. rewrite andb_false_iff, Z.eqb_neq, elem_of_lives. split.
  - intros [[Hx Hl] [Hne|Hne]]; [done|congruence].
  - intros [Hx Hk]. split; [done|]. left. intros E. by apply Hin, Hk.
Qed.

Lemma drop_routes_loop names todo deleted w w' deleted' :
  for_each todo deleted (drop_route names) w = (w', Ok deleted') →
  frame_r (w_db w) (w_db w') ∧
  ∀ x, x ∈ live_routes (w_db w') ↔
       x ∈ live_routes (w_db w) ∧ ∀ m, m ∈ todo → rt_id x = rt_id m → rt_name m ∈ names.
Proof.
  revert deleted w. induction todo as [|m todo IH]; simpl; intros deleted w.
  { intros [= <- <-]. split; [by repeat split|set_solver]. }
  intros (w1 & d1 & E1 & E2)%qbind_ok. apply drop_route_ok in E1 as [Hf1 Hl1].
  destruct (IH _ _ E2) as [Hf2 Hl2]. split; [by eapply frame_r_trans|]. intros x. rewrite Hl2, Hl1. set_solver.
Qed.

Lemma drop_routes_ok s w w' deleted :
  drop_routes s w = (w', Ok deleted) →
  frame_r (w_db w) (w_db w') ∧
  ∀ x, x ∈ live_routes (w_db w') ↔
       x ∈ live_routes (w_db w) ∧ (rt_enabled x = true → rt_name x ∈ map r_name (cs_routes s)).
Proof.
  intros (w1 & current & E1 & E2)%qbind_ok. assert (db_ok mysql (w_db w)) as Hok by (by apply stmt_ok in E1 as [[= <- _] Hok]).
  apply all_ok in E1 as [E1 ->]. apply drop_routes_loop in E2 as [Hf Hl]. rewrite E1 in *. split; [done|].
  intros x. rewrite Hl. split; intros [Hx Hm]; (split; [done|]).
  - intros He. apply (Hm x); [|done]. apply filter_elem_of. apply elem_of_lives in Hx as [Hx Hlive]. split; [done|by rewrite Hlive, He].
  - intros m [Hm' [Hlm Hem]%andb_prop]%filter_elem_of Hid. apply elem_of_lives in Hx as [Hx _].
    assert (m = x) as -> by (by apply (NoDup_map_inj rt_id _ m x (pk_routes _ _ Hok))). by apply Hm.
Qed.

(** ** Bindings *)

Definition live_bindings (d : Db) : list BindingRow := lives live_binding (d_bindings d).
Definition bkey (b : BindingRow) : Z * string := (bd_route_id b, bd_plugin_name b).

Lemma live_binding_keys d : mysql = false → db_ok mysql d → NoDup (map bkey (live_bindings d)).
Proof.
  intros partial_indexes Hok. pose proof (uk_route_plugin _ _ Hok) as Hnd. rewrite partial_indexes in Hnd.
  apply (NoDup_fmap_1 (λ k : Z * string, (k.1, k.2, @None Z))). unfold live_bindings, lives.
  replace ((λ k : Z * string, (k.1, k.2, None)) <$> map bkey (List.filter live_binding (d_bindings d)))
    with (omap (binding_key false) (d_bindings d)); [done|].
  clear. induction (d_bindings d) as [|b l IH]; simpl; [done|]. unfold binding_key at 1. unfold live_binding at 1.
  destruct (live (bd_deleted_at b)); simpl; [f_equal|]; exact IH.
Qed.

Definition binding_matches (b : PluginBindingDto) (row : BindingRow) : Prop :=
  bd_plugin_name row = b_plugin_name b ∧ bd_config row = b_config b ∧ bd_order row = b_order b ∧
  bd_blocking row = b_blocking b ∧ bd_enabled row = b_enabled b ∧ bd_deleted_at row = None.

Definition frame_b (d d' : Db) : Prop :=
  d_upstreams d' = d_upstreams d ∧ d_nodes d' = d_nodes d ∧ d_routes d' = d_routes d ∧ d_versions d' = d_versions d.

Lemma frame_b_trans d1 d2 d3 : frame_b d1 d2 → frame_b d2 d3 → frame_b d1 d3.
Proof. intros (? & ? & ? & ?) (? & ? & ? & ?). repeat split; congruence. Qed.

Lemma drop_bindings_of_ok rids w w' :
  for_each rids tt drop_bindings_of w = (w', Ok tt) →
  frame_b (w_db w) (w_db w') ∧ ∀ x, x ∈ live_bindings (w_db w') → x ∈ live_bindings (w_db w).
Proof.
  revert w. induction rids as [|rid rids IH]; simpl; intros w; [intros [= <-]; by repeat split|].
  intros (w1 & [] & E1 & E2)%qbind_ok. apply qbind_ok in E1 as (wa & t & Ea & E1). apply qbind_ok in E1 as (wb & n & Eb & [= <-]).
  apply now_ok in Ea. apply update_many_ok in Eb as [Eb _]. rewrite Ea in Eb. destruct (IH _ E2) as [Hf Hl]. rewrite Eb in Hf, Hl.
  split; [done|]. intros x Hx%Hl. unfold live_bindings in Hx. simpl in Hx. by apply (lives_delete live_binding bkey) in Hx as [Hx _].
Qed.

Lemma binding_keys_distinct d : db_ok mysql d → told_apart bkey (live_bindings d) → NoDup (map bkey (live_bindings d)).
Proof. intros Hok. apply (told_apart_NoDup bkey bd_id). apply NoDup_map_filter, Hok. Qed.

Lemma upsert_binding_ok rids desired b w w' desired' :
  told_apart bkey (live_bindings (w_db w)) →
  upsert_binding rids desired b w = (w', Ok desired') →
  ∃ actual row, rids !! b_route_id b = Some actual ∧ desired' = {[ (actual, b_plugin_name b) ]} ∪ desired ∧
    bd_route_id row = actual ∧ binding_matches b row ∧
    (∀ x, x ∈ live_bindings (w_db w') ↔ x = row ∨ x ∈ live_bindings (w_db w) ∧ bkey x ≠ bkey row) ∧
    frame_b (w_db w) (w_db w').
Proof.
  intros Hapart. unfold upsert_binding. destruct (rids !! b_route_id b) as [actual|]; [|done].
  intros (w1 & found & E1 & E2)%qbind_ok. assert (db_ok mysql (w_db w)) as Hok by (by apply stmt_ok in E1 as [[= <- _] Hok]).
  apply one_ok in E1 as [Hw1 ->]. apply qbind_ok in E2 as (w2 & [] & E2 & [= <- <-]).
  pose proof (find_live live_binding bkey (binding_of actual (b_plugin_name b)) (d_bindings (w_db w)) (actual, b_plugin_name b)) as Hfind.
  assert (∀ x, binding_of actual (b_plugin_name b) x = true ↔ bkey x = (actual, b_plugin_name b) ∧ live_binding x = true) as Hp.
  { intros x. unfold binding_of, bkey. rewrite !andb_true_iff, Z.eqb_eq, String.eqb_eq. split; [by intros [[-> ->] ?]|by intros [[= -> ->] ?]]. }
  specialize (Hfind Hp). change (@rows BindingRow _ (w_db w)) with (d_bindings (w_db w)) in E2.
  destruct (List.find _ _) as [m|].
  - destruct Hfind as [Hm Hkey]. apply qbind_ok in E2 as (wa & t & Ea & E2). apply qbind_ok in E2 as (wb & row & Eb & [= <-]).
    apply now_ok in Ea. apply update_ok in Eb as (-> & _ & Eb & _). rewrite Ea, Hw1 in Eb. rewrite Eb.
    pose proof Hm as [_ Hlive]%elem_of_lives.
    assert (bd_deleted_at m = None) as Hdel by (unfold live_binding, live in Hlive; by apply bool_decide_eq_true_1 in Hlive).
    injection Hkey as Hr Hn. exists actual, (binding_row b t m). split_and!; [done..|by repeat split| |by repeat split].
    apply (lives_update live_binding bkey m); try done; [apply Hok|by apply binding_keys_distinct].
  - apply qbind_ok in E2 as (wa & c & Ea & E2). apply qbind_ok in E2 as (wb & t & Eb & E2).
    apply qbind_ok in E2 as (wc & row & Ec & [= <-]). apply now_ok in Ea, Eb.
    apply insert_ok in Ec as (Erow & Ec & _). rewrite Eb, Ea, Hw1 in Ec. rewrite Ec.
    exists actual, row. split_and!; [done..|by rewrite Erow|by rewrite Erow; repeat split| |by repeat split].
    apply (lives_insert live_binding bkey); [by rewrite Erow|by rewrite Erow].
Qed.

Definition dto_key (rids : gmap Z Z) (b : PluginBindingDto) : option (Z * string) :=
  (λ actual, (actual, b_plugin_name b)) <$> rids !! b_route_id b.

Definition binding_restored (rids : gmap Z Z) (d : Db) (b : PluginBindingDto) : Prop :=
  ∃ row, row ∈ live_bindings d ∧ dto_key rids b = Some (bkey row) ∧ binding_matches b row.

Lemma upsert_bindings_ok rids bs desired w w' desired' :
  told_apart bkey (live_bindings (w_db w)) → NoDup (map (dto_key rids) bs) → for_each bs desired (upsert_binding rids) w = (w', Ok desired') →
  (∀ b, b ∈ bs → binding_restored rids (w_db w') b) ∧ frame_b (w_db w) (w_db w') ∧
  (∀ x, x ∈ live_bindings (w_db w) → Some (bkey x) ∉ map (dto_key rids) bs → x ∈ live_bindings (w_db w')) ∧
  (∀ k, k ∈ desired' ↔ k ∈ desired ∨ Some k ∈ map (dto_key rids) bs) ∧ told_apart bkey (live_bindings (w_db w')).
Proof.
  revert desired w. induction bs as [|b bs IH]; simpl; intros desired w Hapart Hnd.
  { intros [= <- <-]. split_and!; [set_solver|by repeat split|done|set_solver|done]. }
  apply NoDup_cons in Hnd as [Hkey Hnd]. intros (w1 & d1 & E1 & E2)%qbind_ok.
  apply upsert_binding_ok in E1 as (actual & row & Ea & -> & Hr & Hm & Hlive & Hf1); [|done]. pose proof Hm as [Hn _].
  assert (dto_key rids b = Some (bkey row)) as Hk by (unfold dto_key, bkey; rewrite Ea; simpl; by rewrite Hr, Hn).
  destruct (IH _ w1 (told_apart_written _ _ _ _ Hapart Hlive) Hnd E2) as (Hall & Hf2 & Hkeep & Hdes & Hapart').
  split_and!; [|by eapply frame_b_trans| | |done].
  - intros x [->|Hx]%elem_of_cons; [|by apply Hall]. exists row. split_and!; [|done|done].
    apply Hkeep; [apply Hlive; by left|by rewrite <- Hk].
  - intros x Hx [Hxk Hxs]%not_elem_of_cons. apply Hkeep; [|done]. apply Hlive. right. split; [done|congruence].
  - intros k. rewrite Hdes, elem_of_union, elem_of_singleton, elem_of_cons, Hk. unfold bkey. rewrite Hr, Hn. naive_solver.
Qed.

Lemma drop_binding_ok desired actual m w w' :
  drop_binding desired actual tt m w = (w', Ok tt) →
  frame_b (w_db w) (w_db w') ∧
  ∀ x, x ∈ live_bindings (w_db w') ↔
       x ∈ live_bindings (w_db w) ∧ (bd_id x = bd_id m → (actual, bd_plugin_name m) ∈ desired).
Proof.
  unfold drop_binding. case_bool_decide as Hin.
  { intros [= <-]. split; [by repeat split|naive_solver]. }
  intros (w1 & t & E1 & E2)%qbind_ok. apply qbind_ok in E2 as (w2 & n & E2 & [= <-]).
  apply now_ok in E1. apply update_many_ok in E2 as [E2 _]. rewrite E1 in E2. rewrite E2. split; [by repeat split|].
  intros x. unfold live_bindings. simpl. rewrite lives_delete by done. rewrite andb_false_iff, Z.eqb_neq, elem_of_lives. split.
  - intros [[Hx Hl] [Hne|Hne]]; [done|congruence].
  - intros [Hx Hk]. split; [done|]. left. intros E. by apply Hin, Hk.
Qed.

Lemma drop_binding_loop desired actual todo w w' :
  for_each todo tt (drop_binding desired actual) w = (w', Ok tt) →
  frame_b (w_db w) (w_db w') ∧
  ∀ x, x ∈ live_bindings (w_db w') ↔
       x ∈ live_bindings (w_db w) ∧ ∀ m, m ∈ todo → bd_id x = bd_id m → (actual, bd_plugin_name m) ∈ desired.
Proof.
  revert w. induction todo as [|m todo IH]; simpl; intros w.
  { intros [= <-]. split; [by repeat split|set_solver]. }
  intros (w1 & [] & E1 & E2)%qbind_ok. apply drop_binding_ok in E1 as [Hf1 Hl1].
  destruct (IH _ E2) as [Hf2 Hl2]. split; [by eapply frame_b_trans|]. intros x. rewrite Hl2, Hl1. set_solver.
Qed.

Lemma drop_bindings_ok desired rids w w' :
  for_each rids tt (drop_bindings desired) w = (w', Ok tt) →
  frame_b (w_db w) (w_db w') ∧
  ∀ x, x ∈ live_bindings (w_db w') ↔ x ∈ live_bindings (w_db w) ∧ (bd_route_id x ∈ rids → bkey x ∈ desired).
Proof.
  revert w. induction rids as [|rid rids IH]; simpl; intros w.
  { intros [= <-]. split; [by repeat split|set_solver]. }
  intros (w1 & [] & E1 & E2)%qbind_ok. apply qbind_ok in E1 as (wa & current & Ea & E1).
  assert (db_ok mysql (w_db w)) as Hok by (by apply stmt_ok in Ea as [[= <- _] Hok]).
  apply all_ok in Ea as [Ea ->]. apply drop_binding_loop in E1 as [Hf1 Hl1]. rewrite Ea in *.
  destruct (IH _ E2) as [Hf2 Hl2]. split; [by eapply frame_b_trans|]. intros x. rewrite Hl2, Hl1, elem_of_cons. split.
  - intros [[Hx Hm] Hr]. split; [done|]. intros [<-|Hin]; [|by apply Hr]. apply (Hm x); [|done].
    apply elem_of_lives in Hx as [Hx Hl]. apply filter_elem_of. by rewrite Z.eqb_refl, Hl.
  - intros [Hx Hr]. split; [split; [done|]|by auto]. intros m [Hm [Hrm%Z.eqb_eq _]%andb_prop]%filter_elem_of Hid.
    apply elem_of_lives in Hx as [Hx _].
    assert (x = m) as -> by (by apply (NoDup_map_inj bd_id _ x m (pk_bindings _ _ Hok))).
    rewrite <- Hrm. apply Hr. by left.
Qed.

(** ** The whole snapshot *)

(** What the database holds once a snapshot has been applied to [d0]. *)
Definition restores (s : ConfigSnapshot) (d0 d : Db) : Prop :=
  ∃ uids rids : gmap Z Z,
    (∀ up, up ∈ cs_upstreams s → upstream_restored d0 d uids up) ∧
    (∀ x, x ∈ live_upstreams d → up_name x ∈ map u_name (cs_upstreams s)) ∧
    (∀ r, r ∈ cs_routes s → route_restored s uids rids d r) ∧
    (∀ x, x ∈ live_routes d → rt_enabled x = true → rt_name x ∈ map r_name (cs_routes s)) ∧
    (∀ b, b ∈ cs_plugin_bindings s → binding_restored rids d b) ∧
    (∀ r x, r ∈ cs_routes s → x ∈ live_bindings d → rids !! r_id r = Some (bd_route_id x) →
       ∃ b, b ∈ cs_plugin_bindings s ∧ b_route_id b = r_id r ∧ binding_matches b x).

(** A snapshot whose rows are named and numbered once. *)
Definition snapshot_distinct (s : ConfigSnapshot) : Prop :=
  NoDup (map u_name (cs_upstreams s)) ∧ NoDup (map u_id (cs_upstreams s)) ∧
  NoDup (map r_name (cs_routes s)) ∧ NoDup (map r_id (cs_routes s)) ∧
  NoDup (map (λ b, (b_route_id b, b_plugin_name b)) (cs_plugin_bindings s)).

Lemma apply_upstreams_ok s w w1 w2 uids :
  snapshot_distinct s → NoDup (upstream_names (w_db w)) →
  for_each (cs_upstreams s) ∅ upsert_upstream w = (w1, Ok uids) → drop_upstreams s w1 = (w2, Ok tt) →
  (∀ up, up ∈ cs_upstreams s → upstream_restored (w_db w) (w_db w2) uids up) ∧
  (∀ x, x ∈ live_upstreams (w_db w2) → up_name x ∈ map u_name (cs_upstreams s)) ∧
  frame (w_db w) (w_db w2) ∧
  (∀ r z, resolve_upstream s uids r = Some z → - 2 ^ 63 <= z < 2 ^ 63).
Proof.
  intros (Hun & Hui & _) Hnd E1 E2. apply upsert_upstreams_ok in E1 as (_ & Hf1 & Hall & _ & _); [|done..].
  assert (db_ok mysql (w_db w1)) as Hok.
  { apply qbind_ok in E2 as (wa & l & Ea & _). by apply stmt_ok in Ea as [[= <- _] Hok]. }
  apply drop_upstreams_ok in E2 as (Hf2 & Hl2 & Hk2). split_and!.
  - intros up Hup. eapply restored_kept; [by apply Hall|done|by apply list_elem_of_fmap_2|done].
  - intros x Hx. by apply Hl2.
  - by eapply frame_trans.
  - intros r z Hz. unfold resolve_upstream in Hz. destruct (r_upstream_id r) as [sid|]; [|done].
    pose proof (find_elem_of (λ u, u_id u =? sid) (cs_upstreams s)) as Hfind. destruct (List.find _ _) as [u|]; [|done].
    destruct (Hall u (proj1 Hfind)) as (row & [Hrow _]%elem_of_lives & Hid & _). simpl in Hz. simplify_eq.
    pose proof (ty_upstream_id _ _ Hok) as Hty. rewrite Forall_forall in Hty. by apply Hty.
Qed.

Lemma apply_routes_ok s uids w w1 w2 rids deleted :
  told_apart rt_name (live_routes (w_db w)) → snapshot_distinct s → (∀ r z, resolve_upstream s uids r = Some z → - 2 ^ 63 <= z < 2 ^ 63) →
  for_each (cs_routes s) ∅ (upsert_route s uids) w = (w1, Ok rids) → drop_routes s w1 = (w2, Ok deleted) →
  (∀ r, r ∈ cs_routes s → route_restored s uids rids (w_db w2) r) ∧
  (∀ x, x ∈ live_routes (w_db w2) → rt_enabled x = true → rt_name x ∈ map r_name (cs_routes s)) ∧
  frame_r (w_db w) (w_db w2) ∧
  (∀ i j a, rids !! i = Some a → rids !! j = Some a → i = j).
Proof.
  intros Hapart (_ & _ & Hrn & Hri & _) Hrange E1 E2. apply upsert_routes_ok in E1 as (Hall & Hf1 & _ & Hids); [|done|by eauto|done..].
  assert (db_ok mysql (w_db w1)) as Hok.
  { apply qbind_ok in E2 as (wa & l & Ea & _). by apply stmt_ok in Ea as [[= <- _] Hok]. }
  apply drop_routes_ok in E2 as (Hf2 & Hl2). split_and!.
  - intros r Hr. destruct (Hall r Hr) as (row & Hrow & Hid & Hm). exists row. split_and!; [|done|done].
    apply Hl2. split; [done|]. intros _. destruct Hm as [-> _]. by apply list_elem_of_fmap_2.
  - intros x Hx. by apply Hl2.
  - by eapply frame_r_trans.
  - assert (∀ i a, rids !! i = Some a → ∃ r row, r ∈ cs_routes s ∧ r_id r = i ∧ row ∈ d_routes (w_db w1) ∧
              rt_id row = a ∧ rt_name row = r_name r) as Hdom.
    { intros i a Hi. destruct (decide (i ∈ map r_id (cs_routes s))) as [(r & -> & Hr)%list_elem_of_fmap|Hn].
      - destruct (Hall r Hr) as (row & [Hrow _]%elem_of_lives & Hid & [Hname _]). exists r, row. by simplify_eq.
      - by rewrite (Hids i Hn) in Hi. }
    intros i j a (r & x & Hr & <- & Hx & <- & Hxn)%Hdom (r' & y & Hr' & <- & Hy & Hid & Hyn)%Hdom. f_equal.
    apply (NoDup_map_inj r_name (cs_routes s)); try done. rewrite <- Hxn, <- Hyn. f_equal.
    by apply (NoDup_map_inj rt_id _ x y (pk_routes _ _ Hok)).
Qed.

(** The bindings of a successful run all belong to a route of the snapshot. *)
Lemma bindings_have_routes rids bs desired w w' desired' :
  for_each bs desired (upsert_binding rids) w = (w', Ok desired') → ∀ b, b ∈ bs → is_Some (rids !! b_route_id b).
Proof.
  revert desired w. induction bs as [|b bs IH]; simpl; intros desired w E x; [set_solver|].
  apply qbind_ok in E as (w1 & d1 & E1 & E2). intros [->|Hx]%elem_of_cons; [|by eapply IH].
  unfold upsert_binding in E1. by destruct (rids !! b_route_id b).
Qed.

Lemma apply_bindings_ok s rids w w1 w2 desired :
  told_apart bkey (live_bindings (w_db w)) → snapshot_distinct s → (∀ i j a, rids !! i = Some a → rids !! j = Some a → i = j) →
  for_each (cs_plugin_bindings s) ∅ (upsert_binding rids) w = (w1, Ok desired) →
  for_each (map snd (map_to_list rids)) tt (drop_bindings desired) w1 = (w2, Ok tt) → db_ok mysql (w_db w2) →
  (∀ b, b ∈ cs_plugin_bindings s → binding_restored rids (w_db w2) b) ∧
  (∀ i x, x ∈ live_bindings (w_db w2) → rids !! i = Some (bd_route_id x) →
     ∃ b, b ∈ cs_plugin_bindings s ∧ b_route_id b = i ∧ binding_matches b x) ∧
  frame_b (w_db w) (w_db w2).
Proof.
  intros Hapart (_ & _ & _ & _ & Hnd) Hinj E1 E2 Hok. pose proof (bindings_have_routes _ _ _ _ _ _ E1) as Hsome.
  apply upsert_bindings_ok in E1 as (Hall & Hf1 & _ & Hdes & Hapart1); [|done|].
  2: { apply (NoDup_map_by _ _ _ Hnd). intros x y Hx Hy E. unfold dto_key in E.
       destruct (Hsome x Hx) as [a Ha], (Hsome y Hy) as [a' Ha']. rewrite Ha, Ha' in E. simpl in E. simplify_eq.
       f_equal; [by eapply Hinj|done]. }
  apply drop_bindings_ok in E2 as (Hf2 & Hl2).
  assert (∀ b, b ∈ cs_plugin_bindings s → binding_restored rids (w_db w2) b) as Hrest.
  { intros b Hb. destruct (Hall b Hb) as (row & Hrow & Hk & Hm). exists row. split_and!; [|done|done].
    apply Hl2. split; [done|]. intros _. apply Hdes. right. rewrite <- Hk. by apply list_elem_of_fmap_2. }
  split_and!; [done| |by eapply frame_b_trans]. intros i x Hx Hi. pose proof Hx as [_ Hin]%Hl2.
  assert (bd_route_id x ∈ map snd (map_to_list rids)) as Hval.
  { apply list_elem_of_fmap. exists (i, bd_route_id x). split; [done|]. by apply elem_of_map_to_list. }
  specialize (Hin Hval). apply Hdes in Hin as [Hin|(b & Hk & Hb)%list_elem_of_fmap]; [set_solver|].
  destruct (Hrest b Hb) as (row & Hrow & Hk' & Hm). rewrite <- Hk in Hk'. injection Hk' as Hr Hn.
  assert (x = row) as -> by (apply Hapart1; [by apply Hl2|by apply Hl2|unfold bkey; congruence]).
  exists b. split_and!; [done| |done]. unfold dto_key in Hk. destruct (rids !! b_route_id b) as [a|] eqn:Ea; [|done].
  simpl in Hk. injection Hk as <- _. by eapply Hinj.
Qed.

(** Live rows that their names tell apart. Nothing in the schema does so for
    upstreams, and on MySQL nothing for routes and bindings either. *)
Definition names_distinct (d : Db) : Prop :=
  NoDup (upstream_names d) ∧
  (mysql = true → told_apart rt_name (live_routes d) ∧ told_apart bkey (live_bindings d)).

Lemma names_distinct_apart d d' :
  names_distinct d → db_ok mysql d' → d_routes d' = d_routes d → d_bindings d' = d_bindings d →
  told_apart rt_name (live_routes d) ∧ told_apart bkey (live_bindings d).
Proof.
  intros [_ Hd] Hok Er Eb. destruct mysql eqn:Em; [by apply Hd|]. rewrite <- Em in Hok.
  unfold live_routes, live_bindings. rewrite <- Er, <- Eb. split; intros x y Hx Hy.
  - by apply (NoDup_map_inj rt_name (live_routes d')); [apply live_route_names|..].
  - by apply (NoDup_map_inj bkey (live_bindings d')); [apply live_binding_keys|..].
Qed.

Lemma apply_snapshot_ok s w w' :
  snapshot_distinct s → names_distinct (w_db w) → apply_snapshot s w = (w', Ok tt) →
  restores s (w_db w) (w_db w') ∧ d_versions (w_db w') = d_versions (w_db w).
Proof.
  intros Hs Hnd Happ. unfold apply_snapshot in Happ.
  match type of Happ with transaction ?q w = _ => pose proof (transaction_spec q w) as Htx end.
  rewrite Happ in Htx.
  destruct Htx as (w0 & w7 & E0 & E & Ew & Hok). rewrite Ew in *. rewrite <- E0 in *. clear E0 Happ Ew w w'.
  apply qbind_ok in E as (w1 & uids & E1 & E). apply qbind_ok in E as (w2 & [] & E2 & E).
  apply qbind_ok in E as (w3 & rids & E3 & E). apply qbind_ok in E as (w4 & deleted & E4 & E).
  apply qbind_ok in E as (w5 & [] & E5 & E). apply qbind_ok in E as (w6 & desired & E6 & E7).
  assert (db_ok mysql (w_db w3)) as Hok3.
  { apply qbind_ok in E4 as (wa & l & Ea & _). by apply stmt_ok in Ea as [[= <- _] ?]. }
  destruct (apply_upstreams_ok s w0 w1 w2 uids Hs (proj1 Hnd) E1 E2) as (Hu & Hun & (Hr1 & Hb1 & Hv1) & Hrange).
  assert (db_ok mysql (w_db w1)) as Hok1.
  { apply qbind_ok in E2 as (wa & l & Ea & _). by apply stmt_ok in Ea as [[= <- _] ?]. }
  pose proof E1 as (_ & (Hra & Hba & _) & _)%upsert_upstreams_ok; [|apply Hs..|apply Hnd].
  destruct (names_distinct_apart (w_db w0) (w_db w1) Hnd Hok1 Hra Hba) as [Hrap Hbap].
  destruct (apply_routes_ok s uids w2 w3 w4 rids deleted) as (Hr & Hrn & (Hu2 & Hn2 & Hb2 & Hv2) & Hinj);
    [unfold live_routes; by rewrite Hr1|done..|].
  apply drop_bindings_of_ok in E5 as [(Hu3 & Hn3 & Hr3 & Hv3) Hl3].
  destruct (apply_bindings_ok s rids w5 w6 w7 desired) as (Hb & Hbn & (Hu4 & Hn4 & Hr4 & Hv4)); try done.
  { apply (told_apart_subset _ (live_bindings (w_db w0))); [done|]. intros x Hx%Hl3. unfold live_bindings in *. by rewrite <- Hb1, <- Hb2. }
  assert (d_upstreams (w_db w7) = d_upstreams (w_db w2)) as Hus by congruence.
  assert (d_nodes (w_db w7) = d_nodes (w_db w2)) as Hns by congruence.
  assert (d_routes (w_db w7) = d_routes (w_db w4)) as Hrs by congruence.
  split; [|congruence]. exists uids, rids. unfold upstream_restored, route_restored, live_upstreams, live_routes, live_nodes in *.
  rewrite Hus, Hns, Hrs. split_and!; try done. by eauto.
Qed.

(** C13. A rollback restores the snapshot: when [apply_snapshot] succeeds, every
    upstream of the snapshot is a live row with its algorithm and retry switch,
    and no other upstream is live; every route of the snapshot is a live row that
    points to the row of its upstream, and every enabled route is one of the
    snapshot; the live bindings of those routes are exactly the snapshot's; the
    history of versions is untouched. An upstream that was there before has the
    nodes of the snapshot; one that had to be recreated has none. When it fails,
    whichever statement fails, the database is what it was. This supposes that
    the rows of the snapshot have names and ids of their own ([snapshot_distinct]),
    and that no two live upstreams share a name, nor, on MySQL, whose unique indexes
    do not cover live rows, two live routes a name or two live bindings a route and
    a plugin ([names_distinct]). None of it is enforced for upstreams: of two with
    one name, only the last is restored ([one_of_a_name]). *)
Theorem apply_snapshot_restores s w :
  snapshot_distinct s → names_distinct (w_db w) →
  match apply_snapshot s w with
  | (w', Ok _) => restores s (w_db w) (w_db w') ∧ d_versions (w_db w') = d_versions (w_db w)
  | (w', Err _) => w_db w' = w_db w
  end.
Proof.
  intros Hs Hnd. destruct (apply_snapshot s w) as [w' [[]|e]] eqn:E; [by apply apply_snapshot_ok|].
  unfold apply_snapshot in E. match type of E with transaction ?q w = _ => pose proof (transaction_spec q w) as Htx end.
  by rewrite E in Htx.
Qed.

End Apply.
End Snapshot.

Module SnapshotDemo.
Import Storage Snapshot.

#[local] Instance demo_env : DbEnv :=
  {| mysql := false; new_id _ l := 1 + foldr Z.max 0 l;
     like _ _ := false; null_eq := false; none_inserted := None; violation := "constraint violation"; column_time t := t; utc n := Z.of_nat n; fault _ := None; reply_lost _ := false |}.
#[local] Instance demo_serde : Serde RouteMatchConditions :=
  {| to_value _ := VNull; from_value _ := Ok default_conditions |}.

(** An upstream [a] that the snapshot has too and one that it lacks. *)
Definition before : Db :=
  mkDb [mkUpRow 1 "a" 0 false 0 0 None; mkUpRow 2 "old" 0 false 0 0 None]
       [mkNodeRow 1 1 "10.0.0.1:80" 1 true 0 0 None; mkNodeRow 2 2 "10.0.0.2:80" 1 true 0 0 None]
       [mkRouteRow 1 "api" 0 VNull 0 (Some 2) None false false true 0 0 None;
        mkRouteRow 2 "tmp" 0 VNull 0 (Some 2) None false false true 0 0 None]
       [mkBindingRow 1 1 "cors" VNull 0 false true 0 0 None; mkBindingRow 2 1 "auth" VNull 1 true true 0 0 None] [] [] [] [] [] [] [].

Definition snapshot : ConfigSnapshot :=
  mkConfigSnapshot
    [mkRoute 40 "api" Http default_conditions 5 (Some 70) None false false true 0 0]
    [mkUpstream 70 "a" LeastConnections true [mkNode 1 70 "10.0.0.9:80" 3 true] 0 0;
     mkUpstream 80 "b" RoundRobin true [mkNode 2 80 "10.0.0.8:80" 1 true] 0 0]
    [mkBinding 1 40 "cors" VNull 7 false true].

Definition start : World := mkWorld before (mkRedis ∅ []) 0.

(** [b] is recreated without the node that the snapshot gives it. *)
Lemma apply_snapshot_restores_witness :
  (apply_snapshot snapshot start).2 = Ok tt ∧
  restores snapshot (w_db start) (w_db (apply_snapshot snapshot start).1) ∧
  upstream_names (w_db (apply_snapshot snapshot start).1) = ["a"; "b"]%string ∧
  map node_spec (live_nodes (w_db (apply_snapshot snapshot start).1) 1) = [("10.0.0.9:80"%string, 3, true)] ∧
  live_nodes (w_db (apply_snapshot snapshot start).1) 3 = [].
Proof.
  assert ((apply_snapshot snapshot start).2 = Ok tt) as E by (vm_compute; reflexivity).
  assert (snapshot_distinct snapshot) as Hs by (repeat split; apply (bool_decide_unpack _); vm_compute; exact I).
  assert (names_distinct (w_db start)) as Hn by (split; [apply (bool_decide_unpack _); vm_compute; exact I|discriminate]).
  pose proof (apply_snapshot_restores (H := demo_env) (H0 := demo_serde) snapshot start Hs Hn) as Hr.
  split; [exact E|]. split; [|repeat split; vm_compute; reflexivity].
  destruct (apply_snapshot snapshot start) as [w' r]. simpl in E. subst r. exact (proj1 Hr).
Defined.

(** Two upstreams of one name, which may be created and published, come back as one. *)
Lemma one_of_a_name :
  let twins := mkConfigSnapshot [] [mkUpstream 1 "a" RoundRobin true [mkNode 1 1 "10.0.0.1:80" 1 true] 0 0;
                                    mkUpstream 2 "a" LeastConnections true [mkNode 2 2 "10.0.0.2:80" 1 true] 0 0] [] in
  let d := w_db (apply_snapshot twins start).1 in
  (apply_snapshot twins start).2 = Ok tt ∧ upstream_names d = ["a"%string] ∧
  map up_algorithm (live_upstreams d) = [Convert.algorithm_to_i16 LeastConnections] ∧
  map nd_address (live_nodes d 1) = ["10.0.0.2:80"%string].
Proof. repeat split; vm_compute; reflexivity. Qed.

End SnapshotDemo.
