(* ===== verification/RouteStore.v ===== *)
(** What the repository of routes promises (conrogate-core/src/storage.rs, traits
    ReadOnlyRouteRepo and RouteRepo), as an abstract machine over a finite map from
    ids to routes, and the proof that the repository over the database
    (conrogate-storage/src/repository/route_repo.rs) refines it, whatever sequence
    of requests it serves and whatever statements fail. *)
From Stdlib Require Import ZArith Lia Ascii String Sorting.Sorted.
From stdpp Require Import base tactics option list gmap strings pretty.
From S2P Require Import Prelude Text Errors Core F64 Storage Repositories Snapshot.
#[local] Open Scope Z_scope.

Module RouteStore.
Import Storage Convert Repos Snapshot.
#[local] Open Scope query_scope.

(** ** The interface *)

Inductive request :=
| ListEnabled
| FindById (id : Z)
| ListPaginated (page page_size : Z)
| Create (dto : CreateRouteDto)
| Update (dto : UpdateRouteDto)
| SoftDelete (id : Z).

Inductive answer :=
| Routes (l : list RouteDto)
| Found (r : option RouteDto)
| Page (p : PaginatedResult RouteDto)
| Route (r : RouteDto)
| Done
| Refused (e : ConrogateError).

(** The ids and the upstreams of a request are numbers of 64 bits. *)
Definition u64 (z : Z) : Prop := 0 <= z < 2 ^ 64.
Definition typed (q : request) : Prop :=
  match q with
  | ListEnabled | ListPaginated _ _ => True
  | FindById id | SoftDelete id => u64 id
  | Create dto => ∀ v, cr_upstream_id dto = Some v → u64 v
  | Update dto => u64 (ur_id dto) ∧ ∀ v, ur_upstream_id dto = Some v → u64 v
  end.

(** ** The abstract machine *)

(** The routes by id, the primary keys given out so far, those of the upstreams. *)
Record store := mkStore { s_routes : gmap Z RouteDto; s_used : list Z; s_upstreams : list Z }.

Definition named (n : string) (s : store) : Prop := map_Exists (λ _ r, r_name r = n) (s_routes s).
Definition named_other (n : string) (id : Z) (s : store) : Prop := map_Exists (λ i r, i ≠ id ∧ r_name r = n) (s_routes s).

(** A reference to an upstream is to one that exists, deleted or not. *)
Definition known (s : store) (up : option Z) : Prop := match up with Some v => i64_wrap v ∈ s_upstreams s | None => True end.

(** The database has an id for the next route. *)
Definition next_id `{DbEnv} (n : nat) (s : store) : Z := new_id n (s_used s).
Definition has_id `{DbEnv} (n : nat) (s : store) : Prop := next_id n s ∉ s_used s ∧ - 2 ^ 63 <= next_id n s < 2 ^ 63.

Definition new_route (dto : CreateRouteDto) (id created updated : Z) : RouteDto :=
  mkRoute id (cr_name dto) (cr_protocol dto) (cr_match_conditions dto) (default 10 (cr_priority dto)) (cr_upstream_id dto)
    (cr_host_header dto) (default false (cr_allow_retry_non_idempotent dto)) (default false (cr_ws_strip_sensitive_headers dto))
    (default true (cr_enabled dto)) created updated.

Definition patched (dto : UpdateRouteDto) (updated : Z) (r : RouteDto) : RouteDto :=
  mkRoute (r_id r) (default (r_name r) (ur_name dto)) (r_protocol r) (default (r_match_conditions r) (ur_match_conditions dto))
    (default (r_priority r) (ur_priority dto))
    (match ur_upstream_id dto with Some v => Some v | None => r_upstream_id r end)
    (match ur_host_header dto with Some h => Some h | None => r_host_header r end)
    (default (r_allow_retry_non_idempotent r) (ur_allow_retry_non_idempotent dto))
    (default (r_ws_strip_sensitive_headers r) (ur_ws_strip_sensitive_headers dto))
    (default (r_enabled r) (ur_enabled dto)) (r_created_at r) updated.

Definition set_routes (m : gmap Z RouteDto) (s : store) : store := mkStore m (s_used s) (s_upstreams s).
Definition use_id (id : Z) (s : store) : store := mkStore (s_routes s) (s_used s ++ [id]) (s_upstreams s).

Definition broken `{DbEnv} : ConrogateError := DataMapping violation.

(** What each request may answer and change. On MySQL the index on the name and the
    time of deletion may refuse a deletion: another route of that name was deleted
    at the same time. *)
Inductive spec `{DbEnv} (s : store) : request → store → answer → Prop :=
| s_listed l :
    StronglySorted (λ a b, r_priority b <= r_priority a) l →
    l ≡ₚ filter (λ r, r_enabled r = true) (map_to_list (s_routes s)).*2 → spec s ListEnabled s (Routes l)
| s_page l page size (n := clamp_page_size size) :
    StronglySorted (λ a b, i64_wrap (r_id b) <= i64_wrap (r_id a)) l → l ≡ₚ (map_to_list (s_routes s)).*2 →
    spec s (ListPaginated page size) s (Page (mkPage (page_rows (page_offset page n) n l) (Z.of_nat (length l)) page n))
| s_found id : spec s (FindById id) s (Found (s_routes s !! id))
| s_name_taken dto : named (cr_name dto) s →
    spec s (Create dto) s (Refused (Conflict ("route name '" +:+ cr_name dto +:+ "' already exists")))
| s_not_created dto n : ¬ named (cr_name dto) s → ¬ (has_id n s ∧ known s (cr_upstream_id dto)) →
    spec s (Create dto) s (Refused broken)
| s_created dto n c u (r := new_route dto (u64_wrap (next_id n s)) c u) :
    ¬ named (cr_name dto) s → has_id n s → known s (cr_upstream_id dto) → s_routes s !! r_id r = None →
    spec s (Create dto) (use_id (next_id n s) (set_routes (<[r_id r := r]> (s_routes s)) s)) (Route r)
| s_missing dto : s_routes s !! ur_id dto = None → spec s (Update dto) s (Refused (NotFound ("route " +:+ pretty (ur_id dto))))
| s_new_name_taken dto n : is_Some (s_routes s !! ur_id dto) → ur_name dto = Some n → named_other n (ur_id dto) s →
    spec s (Update dto) s (Refused (Conflict ("route name '" +:+ n +:+ "' already exists")))
| s_not_updated dto : is_Some (s_routes s !! ur_id dto) → (∀ n, ur_name dto = Some n → ¬ named_other n (ur_id dto) s) →
    ¬ known s (ur_upstream_id dto) → spec s (Update dto) s (Refused broken)
| s_updated dto r u : s_routes s !! ur_id dto = Some r → (∀ n, ur_name dto = Some n → ¬ named_other n (ur_id dto) s) →
    known s (ur_upstream_id dto) →
    spec s (Update dto) (set_routes (<[ur_id dto := patched dto u r]> (s_routes s)) s) (Route (patched dto u r))
| s_deleted id : spec s (SoftDelete id) (set_routes (delete id (s_routes s)) s) Done
| s_not_deleted id : mysql = true → is_Some (s_routes s !! id) → spec s (SoftDelete id) s (Refused DatabaseInternal)
| s_failed q e n msg : fault n = Some msg → spec s q s (Refused e).

Inductive spec_run `{DbEnv} : store → list request → store → list answer → Prop :=
| run_nil s : spec_run s [] s []
| run_cons s q s1 a qs s2 l : spec s q s1 a → spec_run s1 qs s2 l → spec_run s (q :: qs) s2 (a :: l).

(** ** The repository *)

Section Repository.
Context `{DbEnv} `{SerdeOk RouteMatchConditions}.

Definition answered {A} (f : A → answer) (q : Q A) (w : World) : World * answer :=
  match q w with (w', Ok a) => (w', f a) | (w', Err e) => (w', Refused e) end.

(** [impl ReadOnlyRouteRepo for RouteRepoImpl] and [impl RouteRepo for RouteRepoImpl]. *)
Definition serve (q : request) : World → World * answer :=
  match q with
  | ListEnabled => answered Routes list_enabled
  | ListPaginated page page_size => answered Page (list_routes page page_size)
  | FindById id => answered Found (find_route_by_id id)
  | Create dto => answered Route (create_route dto)
  | Update dto => answered Route (update_route dto)
  | SoftDelete id => answered (λ _, Done) (soft_delete_route id)
  end.

Fixpoint serve_all (qs : list request) (w : World) : World * list answer :=
  match qs with
  | [] => (w, [])
  | q :: rest => let '(w1, a) := serve q w in let '(w2, l) := serve_all rest w1 in (w2, a :: l)
  end.

(** How the tables represent the map: every live route can be read, and no two have
    the same name (the unique index of PostgreSQL and SQLite sees to it, that of
    MySQL does not, but the requests keep it). *)
Record represents (d : Db) (s : store) : Prop := {
  rep_used : s_used s = map rt_id (d_routes d);
  rep_upstreams : s_upstreams s = map up_id (d_upstreams d);
  rep_readable : ∀ row, row ∈ live_routes d → is_Some (route_model_to_dto row);
  rep_names : told_apart rt_name (live_routes d);
  rep_routes : ∀ id r, s_routes s !! id = Some r ↔
    ∃ row, row ∈ live_routes d ∧ route_model_to_dto row = Some r ∧ id = u64_wrap (rt_id row) }.

#[local] Arguments route_model_to_dto : simpl never.

(** *** Rows and routes *)

Lemma dto_fields row r : route_model_to_dto row = Some r →
  r_id r = u64_wrap (rt_id row) ∧ r_name r = rt_name row ∧ r_enabled r = rt_enabled row ∧ r_priority r = rt_priority row.
Proof. unfold route_model_to_dto. destruct (from_value _); [intros [= <-]|done]. done. Qed.

Lemma same_id d x y : db_ok mysql d → x ∈ d_routes d → y ∈ d_routes d → u64_wrap (rt_id x) = u64_wrap (rt_id y) → x = y.
Proof.
  intros Hok Hx Hy E. pose proof (ty_route_id _ _ Hok) as Hr. rewrite Forall_forall in Hr.
  apply (NoDup_map_inj rt_id (d_routes d)); [apply Hok|done..|].
  rewrite <- (i64_u64_i64 (rt_id x)), <- (i64_u64_i64 (rt_id y)) by (by apply Hr). by rewrite E.
Qed.

Lemma id_iff d row id : db_ok mysql d → row ∈ d_routes d → u64 id → rt_id row = i64_wrap id ↔ u64_wrap (rt_id row) = id.
Proof.
  intros Hok Hrow Hid. pose proof (ty_route_id _ _ Hok) as HF. rewrite Forall_forall in HF. split; [intros ->; by apply u64_i64_roundtrip|].
  intros <-. by rewrite i64_u64_i64 by (by apply HF).
Qed.

Lemma and_iff_compat_l' (A B C : Prop) : (A → B ↔ C) → A ∧ B ↔ A ∧ C.
Proof. tauto. Qed.

Lemma filter_pos {A} (p : A → bool) l : (0 <? Z.of_nat (length (List.filter p l))) = existsb p l.
Proof. induction l as [|x l IH]; simpl; [done|]. destruct (p x); simpl; [by apply Z.ltb_lt; lia|done]. Qed.

Lemma rep_live d s row : represents d s → row ∈ live_routes d →
  ∃ r, s_routes s !! u64_wrap (rt_id row) = Some r ∧ route_model_to_dto row = Some r.
Proof. intros Hr Hrow. destruct (rep_readable d s Hr row Hrow) as [r E]. exists r. split; [|done]. apply (rep_routes d s Hr). eauto. Qed.

Lemma unnamed d s n : represents d s → ¬ named n s → ∀ x, x ∈ live_routes d → rt_name x ≠ n.
Proof.
  intros Hr Hn x Hx E. apply Hn. destruct (rep_live d s x Hr Hx) as (r & Er & Ex).
  exists (u64_wrap (rt_id x)), r. split; [done|]. destruct (dto_fields x r Ex) as (_ & -> & _). exact E.
Qed.

Lemma live_names d s : db_ok mysql d → represents d s → NoDup (map rt_name (live_routes d)).
Proof. intros Hok Hr. apply route_names_distinct; [done|apply Hr]. Qed.

Lemma rep_exists d s p (Q : RouteRow → Prop) (P : Z → RouteDto → Prop) : represents d s →
  (∀ row, row ∈ d_routes d → p row = true ↔ live_route row = true ∧ Q row) →
  (∀ row r, row ∈ live_routes d → route_model_to_dto row = Some r → Q row ↔ P (u64_wrap (rt_id row)) r) →
  existsb p (d_routes d) = true ↔ map_Exists P (s_routes s).
Proof.
  intros Hr Hp HQ. rewrite existsb_exists. split.
  - intros (row & Hin%list_elem_of_In & [Hl Hq]%Hp); [|done]. assert (row ∈ live_routes d) as Hrow by (by apply elem_of_lives).
    destruct (rep_live d s row Hr Hrow) as (r & E & Er). exists (u64_wrap (rt_id row)), r. split; [done|]. by apply (HQ row r).
  - intros (id & r & E & HP). apply (rep_routes d s Hr) in E as (row & Hrow & Er & ->). exists row. apply (HQ row r Hrow Er) in HP.
    apply elem_of_lives in Hrow as [Hin Hl]. split; [by apply list_elem_of_In|]. by apply Hp; [done|split].
Qed.

Lemma count_named d s n : represents d s →
  existsb (λ r, (rt_name r =? n)%string && live_route r) (d_routes d) = true ↔ named n s.
Proof.
  intros Hr. apply (rep_exists d s _ (λ row, rt_name row = n)); [done| |].
  - intros row _. rewrite andb_true_iff, String.eqb_eq. tauto.
  - intros row r _ Er. by destruct (dto_fields row r Er) as (_ & -> & _).
Qed.

Lemma count_named_other d s n id : represents d s → db_ok mysql d → u64 id →
  existsb (λ r, (rt_name r =? n)%string && live_route r && negb (rt_id r =? i64_wrap id)) (d_routes d) = true ↔ named_other n id s.
Proof.
  intros Hr Hok Hid. apply (rep_exists d s _ (λ row, u64_wrap (rt_id row) ≠ id ∧ rt_name row = n)); [done| |].
  - intros row Hrow. rewrite !andb_true_iff, String.eqb_eq, negb_true_iff, Z.eqb_neq. pose proof (id_iff d row id Hok Hrow Hid). tauto.
  - intros row r _ Er. by destruct (dto_fields row r Er) as (_ & -> & _).
Qed.

(** The row of an id. *)
Lemma rep_find d s id : represents d s → db_ok mysql d → u64 id →
  match List.find (λ r, (rt_id r =? i64_wrap id) && live_route r) (d_routes d) with
  | Some m => m ∈ live_routes d ∧ u64_wrap (rt_id m) = id ∧ ∃ r, s_routes s !! id = Some r ∧ route_model_to_dto m = Some r
  | None => s_routes s !! id = None
  end.
Proof.
  intros Hr Hok Hid. pose proof (find_live live_route rt_id (λ r, (rt_id r =? i64_wrap id) && live_route r) (d_routes d) (i64_wrap id)) as Hf.
  destruct (List.find _ _) as [m|].
  - destruct Hf as [Hm E]; [intros; by rewrite andb_true_iff, Z.eqb_eq|]. pose proof Hm as [Hin _]%elem_of_lives.
    apply (id_iff d m id Hok Hin Hid) in E. split_and!; [done..|]. rewrite <- E. by apply (rep_live d).
  - apply eq_None_not_Some. intros [r E]. apply (rep_routes d s Hr) in E as (row & Hrow & _ & E).
    apply Hf in Hrow as Hne; [|intros; by rewrite andb_true_iff, Z.eqb_eq]. apply elem_of_lives in Hrow as [Hin _].
    apply Hne. by apply (id_iff d row id Hok Hin Hid).
Qed.

(** *** What the writes do to the map *)

Lemma rep_insert d s row r :
  represents d s → db_ok mysql d → route_model_to_dto row = Some r → live_route row = true → rt_id row ∉ map rt_id (d_routes d) →
  - 2 ^ 63 <= rt_id row < 2 ^ 63 → (∀ x, x ∈ live_routes d → rt_name x ≠ rt_name row) →
  s_routes s !! r_id r = None ∧
  represents (set_rows (d_routes d ++ [row]) d) (use_id (rt_id row) (set_routes (<[r_id r := r]> (s_routes s)) s)).
Proof.
  intros Hr Hok Er Hl Hid Hrange Hname. destruct (dto_fields row r Er) as (Eid & _).
  assert (∀ x, x ∈ d_routes d → u64_wrap (rt_id x) ≠ r_id r) as Hfresh.
  { intros x Hx E. apply Hid. pose proof (ty_route_id _ _ Hok) as HF. rewrite Forall_forall in HF.
    rewrite <- (i64_u64_i64 (rt_id row)), <- Eid, <- E, i64_u64_i64 by (done || by apply HF). by apply list_elem_of_fmap_2. }
  assert (s_routes s !! r_id r = None) as Hnone.
  { apply eq_None_not_Some. intros [r' (x & Hx & _ & E)%(rep_routes d s Hr)]. apply elem_of_lives in Hx as [Hx _]. by apply (Hfresh x Hx). }
  assert (∀ x, x ∈ live_routes (set_rows (d_routes d ++ [row]) d) ↔ x = row ∨ x ∈ live_routes d) as Hlive.
  { intros x. unfold live_routes. cbn [set_rows routes_table d_routes]. rewrite !elem_of_lives, elem_of_app, list_elem_of_singleton. naive_solver. }
  split; [done|]. split; cbn [s_used s_upstreams s_routes use_id set_routes].
  - rewrite (rep_used d s Hr). cbn. by rewrite map_app.
  - apply Hr.
  - intros x [->|Hx]%Hlive; [by eexists|by apply (rep_readable d s Hr)].
  - intros x y [->|Hx]%Hlive [->|Hy]%Hlive E; [done|by apply Hname in Hy|by apply Hname in Hx|by apply (rep_names d s Hr)].
  - intros id r'. rewrite lookup_insert_Some, (rep_routes d s Hr). setoid_rewrite Hlive. split.
    + intros [[<- <-]|[_ (x & Hx & Ex & ->)]]; [exists row|exists x]; split_and!; eauto.
    + intros (x & [->|Hx] & Ex & ->); [left; split; congruence|right].
      pose proof Hx as [Hin _]%elem_of_lives. split; [by apply not_eq_sym, Hfresh|]. eauto.
Qed.

Lemma rep_update d s row0 row r :
  represents d s → db_ok mysql d → row0 ∈ live_routes d → route_model_to_dto row = Some r → live_route row = true → rt_id row = rt_id row0 →
  (∀ x, x ∈ live_routes d → rt_id x ≠ rt_id row → rt_name x ≠ rt_name row) →
  represents (set_rows (updated row (d_routes d)) d) (set_routes (<[u64_wrap (rt_id row0) := r]> (s_routes s)) s).
Proof.
  intros Hr Hok Hrow0 Er Hl Eid Hname. pose proof Hrow0 as [Hin0 _]%elem_of_lives.
  pose proof (lives_update live_route rt_id row0 row (d_routes d) (pk_routes _ _ Hok) (NoDup_map_filter _ _ _ (pk_routes _ _ Hok))
    Hrow0 Eid Hl Eid) as Hlive.
  split; cbn [s_used s_upstreams s_routes set_routes].
  - rewrite (rep_used d s Hr). cbn. unfold updated. rewrite map_map. apply map_ext_in. intros x _. cbn [row_id routes_table].
    by destruct (Z.eqb_spec (rt_id x) (rt_id row)).
  - apply Hr.
  - intros x [->|[Hx _]]%Hlive; [by eexists|by apply (rep_readable d s Hr)].
  - intros x y [->|[Hx Nx]]%Hlive [->|[Hy Ny]]%Hlive E; [done|by destruct (Hname y)|by destruct (Hname x)|by apply (rep_names d s Hr)].
  - intros id r'. rewrite lookup_insert_Some, (rep_routes d s Hr). split.
    + intros [[<- <-]|[Hne (x & Hx & Ex & ->)]]; [exists row|exists x]; (split; [apply Hlive|split; [done|congruence]]); [by left|right].
      split; [done|]. intros E. apply Hne. by rewrite E, Eid.
    + intros (x & [->|[Hx Hne]]%Hlive & Ex & ->); [left; split; congruence|right]. split; [|eauto].
      intros E. apply Hne. rewrite Eid. f_equal. apply (same_id d); [done| |done|done]. by apply elem_of_lives in Hx as [Hx _].
Qed.

Lemma rep_delete d s id t :
  represents d s → db_ok mysql d → u64 id →
  represents (set_rows (updated_many (λ r, (rt_id r =? i64_wrap id) && live_route r) (delete_route_row t) (d_routes d)) d)
    (set_routes (delete id (s_routes s)) s).
Proof.
  intros Hr Hok Hid. set (p := λ r, _). assert (∀ x, x ∈ lives live_route (updated_many p (delete_route_row t) (d_routes d)) ↔
    x ∈ live_routes d ∧ u64_wrap (rt_id x) ≠ id) as Hlive.
  { intros x. rewrite (lives_delete live_route rt_id p (delete_route_row t)) by done. fold (live_routes d). apply and_iff_compat_l'.
    intros [Hin Hl]%elem_of_lives. unfold p. rewrite Hl, andb_true_r, Z.eqb_neq. by rewrite (id_iff d x id Hok Hin Hid). }
  split; cbn [s_used s_upstreams s_routes set_routes].
  - rewrite (rep_used d s Hr). cbn. unfold updated_many. rewrite map_map. apply map_ext. intros x. by destruct (p x).
  - apply Hr.
  - intros x [Hx _]%Hlive. by apply (rep_readable d s Hr).
  - apply (told_apart_subset _ (live_routes d)); [apply Hr|]. by intros x [Hx _]%Hlive.
  - intros id' r'. rewrite lookup_delete_Some, (rep_routes d s Hr). split.
    + intros [Hne (x & Hx & Ex & ->)]. exists x. split; [apply Hlive; split; [done|congruence]|done].
    + intros (x & [Hx Hne]%Hlive & Ex & ->). split; [congruence|eauto].
Qed.
(** *** The constraints after a write *)

(** The unique index of PostgreSQL and SQLite covers the live rows. *)
Lemma route_names l : omap (route_key false) l = (λ n, (n, None)) <$> map rt_name (lives live_route l).
Proof.
  unfold lives. induction l as [|r l IH]; simpl; [done|]. unfold route_key at 1. unfold live_route at 1.
  destruct (live (rt_deleted_at r)); simpl; [f_equal|]; exact IH.
Qed.

Definition refers (d : Db) (r : RouteRow) : Prop := Forall (λ u, u ∈ map up_id (d_upstreams d)) (option_list (rt_upstream_id r)).

Lemma routes_ok d l :
  db_ok mysql d → NoDup (map rt_id l) → NoDup (map rt_name (lives live_route l)) →
  (mysql = true → NoDup (omap (route_key true) l)) →
  Forall (λ r, - 2 ^ 63 <= rt_id r < 2 ^ 63) l → Forall (refers d) l → map rt_id (d_routes d) ⊆ map rt_id l →
  db_ok mysql (set_rows l d).
Proof.
  intros Hok Hid Hn Hm Hr Hf Hsub. destruct Hok. constructor; cbn [set_rows routes_table d_routes d_upstreams d_nodes d_bindings d_versions
    d_blacklist d_metrics d_events d_audit_logs d_gates d_plugins]; try assumption.
  - clear -Hn Hm. destruct mysql; [by apply Hm|]. rewrite route_names. apply NoDup_fmap_2; [|done]. by intros ?? [= ->].
  - eapply Forall_impl; [eassumption|]. intros b Hb. by apply Hsub.
Qed.

(** That of MySQL does not see what becomes of live rows. *)
Lemma keys_updated row l :
  live_route row = true → (∀ x, x ∈ l → rt_id x = rt_id row → live_route x = true) →
  omap (route_key true) (updated row l) = omap (route_key true) l.
Proof.
  assert (∀ x, live_route x = true → route_key true x = None) as Hkey.
  { intros x. unfold live_route, live, route_key. rewrite bool_decide_eq_true. by intros ->. }
  intros Hl Hlx. induction l as [|x l IH]; [done|].
  change (updated row (x :: l)) with ((if rt_id x =? rt_id row then row else x) :: updated row l). csimpl.
  rewrite IH by (intros; apply Hlx; [by right|done]).
  destruct (Z.eqb_spec (rt_id x) (rt_id row)) as [E|]; [|done]. pose proof (Hkey row Hl) as E1.
  pose proof (Hkey x (Hlx x (list_elem_of_here _ _) E)) as E2. cbn in E1, E2. by rewrite E1, E2.
Qed.

(** A row may take a name that no other live row has. *)
Lemma names_update (row0 row : RouteRow) l :
  NoDup (map rt_id l) → NoDup (map rt_name (lives live_route l)) → rt_id row = rt_id row0 → live_route row = true →
  (∀ x, x ∈ lives live_route l → rt_id x ≠ rt_id row → rt_name x ≠ rt_name row) →
  NoDup (map rt_name (lives live_route (updated row l))).
Proof.
  intros Hid Hn E Hl Hne. unfold lives, updated in *. cbn [row_id routes_table]. induction l as [|y l IH]; [constructor|].
  cbn [map List.filter] in *. apply NoDup_cons in Hid as [Hy Hid].
  assert (NoDup (map rt_name (List.filter live_route l))) as Hn' by (destruct (live_route y); [by apply NoDup_cons in Hn as [_ ?]|done]).
  assert (∀ x, x ∈ List.filter live_route l → rt_id x ≠ rt_id row → rt_name x ≠ rt_name row) as Hne'.
  { intros x Hx. apply Hne. destruct (live_route y); [by right|done]. }
  specialize (IH Hid Hn' Hne'). destruct (Z.eqb_spec (rt_id y) (rt_id row)) as [Ey|Ey].
  - rewrite Hl. cbn [map]. apply NoDup_cons. split; [|done].
    assert (map (λ x, if rt_id x =? rt_id row then row else x) l = l) as ->.
    { rewrite <- (map_id l) at 2. apply map_ext_in. intros x Hx%list_elem_of_In. destruct (Z.eqb_spec (rt_id x) (rt_id row)) as [Ex|]; [|done].
      destruct Hy. rewrite Ey, <- Ex. by apply list_elem_of_fmap_2. }
    intros (x & Ex & Hx)%list_elem_of_fmap. apply (Hne' x Hx); [|done]. intros Ei. apply Hy. rewrite Ey, <- Ei.
    apply filter_elem_of in Hx as [Hx _]. by apply list_elem_of_fmap_2.
  - destruct (live_route y) eqn:Ly; [|done]. cbn [map]. apply NoDup_cons. apply NoDup_cons in Hn as [Hny _]. split; [|done].
    intros (x & Ex & Hx)%list_elem_of_fmap. apply filter_elem_of in Hx as [Hx Hlx]. apply list_elem_of_fmap in Hx as (z & Ez & Hz).
    destruct (Z.eqb_spec (rt_id z) (rt_id row)) as [Er|Er]; subst x.
    + apply (Hne y); [by left|done|done].
    + apply Hny. rewrite Ex. apply list_elem_of_fmap_2. by apply filter_elem_of.
Qed.

(** *** The rows the repository writes *)

Lemma created_row dto c u id : typed (Create dto) →
  route_model_to_dto (route_create_to_active_model dto c u id) = Some (new_route dto (u64_wrap id) c u).
Proof.
  intros Ht. unfold route_model_to_dto, route_create_to_active_model, new_route. cbn. rewrite from_to_value.
  repeat f_equal; [by destruct (cr_protocol dto)|]. destruct (cr_upstream_id dto) as [v|] eqn:E; simpl; [|done].
  by rewrite u64_i64_roundtrip by (by apply Ht).
Qed.

Lemma patched_row dto u row r : typed (Update dto) → route_model_to_dto row = Some r →
  route_model_to_dto (patch_route dto u row) = Some (patched dto u r).
Proof.
  intros [_ Ht]. unfold route_model_to_dto, patch_route, patched. cbn. destruct (from_value (rt_match_conditions row)) as [cond|e] eqn:Ec; [|done].
  intros [= <-]. cbn. destruct (ur_match_conditions dto) as [m|]; cbn; [rewrite from_to_value|rewrite Ec];
    (destruct (ur_upstream_id dto) as [v|] eqn:Ev; cbn; [rewrite u64_i64_roundtrip by (by apply Ht)|]); reflexivity.
Qed.

(** *** One request *)

(** What the request did is what the machine allows. *)
Definition simulates (q : request) (w : World) : Prop :=
  ∀ s, db_ok mysql (w_db w) → represents (w_db w) s →
  ∃ s', spec s q s' (serve q w).2 ∧ represents (w_db (serve q w).1) s' ∧ db_ok mysql (w_db (serve q w).1).

(** The machine stands still when a statement fails or the request is refused. *)
Ltac stands s := exists s; split_and!; [first [by eapply s_failed|eauto using @spec]|done|done].

Lemma find_simulates id w : u64 id → simulates (FindById id) w.
Proof.
  intros Hid s Hok Hr. unfold serve, answered, find_route_by_id, qbind, one, stmt.
  destruct (fault _) as [msg|] eqn:F; [stands s|]. rewrite decide_True by done. cbn. exists s. split_and!; [|done|done].
  pose proof (rep_find _ _ _ Hr Hok Hid) as Hf. change (@rows RouteRow _ (w_db w)) with (d_routes (w_db w)).
  destruct (List.find _ _) as [m|]; [destruct Hf as (_ & _ & r & E & Em)|]; cbn.
  - rewrite Em, <- E. constructor.
  - rewrite <- Hf. constructor.
Qed.

Lemma delete_ok d s p t : db_ok mysql d → represents d s → mysql = false →
  db_ok mysql (set_rows (updated_many p (delete_route_row t) (d_routes d)) d).
Proof.
  intros Hok Hr Hm. set (l := updated_many _ _ _). assert (map rt_id l = map rt_id (d_routes d)) as Eid.
  { unfold l, updated_many. rewrite map_map. apply map_ext. intros x. by destruct (p x). }
  assert (∀ x, x ∈ l → ∃ y, y ∈ d_routes d ∧ rt_id x = rt_id y ∧ rt_upstream_id x = rt_upstream_id y) as Hl.
  { intros x Hx. apply list_elem_of_fmap in Hx as (y & -> & Hy). exists y. by destruct (p y). }
  apply routes_ok; try rewrite Eid; try done; [apply Hok|apply (keys_delete live_route rt_name); [done|by apply (live_names d s)]|congruence| |];
    apply Forall_forall; intros x (y & Hy & E1 & E2)%Hl; unfold refers; rewrite ?E1, ?E2.
  - pose proof (ty_route_id _ _ Hok) as HF. rewrite Forall_forall in HF. by apply HF.
  - pose proof (fk_routes _ _ Hok) as HF. rewrite Forall_forall in HF. by apply HF.
Qed.

Lemma untouched p f (l : list RouteRow) : (∀ x, x ∈ l → p x = false) → updated_many p f l = l.
Proof.
  intros Hp. unfold updated_many. rewrite <- (map_id l) at 2. apply map_ext_in. intros x Hx%list_elem_of_In. by rewrite Hp.
Qed.

Lemma set_rows_same d : set_rows (d_routes d) d = d.
Proof. by destruct d. Qed.

Lemma delete_simulates id w : u64 id → simulates (SoftDelete id) w.
Proof.
  intros Hid s Hok Hr. unfold serve, answered, soft_delete_route, qbind, now, update_many, stmt. cbn [w_tick ticked w_db].
  destruct (fault _) as [msg|] eqn:F; [stands s|].
  pose proof (rep_delete _ _ id (utc (w_tick w)) Hr Hok Hid) as Hrep.
  change (@rows RouteRow _ (w_db w)) with (d_routes (w_db w)). destruct (decide _) as [Hok'|Hbad].
  { exists (set_routes (delete id (s_routes s)) s). split_and!; [constructor|exact Hrep|done]. }
  exists s. split_and!; [|done|done]. apply s_not_deleted.
  - destruct mysql eqn:Em; [done|]. exfalso. rewrite <- Em in *. apply Hbad. by apply (delete_ok _ s).
  - apply not_eq_None_Some. intros Hnone. apply Hbad. rewrite untouched; [by rewrite set_rows_same|]. intros x Hx.
    destruct ((rt_id x =? i64_wrap id) && live_route x) eqn:Ep; [exfalso|done].
    apply andb_true_iff in Ep as [Ei%Z.eqb_eq Hl]. apply (id_iff _ x id Hok Hx Hid) in Ei.
    destruct (rep_live _ s x Hr) as (r & Er & _); [by apply elem_of_lives|]. congruence.
Qed.

Lemma omap_sorted {A B} (R : A → A → Prop) (R' : B → B → Prop) (f : A → option B) l :
  (∀ x y x' y', x ∈ l → y ∈ l → f x = Some x' → f y = Some y' → R x y → R' x' y') → StronglySorted R l → StronglySorted R' (omap f l).
Proof.
  intros Hf Hs. induction Hs as [|x l Hs IH Hx]; simpl; [constructor|].
  assert (StronglySorted R' (omap f l)) as Hl by (apply IH; intros y z y' z' Hy Hz; apply Hf; by right).
  destruct (f x) as [x'|] eqn:Ex; [|done]. constructor; [done|]. apply Forall_forall. intros y' (y & Hy & Ey)%list_elem_of_omap.
  rewrite Forall_forall in Hx. apply (Hf x y); [by left|by right|done|done|by apply Hx].
Qed.

(** The routes of the map, each once. *)
Lemma routes_nodup d s : represents d s → NoDup (map_to_list (s_routes s)).*2.
Proof.
  intros Hr. apply (NoDup_map_by snd fst); [apply NoDup_fst_map_to_list|].
  assert (∀ x, x ∈ map_to_list (s_routes s) → x.1 = r_id x.2) as Hx.
  { intros [id r] (row & _ & Er & ->)%elem_of_map_to_list%(rep_routes d s Hr). cbn. by destruct (dto_fields row r Er) as [-> _]. }
  intros x y Hx1%Hx Hy1%Hx E. congruence.
Qed.

(** A list of live rows is a list of the routes of the map. *)
Lemma listed_perm d s l (p : RouteRow → Prop) (q : RouteDto → Prop) `{∀ r, Decision (q r)} :
  db_ok mysql d → represents d s → NoDup (map rt_id l) → (∀ x, x ∈ l ↔ x ∈ live_routes d ∧ p x) →
  (∀ row r, route_model_to_dto row = Some r → p row ↔ q r) →
  omap route_model_to_dto l ≡ₚ filter q (map_to_list (s_routes s)).*2.
Proof.
  intros Hok Hr Hnd Hl Hq. apply NoDup_Permutation.
  - apply (NoDup_fmap_1 r_id). apply (NoDup_map_omap route_model_to_dto rt_id r_id l Hnd).
    intros x x' y y' [Hx%elem_of_lives _]%Hl [Hx'%elem_of_lives _]%Hl Ey Ey' E.
    destruct (dto_fields x y Ey) as [Ex _], (dto_fields x' y' Ey') as [Ex' _]. f_equal. apply (same_id d); [done|apply Hx|apply Hx'|congruence].
  - apply NoDup_filter. by apply (routes_nodup d).
  - intros r. rewrite list_elem_of_omap, list_elem_of_filter, list_elem_of_fmap. split.
    + intros (row & [Hrow Hp]%Hl & Er). split; [by apply (Hq row)|].
      exists (u64_wrap (rt_id row), r). split; [done|]. apply elem_of_map_to_list, (rep_routes d s Hr). eauto.
    + intros [Hp ([id r'] & -> & (row & Hrow & Er & _)%elem_of_map_to_list%(rep_routes d s Hr))]. exists row. cbn in *.
      split; [apply Hl; split; [done|by apply (Hq row r')]|done].
Qed.

Lemma list_simulates w : simulates ListEnabled w.
Proof.
  intros s Hok Hr. unfold serve, answered, list_enabled, qbind, stmt.
  destruct (fault _) as [msg|] eqn:F; [stands s|]. rewrite decide_True by done. cbn [fst snd ticked with_db w_db qret].
  exists s. split_and!; [|done|done]. change (@rows RouteRow _ (w_db w)) with (d_routes (w_db w)). set (l := stable_sort (desc rt_priority) _).
  constructor.
  - apply (omap_sorted (λ a b, desc rt_priority a b = true)); [|apply stable_sort_sorted; unfold desc; intros *; rewrite ?Z.leb_le, ?Z.leb_gt; lia].
    intros x y x' y' _ _ Ex Ey. unfold desc. destruct (dto_fields x x' Ex) as (_ & _ & _ & ->), (dto_fields y y' Ey) as (_ & _ & _ & ->). lia.
  - apply (listed_perm (w_db w) s l (λ x, rt_enabled x = true)); [done|done| | |].
    + unfold l. rewrite (stable_sort_perm (desc rt_priority)). apply NoDup_map_filter, Hok.
    + intros x. unfold l, live_routes. rewrite (stable_sort_perm (desc rt_priority)), filter_elem_of, elem_of_lives, andb_true_iff. tauto.
    + intros row r Er. by destruct (dto_fields row r Er) as (_ & _ & -> & _).
Qed.

(** When every row can be converted, pages of rows are pages of routes. *)
Section Pages.
Context {A B} (f : A → option B).

Lemma omap_length l : Forall (λ x, is_Some (f x)) l → length (omap f l) = length l.
Proof. induction 1 as [|x l [y Hy] _ IH]; [done|]. cbn. rewrite Hy. cbn. f_equal. exact IH. Qed.

Lemma omap_take n l : Forall (λ x, is_Some (f x)) l → omap f (take n l) = take n (omap f l).
Proof.
  revert n. induction l as [|x l IH]; intros n Hl; [by destruct n|]. apply Forall_cons in Hl as [[y Hy] Hl].
  destruct n as [|n]; simpl; [done|]. rewrite Hy. simpl. by rewrite IH.
Qed.

Lemma omap_drop n l : Forall (λ x, is_Some (f x)) l → omap f (drop n l) = drop n (omap f l).
Proof.
  revert n. induction l as [|x l IH]; intros n Hl; [by destruct n|]. apply Forall_cons in Hl as [[y Hy] Hl].
  destruct n as [|n]; simpl; [by rewrite drop_0|]. rewrite Hy. simpl. by rewrite IH.
Qed.

Lemma filter_all (l : list B) : filter (λ _, True) l = l.
Proof. induction l as [|x l IH]; [done|]. rewrite filter_cons_True by done. by rewrite IH. Qed.
End Pages.

Lemma page_simulates page size w : simulates (ListPaginated page size) w.
Proof.
  intros s Hok Hr. unfold serve, answered, list_routes, paginate, qbind, count, stmt.
  destruct (fault (w_tick w)) as [msg|] eqn:F; [stands s|]. rewrite decide_True by done. cbn [fst snd ticked with_db w_db w_tick qret].
  destruct (fault (S (w_tick w))) as [msg|] eqn:F2; [stands s|]. rewrite decide_True by done. cbn [fst snd ticked with_db w_db w_tick qret].
  exists s. split_and!; [|done|done]. change (@rows RouteRow _ (w_db w)) with (d_routes (w_db w)). set (n := clamp_page_size size).
  set (l := stable_sort (desc rt_id) (List.filter live_route (d_routes (w_db w)))).
  assert (l ≡ₚ live_routes (w_db w)) as Hl by apply (stable_sort_perm (desc rt_id)).
  assert (Forall (λ x, is_Some (route_model_to_dto x)) l) as Hf by (rewrite Hl; apply Forall_forall, (rep_readable _ _ Hr)).
  unfold page_rows. rewrite omap_take, omap_drop by (done || by apply Forall_drop). fold (page_rows (page_offset page n) n (omap route_model_to_dto l)).
  assert (length (List.filter live_route (d_routes (w_db w))) = length (omap route_model_to_dto l)) as ->.
  { rewrite (omap_length _ _ Hf). by rewrite Hl. }
  constructor.
  - apply (omap_sorted (λ a b, desc rt_id a b = true)); [|apply stable_sort_sorted; unfold desc; intros *; rewrite ?Z.leb_le, ?Z.leb_gt; lia].
    pose proof (ty_route_id _ _ Hok) as Hrange. rewrite Forall_forall in Hrange.
    assert (∀ x, x ∈ l → - 2 ^ 63 <= rt_id x < 2 ^ 63) as Hin by (intros x Hx; rewrite Hl in Hx; apply elem_of_lives in Hx as [Hx _]; by apply Hrange).
    intros x y x' y' Hx%Hin Hy%Hin Ex Ey. unfold desc. destruct (dto_fields x x' Ex) as [-> _], (dto_fields y y' Ey) as [-> _].
    rewrite !i64_u64_i64 by done. lia.
  - rewrite (listed_perm (w_db w) s l (λ _, True) (λ _, True)); [by rewrite filter_all|done|done| | |done].
    + rewrite Hl. apply NoDup_map_filter, Hok.
    + intros x. rewrite Hl. tauto.
Qed.

(** The insertion is refused exactly when the id or the upstream is not there. *)
Lemma created_ok d s dto n c u : db_ok mysql d → represents d s → ¬ named (cr_name dto) s →
  let row := route_create_to_active_model dto c u (next_id n s) in
  db_ok mysql (set_rows (d_routes d ++ [row]) d) ↔ has_id n s ∧ known s (cr_upstream_id dto).
Proof using H0.
  intros Hok Hr Hn row. split.
  - intros Hok'. unfold has_id. rewrite (rep_used d s Hr). split.
    + pose proof (pk_routes _ _ Hok') as Hnd. cbn in Hnd. rewrite map_app in Hnd. apply NoDup_app in Hnd as (_ & Hnd & _). split.
      * intros Hin. apply (Hnd _ Hin). by left.
      * pose proof (ty_route_id _ _ Hok') as HF. cbn in HF. rewrite Forall_app, Forall_singleton in HF. apply HF.
    + pose proof (fk_routes _ _ Hok') as HF. cbn in HF. rewrite Forall_app, Forall_singleton in HF. destruct HF as [_ HF]. cbn in HF.
      unfold known. rewrite (rep_upstreams d s Hr). destruct (cr_upstream_id dto) as [v|]; [|done]. by inversion HF.
  - intros [[Hfresh Hrange] Hk]. rewrite (rep_used d s Hr) in Hfresh. apply routes_ok; [done|..].
    + rewrite map_app. apply NoDup_app. split_and!; [apply Hok| |apply NoDup_singleton].
      intros x Hx E%list_elem_of_singleton. subst x. by apply Hfresh.
    + apply keys_insert; [by apply (live_names d s)|]. by apply (unnamed d s).
    + intros Hm. rewrite omap_app. cbn. rewrite app_nil_r, <- Hm. apply Hok.
    + apply Forall_app. split; [apply Hok|by apply Forall_singleton].
    + apply Forall_app. split; [apply Hok|apply Forall_singleton]. unfold refers. cbn. unfold known in Hk. rewrite (rep_upstreams d s Hr) in Hk.
      destruct (cr_upstream_id dto) as [v|]; [by apply Forall_singleton|constructor].
    + rewrite map_app. set_solver.
Qed.

Lemma create_simulates dto w : typed (Create dto) → simulates (Create dto) w.
Proof using H0.
  intros Ht s Hok Hr. unfold serve, answered, create_route, qbind, now, count, insert, at_tick, stmt.
  destruct (fault _) as [msg|] eqn:F; [stands s|]. rewrite decide_True by done.
  change (@rows RouteRow _ (w_db w)) with (d_routes (w_db w)). rewrite filter_pos.
  pose proof (count_named _ _ (cr_name dto) Hr) as Hc. destruct (existsb _ _).
  { exists s. split_and!; [constructor; by apply Hc|done|done]. }
  assert (¬ named (cr_name dto) s) as Hn by (intros Hn; by apply Hc in Hn).
  cbn [fst snd ticked with_db w_db w_tick]. destruct (fault (S (S (S (w_tick w))))) as [msg|] eqn:F2; [stands s|].
  change (@rows RouteRow _ (w_db w)) with (d_routes (w_db w)). change (map row_id (d_routes (w_db w))) with (map rt_id (d_routes (w_db w))).
  rewrite <- (rep_used _ _ Hr). fold (next_id (S (S (S (w_tick w)))) s). set (n := S (S (S (w_tick w)))). set (c := utc (S (w_tick w))). set (u := utc _).
  pose proof (created_ok _ _ dto n c u Hok Hr Hn) as Hiff. pose proof (created_row dto c u (next_id n s) Ht) as Hrow.
  set (row := route_create_to_active_model dto c u (next_id n s)) in *. cbv zeta in *.
  destruct (decide _) as [Hok'|Hbad]; cbn [fst snd ticked with_db w_db w_tick].
  - apply Hiff in Hok' as Hi. destruct Hi as [[Hfresh Hrange] Hk]. rewrite (rep_used _ _ Hr) in Hfresh.
    destruct (rep_insert _ s row _ Hr Hok Hrow eq_refl Hfresh Hrange (unnamed _ s _ Hr Hn)) as [Hnone Hrep]. rewrite Hrow. eexists. split_and!; [|exact Hrep|done].
    apply s_created; [done| |done|done]. split; [by rewrite (rep_used _ _ Hr)|done].
  - exists s. split_and!; [apply (s_not_created _ _ n); [done|]; tauto|done|done].
Qed.

(** The name of an updated route is its own. *)
Lemma patched_name d s dto u m : db_ok mysql d → represents d s → u64 (ur_id dto) → m ∈ live_routes d → u64_wrap (rt_id m) = ur_id dto →
  (∀ n, ur_name dto = Some n → ¬ named_other n (ur_id dto) s) →
  ∀ x, x ∈ live_routes d → rt_id x ≠ rt_id (patch_route dto u m) → rt_name x ≠ rt_name (patch_route dto u m).
Proof.
  intros Hok Hr Hid Hm Eid Hn x Hxl Hne En. pose proof Hm as [Hin _]%elem_of_lives.
  destruct (rep_live d s x Hr Hxl) as (rx & Erx & Ex). destruct (dto_fields x rx Ex) as (_ & Enx & _).
  unfold patch_route in En. cbn in En. destruct (ur_name dto) as [n|] eqn:Eu; cbn in En.
  - apply (Hn n eq_refl). exists (u64_wrap (rt_id x)), rx. split; [done|]. split; [|congruence]. rewrite <- Eid. intros E. apply Hne.
    apply elem_of_lives in Hxl as [Hxin _]. by rewrite (same_id d x m Hok Hxin Hin E).
  - apply Hne. cbn. f_equal. by apply (rep_names d s Hr).
Qed.

(** The update is refused exactly when the new upstream is not there. *)
Lemma updated_ok d s dto u m r : db_ok mysql d → represents d s → u64 (ur_id dto) → m ∈ live_routes d → u64_wrap (rt_id m) = ur_id dto →
  route_model_to_dto m = Some r → (∀ n, ur_name dto = Some n → ¬ named_other n (ur_id dto) s) →
  db_ok mysql (set_rows (updated (patch_route dto u m) (d_routes d)) d) ↔ known s (ur_upstream_id dto).
Proof using H0.
  intros Hok Hr Hid Hm Eid Er Hn. set (row := patch_route dto u m). pose proof Hm as [Hin Hl]%elem_of_lives.
  assert (row ∈ updated row (d_routes d)) as Hrow.
  { apply list_elem_of_fmap. exists m. split; [|done]. symmetry. change (row_id row) with (row_id m). by rewrite Z.eqb_refl. }
  unfold known. rewrite (rep_upstreams d s Hr). split.
  - intros Hok'. pose proof (fk_routes _ _ Hok') as HF. rewrite Forall_forall in HF. specialize (HF row Hrow). cbn in HF.
    destruct (ur_upstream_id dto) as [v|]; [|done]. by inversion HF.
  - intros Hk. assert (map rt_id (updated row (d_routes d)) = map rt_id (d_routes d)) as Ei.
    { unfold updated. rewrite map_map. apply map_ext_in. intros x _. cbn [row_id routes_table]. by destruct (Z.eqb_spec (rt_id x) (rt_id row)). }
    assert (∀ x, x ∈ updated row (d_routes d) → x = row ∨ x ∈ d_routes d) as Hx.
    { intros x (y & -> & Hy)%list_elem_of_fmap. destruct (_ =? _); auto. }
    apply routes_ok; [done|rewrite Ei; apply Hok| | | | |by rewrite Ei].
    + apply (names_update m); [apply Hok|by apply (live_names d s)|done|exact Hl|]. by apply (patched_name d s dto u m).
    + intros Em. rewrite keys_updated; [rewrite <- Em; apply Hok|exact Hl|]. intros x Hxin Ex.
      by rewrite (NoDup_map_inj rt_id (d_routes d) x m (pk_routes _ _ Hok) Hxin Hin Ex).
    + apply Forall_forall. intros x [->|Hxd]%Hx; pose proof (ty_route_id _ _ Hok) as HF; rewrite Forall_forall in HF; [by apply (HF m)|by apply HF].
    + pose proof (fk_routes _ _ Hok) as HF. rewrite Forall_forall in HF. apply Forall_forall. intros x [->|Hxd]%Hx; [|by apply HF].
      unfold refers, row. cbn. destruct (ur_upstream_id dto) as [v|]; [by apply Forall_singleton|by apply (HF m)].
Qed.

Lemma own_name d s m : db_ok mysql d → represents d s → m ∈ live_routes d → ¬ named_other (rt_name m) (u64_wrap (rt_id m)) s.
Proof.
  intros Hok Hr Hm (i & r & E & Hne & En). apply (rep_routes d s Hr) in E as (x & Hx & Ex & ->). apply Hne. do 2 f_equal.
  destruct (dto_fields x r Ex) as (_ & Enx & _). apply (rep_names d s Hr); [done|done|congruence].
Qed.

(** The end of [update_route], after its checks. *)
Lemma write_simulates dto m r w s : typed (Update dto) → db_ok mysql (w_db w) → represents (w_db w) s →
  m ∈ live_routes (w_db w) → u64_wrap (rt_id m) = ur_id dto → route_model_to_dto m = Some r → s_routes s !! ur_id dto = Some r →
  (∀ n, ur_name dto = Some n → ¬ named_other n (ur_id dto) s) →
  let res := answered Route (u <-- now;; model <-- update data_mapping (patch_route dto u m);;
    match route_model_to_dto model with Some r => qret r | None => qfail (DataMapping "update returned no model") end) w in
  ∃ s', spec s (Update dto) s' res.2 ∧ represents (w_db res.1) s' ∧ db_ok mysql (w_db res.1).
Proof using H0.
  intros Ht Hok Hr Hm Eid Er Es Hn. cbv zeta. unfold answered, qbind, now, update, stmt. cbn [ticked w_tick w_db].
  destruct (fault (S (w_tick w))) as [msg|] eqn:F; [stands s|]. change (@rows RouteRow _ (w_db w)) with (d_routes (w_db w)).
  pose proof Hm as [Hin Hl]%elem_of_lives.
  rewrite bool_decide_true by (change (rt_id m ∈ map rt_id (d_routes (w_db w))); by apply list_elem_of_fmap_2).
  set (u := utc (w_tick w)). pose proof (updated_ok _ _ dto u m r Hok Hr (proj1 Ht) Hm Eid Er Hn) as Hiff.
  pose proof (patched_row dto u m r Ht Er) as Hp. set (row := patch_route dto u m) in *.
  destruct (decide _) as [Hok'|Hbad]; cbn [fst snd ticked with_db w_db w_tick].
  - pose proof (rep_update _ s m row _ Hr Hok Hm Hp Hl eq_refl (patched_name _ s dto u m Hok Hr (proj1 Ht) Hm Eid Hn)) as Hrep. rewrite Hp. rewrite Eid in Hrep. eexists. split_and!; [|exact Hrep|done].
    apply s_updated; [done|done|by apply Hiff].
  - exists s. split_and!; [apply s_not_updated; [by eexists|done|tauto]|done|done].
Qed.

(** The statements that read, one at a time. *)
Lemma qbind_assoc {A B C} (q : Q A) (k : A → Q B) (k' : B → Q C) w : qbind (qbind q k) k' w = qbind q (λ a, qbind (k a) k') w.
Proof. unfold qbind. by destruct (q w) as [w1 [a|e]]. Qed.

Lemma one_step {A} (p : RouteRow → bool) (q : option RouteRow → Q A) w : db_ok mysql (w_db w) →
  qbind (one db_internal p) q w =
  match fault (w_tick w) with Some _ => (ticked w, Err DatabaseInternal) | None => q (List.find p (d_routes (w_db w))) (ticked w) end.
Proof. intros Hok. unfold qbind, one, stmt. destruct (fault _); [done|]. rewrite decide_True by done. by destruct w. Qed.

Lemma count_step {A} (p : RouteRow → bool) (q : Z → Q A) w : db_ok mysql (w_db w) →
  qbind (count db_internal p) q w =
  match fault (w_tick w) with
  | Some _ => (ticked w, Err DatabaseInternal)
  | None => q (Z.of_nat (length (List.filter p (d_routes (w_db w))))) (ticked w)
  end.
Proof. intros Hok. unfold qbind, count, stmt. destruct (fault _); [done|]. rewrite decide_True by done. by destruct w. Qed.

Lemma update_simulates dto w : typed (Update dto) → simulates (Update dto) w.
Proof using H0.
  intros Ht s Hok Hr. pose proof Ht as [Hid _]. unfold serve, update_route. pose proof (rep_find _ _ (ur_id dto) Hr Hok Hid) as Hf.
  unfold answered. rewrite one_step by done.
  destruct (fault _) as [msg|] eqn:F; [stands s|]. destruct (List.find _ _) as [m|].
  2:{ exists s. split_and!; [by constructor|done|done]. }
  destruct Hf as (Hm & Eid & r & Es & Er). pose proof (count_named_other (w_db w) s) as Hc.
  destruct (ur_name dto) as [n|] eqn:En; [destruct (String.eqb_spec n (rt_name m)) as [->|Hne]|].
  - apply (write_simulates dto m r (ticked w)); try done. intros n [= <-]%(eq_trans (eq_sym En)). rewrite <- Eid. by apply (own_name (w_db w)).
  - rewrite qbind_assoc, count_step by done. cbn [ticked w_tick w_db]. destruct (fault (S (w_tick w))) as [msg|] eqn:F2; [stands s|].
    rewrite filter_pos.
    specialize (Hc n (ur_id dto) Hr Hok Hid). destruct (existsb _ _).
    + exists s. split_and!; [|done|done]. apply s_new_name_taken; [by eexists|done|by apply Hc].
    + apply (write_simulates dto m r (ticked (ticked w))); try done. intros n' [= <-]%(eq_trans (eq_sym En)) Hn. by apply Hc in Hn.
  - apply (write_simulates dto m r (ticked w)); try done. intros n [=]%(eq_trans (eq_sym En)).
Qed.

(** *** Any sequence of requests *)

Lemma serve_simulates q w : typed q → simulates q w.
Proof using H0.
  intros Ht. destruct q; [apply list_simulates|by apply find_simulates|apply page_simulates|by apply create_simulates|by apply update_simulates|by apply delete_simulates].
Qed.

(** C14. The repository of routes is a map from ids to routes: from any database, on
    any backend, that keeps its constraints and represents such a map (its live
    routes can be read and have different names), and with match conditions that
    read back as they were written, every sequence of requests is answered as the
    abstract machine may answer it, and the database represents the map of the machine at
    every step, its constraints kept. So a route that was created or updated is
    found with the fields of the request until it is changed again, names are
    unique, a refused or failed request changes nothing, a deleted route is gone
    (on MySQL, whose index also compares the times of deletion, the deletion of an
    existing route may be refused), the listing of enabled routes is complete and
    ordered by priority, and the pages cut one complete listing ordered by id. *)
Theorem route_repo_refines qs w s :
  Forall typed qs → db_ok mysql (w_db w) → represents (w_db w) s →
  ∃ s', spec_run s qs s' (serve_all qs w).2 ∧ represents (w_db (serve_all qs w).1) s' ∧ db_ok mysql (w_db (serve_all qs w).1).
Proof using H0.
  intros Ht. revert w s. induction Ht as [|q qs Hq Hqs IH]; intros w s Hok Hr; cbn [serve_all].
  - exists s. split_and!; [constructor|done|done].
  - destruct (serve_simulates q w Hq s Hok Hr) as (s1 & H1 & Hr1 & Hok1). destruct (serve q w) as [w1 a]. cbn [fst snd] in *.
    destruct (IH w1 s1 Hok1 Hr1) as (s2 & H2 & Hr2 & Hok2). destruct (serve_all qs w1) as [w2 l]. cbn [fst snd] in *.
    exists s2. split_and!; [by econstructor|done|done].
Qed.
End Repository.
End RouteStore.

(** Requests on an empty table, with a serialisation of the conditions that can be
    read back. *)
Module RouteStoreDemo.
Import Storage Repos RouteStore.

#[local] Instance demo_env : DbEnv :=
  {| mysql := false; new_id _ l := 1 + foldr Z.max 0 l; like _ _ := false; null_eq := false; none_inserted := None;
     violation := "constraint violation"; column_time t := t; utc n := Z.of_nat n; fault _ := None; reply_lost _ := false |}.

Definition op_value (o : MatchOp) : string :=
  match o with OpExact => "exact" | OpPrefix => "prefix" | OpRegex => "regex" | OpNotEmpty => "not_empty" end.
Definition op_of (s : string) : option MatchOp :=
  List.find (λ o, (op_value o =? s)%string) [OpExact; OpPrefix; OpRegex; OpNotEmpty].
Definition strings (l : list string) : Value := VArray (map VString l).
Definition rule_value (r : string * MatchOp * string) : Value := strings [r.1.1; op_value r.1.2; r.2].
Definition rule_of (v : Value) : option (string * MatchOp * string) :=
  match v with VArray [VString k; VString o; VString x] => op ← op_of o; Some (k, op, x) | _ => None end.
Definition path_value (p : PathMatch) : Value :=
  match p with PathPrefix s => strings ["prefix"; s] | PathExact s => strings ["exact"; s] | PathRegex s => strings ["regex"; s] end.
Definition path_of (v : Value) : option PathMatch :=
  match v with
  | VArray [VString t; VString s] =>
      if (t =? "prefix")%string then Some (PathPrefix s) else if (t =? "exact")%string then Some (PathExact s)
      else if (t =? "regex")%string then Some (PathRegex s) else None
  | _ => None
  end.
Definition string_of (v : Value) : option string := match v with VString s => Some s | _ => None end.
Definition list_of {A} (f : Value → option A) (v : Value) : option (list A) := match v with VArray l => mapM f l | _ => None end.
Definition option_of {A} (f : Value → option A) (v : Value) : option (option A) := match v with VNull => Some None | _ => Some <$> f v end.

Definition conditions_of (v : Value) : option RouteMatchConditions :=
  match v with
  | VArray [p; m; h; hs; qs] =>
      p ← path_of p; m ← option_of (list_of string_of) m; h ← option_of string_of h;
      hs ← list_of rule_of hs; qs ← list_of rule_of qs;
      Some (mkConditions p m h (map (λ r, mkHeaderMatch r.1.1 r.1.2 r.2) hs) (map (λ r, mkQueryMatch r.1.1 r.1.2 r.2) qs))
  | _ => None
  end.

#[local] Instance demo_serde : Serde RouteMatchConditions :=
  {| to_value c := VArray [path_value (rc_path c); from_option strings VNull (rc_methods c); from_option VString VNull (rc_host c);
       VArray (map (λ h, rule_value (hm_key h, hm_op h, hm_value h)) (rc_headers c));
       VArray (map (λ q, rule_value (qm_key q, qm_op q, qm_value q)) (rc_query_params c))];
     from_value v := match conditions_of v with Some c => Ok c | None => Err "invalid conditions"%string end |}.

Lemma list_of_map {A B} (f : Value → option A) (g : B → Value) (h : B → A) l :
  (∀ b, f (g b) = Some (h b)) → list_of f (VArray (map g l)) = Some (map h l).
Proof. intros E. simpl. induction l as [|b l IH]; simpl; [done|]. by rewrite E, IH. Qed.

Lemma map_same {A} (f : A → A) l : (∀ x, f x = x) → map f l = l.
Proof. intros E. rewrite <- (map_id l) at 2. by apply map_ext. Qed.

Lemma rule_read k o x : rule_of (rule_value (k, o, x)) = Some (k, o, x).
Proof. by destruct o. Qed.

#[local] Instance demo_serde_ok : SerdeOk RouteMatchConditions.
Proof.
  intros [p m h hs qs]. cbn [to_value from_value demo_serde conditions_of rc_path rc_methods rc_host rc_headers rc_query_params].
  assert (path_of (path_value p) = Some p) as -> by (by destruct p).
  assert (option_of (list_of string_of) (from_option strings VNull m) = Some m) as ->.
  { destruct m as [l|]; [|done]. unfold strings. cbn [from_option]. unfold option_of. rewrite (list_of_map _ _ id) by done. cbn. by rewrite map_id. }
  assert (option_of string_of (from_option VString VNull h) = Some h) as -> by (by destruct h).
  rewrite (list_of_map rule_of _ (λ h, (hm_key h, hm_op h, hm_value h))) by (intros; apply rule_read).
  rewrite (list_of_map rule_of _ (λ q, (qm_key q, qm_op q, qm_value q))) by (intros; apply rule_read).
  cbn [mbind option_bind]. rewrite !map_map, !map_same by (by intros []). done.
Qed.

Definition create (name : string) (up : option Z) : request :=
  Create (mkCreateRoute name Http default_conditions None up None None None None).
Definition rename (id : Z) (name : string) : request := Update (mkUpdateRoute id (Some name) None (Some 7) None None None None None).
Definition requests : list request :=
  [create "a" None; create "a" None; create "b" (Some 9); create "b" None; rename 2 "a"; rename 2 "c"; SoftDelete 1; FindById 1; ListEnabled; ListPaginated 1 20].
Definition w0 : World := mkWorld empty_db (mkRedis ∅ []) 0.

Definition refused (a : answer) : bool := match a with Refused _ => true | _ => false end.

(** The second "a" is refused and an unknown upstream too; the rename takes a free
    name; the deleted route is gone. *)
Lemma route_repo_refines_witness :
  map refused (serve_all requests w0).2 = [false; true; true; false; true; false; false; false; false; false] ∧
  (serve_all requests w0).2 !! 7%nat = Some (Found None) ∧
  ∃ s', spec_run (mkStore ∅ [] []) requests s' (serve_all requests w0).2.
Proof.
  split; [vm_compute; reflexivity|]. split; [vm_compute; reflexivity|].
  destruct (route_repo_refines requests w0 (mkStore ∅ [] [])) as (s' & Hrun & _ & _).
  - repeat (apply Forall_cons; split); try apply Forall_nil; cbn; unfold u64; repeat split; intros; simplify_eq; lia.
  - apply (bool_decide_unpack _). vm_compute. exact I.
  - split; [reflexivity|reflexivity|intros row []%not_elem_of_nil|intros row y []%not_elem_of_nil|]. intros id r. cbn [s_routes]. split; [intros []%lookup_empty_Some|].
    intros (row & []%not_elem_of_nil & _).
  - exists s'. exact Hrun.
Defined.

(** The foreign key knows deleted upstreams too: a route may be created for one. *)
Definition w1 : World := with_db (set_rows [mkUpRow 1 "gone" 1 true 0 0 (Some 5)] empty_db) w0.

Lemma deleted_upstream_accepted :
  ∃ r, (serve (create "a" (Some 1)) w1).2 = Route r ∧ r_upstream_id r = Some 1 ∧
    (find_upstream_by_id 1 (serve (create "a" (Some 1)) w1).1).2 = Ok None.
Proof. eexists. split_and!; vm_compute; reflexivity. Qed.
End RouteStoreDemo.
