(* ===== verification/Reports.v ===== *)
(** The tables the gateways report to and the control plane keeps for itself
    (conrogate-storage/src/repository): metrics, events, the audit log, the
    gateways that report, the installed plugins. *)
From Stdlib Require Import ZArith Lia Ascii String.
From stdpp Require Import base tactics option list gmap strings pretty.
From S2P Require Import Prelude Text Errors Core F64 Plugin Telemetry HttpHandler Storage Repositories.
#[local] Open Scope Z_scope.

(** ** Transfer objects *)

Record AuditLogRow := mkAuditLog {
  au_ts : Z; au_operator : option string; au_action : string; au_resource : string; au_resource_id : option Z;
  au_detail : Value; au_trace_id : option string }.

Record NodeApplicationRow := mkNodeApplication {
  no_gate_id : string; no_version : Z; no_applied_at : Z; no_last_seen : Z; no_updated_at : Z }.

Record InstalledPluginDto := mkInstalledPlugin {
  ip_name : string; ip_version : string; ip_api_version : Z; ip_kind : PluginKind; ip_status : PluginStatus;
  ip_package_hash : option string; ip_manifest : Value; ip_installed_at : Z; ip_activated_at : option Z }.

Record OverviewMetric := mkOverview { ov_total_qps : F64.f64; ov_avg_latency_ms : F64.f64; ov_error_rate : F64.f64 }.

Record MetricQuery := mkMetricQuery { mq_range_min : Z; mq_route_id : option Z; mq_gate_id : option string }.
Record EventQuery := mkEventQuery { eq_event_type : option string; eq_route_id : option Z; eq_ts_from : option Z; eq_ts_to : option Z }.
Record AuditLogQuery := mkAuditQuery {
  aq_operator : option string; aq_action : option string; aq_resource : option string; aq_ts_from : option Z; aq_ts_to : option Z }.

Module Reports.
Import Storage Aggregator.
Import HttpHandler(EventRow, mkEvent, ev_ts, ev_type, ev_route_id, ev_upstream_id, ev_trace_id, ev_detail).
#[local] Open Scope query_scope.

(** ** Conversions *)

Definition plugin_kind_to_i16 (k : PluginKind) : Z := match k with Native => 0 | Wasm => 1 end.
Definition i16_to_plugin_kind (v : Z) : PluginKind := match v with 1 => Wasm | _ => Native end.

Definition plugin_status_to_i16 (s : PluginStatus) : Z :=
  match s with Installed => 0 | Active => 1 | Disabled => 2 | Uninstalled => 3 end.
Definition i16_to_plugin_status (v : Z) : PluginStatus :=
  match v with 1 => Active | 2 => Disabled | 3 => Uninstalled | _ => Installed end.

Definition metric_model_to_row (m : MetricAggRow) : option MetricRow :=
  Some (mkMetricRow (mt_ts m) (u32_wrap (mt_bucket_sec m)) (u64_wrap <$> mt_route_id m) (mt_gate_id m) (u32_wrap (mt_qps m))
    (u64_wrap (mt_total_requests m)) (mt_avg_latency_ms m) (u32_wrap (mt_p50_ms m)) (u32_wrap (mt_p90_ms m)) (u32_wrap (mt_p99_ms m))
    (u64_wrap (mt_status_2xx m)) (u64_wrap (mt_status_3xx m)) (u64_wrap (mt_status_4xx m)) (u64_wrap (mt_status_5xx m))
    (u64_wrap (mt_sessions m)) (u64_wrap (mt_bytes_in m)) (u64_wrap (mt_bytes_out m))).

Definition metric_row_to_active_model (row : MetricRow) (created : Z) (id : Z) : MetricAggRow :=
  mkMetricAgg id (ts row) (i32_wrap (row_bucket_sec row)) (i64_wrap <$> route_id row) (gate_id row) (i32_wrap (qps row))
    (i64_wrap (total_requests row)) (avg_latency_ms row) (i32_wrap (p50_ms row)) (i32_wrap (p90_ms row)) (i32_wrap (p99_ms row))
    (i64_wrap (status_2xx row)) (i64_wrap (status_3xx row)) (i64_wrap (status_4xx row)) (i64_wrap (status_5xx row))
    (i64_wrap (sessions row)) (i64_wrap (bytes_in row)) (i64_wrap (bytes_out row)) created.

Definition event_model_to_row (m : GatewayEventRow) : option EventRow :=
  Some (mkEvent (ge_ts m) (ge_event_type m) (u64_wrap <$> ge_route_id m) (u64_wrap <$> ge_upstream_id m) (ge_trace_id m)
    (default VNull (ge_detail m))).

Definition event_row_to_active_model (row : EventRow) (created : Z) (id : Z) : GatewayEventRow :=
  mkGatewayEvent id (ev_ts row) (ev_type row) (i64_wrap <$> ev_route_id row) (i64_wrap <$> ev_upstream_id row) (ev_trace_id row)
    (Some (ev_detail row)) created.

Definition audit_row_to_active_model (row : AuditLogRow) (created : Z) (id : Z) : AuditRow :=
  mkAuditRow id (au_ts row) (au_operator row) (au_action row) (au_resource row) (i64_wrap <$> au_resource_id row)
    (Some (au_detail row)) (au_trace_id row) created.

Definition audit_model_to_row (m : AuditRow) : option AuditLogRow :=
  Some (mkAuditLog (al_ts m) (al_operator m) (al_action m) (al_resource m) (u64_wrap <$> al_resource_id m)
    (default VNull (al_detail m)) (al_trace_id m)).

Definition node_app_model_to_row (m : NodeAppRow) : option NodeApplicationRow :=
  Some (mkNodeApplication (na_gate_id m) (u64_wrap (na_version m)) (na_applied_at m) (na_last_seen m) (na_updated_at m)).

Definition installed_plugin_model_to_dto (m : InstalledPluginRow) : option InstalledPluginDto :=
  Some (mkInstalledPlugin (in_name m) (in_version m) (u32_wrap (in_api_version m)) (i16_to_plugin_kind (in_kind m))
    (i16_to_plugin_status (in_status m)) (in_package_hash m) (in_manifest m) (in_installed_at m) (in_activated_at m)).

Definition installed_plugin_dto_to_active_model (dto : InstalledPluginDto) (id : Z) : InstalledPluginRow :=
  mkInstalled id (ip_name dto) (ip_version dto) (i32_wrap (ip_api_version dto)) (plugin_kind_to_i16 (ip_kind dto))
    (plugin_status_to_i16 (ip_status dto)) (ip_package_hash dto) (ip_manifest dto) (ip_installed_at dto) (ip_activated_at dto) None.

Section Tables.
Context `{DbEnv}.

(** ** Metrics *)

Definition same_bucket (row : MetricRow) (m : MetricAggRow) : bool :=
  (mt_ts m =? ts row) && (mt_bucket_sec m =? i32_wrap (row_bucket_sec row)) && (mt_gate_id m =? gate_id row)%string &&
  match route_id row with
  | Some r => bool_decide (mt_route_id m = Some (i64_wrap r))
  | None => null_eq && bool_decide (mt_route_id m = None)
  end.

(** The measured columns of the row, over the key columns of the stored one. *)
Definition overwrite_metric (row : MetricRow) (m : MetricAggRow) : MetricAggRow :=
  mkMetricAgg (mt_id m) (mt_ts m) (mt_bucket_sec m) (mt_route_id m) (mt_gate_id m) (i32_wrap (qps row))
    (i64_wrap (total_requests row)) (avg_latency_ms row) (i32_wrap (p50_ms row)) (i32_wrap (p90_ms row)) (i32_wrap (p99_ms row))
    (i64_wrap (status_2xx row)) (i64_wrap (status_3xx row)) (i64_wrap (status_4xx row)) (i64_wrap (status_5xx row))
    (i64_wrap (sessions row)) (i64_wrap (bytes_in row)) (i64_wrap (bytes_out row)) (mt_created_at m).

Definition upsert_metric (_ : unit) (row : MetricRow) : Q unit :=
  created <-- now;;
  existing <-- one db_internal (same_bucket row);;
  match existing with
  | Some _ => update_many db_internal (same_bucket row) (overwrite_metric row);;- qret tt
  | None => insert data_mapping (metric_row_to_active_model row created);;- qret tt
  end.

Definition upsert_batch (metrics : list MetricRow) : Q unit := for_each metrics tt upsert_metric.

Definition minutes (m : Z) : Z := from_secs (m * 60).

Definition query_metrics (filter : MetricQuery) : Q (list MetricRow) :=
  t <-- now;;
  models <-- stmt db_internal (λ d, (d, Ok (stable_sort (asc mt_ts) (List.filter (λ m,
    (t - minutes (mq_range_min filter) <=? mt_ts m) &&
    match mq_route_id filter with Some r => bool_decide (mt_route_id m = Some (i64_wrap r)) | None => true end &&
    match mq_gate_id filter with Some g => (mt_gate_id m =? g)%string | None => true end) (rows d)))));;
  qret (omap metric_model_to_row models).

Definition sum_i64 (l : list Z) : Z := foldl (λ acc x, i64_wrap (acc + x)) 0 l.
Definition sum_f64 (l : list F64.f64) : F64.f64 := foldl F64.add F64.zero l.

Definition overview_of (range_min : Z) (models : list MetricAggRow) : OverviewMetric :=
  match models with
  | [] => mkOverview F64.zero F64.zero F64.zero
  | _ =>
      let total_requests := sum_i64 (map mt_total_requests models) in
      let total_errors := sum_i64 (map (λ m, i64_wrap (mt_status_4xx m + mt_status_5xx m)) models) in
      let total_latency := sum_f64 (map (λ m, F64.mul (mt_avg_latency_ms m) (F64.of_Z (mt_total_requests m))) models) in
      let seconds := u32_wrap (range_min * 60) in
      mkOverview
        (if 0 <? seconds then F64.div (F64.of_Z total_requests) (F64.of_Z seconds) else F64.zero)
        (if 0 <? total_requests then F64.div total_latency (F64.of_Z total_requests) else F64.zero)
        (if 0 <? total_requests then F64.div (F64.of_Z total_errors) (F64.of_Z total_requests) else F64.zero)
  end.

Definition overview (range_min : Z) : Q OverviewMetric :=
  t <-- now;;
  models <-- all db_internal (λ m : MetricAggRow, t - minutes range_min <=? mt_ts m);;
  qret (overview_of range_min models).

(** ** Events *)

(** Each row of the batch takes its creation time when it is converted. *)
Definition convert_events (events : list EventRow) : Q (list (Z → GatewayEventRow)) :=
  for_each events [] (λ acc e, t <-- now;; qret (acc ++ [event_row_to_active_model e t])).

(** The column keeps the time of an event as precisely as its type does (seconds on
    MySQL, microseconds on PostgreSQL), and the unique index compares what it keeps. *)
Definition time_kept (mk : Z → GatewayEventRow) (id : Z) : GatewayEventRow :=
  let e := mk id in
  mkGatewayEvent (ge_id e) (column_time (ge_ts e)) (ge_event_type e) (ge_route_id e) (ge_upstream_id e) (ge_trace_id e)
    (ge_detail e) (ge_created_at e).

Definition insert_batch (events : list EventRow) : Q unit :=
  match events with
  | [] => qret tt
  | _ => actives <-- convert_events events;; insert_many data_mapping event_key (map time_kept actives)
  end.

Definition in_range (from to : option Z) (t : Z) : bool :=
  match from with Some a => a <=? t | None => true end && match to with Some b => t <=? b | None => true end.
Definition is_eq (want : option string) (s : string) : bool := match want with Some w => (s =? w)%string | None => true end.

Definition query_events (filter : EventQuery) (page page_size : Z) : Q (PaginatedResult EventRow) :=
  let page_size := clamp_page_size page_size in
  let p (e : GatewayEventRow) :=
    is_eq (eq_event_type filter) (ge_event_type e) &&
    match eq_route_id filter with Some r => bool_decide (ge_route_id e = Some (i64_wrap r)) | None => true end &&
    in_range (eq_ts_from filter) (eq_ts_to filter) (ge_ts e) in
  r <-- Repos.paginate p (desc ge_ts) (page_offset page) page_size;;
  qret (mkPage (omap event_model_to_row r.1) r.2 page page_size).

(** ** The audit log *)

Definition insert_audit (row : AuditLogRow) : Q unit :=
  t <-- now;; insert data_mapping (audit_row_to_active_model row t);;- qret tt.

Definition query_audit_logs (filter : AuditLogQuery) (page page_size : Z) : Q (PaginatedResult AuditLogRow) :=
  let page_size := clamp_page_size page_size in
  let p (a : AuditRow) :=
    match aq_operator filter with Some o => bool_decide (al_operator a = Some o) | None => true end &&
    is_eq (aq_action filter) (al_action a) && is_eq (aq_resource filter) (al_resource a) &&
    in_range (aq_ts_from filter) (aq_ts_to filter) (al_ts a) in
  r <-- Repos.paginate p (desc al_ts) (page_offset page) page_size;;
  qret (mkPage (omap audit_model_to_row r.1) r.2 page page_size).

(** ** Gateways *)

Definition upsert_node (gate : string) (version last_seen : Z) : Q unit :=
  existing <-- one db_internal (λ n, (na_gate_id n =? gate)%string);;
  t <-- now;;
  match existing with
  | Some m => update data_mapping (mkNodeApp (na_id m) (na_gate_id m) (i64_wrap version) (na_applied_at m) last_seen t);;- qret tt
  | None => insert data_mapping (λ id, mkNodeApp id gate (i64_wrap version) t last_seen t);;- qret tt
  end.

Definition count_by_version (version : Z) : Q Z :=
  n <-- count db_internal (λ n, na_version n =? i64_wrap version);; qret (u32_wrap n).

Definition list_nodes : Q (list NodeApplicationRow) :=
  models <-- stmt db_internal (λ d, (d, Ok (stable_sort (desc na_updated_at) (rows d))));;
  qret (omap node_app_model_to_row models).

Definition list_stale (before : Z) : Q (list NodeApplicationRow) :=
  models <-- all db_internal (λ n, na_last_seen n <? before);; qret (omap node_app_model_to_row models).

(** ** Installed plugins *)

Definition live_plugin (p : InstalledPluginRow) : bool := live (in_deleted_at p).
Definition plugin_named (name : string) (p : InstalledPluginRow) : bool := (in_name p =? name)%string && live_plugin p.

Definition list_plugins (status : option PluginStatus) : Q (list InstalledPluginDto) :=
  models <-- stmt db_internal (λ d, (d, Ok (stable_sort (desc in_installed_at) (List.filter (λ p, live_plugin p &&
    match status with Some s => in_status p =? plugin_status_to_i16 s | None => true end) (rows d)))));;
  qret (omap installed_plugin_model_to_dto models).

Definition find_plugin (name : string) : Q (option InstalledPluginDto) :=
  model <-- one db_internal (plugin_named name);; qret (model ≫= installed_plugin_model_to_dto).

Definition insert_plugin (dto : InstalledPluginDto) : Q unit :=
  insert data_mapping (installed_plugin_dto_to_active_model dto);;- qret tt.

Definition set_plugin_status (s : PluginStatus) (p : InstalledPluginRow) : InstalledPluginRow :=
  mkInstalled (in_id p) (in_name p) (in_version p) (in_api_version p) (in_kind p) (plugin_status_to_i16 s) (in_package_hash p)
    (in_manifest p) (in_installed_at p) (in_activated_at p) (in_deleted_at p).

Definition update_plugin_status (name : string) (s : PluginStatus) : Q unit :=
  update_many db_internal (plugin_named name) (set_plugin_status s);;- qret tt.

Definition delete_plugin_row (t : Z) (p : InstalledPluginRow) : InstalledPluginRow :=
  mkInstalled (in_id p) (in_name p) (in_version p) (in_api_version p) (in_kind p) (in_status p) (in_package_hash p)
    (in_manifest p) (in_installed_at p) (in_activated_at p) (Some t).

Definition soft_delete_plugin (name : string) : Q unit :=
  t <-- now;; update_many db_internal (plugin_named name) (delete_plugin_row t);;- qret tt.

End Tables.
End Reports.
