(* ===== verification/ConfigCache.v ===== *)
(** The configuration cache (conrogate-storage/src/config_cache.rs): the trait,
    its implementation on the database, its implementation on Redis and the loader
    that reads through it. *)
From Stdlib Require Import ZArith Lia Ascii String.
From stdpp Require Import base tactics option list gmap strings pretty.
From S2P Require Import Prelude Text Errors Core F64 Storage Repositories Versions.
#[local] Open Scope Z_scope.

(** The trait, as far as configurations are read and written. *)
Class ConfigCache := {
  get_version : Storage.Q (option Z);
  get_snapshot : Storage.Q (option ConfigSnapshot);
  put_snapshot : Z → ConfigSnapshot → Storage.Q unit;
  invalidate : Storage.Q unit }.

(** What the services rely on: the cache does not write the database. *)
Class ConfigCacheOk (c : ConfigCache) : Prop := {
  put_keeps_db v s : Storage.keeps (λ d _, d) (put_snapshot v s);
  invalidate_keeps_db : Storage.keeps (λ d _, d) invalidate }.

Module Cache.
Import Storage Repos.
#[local] Open Scope query_scope.

(** [ConfigLoaderImpl]. *)
Section Loader.
Context `{ConfigCache}.

Definition load_snapshot : Q ConfigSnapshot :=
  s <-- get_snapshot;;
  match s with Some s => qret s | None => qfail (Internal "config snapshot not available") end.

Definition current_version : Q Z := v <-- get_version;; qret (default 0 v).
End Loader.

(** ** On the database *)

Section Db.
Context `{DbEnv} `{Serde RouteMatchConditions}.

(** The enabled routes, the upstreams and the bindings of those routes: one
    statement for each table and for each route. *)
Definition read_config : Q ConfigSnapshot :=
  routes <-- list_enabled;;
  upstreams <-- list_upstreams_all;;
  bindings <-- for_each routes [] (λ acc r, l <-- list_by_route (r_id r);; qret (acc ++ l));;
  qret (mkConfigSnapshot routes upstreams bindings).

Definition max_version (l : list VersionRow) : option Z :=
  foldr (λ r acc, Some (from_option (Z.max (vr_version r)) (vr_version r) acc)) None l.

Definition db_get_version : Q (option Z) :=
  v <-- stmt (λ e, Internal ("query version: " +:+ e)) (λ d, (d, Ok (max_version (d_versions d))));;
  qret (u64_wrap <$> v).

Definition db_cache : ConfigCache :=
  {| get_version := db_get_version;
     get_snapshot := s <-- read_config;; qret (Some s);
     put_snapshot _ _ := qret tt;
     invalidate := qret tt |}.
#[global] Instance db_cache_ok : ConfigCacheOk db_cache.
Proof. split; intros; apply keeps_ret. Qed.
End Db.

(** ** On Redis *)

Section OnRedis.
Context `{DbEnv}.

(** The text of a snapshot and back ([serde_json::to_string], [from_str]), and the
    message of a number that does not parse. *)
Context (to_string : ConfigSnapshot → string) (from_str : string → result ConfigSnapshot string) (parse_error : string → string).

Definition VERSION_KEY : string := "conrogate:config:version".
Definition SNAPSHOT_PREFIX : string := "conrogate:config:snapshot:".
Definition NOTIFY_CHANNEL : string := "conrogate:config:notify".
Definition RETRY_MAX : nat := 3.

Definition snapshot_key (version : Z) : string := SNAPSHOT_PREFIX +:+ pretty version.

Definition internal (what msg : string) : ConrogateError := Internal (what +:+ ": " +:+ msg).
Definition command {A} (what : string) (f : Redis → Redis * A) : Q A := redis (internal "redis get_connection") (internal what) f.

(** [SET], [SET] and [PUBLISH] in one transaction of Redis. *)
Definition write_snapshot (version : Z) (json : string) : Q unit :=
  command "redis pipe" (λ r,
    (mkRedis (<[snapshot_key version := json]> (<[VERSION_KEY := pretty version]> (rd_keys r)))
       (rd_published r ++ [(NOTIFY_CHANNEL, pretty version)]), tt)).

Definition redis_get_version : Q (option Z) :=
  v <-- command "redis GET version" (λ r, (r, rd_keys r !! VERSION_KEY));;
  match v with
  | Some s => match parse_uint (2 ^ 64 - 1) s with
              | Some n => qret (Some n)
              | None => qfail (Internal ("version parse: " +:+ parse_error s))
              end
  | None => qret None
  end.

(** The snapshot of a version. *)
Definition read_snapshot (version : Z) : Q (option ConfigSnapshot) :=
  json <-- command "redis GET snapshot" (λ r, (r, rd_keys r !! snapshot_key version));;
  match json with
  | Some s => match from_str s with
              | Ok snap => qret (Some snap)
              | Err e => qfail (Internal ("snapshot deserialize: " +:+ e))
              end
  | None => qret None
  end.

Definition redis_get_snapshot : Q (option ConfigSnapshot) :=
  v <-- redis_get_version;;
  match v with
  | None => qret None
  | Some version => read_snapshot version
  end.

(** Up to [attempts] attempts; the error is that of the last one. *)
Fixpoint write_retrying (attempts : nat) (last : option ConrogateError) (version : Z) (json : string) : Q unit :=
  match attempts with
  | O => qfail (default (Internal "redis config cache write failed") last)
  | S n => λ w, match write_snapshot version json w with
                | (w', Ok _) => (w', Ok tt)
                | (w', Err e) => write_retrying n (Some e) version json w'
                end
  end.

Definition redis_put_snapshot (version : Z) (snapshot : ConfigSnapshot) : Q unit :=
  write_retrying RETRY_MAX None version (to_string snapshot).

Definition redis_invalidate : Q unit :=
  command "redis DEL version" (λ r, (mkRedis (base.delete VERSION_KEY (rd_keys r)) (rd_published r), tt)).

Definition redis_cache : ConfigCache :=
  {| get_version := redis_get_version; get_snapshot := redis_get_snapshot;
     put_snapshot := redis_put_snapshot; invalidate := redis_invalidate |}.

(** ** What a write leaves in the cache *)

(** The cache holds this version with this snapshot. *)
Definition holds (r : Redis) (version : Z) (s : ConfigSnapshot) : Prop :=
  rd_keys r !! VERSION_KEY = Some (pretty version) ∧ rd_keys r !! snapshot_key version = Some (to_string s).

Lemma snapshot_key_version v : snapshot_key v ≠ VERSION_KEY.
Proof. unfold snapshot_key, SNAPSHOT_PREFIX, VERSION_KEY. simpl. by intros [=]. Qed.

Lemma redis_spec {A} e1 e2 (f : Redis → Redis * A) w w' r :
  redis e1 e2 f w = (w', r) →
  w_db w' = w_db w ∧ match r with
  | Ok a => f (w_redis w) = (w_redis w', a)
  | Err _ => w_redis w' = w_redis w ∨ w_redis w' = (f (w_redis w)).1
  end.
Proof.
  unfold redis. destruct (fault _); [intros [= <- <-]; auto|]. destruct (fault _); [intros [= <- <-]; destruct (reply_lost _); auto|].
  simpl. destruct (f (w_redis w)) as [r' a] eqn:E. by intros [= <- <-].
Qed.

Lemma write_snapshot_spec v s w w' r :
  write_snapshot v (to_string s) w = (w', r) →
  w_db w' = w_db w ∧ match r with Ok _ => holds (w_redis w') v s | Err _ => w_redis w' = w_redis w ∨ holds (w_redis w') v s end.
Proof.
  intros [Hd Hr]%redis_spec. split; [done|]. match type of Hr with context [mkRedis ?m ?p] => set (r' := mkRedis m p) in Hr end.
  assert (holds r' v s) as Hh.
  { unfold holds, r'. simpl. rewrite lookup_insert_eq, lookup_insert_ne by apply snapshot_key_version. by rewrite lookup_insert_eq. }
  destruct r as [[]|e]; [by injection Hr as <-|]. destruct Hr as [->| ->]; auto.
Qed.

Lemma put_snapshot_spec v s w w' r :
  redis_put_snapshot v s w = (w', r) →
  w_db w' = w_db w ∧ match r with Ok _ => holds (w_redis w') v s | Err _ => w_redis w' = w_redis w ∨ holds (w_redis w') v s end.
Proof.
  unfold redis_put_snapshot. generalize RETRY_MAX at 1. generalize (@None ConrogateError). intros last n. revert last w.
  induction n as [|n IH]; simpl; intros last w; [intros [= <- <-]; auto|].
  destruct (write_snapshot v (to_string s) w) as [w1 [[]|e]] eqn:E; apply write_snapshot_spec in E as [Hd Hr].
  - by intros [= <- <-].
  - intros [Hd' Hr']%IH. split; [congruence|]. destruct r; [done|]. destruct Hr' as [-> |?]; [exact Hr|by right].
Qed.

#[global] Instance redis_cache_ok : ConfigCacheOk redis_cache.
Proof.
  split.
  - intros v s w. destruct (redis_put_snapshot v s w) as [w' r] eqn:E. pose proof (put_snapshot_spec v s w w' r E) as [E0 _].
    cbn [put_snapshot redis_cache]. by rewrite E.
  - by apply keeps_redis.
Qed.

End OnRedis.
End Cache.
