(* ===== verification/Control.v ===== *)
(** The services of the control plane (conrogate-server/src/service.rs) with the
    audit log they write (conrogate-server/src/audit.rs), over the repositories. *)
From Stdlib Require Import ZArith Lia Ascii String.
From stdpp Require Import base tactics option list gmap strings pretty.
From S2P Require Import Prelude Text Errors Core F64 Plugin Access Telemetry HttpHandler Storage Repositories.
From S2P Require Import Versions Snapshot Reports ConfigCache.
#[local] Open Scope Z_scope.

(** [serde_json::to_value(&x).unwrap_or_default()]. *)
Class Encode (A : Type) := encode : A → Value.

#[global] Instance encode_int : Encode Z := λ z, VNumber (pretty z).
#[global] Instance encode_string : Encode string := VString.
#[global] Instance encode_option {A} `{Encode A} : Encode (option A) := λ o, from_option encode VNull o.
#[global] Instance encode_list {A} `{Encode A} : Encode (list A) := λ l, VArray (map encode l).
#[global] Instance encode_page {A} `{Encode A} : Encode (PaginatedResult A) := λ p,
  VObject [("list"%string, encode (pg_list p)); ("total"%string, encode (pg_total p));
           ("page"%string, encode (pg_page p)); ("page_size"%string, encode (pg_page_size p))].

Record Heartbeat := mkHeartbeat { hb_gate_id : string; hb_version : Z; hb_timestamp : Z }.
Record MetricsBatch := mkMetricsBatch {
  mb_gate_id : string; mb_trace_id : string; mb_window_start : Z; mb_window_end : Z; mb_bucket_sec : Z;
  mb_metrics : list Aggregator.MetricRow }.
Record EventsBatch := mkEventsBatch { eb_gate_id : string; eb_batch_trace_id : string; eb_events : list HttpHandler.EventRow }.

Module Control.
Import Storage Reports Versions.
Import HttpHandler(EventRow, mkEvent, ev_ts, ev_type, ev_route_id, ev_upstream_id, ev_trace_id, ev_detail).
#[local] Open Scope query_scope.

Section Services.
Context `{DbEnv} `{Serde RouteMatchConditions} `{Serde ConfigSnapshot} (sha256_hash : Value → string).
Context {IpAddr IpNet : Type} `{IpLib IpAddr IpNet}.
Context `{Encode RouteDto} `{Encode UpstreamDto} `{Encode PluginBindingDto} `{Encode IpBlacklistDto}.
Context (encode_f64 : F64.f64 → Value) (encode_time : Z → Value).

(** The order in which a hash map is walked. *)
Context (hash_order : gmap Z Z → list (Z * Z)).

(** The cache, when one is configured. *)
Context (config_cache : option ConfigCache).

Definition REPORT_BATCH_LIMIT : Z := 1000.

(** ** The audit log *)

(** [AuditService::log]: a failure is only logged. *)
Definition audit_log (operator : option string) (action resource : string) (resource_id : option Z) (detail : Value) (trace_id : string) :
    Q unit :=
  ts <-- now;;
  λ w, ((insert_audit (mkAuditLog ts operator action resource resource_id detail (Some trace_id)) w).1, Ok tt).

Definition id_detail (id : Z) : Value := VObject [("id"%string, encode id)].

(** ** Routes *)

Definition create_route (dto : CreateRouteDto) (operator : option string) (trace_id : string) : Q RouteDto :=
  route <-- Repos.create_route dto;;
  audit_log operator "create" "route" (Some (r_id route)) (encode route) trace_id;;-
  qret route.

Definition update_route (dto : UpdateRouteDto) (operator : option string) (trace_id : string) : Q RouteDto :=
  route <-- Repos.update_route dto;;
  audit_log operator "update" "route" (Some (r_id route)) (encode route) trace_id;;-
  qret route.

Definition delete_route (id : Z) (operator : option string) (trace_id : string) : Q unit :=
  Repos.soft_delete_route id;;-
  audit_log operator "delete" "route" (Some id) (id_detail id) trace_id.

(** ** Upstreams *)

Definition create_upstream (dto : CreateUpstreamDto) (operator : option string) (trace_id : string) : Q UpstreamDto :=
  upstream <-- Repos.create_upstream dto;;
  audit_log operator "create" "upstream" (Some (u_id upstream)) (encode upstream) trace_id;;-
  qret upstream.

Definition update_upstream (dto : UpdateUpstreamDto) (operator : option string) (trace_id : string) : Q UpstreamDto :=
  upstream <-- Repos.update_upstream dto;;
  audit_log operator "update" "upstream" (Some (u_id upstream)) (encode upstream) trace_id;;-
  qret upstream.

(** An upstream that routes refer to is not deleted. *)
Definition delete_upstream (id : Z) (operator : option string) (trace_id : string) : Q unit :=
  bindings <-- Repos.list_route_bindings id;;
  match bindings with
  | [] =>
      Repos.soft_delete_upstream id;;-
      audit_log operator "delete" "upstream" (Some id) (id_detail id) trace_id
  | _ =>
      qfail (Conflict ("upstream is bound by " +:+ pretty (Z.of_nat (length bindings)) +:+ " route(s): " +:+
                       join ", " (map rb_name bindings) +:+ "; unbind first before deleting"))
  end.

(** ** Plugin bindings *)

Definition bind_plugin (route_id : Z) (dto : BindPluginDto) (operator : option string) (trace_id : string) : Q PluginBindingDto :=
  binding <-- Repos.bind route_id dto;;
  audit_log operator "bind" "plugin_binding" (Some (b_id binding)) (encode binding) trace_id;;-
  qret binding.

Definition unbind_plugin (route_id : Z) (plugin_name : string) (operator : option string) (trace_id : string) : Q unit :=
  Repos.unbind route_id plugin_name;;-
  audit_log operator "unbind" "plugin_binding" None
    (VObject [("route_id"%string, encode route_id); ("plugin"%string, encode plugin_name)]) trace_id.

Definition update_plugin_binding (route_id : Z) (plugin_name : string) (dto : UpdatePluginBindingDto) (operator : option string)
    (trace_id : string) : Q PluginBindingDto :=
  binding <-- Repos.update_binding route_id plugin_name dto;;
  audit_log operator "update" "plugin_binding" (Some (b_id binding)) (encode binding) trace_id;;-
  qret binding.

(** ** Configuration versions *)

(** The cache is written when there is one; when that fails it is invalidated. *)
Definition write_cache (version : Z) (snapshot : ConfigSnapshot) : Q unit :=
  match config_cache with
  | Some cache =>
      λ w, match put_snapshot version snapshot w with
           | (w', Ok _) => (w', Ok tt)
           | (w', Err _) => ((invalidate w').1, Ok tt)
           end
  | None => qret tt
  end.

Definition publish_config (base_version : Z) (operator : option string) (trace_id : string) (remark : option string) :
    Q ConfigVersionDto :=
  snapshot <-- Cache.read_config;;
  version <-- publish sha256_hash base_version snapshot operator remark;;
  write_cache (cv_version version) snapshot;;-
  audit_log operator "publish" "config_version" (Some (cv_version version))
    (VObject [("version"%string, encode (cv_version version)); ("base"%string, encode (cv_base_version version))]) trace_id;;-
  qret version.

Definition rollback_config (target_version : Z) (operator : option string) (trace_id : string) : Q ConfigVersionDto :=
  found <-- get_snapshot_by_version target_version;;
  match found with
  | None => qfail (NotFound ("version " +:+ pretty target_version))
  | Some target_snapshot =>
      Snapshot.apply_snapshot target_snapshot;;-
      version <-- rollback target_version operator;;
      (match config_cache with
       | Some _ =>
           stored <-- get_snapshot_by_version (cv_version version);;
           match stored with Some snapshot => write_cache (cv_version version) snapshot | None => qret tt end
       | None => qret tt
       end);;-
      audit_log operator "rollback" "config_version" (Some (cv_version version))
        (VObject [("target"%string, encode target_version); ("new_version"%string, encode (cv_version version))]) trace_id;;-
      qret version
  end.

(** ** Insights *)

Definition recent (range_min : Z) : Q (list Aggregator.MetricRow) := query_metrics (mkMetricQuery range_min None None).

Definition insights_qps (range_min : Z) : Q Value :=
  rows <-- recent range_min;;
  qret (VObject [("series"%string, VArray (map (λ r,
    VObject [("ts"%string, encode_time (Aggregator.ts r)); ("qps"%string, encode (Aggregator.qps r));
             ("route_id"%string, encode (Aggregator.route_id r))]) rows))]).

Definition mean (l : list F64.f64) : F64.f64 :=
  match l with [] => F64.zero | _ => F64.div (sum_f64 l) (F64.of_Z (Z.of_nat (length l))) end.

Definition insights_latency (range_min : Z) : Q Value :=
  rows <-- recent range_min;;
  qret (VObject [("avg_ms"%string, encode_f64 (mean (map Aggregator.avg_latency_ms rows)));
                 ("p50_ms"%string, encode_f64 (mean (map (λ r, F64.of_Z (Aggregator.p50_ms r)) rows)));
                 ("p90_ms"%string, encode_f64 (mean (map (λ r, F64.of_Z (Aggregator.p90_ms r)) rows)));
                 ("p99_ms"%string, encode_f64 (mean (map (λ r, F64.of_Z (Aggregator.p99_ms r)) rows)))]).

Definition sum_u64 (l : list Z) : Z := foldl (λ acc x, u64_wrap (acc + x)) 0 l.

Definition insights_status_codes (range_min : Z) : Q Value :=
  rows <-- recent range_min;;
  qret (VObject [("2xx"%string, encode (sum_u64 (map Aggregator.status_2xx rows)));
                 ("3xx"%string, encode (sum_u64 (map Aggregator.status_3xx rows)));
                 ("4xx"%string, encode (sum_u64 (map Aggregator.status_4xx rows)));
                 ("5xx"%string, encode (sum_u64 (map Aggregator.status_5xx rows)))]).

Definition count_route (by_route : gmap Z Z) (r : Aggregator.MetricRow) : gmap Z Z :=
  match Aggregator.route_id r with
  | Some rid => <[rid := u64_wrap (default 0 (by_route !! rid) + Aggregator.total_requests r)]> by_route
  | None => by_route
  end.

(** The ten routes with the most requests. *)
Definition top_routes (rows : list Aggregator.MetricRow) : list (Z * Z) :=
  take 10 (stable_sort (desc snd) (hash_order (foldl count_route ∅ rows))).

Definition insights_top_routes (range_min : Z) : Q Value :=
  rows <-- recent range_min;;
  qret (VObject [("top_routes"%string, VArray (map (λ p : Z * Z,
    VObject [("route_id"%string, encode p.1); ("total_requests"%string, encode p.2)]) (top_routes rows)))]).

(** ** Plugins *)

Definition debug_status (s : PluginStatus) : string :=
  match s with Installed => "Installed" | Active => "Active" | Disabled => "Disabled" | Uninstalled => "Uninstalled" end.

Definition update_plugin_status (name : string) (status : PluginStatus) (operator : option string) (trace_id : string) : Q unit :=
  Reports.update_plugin_status name status;;-
  audit_log operator "update_status" "plugin" None
    (VObject [("name"%string, encode name); ("status"%string, encode (debug_status status))]) trace_id.

Definition delete_plugin (name : string) (operator : option string) (trace_id : string) : Q unit :=
  found <-- find_plugin name;;
  match found with
  | None => qfail (PluginNotFound name)
  | Some plugin =>
      match ip_kind plugin with
      | Native => qfail (BadRequest "内置插件不可卸载")
      | Wasm =>
          soft_delete_plugin name;;-
          audit_log operator "delete" "plugin" None (VObject [("name"%string, encode name)]) trace_id
      end
  end.

(** ** The IP blacklist *)

Definition create_ip_blacklist (dto : CreateIpBlacklistDto) (operator : option string) (trace_id : string) : Q IpBlacklistDto :=
  let ip_or_cidr := trim (ci_ip_or_cidr dto) in
  match parse_ip_or_cidr ip_or_cidr with
  | None => qfail (BadRequest ("非法 IP 或 CIDR: " +:+ ip_or_cidr))
  | Some _ =>
      if bool_decide (ci_expires_in_seconds dto = Some 0) then qfail (BadRequest "expires_in_seconds 必须大于 0")
      else
        let reason := ci_reason dto ≫= λ r, if is_empty (trim r) then None else Some (trim r) in
        entry <-- Repos.upsert_blacklist (mkCreateIp ip_or_cidr reason (ci_expires_in_seconds dto)) operator;;
        audit_log operator "create" "ip_blacklist" (Some (bl_id entry)) (encode entry) trace_id;;-
        qret entry
  end.

Definition delete_ip_blacklist (id : Z) (operator : option string) (trace_id : string) : Q unit :=
  Repos.delete_blacklist id;;-
  audit_log operator "delete" "ip_blacklist" (Some id) (id_detail id) trace_id.

(** ** Reports of the gateways *)

Definition receive_heartbeat (hb : Heartbeat) : Q unit := upsert_node (hb_gate_id hb) (hb_version hb) (hb_timestamp hb).

Definition too_many (n : Z) : ConrogateError :=
  BadRequest ("批量上报超过上限 " +:+ pretty REPORT_BATCH_LIMIT +:+ " 条，实际 " +:+ pretty n +:+ " 条").

Definition receive_metrics (batch : MetricsBatch) : Q unit :=
  let n := Z.of_nat (length (mb_metrics batch)) in
  if REPORT_BATCH_LIMIT <? n then qfail (too_many n)
  else if negb (mb_bucket_sec batch =? 10) && negb (mb_bucket_sec batch =? 60) then
    qfail (BadRequest ("bucket_sec 仅支持 10/60，实际 " +:+ pretty (mb_bucket_sec batch)))
  else upsert_batch (mb_metrics batch).

(** An event with a trace id is kept once for each trace id, time and type. *)
Fixpoint dedup (seen : list (string * Z * string)) (events : list EventRow) : list EventRow :=
  match events with
  | [] => []
  | e :: rest =>
      match ev_trace_id e with
      | Some tid => if bool_decide ((tid, ev_ts e, ev_type e) ∈ seen) then dedup seen rest
                    else e :: dedup ((tid, ev_ts e, ev_type e) :: seen) rest
      | None => e :: dedup seen rest
      end
  end.

Definition receive_events (batch : EventsBatch) : Q unit :=
  let n := Z.of_nat (length (eb_events batch)) in
  if REPORT_BATCH_LIMIT <? n then qfail (too_many n) else insert_batch (dedup [] (eb_events batch)).

(** ** Services that only read *)

Definition get_route (id : Z) : Q (option RouteDto) := Repos.find_route_by_id id.
Definition list_routes (page page_size : Z) : Q (PaginatedResult RouteDto) := Repos.list_routes page page_size.
Definition list_upstream_route_bindings (id : Z) : Q (list UpstreamRouteBindingDto) := Repos.list_route_bindings id.
Definition get_upstream (id : Z) : Q (option UpstreamDto) := Repos.find_upstream_by_id id.
Definition list_upstreams (page page_size : Z) : Q (PaginatedResult UpstreamDto) := Repos.list_upstreams page page_size.
Definition list_plugin_bindings (route_id : Z) : Q (list PluginBindingDto) := Repos.list_by_route route_id.
Definition list_config_versions (page page_size : Z) : Q (PaginatedResult ConfigVersionDto) := Versions.list_versions page page_size.
Definition diff_config (from to : Z) : Q ConfigDiff := Versions.diff from to.
Definition query_metrics (filter : MetricQuery) : Q (list Aggregator.MetricRow) := Reports.query_metrics filter.
Definition overview_metrics (range_min : Z) : Q OverviewMetric := Reports.overview range_min.
Definition query_events (filter : EventQuery) (page page_size : Z) : Q (PaginatedResult EventRow) :=
  Reports.query_events filter page page_size.
Definition query_audit_logs (filter : AuditLogQuery) (page page_size : Z) : Q (PaginatedResult AuditLogRow) :=
  Reports.query_audit_logs filter page page_size.
Definition list_nodes : Q (list NodeApplicationRow) := Reports.list_nodes.
Definition list_plugins (status : option PluginStatus) : Q (list InstalledPluginDto) := Reports.list_plugins status.
Definition list_ip_blacklist (keyword : option string) (page page_size : Z) : Q (PaginatedResult IpBlacklistDto) :=
  Repos.list_blacklist_page keyword page page_size.

(** ** What is audited *)

(** A row says who did what to which kind of resource, in which request. *)
Definition entry_of (operator : option string) (action resource trace_id : string) (row : AuditRow) : Prop :=
  al_operator row = operator ∧ al_action row = action ∧ al_resource row = resource ∧ al_trace_id row = Some trace_id.

(** Nothing fails but what the program refuses, and new rows get new ids. *)
Definition reliable : Prop := (∀ n, fault n = None) ∧ (∀ n l, new_id n l ∉ l).

(** A success leaves one entry in the audit log, or none if that entry could not be
    written; a failure leaves none. *)
Definition audited {A} (P : AuditRow → Prop) (q : Q A) : Prop :=
  ∀ w w' r, q w = (w', r) →
  ∃ rows, d_audit_logs (w_db w') = d_audit_logs (w_db w) ++ rows ∧
    match r with
    | Ok _ => (length rows <= 1)%nat ∧ Forall P rows ∧ (db_ok mysql (w_db w) → reliable → length rows = 1%nat)
    | Err e => rows = [] ∧ code e ≠ OK_CODE
    end.

Definition log_kept {A} (q : Q A) : Prop := keeps (λ d _, d_audit_logs d) q.

Lemma audited_bind {A B} P (q : Q A) (k : A → Q B) : log_kept q → sound q → (∀ a, audited P (k a)) → audited P (qbind q k).
Proof.
  intros Hk Hs Ha w w' r. unfold qbind. pose proof (Hk w) as E. pose proof (sound_ok _ Hs w) as Hok.
  destruct (q w) as [w1 [a|e]] eqn:Eq; simpl in E.
  - intros (rows & Er & Hr)%Ha. exists rows. split; [congruence|]. destruct r; [|done]. destruct Hr as (Hl & Hf & Hone). by auto.
  - intros [= <- <-]. exists []. rewrite app_nil_r. split_and!; [done..|]. by eapply (sound_err _ Hs).
Qed.

Lemma audited_fail {A} P e : code e ≠ OK_CODE → audited (A := A) P (qfail e).
Proof. intros He w w' r [= <- <-]. exists []. by rewrite app_nil_r. Qed.

Lemma audit_log_audited operator action resource id detail trace_id :
  audited (entry_of operator action resource trace_id) (audit_log operator action resource id detail trace_id).
Proof.
  intros w w' r. unfold audit_log, insert_audit, qbind, now. simpl. intros [= <- <-]. unfold insert, at_tick, stmt. simpl.
  destruct (fault _) eqn:Ef; simpl; [exists []; rewrite app_nil_r; split_and!; [done|simpl; lia|done|by intros _ [Hf _]; rewrite Hf in Ef]|].
  case_decide as Hok; simpl.
  - eexists [_]. split_and!; [done|done| |done]. by repeat constructor.
  - exists []. rewrite app_nil_r. split_and!; [done|simpl; lia|done|]. intros Hw [_ Hn]. exfalso. apply Hok.
    destruct Hw. split; try done. simpl. rewrite map_app. apply NoDup_app. split_and!; [done| |apply NoDup_singleton].
    intros x Hx Hx'. apply list_elem_of_singleton in Hx' as ->. eapply (Hn _ _ Hx).
Qed.

Lemma audited_ret {A} P (q : Q unit) (a : A) : audited P q → audited P (qbind q (λ _, qret a)).
Proof.
  intros Hq w w' r. unfold qbind. destruct (q w) as [w1 [[]|e]] eqn:E; intros [= <- <-]; by apply (Hq w w1 _ E).
Qed.


(** The services that write, one by one. *)
Section Audited.
Context (cache_ok : ∀ c, config_cache = Some c → ConfigCacheOk c).

Lemma write_cache_keeps_db v s : keeps (λ d _, d) (write_cache v s).
Proof using cache_ok.
  unfold write_cache. destruct config_cache as [c|]; [|apply keeps_ret]. specialize (cache_ok c eq_refl).
  intros w. pose proof (put_keeps_db v s w) as H1'. destruct (put_snapshot v s w) as [w1 [[]|e]]; [done|]. simpl.
  rewrite (invalidate_keeps_db w1). done.
Qed.

Lemma write_cache_ok v s w : (write_cache v s w).2 = Ok tt.
Proof. unfold write_cache. destruct config_cache; [|done]. by destruct (put_snapshot v s w) as [w1 [[]|e]]. Qed.

Lemma write_cache_sound v s : sound (write_cache v s).
Proof using cache_ok.
  split.
  - intros w Hw. by rewrite (write_cache_keeps_db v s w).
  - intros w w' e E. pose proof (write_cache_ok v s w) as Hr. by rewrite E in Hr.
Qed.

Lemma write_cache_log_kept v s : log_kept (write_cache v s).
Proof using cache_ok. intros w. by rewrite (write_cache_keeps_db v s w). Qed.

Lemma read_config_log_kept : log_kept Cache.read_config.
Proof.
  unfold log_kept, Cache.read_config, Repos.list_enabled, Repos.list_upstreams_all, Repos.with_nodes, Repos.load_nodes, Repos.list_by_route. keeps.
Qed.

Lemma read_config_sound : sound Cache.read_config.
Proof.
  unfold Cache.read_config, Repos.list_enabled, Repos.list_upstreams_all, Repos.with_nodes, Repos.load_nodes, Repos.list_by_route. sound.
Qed.

Lemma apply_snapshot_log_kept s : log_kept (Snapshot.apply_snapshot s).
Proof.
  unfold log_kept, Snapshot.apply_snapshot, Snapshot.upsert_upstream, Snapshot.drop_upstreams, Snapshot.drop_upstream, Repos.delete_nodes,
    Repos.insert_nodes, Snapshot.upsert_route, Snapshot.drop_routes, Snapshot.drop_route, Snapshot.drop_bindings_of,
    Snapshot.upsert_binding, Snapshot.drop_bindings, Snapshot.drop_binding. keeps.
Qed.

Lemma apply_snapshot_sound s : sound (Snapshot.apply_snapshot s).
Proof.
  unfold Snapshot.apply_snapshot, Snapshot.upsert_upstream, Snapshot.drop_upstreams, Snapshot.drop_upstream, Repos.delete_nodes,
    Repos.insert_nodes, Snapshot.upsert_route, Snapshot.drop_routes, Snapshot.drop_route, Snapshot.drop_bindings_of,
    Snapshot.upsert_binding, Snapshot.drop_bindings, Snapshot.drop_binding. sound.
Qed.

Lemma publish_config_audited base operator trace remark :
  audited (entry_of operator "publish" "config_version" trace) (publish_config base operator trace remark).
Proof using cache_ok.
  apply audited_bind; [apply read_config_log_kept|apply read_config_sound|intros snap].
  apply audited_bind; [unfold log_kept, publish, latest_row, publish_on, insert_version; keeps|
    unfold publish, latest_row, publish_on, insert_version; sound|intros v].
  apply audited_bind; [apply write_cache_log_kept|apply write_cache_sound|intros _]. apply audited_ret, audit_log_audited.
Qed.

Lemma rollback_config_audited target operator trace :
  audited (entry_of operator "rollback" "config_version" trace) (rollback_config target operator trace).
Proof using cache_ok.
  apply audited_bind; [unfold log_kept, get_snapshot_by_version, row_of_version; keeps|
    unfold get_snapshot_by_version, row_of_version; sound|intros [snap|]]; [|by apply audited_fail].
  apply audited_bind; [apply apply_snapshot_log_kept|apply apply_snapshot_sound|intros _].
  apply audited_bind; [unfold log_kept, rollback, row_of_version, latest_version, latest_row, rollback_on, insert_version; keeps|
    unfold rollback, row_of_version, latest_version, latest_row, rollback_on, insert_version; sound|intros v].
  apply audited_bind; [| |intros _; apply audited_ret, audit_log_audited].
  - generalize config_cache at 1. intros [c|]; [|apply keeps_ret].
    apply keeps_bind; [unfold get_snapshot_by_version, row_of_version; keeps|]. intros [s|]; [apply write_cache_log_kept|apply keeps_ret].
  - generalize config_cache at 1. intros [c|]; [|apply sound_ret].
    apply sound_bind; [unfold get_snapshot_by_version, row_of_version; sound|]. intros [s|]; [apply write_cache_sound|apply sound_ret].
Qed.

End Audited.

End Services.
End Control.
