(* ===== verification/Api.v ===== *)
(** The HTTP interface of the control plane: the handlers
    (conrogate-server/src/handler.rs), the routes they are mounted on
    (conrogate-server/src/api.rs) and the middlewares around them
    (conrogate-server/src/{auth,trace}.rs). *)
From Stdlib Require Import ZArith Lia Ascii String.
From stdpp Require Import base tactics option list gmap strings pretty.
From S2P Require Import Prelude Text Errors Core F64 Plugin Access TraceId ServerAuth Telemetry HttpHandler.
From S2P Require Import Storage Repositories Versions Snapshot Reports ConfigCache Control.
#[local] Open Scope Z_scope.

#[global] Instance encode_value : Encode Value := λ v, v.

(** [UnifiedResponse] with its HTTP status. *)
Record Response := mkResponse {
  rs_status : Z; rs_code : Z; rs_msg : string; rs_data : option Value; rs_trace_id : string }.

Record PaginationQuery := mkPagination { pq_page : option Z; pq_page_size : option Z }.
Record PublishQuery := mkPublishQuery { pb_base_version : option Z; pb_remark : option string }.
Record DiffQuery := mkDiffQuery { dq_from : Z; dq_to : Z }.
Record OverviewQuery := mkOverviewQuery { oq_range_min : option Z }.

(** The requests of [build_router], with what their extractors deliver: path
    segments, query and body. *)
Inductive call :=
| VerifyToken
| CreateRoute (dto : CreateRouteDto) | ListRoutes (q : PaginationQuery)
| GetRoute (id : Z) | UpdateRoute (path_id : string) (dto : UpdateRouteDto) | PatchRoute (id : Z) (dto : UpdateRouteDto) | DeleteRoute (id : Z)
| CreateUpstream (dto : CreateUpstreamDto) | ListUpstreams (q : PaginationQuery)
| GetUpstream (id : Z) | UpdateUpstream (path_id : string) (dto : UpdateUpstreamDto) | PatchUpstream (id : Z) (dto : UpdateUpstreamDto)
| DeleteUpstream (id : Z) | GetUpstreamRouteBindings (id : Z)
| BindPlugin (route_id : Z) (dto : BindPluginDto) | ListPluginBindings (route_id : Z)
| UpdatePluginBinding (route_id : Z) (plugin_name : string) (dto : UpdatePluginBindingDto) | UnbindPlugin (route_id : Z) (plugin_name : string)
| PublishConfig (q : PublishQuery) | ListConfigVersions (q : PaginationQuery) | RollbackConfig (version : Z) | DiffConfig (q : DiffQuery)
| QueryMetrics (filter : MetricQuery) | OverviewMetrics (q : OverviewQuery)
| InsightsOverview (q : OverviewQuery) | InsightsQps (q : OverviewQuery) | InsightsLatency (q : OverviewQuery)
| InsightsStatusCodes (q : OverviewQuery) | InsightsTopRoutes (q : OverviewQuery)
| QueryEvents (filter : EventQuery) (q : PaginationQuery) | QueryAuditLogs (filter : AuditLogQuery) (q : PaginationQuery)
| ListNodes
| CreateIpBlacklist (dto : CreateIpBlacklistDto) | ListIpBlacklist (keyword : option string) (q : PaginationQuery) | DeleteIpBlacklist (id : Z)
| ListPlugins (status : option string) | ActivatePlugin (name : string) | DisablePlugin (name : string) | DeletePlugin (name : string)
| ReceiveHeartbeat (hb : Heartbeat) | ReceiveMetrics (batch : MetricsBatch) | ReceiveEvents (batch : EventsBatch).

Inductive public_call := HealthCheck | Healthz | Readyz.

Module Api.
Import Storage Reports Versions ServerAuth.

(** The method and the path a request is mounted on, below the prefix. *)
Definition endpoint (c : call) : string * string :=
  match c with
  | VerifyToken => ("GET", "/auth/verify")
  | CreateRoute _ => ("POST", "/routes") | ListRoutes _ => ("GET", "/routes")
  | GetRoute _ => ("GET", "/routes/:id") | UpdateRoute _ _ => ("PUT", "/routes/:id")
  | PatchRoute _ _ => ("PATCH", "/routes/:id") | DeleteRoute _ => ("DELETE", "/routes/:id")
  | CreateUpstream _ => ("POST", "/upstreams") | ListUpstreams _ => ("GET", "/upstreams")
  | GetUpstream _ => ("GET", "/upstreams/:id") | UpdateUpstream _ _ => ("PUT", "/upstreams/:id")
  | PatchUpstream _ _ => ("PATCH", "/upstreams/:id") | DeleteUpstream _ => ("DELETE", "/upstreams/:id")
  | GetUpstreamRouteBindings _ => ("GET", "/upstreams/:id/route-bindings")
  | BindPlugin _ _ => ("POST", "/routes/:id/plugins") | ListPluginBindings _ => ("GET", "/routes/:id/plugins")
  | UpdatePluginBinding _ _ _ => ("PUT", "/routes/:id/plugins/:plugin_name")
  | UnbindPlugin _ _ => ("DELETE", "/routes/:id/plugins/:plugin_name")
  | PublishConfig _ => ("POST", "/configs/publish") | ListConfigVersions _ => ("GET", "/configs/versions")
  | RollbackConfig _ => ("POST", "/configs/versions/:version/rollback") | DiffConfig _ => ("GET", "/configs/diff")
  | QueryMetrics _ => ("GET", "/metrics") | OverviewMetrics _ => ("GET", "/metrics/overview")
  | InsightsOverview _ => ("GET", "/insights/overview") | InsightsQps _ => ("GET", "/insights/qps")
  | InsightsLatency _ => ("GET", "/insights/latency") | InsightsStatusCodes _ => ("GET", "/insights/status-codes")
  | InsightsTopRoutes _ => ("GET", "/insights/top-routes")
  | QueryEvents _ _ => ("GET", "/insights/events") | QueryAuditLogs _ _ => ("GET", "/audit-logs")
  | ListNodes => ("GET", "/nodes")
  | CreateIpBlacklist _ => ("POST", "/security/ip_blacklist") | ListIpBlacklist _ _ => ("GET", "/security/ip_blacklist")
  | DeleteIpBlacklist _ => ("DELETE", "/security/ip_blacklist/:id")
  | ListPlugins _ => ("GET", "/plugins") | ActivatePlugin _ => ("POST", "/plugins/:name/activate")
  | DisablePlugin _ => ("POST", "/plugins/:name/disable") | DeletePlugin _ => ("DELETE", "/plugins/:name")
  | ReceiveHeartbeat _ => ("POST", "/reports/heartbeat") | ReceiveMetrics _ => ("POST", "/reports/metrics")
  | ReceiveEvents _ => ("POST", "/reports/events")
  end%string.

Section Handlers.
Context `{DbEnv} `{Serde RouteMatchConditions} `{Serde ConfigSnapshot} (sha256_hash : Value → string).
Context {IpAddr IpNet : Type} `{IpLib IpAddr IpNet}.
Context `{Encode RouteDto} `{Encode UpstreamDto} `{Encode PluginBindingDto} `{Encode IpBlacklistDto}.
Context `{Encode ConfigVersionDto} `{Encode ConfigDiff} `{Encode Aggregator.MetricRow} `{Encode OverviewMetric}.
Context `{Encode HttpHandler.EventRow} `{Encode AuditLogRow} `{Encode NodeApplicationRow} `{Encode InstalledPluginDto}.
Context `{Encode UpstreamRouteBindingDto}.
Context (encode_f64 : F64.f64 → Value) (encode_time : Z → Value) (hash_order : gmap Z Z → list (Z * Z)).
Context (config_cache : option ConfigCache).

(** The id [generate_trace_id] gives to the envelope of a response. *)
Context (fresh : World → string).

(** ** Responses *)

Definition handler : Type := World → World * Response.

Definition ok (trace : string) (data : Value) : Response := mkResponse 200 OK_CODE "success" (Some data) trace.
Definition ok_empty (trace : string) : Response := mkResponse 200 OK_CODE "success" None trace.
Definition error (trace : string) (e : ConrogateError) : Response :=
  let '(status, b) := Errors.err trace e in mkResponse status (eb_code b) (eb_msg b) None (eb_trace_id b).

Definition respond {A} `{Encode A} (q : Q A) : handler :=
  λ w, match q w with
       | (w', Ok data) => (w', ok (fresh w') (encode data))
       | (w', Err e) => (w', error (fresh w') e)
       end.

Definition respond_empty (q : Q unit) : handler :=
  λ w, match q w with
       | (w', Ok _) => (w', ok_empty (fresh w'))
       | (w', Err e) => (w', error (fresh w') e)
       end.

Definition require_role (role required : Role) : result unit ConrogateError :=
  if has_permission role required then Ok tt else Err Forbidden.

Definition guarded (role required : Role) (h : handler) : handler :=
  λ w, match require_role role required with
       | Ok _ => h w
       | Err e => (w, error (fresh w) e)
       end.

(** ** Handlers *)

Section Request.
Context (role : Role) (operator : string) (trace : string).

Definition create_route (dto : CreateRouteDto) : handler :=
  guarded role Operator (respond (Control.create_route dto (Some operator) trace)).

(** The id in the path is not read. *)
Definition update_route (path_id : string) (dto : UpdateRouteDto) : handler :=
  guarded role Operator (respond (Control.update_route dto (Some operator) trace)).

Definition patch_route (id : Z) (dto : UpdateRouteDto) : handler :=
  guarded role Operator (respond (Control.update_route
    (mkUpdateRoute id (ur_name dto) (ur_match_conditions dto) (ur_priority dto) (ur_upstream_id dto) (ur_host_header dto)
       (ur_allow_retry_non_idempotent dto) (ur_ws_strip_sensitive_headers dto) (ur_enabled dto)) (Some operator) trace)).

Definition delete_route (id : Z) : handler :=
  guarded role Operator (respond_empty (Control.delete_route id (Some operator) trace)).

Definition get_route (id : Z) : handler := respond (Control.get_route id).

Definition page_of (q : PaginationQuery) : Z := default 1 (pq_page q).
Definition page_size_of (q : PaginationQuery) : Z := default 20 (pq_page_size q).

Definition list_routes (q : PaginationQuery) : handler := respond (Control.list_routes (page_of q) (page_size_of q)).

Definition create_upstream (dto : CreateUpstreamDto) : handler :=
  guarded role Operator (respond (Control.create_upstream dto (Some operator) trace)).

Definition update_upstream (path_id : string) (dto : UpdateUpstreamDto) : handler :=
  guarded role Operator (respond (Control.update_upstream dto (Some operator) trace)).

Definition patch_upstream (id : Z) (dto : UpdateUpstreamDto) : handler :=
  guarded role Operator (respond (Control.update_upstream
    (mkUpdateUpstream id (uu_name dto) (uu_algorithm dto) (uu_retry_enabled dto) (uu_nodes dto)) (Some operator) trace)).

Definition delete_upstream (id : Z) : handler :=
  guarded role Operator (respond_empty (Control.delete_upstream id (Some operator) trace)).

Definition get_upstream_route_bindings (id : Z) : handler := respond (Control.list_upstream_route_bindings id).
Definition get_upstream (id : Z) : handler := respond (Control.get_upstream id).
Definition list_upstreams (q : PaginationQuery) : handler := respond (Control.list_upstreams (page_of q) (page_size_of q)).

Definition bind_plugin (route_id : Z) (dto : BindPluginDto) : handler :=
  guarded role Operator (respond (Control.bind_plugin route_id dto (Some operator) trace)).

Definition update_plugin_binding (route_id : Z) (plugin_name : string) (dto : UpdatePluginBindingDto) : handler :=
  guarded role Operator (respond (Control.update_plugin_binding route_id plugin_name dto (Some operator) trace)).

Definition unbind_plugin (route_id : Z) (plugin_name : string) : handler :=
  guarded role Operator (respond_empty (Control.unbind_plugin route_id plugin_name (Some operator) trace)).

Definition list_plugin_bindings (route_id : Z) : handler := respond (Control.list_plugin_bindings route_id).

Definition publish_config (q : PublishQuery) : handler :=
  guarded role Operator (respond (Control.publish_config sha256_hash config_cache (default 0 (pb_base_version q)) (Some operator) trace
    (pb_remark q))).

Definition rollback_config (version : Z) : handler :=
  guarded role Operator (respond (Control.rollback_config config_cache version (Some operator) trace)).

Definition list_config_versions (q : PaginationQuery) : handler := respond (Control.list_config_versions (page_of q) (page_size_of q)).
Definition diff_config (q : DiffQuery) : handler := respond (Control.diff_config (dq_from q) (dq_to q)).

Definition query_metrics (filter : MetricQuery) : handler := respond (Control.query_metrics filter).
Definition range_of (q : OverviewQuery) : Z := default 5 (oq_range_min q).
Definition overview_metrics (q : OverviewQuery) : handler := respond (Control.overview_metrics (range_of q)).
Definition insights_overview (q : OverviewQuery) : handler := respond (Control.overview_metrics (range_of q)).
Definition insights_qps (q : OverviewQuery) : handler := respond (Control.insights_qps encode_time (range_of q)).
Definition insights_latency (q : OverviewQuery) : handler := respond (Control.insights_latency encode_f64 (range_of q)).
Definition insights_status_codes (q : OverviewQuery) : handler := respond (Control.insights_status_codes (range_of q)).
Definition insights_top_routes (q : OverviewQuery) : handler := respond (Control.insights_top_routes hash_order (range_of q)).

Definition query_events (filter : EventQuery) (q : PaginationQuery) : handler :=
  respond (Control.query_events filter (page_of q) (page_size_of q)).
Definition query_audit_logs (filter : AuditLogQuery) (q : PaginationQuery) : handler :=
  respond (Control.query_audit_logs filter (page_of q) (page_size_of q)).
Definition list_nodes : handler := respond Control.list_nodes.

Definition receive_heartbeat (hb : Heartbeat) : handler := respond_empty (Control.receive_heartbeat hb).
Definition receive_metrics (batch : MetricsBatch) : handler := respond_empty (Control.receive_metrics batch).
Definition receive_events (batch : EventsBatch) : handler := respond_empty (Control.receive_events batch).

Definition parse_status (s : string) : option PluginStatus :=
  let l := to_lowercase s in
  if (l =? "installed")%string then Some Installed
  else if (l =? "active")%string then Some Active
  else if (l =? "disabled")%string then Some Disabled
  else if (l =? "uninstalled")%string then Some Uninstalled
  else None.

Definition list_plugins (status : option string) : handler := respond (Control.list_plugins (status ≫= parse_status)).

Definition activate_plugin (name : string) : handler :=
  guarded role Admin (respond_empty (Control.update_plugin_status name Active (Some operator) trace)).
Definition disable_plugin (name : string) : handler :=
  guarded role Admin (respond_empty (Control.update_plugin_status name Disabled (Some operator) trace)).
Definition delete_plugin (name : string) : handler :=
  guarded role Admin (respond_empty (Control.delete_plugin name (Some operator) trace)).

Definition list_ip_blacklist (keyword : option string) (q : PaginationQuery) : handler :=
  guarded role Viewer (respond (Control.list_ip_blacklist keyword (page_of q) (page_size_of q))).
Definition create_ip_blacklist (dto : CreateIpBlacklistDto) : handler :=
  guarded role Operator (respond (Control.create_ip_blacklist dto (Some operator) trace)).
Definition delete_ip_blacklist (id : Z) : handler :=
  guarded role Operator (respond_empty (Control.delete_ip_blacklist id (Some operator) trace)).

Definition role_name (r : Role) : string := match r with Admin => "admin" | Operator => "operator" | Viewer => "viewer" end.

Definition verify_token : handler :=
  λ w, (w, ok (fresh w) (VObject [("operator"%string, encode operator); ("role"%string, encode (role_name role))])).

Definition handle (c : call) : handler :=
  match c with
  | VerifyToken => verify_token
  | CreateRoute dto => create_route dto | ListRoutes q => list_routes q
  | GetRoute id => get_route id | UpdateRoute id dto => update_route id dto | PatchRoute id dto => patch_route id dto
  | DeleteRoute id => delete_route id
  | CreateUpstream dto => create_upstream dto | ListUpstreams q => list_upstreams q
  | GetUpstream id => get_upstream id | UpdateUpstream id dto => update_upstream id dto | PatchUpstream id dto => patch_upstream id dto
  | DeleteUpstream id => delete_upstream id | GetUpstreamRouteBindings id => get_upstream_route_bindings id
  | BindPlugin id dto => bind_plugin id dto | ListPluginBindings id => list_plugin_bindings id
  | UpdatePluginBinding id name dto => update_plugin_binding id name dto | UnbindPlugin id name => unbind_plugin id name
  | PublishConfig q => publish_config q | ListConfigVersions q => list_config_versions q
  | RollbackConfig v => rollback_config v | DiffConfig q => diff_config q
  | QueryMetrics f => query_metrics f | OverviewMetrics q => overview_metrics q
  | InsightsOverview q => insights_overview q | InsightsQps q => insights_qps q | InsightsLatency q => insights_latency q
  | InsightsStatusCodes q => insights_status_codes q | InsightsTopRoutes q => insights_top_routes q
  | QueryEvents f q => query_events f q | QueryAuditLogs f q => query_audit_logs f q
  | ListNodes => list_nodes
  | CreateIpBlacklist dto => create_ip_blacklist dto | ListIpBlacklist kw q => list_ip_blacklist kw q
  | DeleteIpBlacklist id => delete_ip_blacklist id
  | ListPlugins s => list_plugins s | ActivatePlugin n => activate_plugin n | DisablePlugin n => disable_plugin n
  | DeletePlugin n => delete_plugin n
  | ReceiveHeartbeat hb => receive_heartbeat hb | ReceiveMetrics b => receive_metrics b | ReceiveEvents b => receive_events b
  end.
End Request.

(** ** Public requests *)

Definition status_ok : Value := VObject [("status"%string, encode "ok"%string)].
Definition not_ready (trace : string) (msg : string) : Response :=
  let b := error_body_with_trace trace ERR_CONFIG_LOAD msg in mkResponse 503 (eb_code b) (eb_msg b) None (eb_trace_id b).

Definition readyz : handler :=
  λ w, match Reports.list_nodes w with
       | (w1, Err e) => (w1, not_ready (fresh w1) ("not ready: " +:+ display e))
       | (w1, Ok _) =>
           match Repos.list_routes 1 1 w1 with
           | (w2, Ok routes) => if 0 <? pg_total routes then (w2, ok (fresh w2) status_ok)
                                else (w2, not_ready (fresh w2) "not ready: no routes loaded")
           | (w2, Err e) => (w2, not_ready (fresh w2) ("not ready: route check failed: " +:+ display e))
           end
       end.

Definition handle_public (c : public_call) : handler :=
  match c with
  | HealthCheck | Healthz => λ w, (w, ok (fresh w) status_ok)
  | Readyz => readyz
  end.

(** ** The middlewares *)

(** [auth_middleware] in front of the protected handlers. *)
Definition protected (st : AuthState) (authorization : option string) (trace : string) (c : call) : handler :=
  λ w, match auth_middleware st authorization with
       | Ok (role, operator) => handle role operator trace c w
       | Err e => (w, error (fresh w) e)
       end.

(** [trace_middleware]: the envelope of every response carries the id of its
    request: the inbound one unless it is absent or blank. *)
Definition request_trace (inbound : option string) (generated : string) : string :=
  match trim <$> inbound with
  | Some s => if is_empty s then generated else s
  | None => generated
  end.

Definition trace_middleware (trace : string) (h : handler) : handler :=
  λ w, let '(w', r) := h w in (w', mkResponse (rs_status r) (rs_code r) (rs_msg r) (rs_data r) trace).

Definition api (st : AuthState) (authorization inbound_trace : option string) (c : public_call + call) : handler :=
  λ w, let trace := request_trace inbound_trace (fresh w) in
       trace_middleware trace (match c with inl p => handle_public p | inr c => protected st authorization trace c end) w.

(** ** Authorization *)

(** The role a request needs, if any. *)
Definition required (c : call) : option Role :=
  match c with
  | CreateRoute _ | UpdateRoute _ _ | PatchRoute _ _ | DeleteRoute _
  | CreateUpstream _ | UpdateUpstream _ _ | PatchUpstream _ _ | DeleteUpstream _
  | BindPlugin _ _ | UpdatePluginBinding _ _ _ | UnbindPlugin _ _
  | PublishConfig _ | RollbackConfig _ | CreateIpBlacklist _ | DeleteIpBlacklist _ => Some Operator
  | ActivatePlugin _ | DisablePlugin _ | DeletePlugin _ => Some Admin
  | ListIpBlacklist _ _ => Some Viewer
  | _ => None
  end.

Definition is_report (c : call) : bool :=
  match c with ReceiveHeartbeat _ | ReceiveMetrics _ | ReceiveEvents _ => true | _ => false end.

(** Everything but what the gateways report: the configuration, its versions, the
    blacklist, the plugins, the audit log and the cache. *)
Definition config (d : Db) (r : Redis) :=
  (d_upstreams d, d_nodes d, d_routes d, d_bindings d, d_versions d, d_blacklist d, d_plugins d, d_audit_logs d, r).

Lemma respond_keeps {A X} `{Encode A} (proj : Db → Redis → X) (q : Q A) w :
  keeps proj q → proj (w_db (respond q w).1) (w_redis (respond q w).1) = proj (w_db w) (w_redis w).
Proof. intros Hq. specialize (Hq w). unfold respond. by destruct (q w) as [w' [a|e]]. Qed.

Lemma respond_empty_keeps {X} (proj : Db → Redis → X) (q : Q unit) w :
  keeps proj q → proj (w_db (respond_empty q w).1) (w_redis (respond_empty q w).1) = proj (w_db w) (w_redis w).
Proof. intros Hq. specialize (Hq w). unfold respond_empty. by destruct (q w) as [w' [a|e]]. Qed.

Lemma reads_keep role operator trace c w :
  required c = None → is_report c = false →
  (w_db (handle role operator trace c w).1, w_redis (handle role operator trace c w).1) = (w_db w, w_redis w).
Proof.
  intros Hr Hn. destruct c; try discriminate Hr; try discriminate Hn; [done|..];
  (apply (respond_keeps pair);
   unfold Control.get_route, Control.list_routes, Control.list_upstream_route_bindings, Control.get_upstream, Control.list_upstreams,
     Control.list_plugin_bindings, Control.list_config_versions, Control.diff_config, Control.query_metrics, Control.overview_metrics,
     Control.query_events, Control.query_audit_logs, Control.list_nodes, Control.list_plugins,
     Repos.list_routes, Repos.find_route_by_id, Repos.list_upstreams, Repos.find_upstream_by_id, Repos.with_nodes, Repos.load_nodes,
     Repos.list_route_bindings, Repos.list_by_route, Versions.list_versions, Versions.diff, Versions.row_of_version,
     Reports.query_metrics, Reports.overview, Control.insights_qps, Control.insights_latency, Control.insights_status_codes,
     Control.insights_top_routes, Control.recent, Reports.query_metrics, Reports.query_events, Reports.query_audit_logs,
     Reports.list_nodes, Reports.list_plugins, Repos.paginate; keeps).
Qed.
Lemma reports_keep role operator trace c w :
  is_report c = true →
  config (w_db (handle role operator trace c w).1) (w_redis (handle role operator trace c w).1) = config (w_db w) (w_redis w).
Proof.
  intros Hn. destruct c; try discriminate Hn; apply (respond_empty_keeps config);
    unfold Control.receive_heartbeat, Control.receive_metrics, Control.receive_events, Reports.upsert_node, Reports.upsert_batch,
      Reports.upsert_metric, Reports.insert_batch, Reports.convert_events; keeps.
Qed.

Lemma guarded_denied role r h w :
  has_permission role r = false → guarded role r h w = (w, error (fresh w) Forbidden).
Proof. intros E. unfold guarded, require_role. by rewrite E. Qed.

(** What the order of the roles means. *)
Definition allowed (role needed : Role) : Prop :=
  match needed with Viewer => True | Operator => role ≠ Viewer | Admin => role = Admin end.

Lemma has_permission_allowed role needed : has_permission role needed = false ↔ ¬ allowed role needed.
Proof. destruct role, needed; vm_compute; naive_solver. Qed.

(** C3. Nothing is done without the role it takes. When tokens are configured, a
    request that does not present one of them as its bearer token, letter by letter,
    is answered 401 and runs no statement; one that does is handled in the name of
    the operator and with the role that the token spells (without three parts, as a
    viewer; while no token is configured, anybody is the administrator). A request
    that needs a role its sender does not have is answered [Forbidden] and runs no
    statement; and a request that needs no role leaves the configuration, its
    versions, the blacklist, the plugins, the audit log and the cache as they
    were, and the whole database too unless it is a report of a gateway. *)
Theorem api_authorized st authorization trace c w :
  (tokens st ≠ [] → (∀ token, authorization = Some ("Bearer " +:+ token) → token ∉ tokens st) →
     protected st authorization trace c w = (w, error (fresh w) Unauthorized) ∧ rs_status (error (fresh w) Unauthorized) = 401) ∧
  (∀ role operator, identified st authorization role operator →
     protected st authorization trace c w = handle role operator trace c w ∧
     let '(w', r) := protected st authorization trace c w in
     match required c with
     | Some needed => ¬ allowed role needed → (w', r) = (w, error (fresh w) Forbidden)
     | None => config (w_db w') (w_redis w') = config (w_db w) (w_redis w) ∧ (is_report c = false → w_db w' = w_db w)
     end).
Proof.
  unfold protected. split.
  - intros Hne Hno. split; [|done]. destruct (auth_middleware st authorization) as [[role operator]|e] eqn:Ea.
    + apply (auth_middleware_tokens st _ role operator Hne) in Ea as (token & E & Hin & _). by destruct (Hno token E).
    + by apply auth_middleware_refuses in Ea as ->.
  - intros role operator ->%auth_middleware_identifies. split; [done|].
    destruct (handle role operator trace c w) as [w' r] eqn:Eh. destruct (required c) as [needed|] eqn:Er.
    + intros Hp%has_permission_allowed. rewrite <- Eh. destruct c; try discriminate Er; injection Er as <-; by apply guarded_denied.
    + destruct (is_report c) eqn:Hn.
      * split; [|done]. pose proof (reports_keep role operator trace c w Hn) as Hk. by rewrite Eh in Hk.
      * pose proof (reads_keep role operator trace c w Er Hn) as Hk. rewrite Eh in Hk. injection Hk as -> ->. done.
Qed.

(** ** The audit log *)

(** The action and the resource that a request is recorded under. *)
Definition audit_entry (c : call) : option (string * string) :=
  match c with
  | CreateRoute _ => Some ("create", "route") | UpdateRoute _ _ | PatchRoute _ _ => Some ("update", "route")
  | DeleteRoute _ => Some ("delete", "route")
  | CreateUpstream _ => Some ("create", "upstream") | UpdateUpstream _ _ | PatchUpstream _ _ => Some ("update", "upstream")
  | DeleteUpstream _ => Some ("delete", "upstream")
  | BindPlugin _ _ => Some ("bind", "plugin_binding") | UpdatePluginBinding _ _ _ => Some ("update", "plugin_binding")
  | UnbindPlugin _ _ => Some ("unbind", "plugin_binding")
  | PublishConfig _ => Some ("publish", "config_version") | RollbackConfig _ => Some ("rollback", "config_version")
  | CreateIpBlacklist _ => Some ("create", "ip_blacklist") | DeleteIpBlacklist _ => Some ("delete", "ip_blacklist")
  | ActivatePlugin _ | DisablePlugin _ => Some ("update_status", "plugin") | DeletePlugin _ => Some ("delete", "plugin")
  | _ => None
  end%string.

Section Audited.
Context (cache_ok : ∀ c, config_cache = Some c → ConfigCacheOk c).

(** What a handler does to the audit log. *)
Definition logs (P : AuditRow → Prop) (h : handler) : Prop :=
  ∀ w, let '(w', r) := h w in
  ∃ rows, d_audit_logs (w_db w') = d_audit_logs (w_db w) ++ rows ∧ (length rows <= 1)%nat ∧ Forall P rows ∧
    (rs_code r ≠ OK_CODE → rows = []) ∧
    (rs_code r = OK_CODE → db_ok mysql (w_db w) → Control.reliable → length rows = 1%nat).

Lemma respond_logs {A} `{Encode A} P (q : Q A) : Control.audited P q → logs P (respond q).
Proof.
  intros Hq w. unfold respond. destruct (q w) as [w' [a|e]] eqn:E; apply Hq in E as (rows & Er & Hr); exists rows; (split; [done|]); simpl.
  - destruct Hr as (Hl & Hf & Hone). by split_and!.
  - destruct Hr as [-> He]. by split_and!; [simpl; lia|..].
Qed.

Lemma respond_empty_logs P (q : Q unit) : Control.audited P q → logs P (respond_empty q).
Proof.
  intros Hq w. unfold respond_empty. destruct (q w) as [w' [a|e]] eqn:E; apply Hq in E as (rows & Er & Hr); exists rows; (split; [done|]); simpl.
  - destruct Hr as (Hl & Hf & Hone). by split_and!.
  - destruct Hr as [-> He]. by split_and!; [simpl; lia|..].
Qed.

Lemma guarded_logs role needed P h : logs P h → logs P (guarded role needed h).
Proof.
  intros Hh w. unfold guarded, require_role. destruct (has_permission role needed); [apply Hh|].
  exists []. rewrite app_nil_r. by split_and!; [|simpl; lia|..].
Qed.

(** Closes the record of a service that runs one repository operation. *)
Ltac service :=
  apply Control.audited_bind;
    [unfold Control.log_kept; autounfold with repos; keeps|autounfold with repos; sound|intros ?];
  first [apply Control.audited_ret, Control.audit_log_audited|apply Control.audit_log_audited|idtac].

#[local] Hint Unfold Repos.create_route Repos.update_route Repos.soft_delete_route Repos.create_upstream Repos.update_upstream
  Repos.insert_nodes Repos.delete_nodes Repos.load_nodes Repos.with_nodes Repos.list_route_bindings Repos.soft_delete_upstream Repos.bind Repos.unbind
  Repos.update_binding Repos.upsert_blacklist Repos.delete_blacklist Reports.update_plugin_status Reports.find_plugin
  Reports.soft_delete_plugin : repos.

Lemma handle_logs role operator trace c action resource :
  audit_entry c = Some (action, resource) →
  logs (Control.entry_of (Some operator) action resource trace) (handle role operator trace c).
Proof using cache_ok.
  intros E. destruct c; try discriminate E; injection E as <- <-; apply guarded_logs;
    first [apply respond_logs|apply respond_empty_logs];
    try (unfold Control.create_route, Control.update_route, Control.delete_route, Control.create_upstream, Control.update_upstream,
           Control.bind_plugin, Control.unbind_plugin, Control.update_plugin_binding, Control.delete_ip_blacklist,
           Control.update_plugin_status; service; fail).
  - unfold Control.delete_upstream. service. destruct a; [service|by apply Control.audited_fail].
  - by apply Control.publish_config_audited.
  - by apply Control.rollback_config_audited.
  - unfold Control.create_ip_blacklist. destruct (parse_ip_or_cidr _); [|by apply Control.audited_fail].
    case_bool_decide; [by apply Control.audited_fail|]. service.
  - unfold Control.delete_plugin. service. destruct a as [p|]; [|by apply Control.audited_fail].
    destruct (ip_kind p); [by apply Control.audited_fail|service].
Qed.

Lemma unaudited_log_kept role operator trace c w :
  audit_entry c = None → d_audit_logs (w_db (handle role operator trace c w).1) = d_audit_logs (w_db w).
Proof.
  intros E. destruct (required c) as [needed|] eqn:Er.
  - destruct c; try discriminate E; try discriminate Er. cbn [handle list_ip_blacklist]. unfold list_ip_blacklist, guarded, require_role.
    destruct (has_permission role Viewer); [|done]. apply (respond_keeps (λ d _, d_audit_logs d)).
    unfold Control.list_ip_blacklist, Repos.list_blacklist_page, Repos.paginate. keeps.
  - destruct (is_report c) eqn:Hn.
    + pose proof (reports_keep role operator trace c w Hn) as Hk. unfold config in Hk. congruence.
    + pose proof (reads_keep role operator trace c w Er Hn) as Hk. by injection Hk as -> _.
Qed.

(** C20. Every change is in the audit log: a request of those that change the
    configuration leaves, when it succeeds, exactly one entry (none only if the
    entry itself cannot be written) that names the operator of its token, the
    action, the resource and the trace id that the response carries; a request
    that fails or only reads leaves none. *)
Theorem api_audited st authorization inbound c w :
  let '(w', r) := api st authorization inbound (inr c) w in
  rs_trace_id r = request_trace inbound (fresh w) ∧
  match audit_entry c with
  | None => d_audit_logs (w_db w') = d_audit_logs (w_db w)
  | Some (action, resource) =>
      ∃ rows, d_audit_logs (w_db w') = d_audit_logs (w_db w) ++ rows ∧ (length rows <= 1)%nat ∧
        Forall (λ row, ∃ role operator, auth_middleware st authorization = Ok (role, operator) ∧
          Control.entry_of (Some operator) action resource (rs_trace_id r) row) rows ∧
        (rs_code r ≠ OK_CODE → rows = []) ∧
        (rs_code r = OK_CODE → db_ok mysql (w_db w) → Control.reliable → length rows = 1%nat)
  end.
Proof using cache_ok.
  unfold api, trace_middleware, protected. destruct (auth_middleware st authorization) as [[role operator]|e] eqn:Ea.
  - destruct (handle role operator _ c w) as [w' r] eqn:Eh. split; [done|]. destruct (audit_entry c) as [[action resource]|] eqn:Ec.
    + pose proof (handle_logs role operator (request_trace inbound (fresh w)) c action resource Ec w) as Hl. rewrite Eh in Hl.
      destruct Hl as (rows & Er & Hlen & Hf & Hcode). exists rows. split_and!; [done|done| |apply Hcode..].
      eapply Forall_impl; [exact Hf|]. intros row Hrow. by exists role, operator.
    + pose proof (unaudited_log_kept role operator (request_trace inbound (fresh w)) c w Ec) as Hk. by rewrite Eh in Hk.
  - split; [done|]. destruct (audit_entry c) as [[action resource]|]; [|done].
    exists []. rewrite app_nil_r. split_and!; [done|simpl; lia|done|done|].
    unfold auth_middleware in Ea. repeat case_match; by simplify_eq.
Qed.

End Audited.
End Handlers.
End Api.

Module ApiDemo.
Import Storage Api ServerAuth.

#[local] Instance demo_env : DbEnv :=
  {| mysql := false; new_id _ l := 1 + foldr Z.max 0 l; like _ _ := false; null_eq := false; none_inserted := None;
     violation := "constraint violation"; column_time t := t; utc n := Z.of_nat n; fault _ := None; reply_lost _ := false |}.
#[local] Instance demo_conditions : Serde RouteMatchConditions :=
  {| to_value _ := VNull; from_value _ := Ok default_conditions |}.
#[local] Instance demo_snapshots : Serde ConfigSnapshot := {| to_value _ := VNull; from_value _ := Err EmptyString |}.
#[local] Instance demo_ip : IpLib Z Z :=
  {| parse_addr _ := None; parse_net _ := None; net_of_addr a := a; net_contains := Z.eqb; net_contains_net := Z.eqb |}.
#[local] Instance demo_encode {A} : Encode A | 100 := λ _, VNull.

Definition demo_db : Db :=
  mkDb [] [] [mkRouteRow 1 "api" 1 VNull 0 None None false false true 0 0 None] [] [] [] [] [] [] [] [].
Definition w0 : World := mkWorld demo_db (mkRedis ∅ []) 0.
Definition st : AuthState := from_configured "ann:s1:operator,eve:s2:viewer".
Definition no_cache : ∀ c : ConfigCache, None = Some c → ConfigCacheOk c := λ c E, match E with end.
Definition fresh (w : World) : string := "generated".
Definition order (m : gmap Z Z) : list (Z * Z) := map_to_list m.
Definition null {A} (_ : A) : Value := VNull.
Definition hash (_ : Value) : string := "00".

Definition run (authorization : option string) : World * Response :=
  protected hash null null order None fresh st authorization "t1" (DeleteRoute 1) w0.

(** A viewer is refused, and so is a token that is not configured. *)
Lemma api_authorized_witness :
  run (Some "Bearer eve:s2:viewer"%string) = (w0, error "generated" Forbidden) ∧
  run (Some "Bearer eve:s2:admin"%string) = (w0, error "generated" Unauthorized).
Proof.
  split.
  - destruct (api_authorized hash null null order None fresh st (Some "Bearer eve:s2:viewer"%string) "t1" (DeleteRoute 1) w0) as [_ H].
    specialize (H Viewer "eve"%string). unfold run. destruct H as [_ H].
    + apply (id_token st _ "eve:s2:viewer"); [reflexivity|apply (bool_decide_eq_true_1 _); vm_compute; reflexivity|].
      apply (sf_parts _ "eve" "s2" "viewer"); [reflexivity|repeat constructor|split; discriminate].
    + destruct (protected _ _ _ _ _ _ _ _ _ _ _) as [w' r]. apply H. intros E. exact (E eq_refl).
  - destruct (api_authorized hash null null order None fresh st (Some "Bearer eve:s2:admin"%string) "t1" (DeleteRoute 1) w0) as [H _].
    apply H; [discriminate|]. intros token E. apply (f_equal (λ o, o ≫= strip_prefix "Bearer ")) in E. vm_compute in E.
    injection E as <-. apply (bool_decide_eq_true_1 _). vm_compute. reflexivity.
Defined.

(** An operator's deletion leaves one entry, with the trace id of the response. *)
Lemma api_audited_witness :
  let '(w', r) := api hash null null order None fresh st (Some "Bearer ann:s1:operator"%string) (Some " t7 "%string) (inr (DeleteRoute 1)) w0 in
  rs_trace_id r = "t7"%string ∧
  ∃ row, d_audit_logs (w_db w') = [row] ∧ Control.entry_of (Some "ann"%string) "delete" "route" "t7" row.
Proof.
  pose proof (api_audited hash null null order None fresh no_cache st (Some "Bearer ann:s1:operator"%string) (Some " t7 "%string)
    (DeleteRoute 1) w0) as H.
  assert (rs_code (api hash null null order None fresh st (Some "Bearer ann:s1:operator"%string) (Some " t7 "%string) (inr (DeleteRoute 1)) w0).2
          = OK_CODE) as Hc by (vm_compute; reflexivity).
  destruct (api _ _ _ _ _ _ _ _ _ _ _) as [w' r]. destruct H as (Ht & rows & Er & _ & Hf & _ & Hone). simpl in Hc.
  assert (rs_trace_id r = "t7"%string) as Ht' by (rewrite Ht; vm_compute; reflexivity). split; [exact Ht'|].
  assert (length rows = 1%nat) as Hl.
  { apply Hone; [exact Hc|apply (bool_decide_unpack _); vm_compute; exact I|]. split; [reflexivity|].
    intros n l Hin. cbn in Hin. assert (∀ x, x ∈ l → x <= foldr Z.max 0 l) as Hmax.
    { clear. induction l as [|y l IH]; intros x; [set_solver|]. intros [->|Hx]%elem_of_cons; simpl; [lia|]. specialize (IH x Hx). lia. }
    specialize (Hmax _ Hin). lia. }
  destruct rows as [|row [|]]; try discriminate Hl. exists row. split; [exact Er|].
  apply Forall_inv in Hf as (role & operator & Ea & He). assert (operator = "ann"%string) as -> by (vm_compute in Ea; congruence).
  rewrite Ht' in He. exact He.
Defined.

End ApiDemo.
