(* ===== verification/OpenApi.v ===== *)
(** The description of the HTTP interface (conrogate-server/src/openapi.rs) and the
    router it describes (conrogate-server/src/api.rs, with the extractors of
    handler.rs): the paths, operations, parameters and bodies of the document, the
    endpoints the router mounts, and how far the two agree. Schemas derived from the
    data types are a parameter. *)
From Stdlib Require Import ZArith Ascii String.
From stdpp Require Import base tactics option list gmap strings.
From S2P Require Import Prelude Text Errors Core Plugin Access ServerAuth Storage Control Api.

Inductive HttpMethod := Get | Post | Put | Patch | Delete.
#[global] Instance HttpMethod_eq_dec : EqDecision HttpMethod.
Proof. solve_decision. Defined.

Inductive SchemaType := SInteger | SString.
#[global] Instance SchemaType_eq_dec : EqDecision SchemaType.
Proof. solve_decision. Defined.

Inductive ParameterIn := InPath | InQuery.
#[global] Instance ParameterIn_eq_dec : EqDecision ParameterIn.
Proof. solve_decision. Defined.

Record Parameter_ := mkParameter {
  pm_name : string; pm_in : ParameterIn; pm_description : string; pm_required : bool; pm_schema : SchemaType }.

(** A response: its description and the schema its JSON body refers to. *)
Record ResponseDoc := mkResponseDoc { rd_description : string; rd_schema : string }.

(** A request body: description, whether it is required, the schema it refers to. *)
Record RequestBody := mkRequestBody { rb_description : string; rb_required : bool; rb_schema : string }.

Record Operation := mkOperation {
  op_tag : string; op_summary : string; op_id : string; op_parameters : list Parameter_;
  op_body : option RequestBody; op_responses : list (string * ResponseDoc) }.

(** The operations of a path, one field per method. *)
Record PathItem := mkPathItem {
  pi_get : option Operation; pi_post : option Operation; pi_put : option Operation;
  pi_patch : option Operation; pi_delete : option Operation }.

(** What the derived [ToSchema] implementations give, by type. *)
Class DtoSchemas (Schema : Type) := schema_of : string → Schema.

Record OpenApiDoc (Schema : Type) := mkOpenApi {
  oa_title : string; oa_version : string; oa_description : string;
  oa_paths : gmap string PathItem; oa_components : gmap string Schema; oa_tags : list (string * string) }.
Arguments mkOpenApi {_}.
Arguments oa_paths {_}.
Arguments oa_components {_}.

(** What the extractors of a handler take from the request: the types of the path
    segments, the fields of the query (with whether they are required) and the type
    of the JSON body. *)
Record Handler := mkHandler {
  hd_name : string; hd_path : list SchemaType; hd_query : list (string * SchemaType * bool); hd_body : option string }.

(** A route of the router. *)
Record Mount := mkMount { mt_public : bool; mt_method : HttpMethod; mt_path : string; mt_handler : Handler }.

Module OpenApi.
#[local] Open Scope string_scope.

(** ** The document *)

Definition path_param (name description : string) (schema : SchemaType) : Parameter_ :=
  mkParameter name InPath description true schema.
Definition query_param (name description : string) (schema : SchemaType) : Parameter_ :=
  mkParameter name InQuery description false schema.
Definition query_param_required (name description : string) (schema : SchemaType) : Parameter_ :=
  mkParameter name InQuery description true schema.

Definition id_param : Parameter_ := path_param "id" "资源 ID" SInteger.
Definition page_params : list Parameter_ :=
  [query_param "page" "页码，默认 1" SInteger; query_param "page_size" "每页数量，默认 20" SInteger].
Definition range_min_param : Parameter_ := query_param "range_min" "时间范围（分钟），默认 5" SInteger.

Definition ok_response : ResponseDoc := mkResponseDoc "成功：统一响应体 {code,msg,data,trace_id}" "ApiResponse".
Definition bad_response : ResponseDoc := mkResponseDoc "业务错误：HTTP 200 + code/msg（10001/10004/10005 等）" "ApiResponse".
Definition described (description : string) (r : ResponseDoc) : ResponseDoc := mkResponseDoc description (rd_schema r).

Definition responses : list (string * ResponseDoc) :=
  [("200", ok_response); ("400", bad_response);
   ("401", described "未授权：缺少/无效 Token（code=10002）" bad_response);
   ("403", described "无权限：角色不足（code=10003）" bad_response);
   ("404", described "资源不存在（code=10004）" bad_response)].

Definition op (tag summary id : string) (params : list Parameter_) (body : option (string * bool)) : Operation :=
  mkOperation tag summary id params
    ((λ b, mkRequestBody ("请求体：" ++ b.1) b.2 b.1) <$> body) responses.

(** [PathItemBuilder]: an operation takes the field of its method. *)
Definition operation (i : PathItem) (m : HttpMethod) (o : Operation) : PathItem :=
  match m with
  | Get => mkPathItem (Some o) (pi_post i) (pi_put i) (pi_patch i) (pi_delete i)
  | Post => mkPathItem (pi_get i) (Some o) (pi_put i) (pi_patch i) (pi_delete i)
  | Put => mkPathItem (pi_get i) (pi_post i) (Some o) (pi_patch i) (pi_delete i)
  | Patch => mkPathItem (pi_get i) (pi_post i) (pi_put i) (Some o) (pi_delete i)
  | Delete => mkPathItem (pi_get i) (pi_post i) (pi_put i) (pi_patch i) (Some o)
  end.

Definition path_item (ops : list (HttpMethod * Operation)) : PathItem :=
  foldl (λ i mo, operation i mo.1 mo.2) (mkPathItem None None None None None) ops.

Definition operation_of (i : PathItem) (m : HttpMethod) : option Operation :=
  match m with
  | Get => pi_get i | Post => pi_post i | Put => pi_put i | Patch => pi_patch i | Delete => pi_delete i
  end.

Definition health_paths : list (string * PathItem) :=
  [("/health", path_item [(Get, op "health" "健康检查" "health_check" [] None)]);
   ("/healthz", path_item [(Get, op "health" "存活探针" "healthz" [] None)]);
   ("/readyz", path_item [(Get, op "health" "就绪探针" "readyz" [] None)])].

Definition route_paths : list (string * PathItem) :=
  [("/routes", path_item [
       (Post, op "routes" "创建路由" "create_route" [] (Some ("CreateRouteDto", true)));
       (Get, op "routes" "路由列表" "list_routes" page_params None)]);
   ("/routes/{id}", path_item [
       (Get, op "routes" "路由详情" "get_route" [id_param] None);
       (Put, op "routes" "全量更新路由" "update_route" [id_param] (Some ("UpdateRouteDto", true)));
       (Patch, op "routes" "部分更新路由" "patch_route" [id_param] (Some ("UpdateRouteDto", true)));
       (Delete, op "routes" "删除路由" "delete_route" [id_param] None)])].

Definition upstream_paths : list (string * PathItem) :=
  [("/upstreams", path_item [
       (Post, op "upstreams" "创建上游" "create_upstream" [] (Some ("CreateUpstreamDto", true)));
       (Get, op "upstreams" "上游列表" "list_upstreams" page_params None)]);
   ("/upstreams/{id}", path_item [
       (Get, op "upstreams" "上游详情" "get_upstream" [id_param] None);
       (Put, op "upstreams" "全量更新上游" "update_upstream" [id_param] (Some ("UpdateUpstreamDto", true)));
       (Patch, op "upstreams" "部分更新上游" "patch_upstream" [id_param] (Some ("UpdateUpstreamDto", true)));
       (Delete, op "upstreams" "删除上游" "delete_upstream" [id_param] None)])].

Definition plugin_binding_paths : list (string * PathItem) :=
  [("/routes/{id}/plugins", path_item [
       (Post, op "plugins" "绑定插件到路由" "bind_plugin" [id_param] (Some ("BindPluginDto", true)));
       (Get, op "plugins" "路由插件绑定列表" "list_plugin_bindings" [id_param] None)]);
   ("/routes/{id}/plugins/{plugin_name}", path_item [
       (Put, op "plugins" "更新插件绑定配置" "update_plugin_binding" [id_param; path_param "plugin_name" "插件名称" SString] (Some ("UpdatePluginBindingDto", true)));
       (Delete, op "plugins" "解绑插件" "unbind_plugin" [id_param; path_param "plugin_name" "插件名称" SString] None)])].

Definition config_paths : list (string * PathItem) :=
  [("/configs/publish", path_item [
       (Post, op "config" "发布配置（生成新版本快照）" "publish_config" [query_param "base_version" "基线版本号" SInteger; query_param "remark" "发布备注" SString] None)]);
   ("/configs/versions", path_item [
       (Get, op "config" "配置版本列表" "list_config_versions" page_params None)]);
   ("/configs/versions/{version}/rollback", path_item [
       (Post, op "config" "回滚到指定版本" "rollback_config" [path_param "version" "目标版本号" SInteger] None)]);
   ("/configs/diff", path_item [
       (Get, op "config" "版本差异对比" "diff_config" [query_param_required "from" "起始版本号" SInteger; query_param_required "to" "目标版本号" SInteger] None)])].

Definition metric_paths : list (string * PathItem) :=
  [("/metrics", path_item [
       (Get, op "metrics" "指标查询" "query_metrics" [range_min_param; query_param "route_id" "路由 ID" SInteger; query_param "gate_id" "网关节点 ID" SString] None)]);
   ("/metrics/overview", path_item [
       (Get, op "metrics" "指标总览" "overview_metrics" [range_min_param] None)])].

Definition event_paths : list (string * PathItem) :=
  [("/insights/events", path_item [
       (Get, op "events" "事件查询" "query_events" [query_param "event_type" "事件类型" SString; query_param "route_id" "路由 ID" SInteger; query_param "ts_from" "起始时间（ISO8601）" SString; query_param "ts_to" "结束时间（ISO8601）" SString; query_param "page" "页码，默认 1" SInteger; query_param "page_size" "每页数量，默认 20" SInteger] None)]);
   ("/audit-logs", path_item [
       (Get, op "audit" "审计日志查询" "query_audit_logs" [query_param "operator" "操作者" SString; query_param "action" "操作动作" SString; query_param "resource" "资源类型" SString; query_param "ts_from" "起始时间（ISO8601）" SString; query_param "ts_to" "结束时间（ISO8601）" SString; query_param "page" "页码，默认 1" SInteger; query_param "page_size" "每页数量，默认 20" SInteger] None)])].

Definition node_paths : list (string * PathItem) :=
  [("/nodes", path_item [
       (Get, op "nodes" "网关节点应用列表" "list_nodes" [] None)])].

Definition plugin_paths : list (string * PathItem) :=
  [("/plugins", path_item [
       (Get, op "plugins" "已安装插件列表" "list_plugins" [query_param "status" "过滤状态" SString] None)]);
   ("/plugins/{name}/activate", path_item [
       (Post, op "plugins" "激活插件" "activate_plugin" [path_param "name" "插件名称" SString] None)]);
   ("/plugins/{name}/disable", path_item [
       (Post, op "plugins" "禁用插件" "disable_plugin" [path_param "name" "插件名称" SString] None)]);
   ("/plugins/{name}", path_item [
       (Delete, op "plugins" "卸载插件" "delete_plugin" [path_param "name" "插件名称" SString] None)])].

Definition report_paths : list (string * PathItem) :=
  [("/reports/heartbeat", path_item [
       (Post, op "report" "节点心跳上报" "receive_heartbeat" [] (Some ("Heartbeat", true)))]);
   ("/reports/metrics", path_item [
       (Post, op "report" "指标批量上报" "receive_metrics" [] (Some ("MetricsBatch", true)))]);
   ("/reports/events", path_item [
       (Post, op "report" "事件批量上报" "receive_events" [] (Some ("EventsBatch", true)))])].

Definition ip_blacklist_paths : list (string * PathItem) :=
  [("/security/ip_blacklist", path_item [
       (Post, op "security" "添加黑名单" "create_ip_blacklist" [] (Some ("CreateIpBlacklistDto", true)));
       (Get, op "security" "黑名单列表" "list_ip_blacklist" [query_param "keyword" "按 IP/CIDR/备注模糊搜索" SString; query_param "page" "页码，默认 1" SInteger; query_param "page_size" "每页数量，默认 20" SInteger] None)]);
   ("/security/ip_blacklist/{id}", path_item [
       (Delete, op "security" "删除黑名单" "delete_ip_blacklist" [id_param] None)])].


(** The loop over the aggregations. *)
Definition insights_paths : list (string * PathItem) :=
  (λ '(suffix, op_id, summary), ("/insights/" ++ suffix, path_item [(Get, op "metrics" summary op_id [range_min_param] None)]))
  <$> [("overview", "insights_overview", "洞察总览"); ("qps", "insights_qps", "QPS 趋势");
       ("latency", "insights_latency", "延迟趋势"); ("status-codes", "insights_status_codes", "状态码分布");
       ("top-routes", "insights_top_routes", "热门路由排行")].

Definition PUBLIC_PATHS : list string := ["/health"; "/healthz"; "/readyz"].

#[local] Notation Paths := (gmap string PathItem).

Section Document.
(** How the builder joins two items of one path. *)
Context (merge_operations : PathItem → PathItem → PathItem).

(** [PathsBuilder::path] *)
Definition add_path (b : Paths) (path : string) (item : PathItem) : Paths :=
  match b !! path with
  | Some old => <[path := merge_operations old item]> b
  | None => <[path := item]> b
  end.

Definition add_paths (b : Paths) (l : list (string * PathItem)) : Paths := foldl (λ b pi, add_path b pi.1 pi.2) b l.

Definition table : list (string * PathItem) :=
  health_paths ++ route_paths ++ upstream_paths ++ plugin_binding_paths ++ config_paths ++ metric_paths ++ insights_paths
  ++ event_paths ++ node_paths ++ plugin_paths ++ report_paths ++ ip_blacklist_paths.

(** The key a path gets: the public ones stay where they are. *)
Definition key (api path : string) : string := if bool_decide (path ∈ PUBLIC_PATHS) then path else api ++ path.

Definition build_paths (api_prefix : string) : Paths :=
  let b := add_paths ∅ table in
  let api := trim api_prefix in
  foldl (λ result pi, add_path result (key api pi.1) pi.2) ∅ (map_to_list b).

Section Components.
Context {Schema : Type} `{DtoSchemas Schema}.

Definition component_names : list string :=
  ["ApiResponse"; "RouteDto"; "CreateRouteDto"; "UpdateRouteDto"; "UpstreamDto"; "UpstreamNodeDto"; "CreateUpstreamDto";
   "CreateUpstreamNodeDto"; "UpdateUpstreamDto"; "PluginBindingDto"; "BindPluginDto"; "UpdatePluginBindingDto";
   "ConfigVersionDto"; "PublishType"; "ConfigSnapshot"; "ConfigDiff"; "MetricRow"; "EventRow"; "OverviewMetric"; "MetricQuery";
   "EventQuery"; "AuditLogQuery"; "AuditLogRow"; "NodeApplicationRow"; "InstalledPluginDto"; "MetricsBatch"; "EventsBatch";
   "Heartbeat"; "IpBlacklistDto"; "CreateIpBlacklistDto"; "IpBlacklistQuery"; "ProtocolId"; "PathMatch"; "MatchOp";
   "HeaderMatch"; "QueryMatch"; "RouteMatchConditions"; "BalancerAlgorithm"; "PluginKind"; "PluginStatus"; "PaginatedResult"].

Definition build_components : gmap string Schema :=
  foldl (λ m name, <[name := schema_of name]> m) ∅ component_names.

Definition build_tags : list (string * string) :=
  [("health", "健康检查端点"); ("routes", "路由管理 CRUD"); ("upstreams", "上游管理 CRUD"); ("plugins", "插件绑定与插件管理");
   ("config", "配置版本发布/回滚/差异"); ("metrics", "指标与洞察查询"); ("events", "事件查询"); ("audit", "审计日志查询");
   ("nodes", "节点应用列表"); ("report", "gate → control 数据上报"); ("security", "IP 黑名单管理")].

Definition build_openapi (api_prefix : string) : OpenApiDoc Schema :=
  mkOpenApi "Conrogate Control Plane API" "0.1.0"
    "Conrogate 网关控制面 REST API — 路由/上游/插件/配置版本/指标/事件/审计/数据上报"
    (build_paths api_prefix) build_components build_tags.

(** [serve_openapi]: the document of the prefix in the state of the server. *)
Definition serve_openapi `{Encode (OpenApiDoc Schema)} (api_prefix : string) : Value := encode (build_openapi api_prefix).
End Components.
End Document.

(** ** The router *)

(** The queries of the extractors. *)
Definition PaginationQuery : list (string * SchemaType * bool) := [("page", SInteger, false); ("page_size", SInteger, false)].
Definition PublishQuery : list (string * SchemaType * bool) := [("base_version", SInteger, false); ("remark", SString, false)].
Definition DiffQuery : list (string * SchemaType * bool) := [("from", SInteger, true); ("to", SInteger, true)].
Definition OverviewQuery : list (string * SchemaType * bool) := [("range_min", SInteger, false)].
Definition PluginStatusQuery : list (string * SchemaType * bool) := [("status", SString, false)].
Definition MetricQuery : list (string * SchemaType * bool) :=
  [("range_min", SInteger, true); ("route_id", SInteger, false); ("gate_id", SString, false)].
Definition EventQuery : list (string * SchemaType * bool) :=
  [("event_type", SString, false); ("route_id", SInteger, false); ("ts_from", SString, false); ("ts_to", SString, false)].
Definition AuditLogQuery : list (string * SchemaType * bool) :=
  [("operator", SString, false); ("action", SString, false); ("resource", SString, false); ("ts_from", SString, false);
   ("ts_to", SString, false)].
Definition IpBlacklistQuery : list (string * SchemaType * bool) := [("keyword", SString, false)].

Definition public_routes : list Mount :=
  [mkMount true Get "/health" (mkHandler "health_check" [] [] None);
   mkMount true Get "/healthz" (mkHandler "healthz" [] [] None);
   mkMount true Get "/readyz" (mkHandler "readyz" [] [] None);
   mkMount true Get "/openapi.json" (mkHandler "serve_openapi" [] [] None)].

Definition guarded (m : HttpMethod) (path name : string) (segments : list SchemaType) (query : list (string * SchemaType * bool))
    (body : option string) : Mount :=
  mkMount false m path (mkHandler name segments query body).

Definition protected_routes : list Mount :=
  [guarded Get "/auth/verify" "verify_token" [] [] None;
   guarded Post "/routes" "create_route" [] [] (Some "CreateRouteDto");
   guarded Get "/routes" "list_routes" [] PaginationQuery None;
   guarded Get "/routes/:id" "get_route" [SInteger] [] None;
   guarded Put "/routes/:id" "update_route" [] [] (Some "UpdateRouteDto");
   guarded Patch "/routes/:id" "patch_route" [SInteger] [] (Some "UpdateRouteDto");
   guarded Delete "/routes/:id" "delete_route" [SInteger] [] None;
   guarded Post "/upstreams" "create_upstream" [] [] (Some "CreateUpstreamDto");
   guarded Get "/upstreams" "list_upstreams" [] PaginationQuery None;
   guarded Get "/upstreams/:id" "get_upstream" [SInteger] [] None;
   guarded Put "/upstreams/:id" "update_upstream" [] [] (Some "UpdateUpstreamDto");
   guarded Patch "/upstreams/:id" "patch_upstream" [SInteger] [] (Some "UpdateUpstreamDto");
   guarded Delete "/upstreams/:id" "delete_upstream" [SInteger] [] None;
   guarded Get "/upstreams/:id/route-bindings" "get_upstream_route_bindings" [SInteger] [] None;
   guarded Post "/routes/:id/plugins" "bind_plugin" [SInteger] [] (Some "BindPluginDto");
   guarded Get "/routes/:id/plugins" "list_plugin_bindings" [SInteger] [] None;
   guarded Put "/routes/:id/plugins/:plugin_name" "update_plugin_binding" [SInteger; SString] [] (Some "UpdatePluginBindingDto");
   guarded Delete "/routes/:id/plugins/:plugin_name" "unbind_plugin" [SInteger; SString] [] None;
   guarded Post "/configs/publish" "publish_config" [] PublishQuery None;
   guarded Get "/configs/versions" "list_config_versions" [] PaginationQuery None;
   guarded Post "/configs/versions/:version/rollback" "rollback_config" [SInteger] [] None;
   guarded Get "/configs/diff" "diff_config" [] DiffQuery None;
   guarded Get "/metrics" "query_metrics" [] MetricQuery None;
   guarded Get "/metrics/overview" "overview_metrics" [] OverviewQuery None;
   guarded Get "/insights/overview" "insights_overview" [] OverviewQuery None;
   guarded Get "/insights/qps" "insights_qps" [] OverviewQuery None;
   guarded Get "/insights/latency" "insights_latency" [] OverviewQuery None;
   guarded Get "/insights/status-codes" "insights_status_codes" [] OverviewQuery None;
   guarded Get "/insights/top-routes" "insights_top_routes" [] OverviewQuery None;
   guarded Get "/insights/events" "query_events" [] (EventQuery ++ PaginationQuery) None;
   guarded Get "/audit-logs" "query_audit_logs" [] (AuditLogQuery ++ PaginationQuery) None;
   guarded Get "/nodes" "list_nodes" [] [] None;
   guarded Post "/security/ip_blacklist" "create_ip_blacklist" [] [] (Some "CreateIpBlacklistDto");
   guarded Get "/security/ip_blacklist" "list_ip_blacklist" [] (PaginationQuery ++ IpBlacklistQuery) None;
   guarded Delete "/security/ip_blacklist/:id" "delete_ip_blacklist" [SInteger] [] None;
   guarded Get "/plugins" "list_plugins" [] PluginStatusQuery None;
   guarded Post "/plugins/:name/activate" "activate_plugin" [SString] [] None;
   guarded Post "/plugins/:name/disable" "disable_plugin" [SString] [] None;
   guarded Delete "/plugins/:name" "delete_plugin" [SString] [] None;
   guarded Post "/reports/heartbeat" "receive_heartbeat" [] [] (Some "Heartbeat");
   guarded Post "/reports/metrics" "receive_metrics" [] [] (Some "MetricsBatch");
   guarded Post "/reports/events" "receive_events" [] [] (Some "EventsBatch")].

(** The router: where each route is served. [nest] is how the framework joins a
    prefix and a path. *)
Definition mounted_at (nest : string → string → string) (api_prefix : string) (public : bool) (path : string) : string :=
  if public then path else if String.eqb (trim api_prefix) "" then path else nest api_prefix path.

Definition mounts : list Mount := public_routes ++ protected_routes.

Definition build_router (nest : string → string → string) (api_prefix : string) : list (HttpMethod * string * string) :=
  (λ r, (mt_method r, mounted_at nest api_prefix (mt_public r) (mt_path r), hd_name (mt_handler r))) <$> mounts.

(** ** Where the two agree *)

(** A path in the notation of the document: a capture [:x] becomes [{x}]. *)
Fixpoint template_from (inside : bool) (s : string) : string :=
  match s with
  | "" => if inside then "}" else ""
  | String c s' =>
      if Ascii.eqb c "/" then (if inside then "}/" else "/") ++ template_from false s'
      else if Ascii.eqb c ":" && negb inside then "{" ++ template_from true s'
      else String c (template_from inside s')
  end.

Definition template (path : string) : string := template_from false path.

(** The names a path captures. *)
Fixpoint captures_from (name : option string) (s : string) : list string :=
  match s with
  | "" => match name with Some n => [n] | None => [] end
  | String c s' =>
      match name with
      | Some n => if Ascii.eqb c "/" then n :: captures_from None s' else captures_from (Some (n ++ String c "")) s'
      | None => captures_from (if Ascii.eqb c ":" then Some "" else None) s'
      end
  end.

Definition captures (path : string) : list string := captures_from None path.

Definition params_in (w : ParameterIn) (o : Operation) : list Parameter_ :=
  filter (λ p, pm_in p = w) (op_parameters o).

Definition query_fields (o : Operation) : list (string * SchemaType * bool) :=
  (λ p, (pm_name p, pm_schema p, pm_required p)) <$> params_in InQuery o.

(** The operation describes the route: the name of the handler, the captures of the
    path with the types the handler reads (the handlers that read none document
    them all the same), the fields of its query, and its body, whose schema is
    among the components. *)
Definition describes (r : Mount) (o : Operation) : Prop :=
  let h := mt_handler r in
  op_id o = hd_name h ∧
  (pm_name <$> params_in InPath o) = captures (mt_path r) ∧
  (hd_path h = [] ∨ (pm_schema <$> params_in InPath o) = hd_path h) ∧
  query_fields o ≡ₚ hd_query h ∧
  ((λ b, (rb_schema b, rb_required b)) <$> op_body o) = ((λ s, (s, true)) <$> hd_body h) ∧
  match op_body o with Some b => rb_schema b ∈ component_names | None => True end.

#[global] Instance describes_dec r o : Decision (describes r o).
Proof. unfold describes. destruct (op_body o); apply _. Defined.

(** The route as if the field of its query were optional. *)
Definition optional (field : string) (r : Mount) : Mount :=
  let h := mt_handler r in
  mkMount (mt_public r) (mt_method r) (mt_path r)
    (mkHandler (hd_name h) (hd_path h)
       ((λ f, if String.eqb f.1.1 field then (f.1, false) else f) <$> hd_query h) (hd_body h)).

(** The routes the document leaves out. *)
Definition undocumented : list string := ["verify_token"; "get_upstream_route_bindings"; "serve_openapi"].

Definition lookup_op (b : Paths) (path : string) (m : HttpMethod) : option Operation := b !! path ≫= λ i, operation_of i m.

Definition documented (r : Mount) : Mount :=
  if String.eqb (hd_name (mt_handler r)) "query_metrics" then optional "range_min" r else r.

(** What the document has for a route. *)
Definition agrees (r : Mount) (o : option Operation) : Prop :=
  match o with
  | Some o => hd_name (mt_handler r) ∉ undocumented ∧ describes (documented r) o ∧
      (hd_name (mt_handler r) = "query_metrics" → ¬ describes r o)
  | None => hd_name (mt_handler r) ∈ undocumented
  end.

#[global] Instance agrees_dec r o : Decision (agrees r o).
Proof. destruct o; simpl; apply _. Defined.

(** The route an operation is that of. *)
Definition mounted (p : string) (m : HttpMethod) (o : option Operation) : Prop :=
  match o with
  | Some o => Exists (λ r, mt_public r = bool_decide (p ∈ PUBLIC_PATHS) ∧ template (mt_path r) = p ∧ mt_method r = m ∧
      hd_name (mt_handler r) = op_id o) mounts
  | None => True
  end.

#[global] Instance mounted_dec p m o : Decision (mounted p m o).
Proof. destruct o; simpl; apply _. Defined.

#[local] Typeclasses Opaque describes agrees mounted lookup_op.

Section Proofs.
Context (merge_operations : PathItem → PathItem → PathItem).

Notation add_path := (add_path merge_operations).
Notation add_paths := (add_paths merge_operations).
Notation build_paths := (build_paths merge_operations).

(** Paths added once each are the map of their list. *)
Lemma add_paths_lookup f l b k item :
  NoDup ((λ pi, f pi.1) <$> l) → (∀ pi, pi ∈ l → b !! f pi.1 = None) →
  foldl (λ b (pi : string * PathItem), add_path b (f pi.1) pi.2) b l !! k = Some item ↔
  b !! k = Some item ∨ ∃ p, k = f p ∧ (p, item) ∈ l.
Proof.
  revert b. induction l as [|[p i] l IH]; intros b Hnd Hb; simpl.
  { split; [by left|]. intros [?|(p & _ & ?%elem_of_nil)]; done. }
  apply NoDup_cons in Hnd as [Hni Hnd]. pose proof (Hb (p, i) ltac:(left)) as Hp. cbn in Hp.
  unfold OpenApi.add_path at 2. rewrite Hp, IH; [|done|].
  - rewrite lookup_insert_Some. split.
    + intros [[[<- <-]|[_ ?]]|(q & -> & ?)]; [right; exists p; split; [done|left]|by left|right; exists q; split; [done|by right]].
    + intros [Hk|(q & -> & [[= -> ->]|Hq]%elem_of_cons)]; [|by left; left|by right; exists q].
      left. right. split; [|done]. intros <-. congruence.
  - intros [q j] Hq. cbn. rewrite lookup_insert_ne; [apply (Hb (q, j)); by right|].
    intros He. apply Hni, list_elem_of_fmap. by exists (q, j).
Qed.

Lemma table_paths : NoDup table.*1.
Proof. refine (bool_decide_unpack _ _). by vm_compute. Qed.

Lemma table_lookup p item : add_paths ∅ table !! p = Some item ↔ (p, item) ∈ table.
Proof.
  unfold OpenApi.add_paths. rewrite (add_paths_lookup id table ∅ p item).
  - rewrite lookup_empty. split; [intros [[=]|(? & -> & ?)]; done|]. intros H. right. by exists p.
  - apply table_paths.
  - intros pi _. apply lookup_empty.
Qed.

Lemma table_op p item m : (p, item) ∈ table → lookup_op (add_paths ∅ table) p m = operation_of item m.
Proof. intros Hp%table_lookup. unfold lookup_op. by rewrite Hp. Qed.

(** No path of the table ends a public one, so a prefix keeps the keys apart. *)
Definition tails (s : string) : list string := (λ n, string_of_list_ascii (drop n (list_ascii_of_string s))) <$> seq 0 (S (String.length s)).

Lemma tails_app a s : s ∈ tails (a ++ s).
Proof.
  apply list_elem_of_fmap. exists (String.length a). split.
  - rewrite <- (string_of_list_ascii_of_string s) at 1. f_equal. induction a; [done|]. simpl. done.
  - apply elem_of_seq. split; [lia|]. induction a; simpl in *; lia.
Qed.

(** Where a path goes: at the root, or below the prefix. *)
Definition place (api : string) (x : bool * string) : string := if x.1 then x.2 else api ++ x.2.

(** The paths of the table and of the router. *)
Definition placed : list (bool * string) :=
  ((λ p, (bool_decide (p ∈ PUBLIC_PATHS), p)) <$> table.*1) ++ ((λ r, (mt_public r, template (mt_path r))) <$> mounts).

Lemma tails_apart x y : x ∈ placed → y ∈ placed → x.1 = false → y.1 = true → x.2 ∉ tails y.2.
Proof.
  assert (Forall (λ y, y.1 = true → Forall (λ x, x.1 = false → x.2 ∉ tails y.2) placed) placed) as H.
  { refine (bool_decide_unpack _ _). by vm_compute. }
  rewrite Forall_forall in H. intros Hx Hy Hx1 Hy1. specialize (H y Hy Hy1). rewrite Forall_forall in H. by apply H.
Qed.

Lemma place_inj api x y : x ∈ placed → y ∈ placed → place api x = place api y → x.2 = y.2.
Proof.
  intros Hx Hy. unfold place. destruct x as [[] p], y as [[] q]; cbn [fst snd]; [done| | |apply (inj (String.append api))].
  - intros E. destruct (tails_apart (false, q) (true, p)); [done..|]. cbn. rewrite E. apply tails_app.
  - intros E. destruct (tails_apart (false, p) (true, q)); [done..|]. cbn. rewrite <- E. apply tails_app.
Qed.

Lemma key_place api p : key api p = place api (bool_decide (p ∈ PUBLIC_PATHS), p).
Proof. unfold key, place. cbn. by case_bool_decide. Qed.

Lemma table_placed p : p ∈ table.*1 → (bool_decide (p ∈ PUBLIC_PATHS), p) ∈ placed.
Proof. intros H. apply elem_of_app. left. apply list_elem_of_fmap. by exists p. Qed.

Lemma mount_placed r : r ∈ mounts → (mt_public r, template (mt_path r)) ∈ placed.
Proof. intros H. apply elem_of_app. right. apply list_elem_of_fmap. by exists r. Qed.

Lemma key_inj api p q : p ∈ table.*1 → q ∈ table.*1 → key api p = key api q → p = q.
Proof. intros Hp%table_placed Hq%table_placed. rewrite !key_place. apply (place_inj api _ _ Hp Hq). Qed.

(** The document holds the items of the table under their keys. *)
Lemma build_paths_lookup api_prefix k item :
  build_paths api_prefix !! k = Some item ↔ ∃ p, k = key (trim api_prefix) p ∧ (p, item) ∈ table.
Proof.
  unfold OpenApi.build_paths. set (api := trim api_prefix). set (l := map_to_list _).
  assert (∀ p i, (p, i) ∈ l ↔ (p, i) ∈ table) as Hl.
  { intros p i. unfold l. by rewrite elem_of_map_to_list, table_lookup. }
  rewrite (add_paths_lookup (key api) l ∅ k item).
  - rewrite lookup_empty. split; [intros [[=]|(p & -> & ?)]|intros (p & -> & ?); right]; exists p; split; try done; by apply Hl.
  - replace ((λ pi : string * PathItem, key api pi.1) <$> l) with (key api <$> l.*1) by (by rewrite <- list_fmap_compose).
    apply NoDup_fmap_2_strong; [|apply NoDup_fst_map_to_list].
    intros p q Hp Hq. apply key_inj.
    + apply list_elem_of_fmap in Hp as ([? ?] & -> & Hp). apply Hl in Hp. by eapply list_elem_of_fmap_2.
    + apply list_elem_of_fmap in Hq as ([? ?] & -> & Hq). apply Hl in Hq. by eapply list_elem_of_fmap_2.
  - intros pi _. apply lookup_empty.
Qed.

(** The operation of the table on a route of the router. *)
Lemma lookup_op_mount api_prefix r :
  r ∈ mounts →
  lookup_op (build_paths api_prefix) (place (trim api_prefix) (mt_public r, template (mt_path r))) (mt_method r) =
  lookup_op (add_paths ∅ table) (template (mt_path r)) (mt_method r).
Proof.
  intros Hr. unfold lookup_op. f_equal. apply option_eq. intros item. rewrite build_paths_lookup, table_lookup. split.
  - intros (p & E & Hp). rewrite key_place in E. pose proof (list_elem_of_fmap_2 fst _ _ Hp) as Hp'.
    apply place_inj in E; [|by apply mount_placed|by apply table_placed]. cbn in E. by rewrite E.
  - intros Hp. exists (template (mt_path r)). split; [|done]. rewrite key_place. do 2 f_equal.
    pose proof (list_elem_of_fmap_2 fst _ _ Hp) as Hp'. cbn in Hp'. revert Hr Hp'. clear.
    assert (Forall (λ r, template (mt_path r) ∈ table.*1 → mt_public r = bool_decide (template (mt_path r) ∈ PUBLIC_PATHS)) mounts) as H.
    { refine (bool_decide_unpack _ _). by vm_compute. }
    rewrite Forall_forall in H. apply H.
Qed.

(** The table and the router, route by route. *)
Lemma mount_documented r :
  r ∈ mounts → agrees r (lookup_op (add_paths ∅ table) (template (mt_path r)) (mt_method r)).
Proof.
  assert (Forall (λ r, agrees r (lookup_op (add_paths ∅ table) (template (mt_path r)) (mt_method r))) mounts) as H.
  { refine (bool_decide_unpack _ _). by vm_compute. }
  rewrite Forall_forall in H. apply H.
Qed.

(** Every operation of the table is that of a route. *)
Lemma table_mounted p item m o :
  (p, item) ∈ table → operation_of item m = Some o →
  ∃ r, r ∈ mounts ∧ mt_public r = bool_decide (p ∈ PUBLIC_PATHS) ∧ template (mt_path r) = p ∧ mt_method r = m ∧
    hd_name (mt_handler r) = op_id o.
Proof.
  intros Hp Ho.
  assert (Forall (λ pi : string * PathItem, Forall (λ m, mounted pi.1 m (operation_of pi.2 m)) [Get; Post; Put; Patch; Delete]) table)
    as H.
  { refine (bool_decide_unpack _ _). by vm_compute. }
  rewrite Forall_forall in H. specialize (H _ Hp). rewrite Forall_forall in H.
  specialize (H m ltac:(destruct m; set_solver)). cbn [fst snd] in H. rewrite Ho in H.
  by apply Exists_exists in H.
Qed.

(** Where the router serves a path is where the document has it, when the framework
    joins the prefix as written. *)
Lemma mounted_place nest api_prefix public p :
  trim api_prefix = api_prefix → (∀ p, nest api_prefix p = api_prefix ++ p) →
  mounted_at nest api_prefix public p = place (trim api_prefix) (public, p).
Proof.
  intros Ht Hn. unfold mounted_at, place. cbn. destruct public; [done|].
  destruct (String.eqb_spec (trim api_prefix) "") as [E|]; [by rewrite E|by rewrite Ht, Hn].
Qed.

(** The schema a body refers to is a component. *)
Lemma component_in {Schema} `{DtoSchemas Schema} name : name ∈ component_names → build_components !! name = Some (schema_of name).
Proof.
  unfold build_components. generalize component_names as l. intros l.
  assert (∀ m : gmap string Schema, (name ∈ l ∨ m !! name = Some (schema_of name)) →
    foldl (λ m name, <[name := schema_of name]> m) m l !! name = Some (schema_of name)) as Hl; [|by intros; apply Hl; left].
  induction l as [|n l IH]; intros m Hm; simpl.
  { destruct Hm as [?%elem_of_nil|]; done. }
  apply IH. destruct (decide (n = name)) as [->|Hne]; [right; by rewrite lookup_insert_eq|].
  destruct Hm as [[->|]%elem_of_cons|]; [done|by left|right; by rewrite lookup_insert_ne].
Qed.

Lemma body_in_components {Schema} `{DtoSchemas Schema} p item m o :
  (p, item) ∈ table → operation_of item m = Some o →
  match op_body o with Some b => is_Some (build_components !! rb_schema b) | None => True end.
Proof.
  intros Hp Ho. destruct (table_mounted p item m o Hp Ho) as (r & Hr & _ & <- & <- & _).
  pose proof (mount_documented r Hr) as Ha. rewrite (table_op _ _ _ Hp), Ho in Ha. destruct Ha as (_ & Hd & _).
  destruct Hd as (_ & _ & _ & _ & _ & Hb). destruct (op_body o) as [b|]; [|done].
  exists (schema_of (rb_schema b)). by apply component_in.
Qed.

(** The description and the router agree. Whatever the prefix, as long as it has
    no white space around it and the framework puts it in front of the paths, each
    route of the router is described at the path it is served on, captures written in
    braces, under its method: by the name of its handler, with the captures of its
    path, the fields of its query and the schema of its body, which is among the
    components of the document; and the document describes no other operation. Three
    routes are left out, and the required [range_min] of the metrics query is
    described as optional. *)
Theorem openapi_agrees {Schema} `{DtoSchemas Schema} nest api_prefix :
  trim api_prefix = api_prefix → (∀ p, nest api_prefix p = api_prefix ++ p) →
  let doc := build_openapi merge_operations api_prefix in
  (∀ r, r ∈ mounts →
     agrees r (lookup_op (oa_paths doc) (mounted_at nest api_prefix (mt_public r) (template (mt_path r))) (mt_method r))) ∧
  (∀ k m o, lookup_op (oa_paths doc) k m = Some o →
     (∃ r, r ∈ mounts ∧ k = mounted_at nest api_prefix (mt_public r) (template (mt_path r)) ∧ m = mt_method r ∧
        op_id o = hd_name (mt_handler r)) ∧
     match op_body o with Some b => is_Some (oa_components doc !! rb_schema b) | None => True end).
Proof.
  intros Ht Hn. cbn [oa_paths oa_components build_openapi]. split.
  - intros r Hr. rewrite mounted_place, lookup_op_mount by done. by apply mount_documented.
  - intros k m o E. unfold lookup_op in E. apply bind_Some in E as (item & Hk & Ho).
    apply build_paths_lookup in Hk as (p & -> & Hp). split; [|by eapply body_in_components].
    destruct (table_mounted p item m o Hp Ho) as (r & Hr & Hpub & Hpath & Hm & Hid).
    exists r. by rewrite mounted_place, Hpath, key_place, Hpub by done.
Qed.
End Proofs.

(** ** The requests of the model and the routes *)

Definition method_name (m : HttpMethod) : string :=
  match m with Get => "GET" | Post => "POST" | Put => "PUT" | Patch => "PATCH" | Delete => "DELETE" end.

(** Every request the handlers are modelled for has its route, and every protected
    route is that of a request. *)
Lemma endpoint_mounted c : Api.endpoint c ∈ (λ r, (method_name (mt_method r), mt_path r)) <$> protected_routes.
Proof. destruct c; apply (bool_decide_unpack _); vm_compute; exact I. Qed.

(** The status a business error is answered with is 200, 401 or 500, never one of the
    other statuses the document lists; 500 is not among those. *)
Lemma error_statuses trace e :
  let status := (Errors.err trace e).1 in
  status = 200%Z ∨ status = 401%Z ∨ status = 500%Z.
Proof. destruct e; cbn; auto. Qed.

End OpenApi.

Module OpenApiDemo.
Import OpenApi.
#[local] Open Scope string_scope.

(** A schema is the name of its type. *)
#[local] Instance name_schemas : DtoSchemas string := λ name, name.

(** The first item stays when two would be joined. *)
Definition keep (old new : PathItem) : PathItem := old.

(** The interface under its default prefix. *)
Lemma openapi_agrees_witness :
  let doc := build_openapi (Schema := string) keep "/api/v1" in
  (∀ r, r ∈ mounts →
     agrees r (lookup_op (oa_paths doc) (mounted_at String.append "/api/v1" (mt_public r) (template (mt_path r))) (mt_method r))) ∧
  (∀ k m o, lookup_op (oa_paths doc) k m = Some o →
     (∃ r, r ∈ mounts ∧ k = mounted_at String.append "/api/v1" (mt_public r) (template (mt_path r)) ∧ m = mt_method r ∧
        op_id o = hd_name (mt_handler r)) ∧
     match op_body o with Some b => is_Some (oa_components doc !! rb_schema b) | None => True end).
Proof. apply (openapi_agrees keep String.append "/api/v1"); [reflexivity|intros p; reflexivity]. Defined.

Example rollback_documented :
  (op_id <$> lookup_op (build_paths keep "/api/v1") "/api/v1/configs/versions/{version}/rollback" Post) = Some "rollback_config" ∧
  lookup_op (build_paths keep "/api/v1") "/api/v1/auth/verify" Get = None.
Proof. split; vm_compute; reflexivity. Qed.
End OpenApiDemo.
