(* ===== verification/Rollback.v ===== *)
(** Publishing a configuration and rolling back to it: the services of Control.v
    over the version history of Versions.v and the restoration of Snapshot.v. *)
From Stdlib Require Import ZArith Lia Ascii String.
From stdpp Require Import base tactics option list gmap strings pretty.
From S2P Require Import Prelude Text Errors Core F64 Storage Repositories Versions Snapshot Reports ConfigCache Control.
#[local] Open Scope Z_scope.

Module Rollback.
Import Storage Convert Repos Versions Snapshot.
#[local] Open Scope query_scope.

Section Rollback.
Context `{DbEnv} `{Serde RouteMatchConditions} `{Serde ConfigSnapshot}.

(** ** What is published *)

(** The configuration that a database holds: its enabled routes by priority (those
    whose match conditions can be read), its upstreams with their nodes, and the
    enabled bindings of those routes in order. *)
Definition routes_of (d : Db) : list RouteDto :=
  omap route_model_to_dto (stable_sort (desc rt_priority) (List.filter (λ r, rt_enabled r && live_route r) (d_routes d))).
Definition upstreams_of (d : Db) : list UpstreamDto :=
  omap (λ m, upstream_model_to_dto m (live_nodes d (up_id m))) (live_upstreams d).
Definition bindings_of (d : Db) (route_id : Z) : list PluginBindingDto :=
  omap binding_model_to_dto (stable_sort (asc bd_order)
    (List.filter (λ b, (bd_route_id b =? i64_wrap route_id) && live_binding b && bd_enabled b) (d_bindings d))).
Definition snapshot_of (d : Db) : ConfigSnapshot :=
  mkConfigSnapshot (routes_of d) (upstreams_of d) (concat (map (λ r, bindings_of d (r_id r)) (routes_of d))).

Lemma list_upstreams_all_ok w w' l :
  list_upstreams_all w = (w', Ok l) → w_db w' = w_db w ∧ l = upstreams_of (w_db w).
Proof.
  intros (w1 & ms & E1 & E2)%qbind_ok. apply all_ok in E1 as [E1 ->].
  assert (∀ ms acc w w', for_each ms acc (λ result m,
            dto <-- with_nodes m;; match dto with Some u => qret (result ++ [u]) | None => qfail (DataMapping "upstream convert failed") end) w
            = (w', Ok l) →
          w_db w' = w_db w ∧ l = acc ++ omap (λ m, upstream_model_to_dto m (live_nodes (w_db w) (up_id m))) ms) as Hloop.
  { clear. induction ms as [|m ms IH]; simpl; intros acc w w'; [by intros [= <- <-]; rewrite app_nil_r|].
    intros (w1 & acc' & E1 & E2)%qbind_ok. apply qbind_ok in E1 as (w2 & dto & E3 & E4).
    apply qbind_ok in E3 as (w3 & nodes & E5 & [= <- <-]). apply all_ok in E5 as [E5 ->]. injection E4 as <- <-.
    apply IH in E2 as [-> ->]. rewrite E5. by rewrite <- app_assoc. }
  apply Hloop in E2 as [-> ->]. by rewrite E1.
Qed.

Lemma list_by_route_ok id w w' l : list_by_route id w = (w', Ok l) → w_db w' = w_db w ∧ l = bindings_of (w_db w) id.
Proof. intros (w1 & ms & [[= E1 E2] _]%stmt_ok & [= <- <-])%qbind_ok. by rewrite <- E1, <- E2. Qed.

Lemma read_config_ok w w' s : Cache.read_config w = (w', Ok s) → w_db w' = w_db w ∧ s = snapshot_of (w_db w) ∧ db_ok mysql (w_db w).
Proof.
  intros (w1 & routes & E1 & E)%qbind_ok. apply qbind_ok in E1 as (w1' & ms & [[= Ew1 Ems] Hok]%stmt_ok & [= <- <-]).
  apply qbind_ok in E as (w2 & ups & E2 & E). apply list_upstreams_all_ok in E2 as [E2 ->].
  apply qbind_ok in E as (w3 & bs & E3 & [= <- <-]).
  assert (∀ rs acc w w', for_each rs acc (λ acc r, l <-- list_by_route (r_id r);; qret (acc ++ l)) w = (w', Ok bs) →
          w_db w' = w_db w ∧ bs = acc ++ concat (map (λ r, bindings_of (w_db w) (r_id r)) rs)) as Hloop.
  { clear. induction rs as [|r rs IH]; simpl; intros acc w w'; [by intros [= <- <-]; rewrite app_nil_r|].
    intros (w1 & acc' & E1 & E2)%qbind_ok. apply qbind_ok in E1 as (w2 & l & E3 & [= <- <-]).
    apply list_by_route_ok in E3 as [E3 ->]. apply IH in E2 as [-> ->]. rewrite E3. by rewrite <- app_assoc. }
  apply Hloop in E3 as [-> ->]. rewrite E2, <- Ew1 in *. split_and!; [done| |done].
  unfold snapshot_of, routes_of. rewrite <- Ems. done.
Qed.

(** ** A published snapshot names and numbers its rows once *)

Lemma u64_wrap_inj a b : - 2 ^ 63 <= a < 2 ^ 63 → - 2 ^ 63 <= b < 2 ^ 63 → u64_wrap a = u64_wrap b → a = b.
Proof. intros Ha Hb E. rewrite <- (i64_u64_i64 a Ha), <- (i64_u64_i64 b Hb). by rewrite E. Qed.

Lemma NoDup_by_route (F : RouteDto → list PluginBindingDto) rs :
  NoDup (map r_id rs) → (∀ r b, r ∈ rs → b ∈ F r → b_route_id b = r_id r) →
  (∀ r, r ∈ rs → NoDup (map (λ b, (b_route_id b, b_plugin_name b)) (F r))) →
  NoDup (map (λ b, (b_route_id b, b_plugin_name b)) (concat (map F rs))).
Proof.
  induction rs as [|r rs IH]; simpl; intros Hnd Hid Hone; [constructor|]. apply NoDup_cons in Hnd as [Hr Hnd].
  rewrite map_app. apply NoDup_app. split_and!.
  - apply Hone. by left.
  - intros k (b & -> & Hb)%list_elem_of_fmap (b' & [= E _] & Hb')%list_elem_of_fmap.
    apply list_elem_of_In, in_concat in Hb' as (l & Hl & Hb'). apply in_map_iff in Hl as (r' & <- & Hr').
    apply list_elem_of_In in Hb', Hr'. apply Hr. apply list_elem_of_fmap. exists r'. split; [|done].
    rewrite <- (Hid r b), <- (Hid r' b'); [done|by right|done|by left|done].
  - apply IH; [done|intros; apply Hid; [by right|done]|intros; apply Hone; by right].
Qed.

Lemma bindings_of_spec d id b : b ∈ bindings_of d id → b_route_id b = u64_wrap (i64_wrap id) ∧ ∃ row, row ∈ live_bindings d ∧
  bd_route_id row = i64_wrap id ∧ b_plugin_name b = bd_plugin_name row.
Proof.
  intros (row & Hrow & [= <-])%list_elem_of_omap. rewrite stable_sort_perm in Hrow. apply filter_elem_of in Hrow as [Hrow Hp].
  apply andb_prop in Hp as [[Hr%Z.eqb_eq Hl]%andb_prop _]. cbn. split; [by rewrite Hr|]. exists row. split_and!; [|done..].
  by apply elem_of_lives.
Qed.

(** A listing of routes shows each id once. *)
Lemma route_ids_distinct leb p d :
  db_ok mysql d → NoDup (map r_id (omap route_model_to_dto (stable_sort leb (List.filter p (d_routes d))))).
Proof.
  intros Hok. apply (NoDup_map_omap _ rt_id).
  - rewrite stable_sort_perm. apply NoDup_map_filter, Hok.
  - intros x x' y y' Hx Hx' Ey Ey' E. rewrite stable_sort_perm in Hx, Hx'. apply filter_elem_of in Hx as [Hx _], Hx' as [Hx' _].
    pose proof (ty_route_id _ _ Hok) as Hty. rewrite Forall_forall in Hty.
    apply u64_wrap_inj; [by apply Hty..|]. unfold route_model_to_dto in *.
    destruct (from_value _); [|done]. destruct (from_value _); [|done]. by simplify_eq/=.
Qed.

Lemma upstream_ids_distinct d : db_ok mysql d → NoDup (map u_id (upstreams_of d)).
Proof.
  intros Hok. apply (NoDup_map_omap _ up_id); [apply NoDup_map_filter, Hok|].
  intros x x' y y' [Hx _]%elem_of_lives [Hx' _]%elem_of_lives [= <-] [= <-].
  pose proof (ty_upstream_id _ _ Hok) as Hty. rewrite Forall_forall in Hty. by apply u64_wrap_inj; apply Hty.
Qed.

Lemma routes_of_distinct d :
  db_ok mysql d → names_distinct d → NoDup (map r_name (routes_of d)) ∧ NoDup (map r_id (routes_of d)).
Proof.
  intros Hok Hd. destruct (names_distinct_apart d d Hd Hok eq_refl eq_refl) as [Hr _]. unfold routes_of. split.
  - apply (NoDup_map_omap _ rt_name).
    + rewrite stable_sort_perm, <- filter_filter. apply NoDup_map_filter. by apply route_names_distinct.
    + intros x x' y y' _ _ Ey Ey' E. unfold route_model_to_dto in *. destruct (from_value _); [|done]. destruct (from_value _); [|done].
      by simplify_eq/=.
  - by apply route_ids_distinct.
Qed.

Lemma snapshot_of_distinct d : db_ok mysql d → names_distinct d → snapshot_distinct (snapshot_of d).
Proof.
  intros Hok Hd. destruct (routes_of_distinct d Hok Hd) as [Hrn Hri]. pose proof Hd as [Hn _].
  destruct (names_distinct_apart d d Hd Hok eq_refl eq_refl) as [_ Hb]. split_and!; try done.
  - apply (NoDup_map_omap _ up_name); [done|]. by intros x x' y y' _ _ [= <-] [= <-].
  - by apply upstream_ids_distinct.
  - apply NoDup_by_route; [done| |].
    + intros r b Hr [-> _]%bindings_of_spec. apply u64_i64_roundtrip.
      unfold routes_of in Hr. apply list_elem_of_omap in Hr as (row & _ & E). unfold route_model_to_dto in E.
      destruct (from_value _); [|done]. simplify_eq. apply u64_wrap_range.
    + intros r Hr. apply (NoDup_map_omap _ bkey).
      * rewrite stable_sort_perm.
        rewrite (filter_ext _ (λ b, ((bd_route_id b =? i64_wrap (r_id r)) && bd_enabled b) && live_binding b))
          by (intros b; by destruct (bd_route_id b =? _), (live_binding b), (bd_enabled b)).
        rewrite <- filter_filter. apply NoDup_map_filter. by apply binding_keys_distinct.
      * intros x x' y y' Hx Hx' [= <-] [= <-] [= E1 E2]. rewrite stable_sort_perm in Hx, Hx'.
        apply filter_elem_of in Hx as [_ [[Hx%Z.eqb_eq _]%andb_prop _]%andb_prop], Hx' as [_ [[Hx'%Z.eqb_eq _]%andb_prop _]%andb_prop].
        unfold bkey. congruence.
Qed.

(** ** From publication to rollback *)

Context (sha256_hash : Value → string) (config_cache : option ConfigCache).
Context (cache_ok : ∀ c, config_cache = Some c → ConfigCacheOk c).

(** The history holds this snapshot under this number. *)
Definition stored (d : Db) (version : Z) (s : ConfigSnapshot) : Prop :=
  ∃ row, row ∈ d_versions d ∧ u64_wrap (vr_version row) = version ∧ - 2 ^ 63 <= vr_version row < 2 ^ 63 ∧
         vr_snapshot_content row = to_value s.

Lemma i64_wrap_range z : - 2 ^ 63 <= i64_wrap z < 2 ^ 63.
Proof. unfold i64_wrap. pose proof (Z.mod_pos_bound (z + 2 ^ 63) (2 ^ 64)). lia. Qed.

Lemma publish_stores base s by_ remark w w' v :
  publish sha256_hash base s by_ remark w = (w', Ok v) → stored (w_db w') (cv_version v) s.
Proof.
  intros (w1 & l & _ & E)%qbind_ok. unfold publish_on in E. destruct (base =? _); [|done].
  apply qbind_ok in E as (w2 & t & _ & E). apply qbind_ok in E as (w3 & row & E & E').
  apply insert_ok in E as (Erow & E & _). injection E' as <- <-. exists row.
  split; [|split; [done|split; [rewrite Erow; apply i64_wrap_range|by rewrite Erow]]].
  rewrite E. simpl. apply elem_of_app. right. by left.
Qed.

Lemma audit_log_keeps {X} (proj : Db → Redis → X) op action resource id detail trace :
  (∀ l d r, proj (set_rows (R := AuditRow) l d) r = proj d r) → keeps proj (Control.audit_log op action resource id detail trace).
Proof.
  intros Ho. apply keeps_bind; [apply keeps_now|]. intros t w.
  apply (keeps_bind proj now (λ t', _ <-- insert data_mapping (Reports.audit_row_to_active_model
    (mkAuditLog t op action resource id detail (Some trace)) t');; qret tt)); [apply keeps_now|intros t'].
  apply keeps_bind; [by apply keeps_insert|intros; apply keeps_ret].
Qed.

Lemma publish_config_stores base op trace remark w w' v :
  Control.publish_config sha256_hash config_cache base op trace remark w = (w', Ok v) →
  stored (w_db w') (cv_version v) (snapshot_of (w_db w)) ∧ db_ok mysql (w_db w).
Proof using cache_ok.
  intros (w1 & s & E1 & E)%qbind_ok. apply read_config_ok in E1 as (E1 & -> & Hok).
  apply qbind_ok in E as (w2 & v2 & E2 & E). apply publish_stores in E2.
  apply qbind_ok in E as (w3 & [] & E3 & E). apply qbind_ok in E as (w4 & [] & E4 & [= <- <-]).
  split; [|done]. pose proof (Control.write_cache_keeps_db config_cache cache_ok (cv_version v2) (snapshot_of (w_db w)) w2) as H3.
  rewrite E3 in H3. simpl in H3.
  pose proof (audit_log_keeps (λ d _, d_versions d) op "publish" "config_version" (Some (cv_version v2))
    (VObject [("version"%string, encode (cv_version v2)); ("base"%string, encode (cv_base_version v2))]) trace
    (λ _ _ _, eq_refl) w3) as H4. rewrite E4 in H4. simpl in H4.
  unfold stored in *. rewrite H4, H3. done.
Qed.

Lemma get_snapshot_stored v s w w' o :
  from_value (to_value s) = Ok s → stored (w_db w) v s → get_snapshot_by_version v w = (w', Ok o) → o = Some s ∧ w_db w' = w_db w.
Proof.
  intros Hserde (row & Hrow & <- & Hrange & Hs) (w1 & m & E1 & E2)%qbind_ok.
  assert (db_ok mysql (w_db w)) as Hok by (by apply stmt_ok in E1 as [[= <- _] Hok]).
  apply one_ok in E1 as [E1 ->]. change (@rows VersionRow _ (w_db w)) with (d_versions (w_db w)) in E2.
  rewrite i64_u64_i64 in E2 by done. pose proof (find_elem_of (λ m, vr_version m =? vr_version row) (d_versions (w_db w))) as Hf.
  destruct (List.find _ _) as [m|].
  - destruct Hf as [Hm Heq%Z.eqb_eq]. assert (m = row) as -> by (by apply (NoDup_map_inj vr_version _ m row (uk_version _ _ Hok))).
    rewrite Hs, Hserde in E2. injection E2 as <- <-. by rewrite E1.
  - specialize (Hf row Hrow). simpl in Hf. by rewrite Z.eqb_refl in Hf.
Qed.

(** The tables that a rollback is about. *)
Definition tables (d : Db) (_ : Redis) := (d_upstreams d, d_nodes d, d_routes d, d_bindings d).

Lemma restores_tables s d0 d d' r r' : tables d' r' = tables d r → restores s d0 d → restores s d0 d'.
Proof.
  intros [= Eu En Er Eb] (uids & rids & Hr). exists uids, rids.
  unfold upstream_restored, route_restored, binding_restored, live_upstreams, live_routes, live_nodes, live_bindings in *.
  by rewrite Eu, En, Er, Eb.
Qed.

Lemma rollback_config_restores v s op trace w w' v' :
  from_value (to_value s) = Ok s → stored (w_db w) v s → snapshot_distinct s → names_distinct (w_db w) →
  Control.rollback_config config_cache v op trace w = (w', Ok v') → restores s (w_db w) (w_db w').
Proof using cache_ok.
  intros Hserde Hst Hd Hn (w1 & o & E1 & E)%qbind_ok. apply (get_snapshot_stored v s) in E1 as [-> Ew1]; [|done..].
  apply qbind_ok in E as (w2 & [] & E2 & E). rewrite <- Ew1 in *.
  destruct (apply_snapshot_ok s w1 w2 Hd Hn E2) as [Hr _].
  apply qbind_ok in E as (w3 & ver & E3 & E). apply qbind_ok in E as (w4 & [] & E4 & E).
  apply qbind_ok in E as (w5 & [] & E5 & [= <- <-]).
  assert (keeps tables (rollback v op)) as H3.
  { unfold rollback, row_of_version, latest_version, latest_row, rollback_on, insert_version. keeps. }
  specialize (H3 w2). rewrite E3 in H3. simpl in H3.
  assert (tables (w_db w4) (w_redis w4) = tables (w_db w3) (w_redis w3)) as H4.
  { revert E4. generalize config_cache at 1. intros [c|]; [|by intros [= <-]].
    intros (wa & stored_ & Ea & Eb)%qbind_ok.
    assert (keeps tables (get_snapshot_by_version (cv_version ver))) as Hg by (unfold get_snapshot_by_version, row_of_version; keeps).
    specialize (Hg w3). rewrite Ea in Hg. simpl in Hg. rewrite <- Hg. destruct stored_ as [s'|]; [|by injection Eb as <-].
    pose proof (Control.write_cache_keeps_db config_cache cache_ok (cv_version ver) s' wa) as Hw. rewrite Eb in Hw. simpl in Hw.
    unfold tables. by rewrite Hw. }
  pose proof (audit_log_keeps tables op "rollback" "config_version" (Some (cv_version ver))
    (VObject [("target"%string, encode v); ("new_version"%string, encode (cv_version ver))]) trace (λ _ _ _, eq_refl) w4) as H5.
  rewrite E5 in H5. simpl in H5. eapply restores_tables; [|exact Hr]. rewrite H5, H4. exact H3.
Qed.

(** C2. A publication can be rolled back to: when a configuration is published as
    a version and, whatever was done to the tables since (the history only grows),
    a rollback to that version succeeds, then the tables hold again the
    configuration as it was when it was published (as [restores] says), provided
    that the stored text of the snapshot reads back as the snapshot and that, both
    when it is published and when it is rolled back to, no two live upstreams share
    a name, nor, on MySQL, whose unique indexes do not cover live rows, two live
    routes a name or two live bindings a route and a plugin ([names_distinct]; the
    schema does not enforce it, see [one_of_a_name] for what happens otherwise). *)
Theorem rollback_restores_published base op trace remark w w1 v w2 op' trace' w3 v' :
  Control.publish_config sha256_hash config_cache base op trace remark w = (w1, Ok v) →
  from_value (to_value (snapshot_of (w_db w))) = Ok (snapshot_of (w_db w)) →
  d_versions (w_db w1) ⊆ d_versions (w_db w2) →
  names_distinct (w_db w) → names_distinct (w_db w2) →
  Control.rollback_config config_cache (cv_version v) op' trace' w2 = (w3, Ok v') →
  restores (snapshot_of (w_db w)) (w_db w2) (w_db w3).
Proof using cache_ok.
  intros Hp Hserde Hgrow Hn Hn2 Hr. apply publish_config_stores in Hp as [(row & Hrow & Hst) Hok].
  apply (rollback_config_restores (cv_version v) (snapshot_of (w_db w)) op' trace' w2 w3 v'); try done.
  - exists row. split; [by apply Hgrow|done].
  - by apply snapshot_of_distinct.
Qed.

(** ** The cache after a publication *)

Section Cached.
Context (to_string : ConfigSnapshot → string) (from_str : string → result ConfigSnapshot string) (parse_error : string → string).

Abbreviation cache := (Cache.redis_cache to_string from_str parse_error).
Abbreviation holds := (Cache.holds to_string).

Lemma write_cache_spec v s w w' r :
  Control.write_cache (Some cache) v s w = (w', r) →
  holds (w_redis w') v s ∨ rd_keys (w_redis w') !! Cache.VERSION_KEY = None ∨ w_redis w' = w_redis w.
Proof.
  unfold Control.write_cache. cbn [put_snapshot invalidate Cache.redis_cache].
  destruct (Cache.redis_put_snapshot to_string v s w) as [w1 r1] eqn:E1. pose proof (Cache.put_snapshot_spec to_string v s w w1 r1 E1) as [_ H1'].
  destruct r1 as [[]|e]; [intros [= <- <-]; by left|]. destruct (Cache.redis_invalidate w1) as [w2 r2] eqn:E2.
  intros [= <- <-]. apply Cache.redis_spec in E2 as [_ E2]. destruct r2 as [[]|e2].
  - right. left. injection E2 as <-. simpl. by apply lookup_delete_eq.
  - destruct E2 as [-> | ->]; [destruct H1' as [-> |?]; auto|]. right. left. simpl. by apply lookup_delete_eq.
Qed.

Lemma redis_get_spec {A} what (f : Redis → A) w w' a :
  Cache.command what (λ r, (r, f r)) w = (w', Ok a) → a = f (w_redis w) ∧ w_redis w' = w_redis w.
Proof. intros [_ [= <- <-]]%Cache.redis_spec. done. Qed.

Lemma get_snapshot_held v s w w' o :
  from_str (to_string s) = Ok s → 0 <= v < 2 ^ 64 → holds (w_redis w) v s →
  Cache.redis_get_snapshot from_str parse_error w = (w', Ok o) → o = Some s.
Proof.
  intros Hs Hv [Hver Hsnap] (w1 & ov & E1 & E2)%qbind_ok.
  apply qbind_ok in E1 as (w2 & text & E1 & E3). apply redis_get_spec in E1 as [-> Hw2]. rewrite Hver in E3.
  assert (parse_uint (2 ^ 64 - 1) (pretty v) = Some v) as Hp.
  { apply parse_uint_pretty_Z. lia. }
  rewrite Hp in E3. injection E3 as <- <-. apply qbind_ok in E2 as (w3 & json & E2 & E3). apply redis_get_spec in E2 as [-> _].
  rewrite Hw2, Hsnap, Hs in E3. by injection E3 as <- <-.
Qed.

(** What a publication leaves in the cache: its configuration, no version, or what
    was there before. *)
Lemma publish_config_cached base op trace remark w w1 v :
  Control.publish_config sha256_hash (Some cache) base op trace remark w = (w1, Ok v) →
  0 <= cv_version v < 2 ^ 64 ∧
  (holds (w_redis w1) (cv_version v) (snapshot_of (w_db w)) ∨ rd_keys (w_redis w1) !! Cache.VERSION_KEY = None ∨ w_redis w1 = w_redis w).
Proof.
  intros (wa & snap & Ea & E)%qbind_ok. pose proof (read_config_ok _ _ _ Ea) as (_ & -> & _).
  apply qbind_ok in E as (wb & v' & Eb & E). pose proof Eb as Hst%publish_stores.
  apply qbind_ok in E as (wc & [] & Ec & E). apply qbind_ok in E as (wd & [] & Ed & [= <- <-]).
  split; [destruct Hst as (row & _ & <- & _); apply u64_wrap_range|].
  assert (keeps (λ _ r, r) Cache.read_config) as Hk.
  { unfold Cache.read_config, list_enabled, list_upstreams_all, with_nodes, load_nodes, list_by_route. keeps. }
  specialize (Hk w). rewrite Ea in Hk. simpl in Hk.
  assert (keeps (λ _ r, r) (publish sha256_hash base (snapshot_of (w_db w)) op remark)) as Hp.
  { unfold publish, latest_row, publish_on, insert_version. keeps. }
  specialize (Hp wa). rewrite Eb in Hp. simpl in Hp.
  pose proof (audit_log_keeps (λ _ r, r) op "publish" "config_version" (Some (cv_version v'))
    (VObject [("version"%string, encode (cv_version v')); ("base"%string, encode (cv_base_version v'))]) trace
    (λ _ _ _, eq_refl) wc) as Hd. rewrite Ed in Hd. simpl in Hd.
  rewrite Hd, <- Hk, <- Hp. by apply write_cache_spec in Ec.
Qed.

(** What is published is what is cached: after a publication, a reader of
    the cache gets that configuration or an error that sends it to the database;
    it can get another one only if Redis took neither the snapshot, in three
    attempts, nor the invalidation, and is as it was before. *)
Theorem publication_is_cached base op trace remark w w1 v w2 w3 s :
  Control.publish_config sha256_hash (Some cache) base op trace remark w = (w1, Ok v) →
  from_str (to_string (snapshot_of (w_db w))) = Ok (snapshot_of (w_db w)) →
  w_redis w2 = w_redis w1 → Cache.load_snapshot (H := cache) w2 = (w3, Ok s) →
  s = snapshot_of (w_db w) ∨ w_redis w1 = w_redis w.
Proof.
  intros [Hv [Hh|[Hn|Hsame]]]%publish_config_cached Hs Hw2 Hl; [left|left|by right];
    apply qbind_ok in Hl as (we & o & El & E).
  - apply (get_snapshot_held (cv_version v) (snapshot_of (w_db w))) in El as ->; [|done|done|by rewrite Hw2]. by injection E as <- <-.
  - exfalso. apply qbind_ok in El as (wf & ov & E1 & E2). apply qbind_ok in E1 as (wg & text & E1 & E3).
    apply redis_get_spec in E1 as [-> _]. rewrite Hw2, Hn in E3. injection E3 as <- <-. injection E2 as <- <-. discriminate E.
Qed.

End Cached.

End Rollback.
End Rollback.

Module RollbackDemo.
Import Storage Versions Snapshot Rollback.

#[local] Instance demo_env : DbEnv :=
  {| mysql := false; new_id _ l := 1 + foldr Z.max 0 l; like _ _ := false; null_eq := false; none_inserted := None;
     violation := "constraint violation"; column_time t := t; utc n := Z.of_nat n; fault _ := None; reply_lost _ := false |}.
#[local] Instance demo_conditions : Serde RouteMatchConditions :=
  {| to_value _ := VNull; from_value _ := Ok default_conditions |}.

Definition before : Db :=
  mkDb [mkUpRow 1 "a" 1 true 0 0 None] [mkNodeRow 1 1 "10.0.0.1:80" 1 true 0 0 None]
       [mkRouteRow 1 "api" 1 VNull 0 (Some 1) None false false true 0 0 None]
       [mkBindingRow 1 1 "cors" VNull 0 false true 0 0 None] [] [] [] [] [] [] [].

#[local] Instance demo_snapshots : Serde ConfigSnapshot :=
  {| to_value _ := VNull; from_value _ := Ok (snapshot_of before) |}.

Definition hash (_ : Value) : string := "00".
Definition w0 : World := mkWorld before (mkRedis ∅ []) 0.
Definition published : World * result ConfigVersionDto ConrogateError := Control.publish_config hash None 0 (Some "ann"%string) "t1" None w0.
Definition changed : World := (Control.delete_route 1 (Some "bob"%string) "t2" published.1).1.
Definition rolled_back : World * result ConfigVersionDto ConrogateError := Control.rollback_config None 1 (Some "ann"%string) "t3" changed.

(** The route is published, deleted and restored. *)
Lemma rollback_restores_published_witness :
  live_routes (w_db changed) = [] ∧ restores (snapshot_of before) (w_db changed) (w_db rolled_back.1).
Proof.
  split; [vm_compute; reflexivity|].
  assert (∃ v, Control.publish_config hash None 0 (Some "ann"%string) "t1" None w0 = (published.1, Ok v) ∧ cv_version v = 1) as (v & Ep & Ev).
  { eexists. split; vm_compute; reflexivity. }
  assert (∃ v', Control.rollback_config None 1 (Some "ann"%string) "t3" changed = (rolled_back.1, Ok v')) as (v' & Er).
  { eexists. vm_compute. reflexivity. }
  refine (rollback_restores_published (H := demo_env) hash None (λ c E, _) 0 (Some "ann"%string) "t1" None w0 published.1 v changed
    (Some "ann"%string) "t3" rolled_back.1 v' Ep eq_refl _ _ _ _).
  - discriminate E.
  - vm_compute. intros x Hx. exact Hx.
  - split; [apply (bool_decide_unpack _); vm_compute; exact I|discriminate].
  - split; [apply (bool_decide_unpack _); vm_compute; exact I|discriminate].
  - rewrite Ev. exact Er.
Defined.

Definition to_string (_ : ConfigSnapshot) : string := "{..}".
Definition from_str (_ : string) : result ConfigSnapshot string := Ok (snapshot_of before).
Definition cache : ConfigCache := Cache.redis_cache to_string from_str (λ s, s).

Lemma publication_is_cached_witness :
  let w1 := (Control.publish_config hash (Some cache) 0 (Some "ann"%string) "t1" None w0).1 in
  (Cache.load_snapshot (H := cache) w1).2 = Ok (snapshot_of before) ∧
  (snapshot_of before = snapshot_of (w_db w0) ∨ w_redis w1 = w_redis w0).
Proof.
  intros w1. split; [vm_compute; reflexivity|].
  assert (∃ v, Control.publish_config hash (Some cache) 0 (Some "ann"%string) "t1" None w0 = (w1, Ok v)) as (v & Ep).
  { eexists. vm_compute. reflexivity. }
  assert (∃ w3, Cache.load_snapshot (H := cache) w1 = (w3, Ok (snapshot_of before))) as (w3 & El).
  { eexists. vm_compute. reflexivity. }
  exact (publication_is_cached (H := demo_env) hash to_string from_str (λ s, s) 0 (Some "ann"%string) "t1" None w0 w1 v w1 w3
    (snapshot_of before) Ep eq_refl eq_refl El).
Defined.

End RollbackDemo.
