(* ===== verification/Listings.v ===== *)
(** What the listings of the repositories answer when no statement fails: each is a
    function of the tables. *)
From Stdlib Require Import ZArith Lia Ascii String.
From stdpp Require Import base tactics option list gmap strings pretty.
From S2P Require Import Prelude Text Errors Core F64 Storage Repositories Versions Snapshot Reports ConfigCache Control Rollback.
#[local] Open Scope Z_scope.

Module Listings.
Import Storage Convert Repos Versions Snapshot Rollback.

Lemma omap_id_map {A B} (f : A → option B) l : omap id (map f l) = omap f l.
Proof. induction l as [|a l IH]; csimpl; [done|]. by rewrite IH. Qed.

Lemma foldl_omap {A B} (f : A → option B) l acc :
  foldl (λ acc m, match f m with Some u => acc ++ [u] | None => acc end) acc l = acc ++ omap f l.
Proof.
  revert acc. induction l as [|m l IH]; csimpl; intros acc; [by rewrite app_nil_r|].
  rewrite IH. destruct (f m); [by rewrite <- app_assoc|done].
Qed.

Lemma foldl_concat {A B} (f : A → list B) l acc : foldl (λ acc m, acc ++ f m) acc l = acc ++ concat (map f l).
Proof. revert acc. induction l as [|m l IH]; simpl; intros acc; [by rewrite app_nil_r|]. by rewrite IH, <- app_assoc. Qed.

(** The [k]-th page of 200 rows; a row that cannot be converted is not listed. *)
Definition listed {A} (rws : list (option A)) (offset : nat) : list A := omap id (take 200 (drop offset rws)).

Section Listings.
Context `{DbEnv} `{Serde RouteMatchConditions} (no_faults : ∀ n, fault n = None).

(** ** Pages *)

Lemma paginate_reads {R} `{!Table R} (p : R → bool) leb offset page_size :
  reads (paginate p leb offset page_size)
    (λ d, (page_rows (offset page_size) page_size (stable_sort leb (List.filter p (rows d))), Z.of_nat (length (List.filter p (rows d))))).
Proof using no_faults.
  refine (reads_bind _ _ _ (λ total d, (page_rows (offset page_size) page_size (stable_sort leb (List.filter p (rows d))), total)) _ _);
    [by apply reads_count|]. intros total.
  refine (reads_bind _ _ _ (λ models d, (models, total)) _ _); [by apply reads_stmt|]. intros models. apply reads_ret.
Qed.

Lemma page_listed {R A} (f : R → option A) (l : list R) k :
  omap f (page_rows (200 * Z.of_nat k) 200 l) = listed (map f l) (200 * k).
Proof.
  unfold listed, page_rows. rewrite skipn_map, firstn_map, omap_id_map.
  by replace (Z.to_nat (200 * Z.of_nat k)) with (200 * k)%nat by lia.
Qed.

(** The offset of the [k]-th page fits 32 bits. *)
Lemma page_offset_small k : 200 * Z.of_nat k < 2 ^ 32 → page_offset (Z.of_nat k + 1) 200 = 200 * Z.of_nat k.
Proof. intros Hk. unfold page_offset, u32_wrap. replace (Z.of_nat k + 1 - 1) with (Z.of_nat k) by lia. rewrite (Z.mod_small (Z.of_nat k)), Z.mod_small by lia. lia. Qed.

(** ** Routes *)

(** The live routes, newest first, as far as they can be converted. *)
Definition route_rows (d : Db) : list (option RouteDto) :=
  map route_model_to_dto (stable_sort (desc rt_id) (List.filter live_route (d_routes d))).

Lemma list_routes_reads k :
  200 * Z.of_nat k < 2 ^ 32 →
  reads (list_routes (Z.of_nat k + 1) 200)
    (λ d, mkPage (listed (route_rows d) (200 * k)) (Z.of_nat (length (route_rows d))) (Z.of_nat k + 1) 200).
Proof using no_faults.
  intros Hk. eapply reads_ext.
  - refine (reads_bind _ _ _ (λ r _, mkPage (omap route_model_to_dto r.1) r.2 (Z.of_nat k + 1) 200) _ _); [by apply paginate_reads|].
    intros r. apply reads_ret.
  - intros d. cbv beta. cbn [fst snd]. change (clamp_page_size 200) with 200. rewrite page_offset_small by done.
    rewrite page_listed. unfold route_rows. by rewrite length_map, (Permutation_length (stable_sort_perm _ _)).
Qed.

Lemma list_enabled_reads : reads list_enabled routes_of.
Proof using no_faults.
  refine (reads_bind _ _ _ (λ ms _, omap route_model_to_dto ms) _ _); [by apply reads_stmt|]. intros ms. apply reads_ret.
Qed.

(** ** Upstreams *)

Definition upstream_dto (d : Db) (m : UpstreamRow) : option UpstreamDto := upstream_model_to_dto m (live_nodes d (up_id m)).
Definition upstream_rows (d : Db) : list (option UpstreamDto) :=
  map (upstream_dto d) (stable_sort (desc up_id) (List.filter live_upstream (d_upstreams d))).

Lemma with_nodes_reads m : reads (with_nodes m) (λ d, upstream_dto d m).
Proof using no_faults.
  refine (reads_bind _ _ _ (λ nodes _, upstream_model_to_dto m nodes) _ _); [by apply reads_all|]. intros nodes. apply reads_ret.
Qed.

Lemma list_upstreams_reads k :
  200 * Z.of_nat k < 2 ^ 32 →
  reads (list_upstreams (Z.of_nat k + 1) 200)
    (λ d, mkPage (listed (upstream_rows d) (200 * k)) (Z.of_nat (length (upstream_rows d))) (Z.of_nat k + 1) 200).
Proof using no_faults.
  intros Hk. set (add d acc m := match upstream_dto d m with Some u => acc ++ [u] | None => acc end). eapply reads_ext.
  - refine (reads_bind _ _ _ (λ r d, mkPage (foldl (add d) [] r.1) r.2 (Z.of_nat k + 1) 200) _ _); [by apply paginate_reads|].
    intros r. refine (reads_bind _ _ _ (λ l _, mkPage l r.2 (Z.of_nat k + 1) 200) _ _); [|intros l; apply reads_ret].
    apply reads_for_each. intros acc m.
    refine (reads_bind _ _ (λ d, upstream_dto d m) (λ dto _, match dto with Some u => acc ++ [u] | None => acc end) _ _);
      [apply with_nodes_reads|]. intros dto. apply reads_ret.
  - intros d. cbv beta. cbn [fst snd]. change (clamp_page_size 200) with 200. rewrite page_offset_small by done.
    unfold add. rewrite (foldl_omap (upstream_dto d)), app_nil_l, page_listed. unfold upstream_rows.
    by rewrite length_map, (Permutation_length (stable_sort_perm _ _)).
Qed.

Lemma list_upstreams_all_reads : reads list_upstreams_all upstreams_of.
Proof using no_faults.
  eapply reads_ext.
  - refine (reads_bind _ _ _ (λ ms d, foldl (λ acc m, match upstream_dto d m with Some u => acc ++ [u] | None => acc end) [] ms) _ _);
      [by apply reads_all|]. intros ms. apply reads_for_each. intros acc m w Hw.
    destruct (with_nodes_reads m w Hw) as (w' & E & D). exists w'. unfold qbind. by rewrite E.
  - intros d. cbv beta. by rewrite (foldl_omap (upstream_dto d)).
Qed.

(** ** Bindings and blacklist *)

Lemma list_by_route_reads id : reads (list_by_route id) (λ d, bindings_of d id).
Proof using no_faults.
  refine (reads_bind _ _ _ (λ ms _, omap binding_model_to_dto ms) _ _); [by apply reads_stmt|]. intros ms. apply reads_ret.
Qed.

Definition blacklist_rows (d : Db) : list (option IpBlacklistDto) :=
  map ip_blacklist_model_to_dto (stable_sort (desc ib_id) (d_blacklist d)).

Lemma list_blacklist_reads : reads list_blacklist (λ d, omap id (blacklist_rows d)).
Proof using no_faults.
  eapply reads_ext.
  - refine (reads_bind _ _ _ (λ ms _, omap ip_blacklist_model_to_dto ms) _ _); [by apply reads_stmt|]. intros ms. apply reads_ret.
  - intros d. unfold blacklist_rows. by rewrite omap_id_map.
Qed.

Lemma list_blacklist_page_reads k :
  200 * Z.of_nat k < 2 ^ 32 →
  reads (list_blacklist_page None (Z.of_nat k + 1) 200)
    (λ d, mkPage (listed (blacklist_rows d) (200 * k)) (Z.of_nat (length (blacklist_rows d))) (Z.of_nat k + 1) 200).
Proof using no_faults.
  intros Hk. eapply reads_ext.
  - refine (reads_bind _ _ _ (λ r _, mkPage (omap ip_blacklist_model_to_dto r.1) r.2 (Z.of_nat k + 1) 200) _ _); [by apply paginate_reads|].
    intros r. apply reads_ret.
  - intros d. cbv beta. cbn [fst snd]. change (clamp_page_size 200) with 200.
    replace (saturating_sub (Z.of_nat k + 1) 1 * 200) with (200 * Z.of_nat k) by (unfold saturating_sub; lia).
    assert (List.filter (λ _ : BlacklistRow, true) (rows d) = d_blacklist d) as Ef.
    { change (rows d) with (d_blacklist d). induction (d_blacklist d); simpl; [done|by f_equal]. }
    cbv beta. rewrite Ef, page_listed. unfold blacklist_rows. by rewrite length_map, (Permutation_length (stable_sort_perm _ _)).
Qed.

End Listings.
End Listings.
