(* ===== verification/Seed.v ===== *)
(** The demonstration data (conrogate-storage/src/seed.rs), which `migrate` writes:
    the official plugins, one upstream and one route. *)
From Stdlib Require Import ZArith Lia Ascii String.
From stdpp Require Import base tactics option list gmap strings pretty.
From S2P Require Import Prelude Text Errors Core Plugin Storage Repositories Versions Snapshot Reports ConfigCache Control Rollback Listings.
#[local] Open Scope Z_scope.

Module Seed.
Import Storage Convert Repos Snapshot Rollback Reports Listings.
#[local] Open Scope query_scope.

Section Seed.
Context `{DbEnv} `{Serde RouteMatchConditions}.

Definition manifest (name title description : string) : Value :=
  VObject [("name"%string, VString name); ("title"%string, VString title); ("description"%string, VString description)].

Definition official_plugins : list (string * Value) :=
  [("cors"%string, manifest "cors" "跨域" "CORS 响应头注入与预检处理");
   ("auth"%string, manifest "auth" "鉴权" "JWT Bearer Token 校验");
   ("header_rewrite"%string, manifest "header_rewrite" "头改写" "请求 / 响应头改写");
   ("ip_allow_deny"%string, manifest "ip_allow_deny" "IP 访问控制" "绑定级 IP allow / deny 白黑名单")].

(** One official plugin, unless there is one of its name. *)
Definition seed_plugin (now : Z) (_ : unit) (plugin : string * Value) : Q unit :=
  found <-- find_plugin plugin.1;;
  match found with
  | Some _ => qret tt
  | None => insert_plugin (mkInstalledPlugin plugin.1 "0.0.1" 1 Native Active None plugin.2 now (Some now))
  end.

Definition seed_official_plugins : Q unit := t <-- now;; for_each official_plugins tt (seed_plugin t).

Definition demo_upstream (name address : string) : CreateUpstreamDto :=
  mkCreateUpstream name RoundRobin (Some false) [mkCreateNode address (Some 1) (Some true)].

Definition demo_route (upstream_id : Z) : CreateRouteDto :=
  mkCreateRoute "demo-route" Http (mkConditions (PathPrefix "/demo/") None None [] []) (Some 10) (Some upstream_id) None
    (Some false) (Some false) (Some true).

Definition seed_demo_data (upstream_name upstream_address : string) : Q unit :=
  seed_official_plugins;;-
  existing <-- list_upstreams_all;;
  match existing with
  | _ :: _ => qret tt
  | [] =>
      upstream <-- create_upstream (demo_upstream upstream_name upstream_address);;
      create_route (demo_route (u_id upstream));;-
      qret tt
  end.
(** ** Seeding twice *)

Definition has_plugin (d : Db) (name : string) : Prop := is_Some (List.find (plugin_named name) (d_plugins d)).

(** What a seeding leaves: the official plugins and some upstream. *)
Definition seeded (d : Db) : Prop := (∀ p, p ∈ official_plugins → has_plugin d p.1) ∧ upstreams_of d ≠ [].

Lemma find_plugin_ok name w w' o : find_plugin name w = (w', Ok o) → w_db w' = w_db w ∧ (is_Some o ↔ has_plugin (w_db w) name).
Proof.
  intros (w1 & m & [E ->]%one_ok & [= <- <-])%qbind_ok. split; [done|]. unfold has_plugin.
  change (rows (w_db w)) with (d_plugins (w_db w)). destruct (List.find _ _); simpl; [by split; eexists|done].
Qed.

Lemma seed_plugin_ok t u p w w' u' :
  seed_plugin t u p w = (w', Ok u') →
  has_plugin (w_db w') p.1 ∧ (∀ name, has_plugin (w_db w) name → has_plugin (w_db w') name) ∧ d_upstreams (w_db w') = d_upstreams (w_db w).
Proof.
  intros (w1 & o & [E Ho]%find_plugin_ok & E2)%qbind_ok. destruct o as [x|].
  - injection E2 as <- _. rewrite E. split; [by apply Ho|done].
  - apply qbind_ok in E2 as (w2 & r & (-> & E2 & _)%insert_ok & [= <- _]). rewrite E2, E. cbn [d_upstreams set_rows plugins_table].
    unfold has_plugin. cbn [d_plugins set_rows plugins_table]. change (rows (w_db w)) with (d_plugins (w_db w)).
    assert (∀ n l r, List.find (plugin_named n) (l ++ [r]) =
              match List.find (plugin_named n) l with Some x => Some x | None => if plugin_named n r then Some r else None end) as Hf.
    { intros n l r. induction l as [|a l IH]; simpl; [by destruct (plugin_named n r)|]. by destruct (plugin_named n a). }
    split_and!; [|intros name [x Hx]; rewrite Hf, Hx; by eexists|done].
    rewrite Hf. destruct (List.find _ _); [by eexists|]. unfold plugin_named. cbn [in_name]. rewrite String.eqb_refl. by eexists.
Qed.

Lemma seed_plugins_ok t ps u w w' u' :
  for_each ps u (seed_plugin t) w = (w', Ok u') →
  (∀ p, p ∈ ps → has_plugin (w_db w') p.1) ∧ (∀ name, has_plugin (w_db w) name → has_plugin (w_db w') name) ∧
  d_upstreams (w_db w') = d_upstreams (w_db w).
Proof.
  revert u w. induction ps as [|p ps IH]; intros u w; simpl.
  - intros [= <- _]. split; [|done]. intros p Hp. by apply elem_of_nil in Hp.
  - intros (w1 & u1 & (H1 & H2 & H3)%seed_plugin_ok & (H4 & H5 & H6)%IH)%qbind_ok. split_and!; [|auto|congruence].
    intros q [->|Hq]%elem_of_cons; [by apply H5|by apply H4].
Qed.

Lemma upstreams_of_nonempty d : upstreams_of d ≠ [] ↔ List.filter live_upstream (d_upstreams d) ≠ [].
Proof. unfold upstreams_of, live_upstreams, lives. by destruct (List.filter _ _). Qed.

Lemma create_upstream_live dto w w' x :
  create_upstream dto w = (w', Ok x) → List.filter live_upstream (d_upstreams (w_db w')) ≠ [] ∧ d_plugins (w_db w') = d_plugins (w_db w).
Proof.
  intros E. assert (keeps (λ d _, d_plugins d) (create_upstream dto)) as Hp by (unfold create_upstream, insert_nodes, with_nodes, load_nodes; keeps).
  specialize (Hp w). rewrite E in Hp. split; [|exact Hp]. clear Hp.
  apply qbind_ok in E as (w1 & c & _ & E). apply qbind_ok in E as (w2 & u & _ & E). apply qbind_ok in E as (w3 & m & (Em & E3 & _)%insert_ok & E).
  set (q := insert_nodes _ _ _;;- _) in E.
  assert (keeps (λ d _, d_upstreams d) q) as Hq by (unfold q, insert_nodes, with_nodes, load_nodes; keeps).
  specialize (Hq w3). rewrite E in Hq. simpl in Hq. rewrite Hq, E3. cbn [d_upstreams set_rows upstreams_table].
  rewrite List.filter_app. rewrite Em. simpl. by destruct (List.filter _ _).
Qed.

Lemma seed_leaves name address w w' : seed_demo_data name address w = (w', Ok tt) → seeded (w_db w').
Proof.
  intros (w1 & u & E1 & E2)%qbind_ok. apply qbind_ok in E1 as (w0 & t & E0%now_ok & (H1 & _ & _)%seed_plugins_ok).
  apply qbind_ok in E2 as (w2 & us & [D2 ->]%list_upstreams_all_ok & E3).
  assert (∀ wa, d_plugins (w_db wa) = d_plugins (w_db w1) → ∀ p, p ∈ official_plugins → has_plugin (w_db wa) p.1) as Hpl.
  { intros wa Ewa p Hp. unfold has_plugin. rewrite Ewa. by apply H1. }
  unfold seeded. rewrite upstreams_of_nonempty. destruct (upstreams_of (w_db w1)) as [|a l] eqn:Eu.
  - apply qbind_ok in E3 as (w3 & up & [Hl Hp]%create_upstream_live & E4). apply qbind_ok in E4 as (w4 & r & E4 & [= <-]).
    assert (keeps (λ d _, (d_plugins d, d_upstreams d)) (create_route (demo_route (u_id up)))) as Hk by (unfold create_route; keeps).
    specialize (Hk w3). rewrite E4 in Hk. injection Hk as Hk1 Hk2. rewrite Hk2. split; [|done]. apply Hpl. by rewrite Hk1, Hp, D2.
  - injection E3 as <-. split; [apply Hpl; by rewrite D2|]. apply upstreams_of_nonempty. by rewrite D2, Eu.
Qed.

Context (no_faults : ∀ n, fault n = None).

Lemma seed_plugins_again t ps u w :
  db_ok mysql (w_db w) → (∀ p, p ∈ ps → has_plugin (w_db w) p.1) →
  ∃ w', for_each ps u (seed_plugin t) w = (w', Ok tt) ∧ w_db w' = w_db w.
Proof using no_faults.
  revert u w. induction ps as [|p ps IH]; intros [] w Hok Hp; [by exists w|].
  destruct (reads_one no_faults db_internal (plugin_named p.1) w Hok) as (w1 & E1 & D1).
  destruct (IH tt w1 ltac:(by rewrite D1)) as (w2 & E2 & D2); [intros q Hq; rewrite D1; apply Hp; by right|].
  exists w2. split; [|congruence]. cbn [for_each]. unfold qbind at 1. unfold seed_plugin at 1, find_plugin, qbind. rewrite E1.
  change (rows (w_db w)) with (d_plugins (w_db w)). destruct (Hp p ltac:(by left)) as [x ->]. exact E2.
Qed.

(** Seeding is idempotent, and does nothing to a database in use. A seeding that
    succeeds leaves the official plugins and a live upstream; when both are there and no
    statement fails, seeding with any upstream succeeds and changes nothing: no
    second plugin row, no second upstream, no second route. *)
Theorem seed_idempotent name address w w' :
  seed_demo_data name address w = (w', Ok tt) → db_ok mysql (w_db w') →
  seeded (w_db w') ∧
  ∀ w1 name2 address2, seeded (w_db w1) → db_ok mysql (w_db w1) →
    ∃ w2, seed_demo_data name2 address2 w1 = (w2, Ok tt) ∧ w_db w2 = w_db w1.
Proof using no_faults.
  intros E Hok. split; [by eapply seed_leaves|]. intros w1 name2 address2 [Hp Hu] Hok1.
  destruct (seed_plugins_again (utc (w_tick w1)) official_plugins tt (ticked w1) Hok1 Hp) as (w2 & E2 & D2).
  destruct (list_upstreams_all_reads no_faults w2 ltac:(by rewrite D2)) as (w3 & E3 & D3). exists w3. split; [|by rewrite D3, D2].
  unfold seed_demo_data, seed_official_plugins. unfold qbind at 1 2, now. rewrite E2. unfold qbind. rewrite E3, D2.
  change (w_db (ticked w1)) with (w_db w1). by destruct (upstreams_of (w_db w1)).
Qed.
End Seed.
End Seed.

Module SeedDemo.
Import Storage Seed.

#[local] Instance demo_env : DbEnv :=
  {| mysql := false; new_id _ l := 1 + foldr Z.max 0 l; like _ _ := false; null_eq := false; none_inserted := None;
     violation := "constraint violation"; column_time t := t; utc n := Z.of_nat n; fault _ := None; reply_lost _ := false |}.
#[local] Instance demo_conditions : Serde RouteMatchConditions :=
  {| to_value _ := VNull; from_value _ := Ok default_conditions |}.

Definition w0 : World := mkWorld empty_db (mkRedis ∅ []) 0.
Definition w1 : World := (seed_demo_data "demo" "127.0.0.1:9000" w0).1.

(** An empty database is seeded once. *)
Lemma seed_idempotent_witness :
  map in_name (d_plugins (w_db w1)) = ["cors"; "auth"; "header_rewrite"; "ip_allow_deny"]%string ∧
  ∃ w2, seed_demo_data "other" "127.0.0.1:9001" w1 = (w2, Ok tt) ∧ w_db w2 = w_db w1.
Proof.
  assert (seed_demo_data "demo" "127.0.0.1:9000" w0 = (w1, Ok tt)) as E by (vm_compute; reflexivity).
  assert (db_ok mysql (w_db w1)) as Hok by (apply (bool_decide_unpack _); vm_compute; exact I).
  destruct (seed_idempotent (H := demo_env) (λ n, eq_refl) "demo" "127.0.0.1:9000" w0 w1 E Hok) as [Hs Hag].
  split; [vm_compute; reflexivity|]. exact (Hag w1 "other"%string "127.0.0.1:9001"%string Hs Hok).
Defined.
End SeedDemo.
