(* ===== verification/HttpLoader.v ===== *)
(** The loader of a gateway that runs apart from the control plane
    (conrogate-cli/src/http_config_loader.rs): it pulls the configuration page by
    page from the API of Api.v. *)
From Stdlib Require Import ZArith Lia Ascii String.
From stdpp Require Import base tactics option list gmap strings pretty.
From S2P Require Import Prelude Text Errors Core F64 Plugin Access TraceId ServerAuth Telemetry HttpHandler.
From S2P Require Import Storage Repositories Versions Snapshot Reports ConfigCache Control Api Rollback Listings.
#[local] Open Scope Z_scope.

Module HttpLoader.
Import Listings.

(** ** JSON values *)

(** [Value::get] on an object. *)
Definition get (key : string) (v : Value) : option Value :=
  match v with
  | VObject l => snd <$> List.find (λ kv, (kv.1 =? key)%string) l
  | _ => None
  end.
Definition as_str (v : Value) : option string := match v with VString s => Some s | _ => None end.
Definition as_u64 (v : Value) : option Z := match v with VNumber n => parse_uint (2 ^ 64 - 1) n | _ => None end.
Definition is_array (v : Value) : bool := match v with VArray _ => true | _ => false end.

Record HttpRequest := mkRequest { hr_method : string; hr_uri : string; hr_authorization : string; hr_content_type : string }.

Record HttpConfigLoader := mkLoader { hl_base_url : string; hl_api_prefix : string; hl_token : string }.

Definition new (base_url api_prefix token : string) : HttpConfigLoader := mkLoader base_url (trim api_prefix) token.

Definition auth_request (l : HttpConfigLoader) (method path : string) : HttpRequest :=
  mkRequest method (hl_base_url l +:+ hl_api_prefix l +:+ path) ("Bearer " +:+ hl_token l) "application/json".

Definition load_error {A} (msg : string) : result A ConrogateError := Err (ConfigLoad msg).

Section Loader.
(** The state of the network, the HTTP client on it (the status and the body, which
    may break off), the JSON parser, and the text of a status line. *)
Context {W Bytes : Type} (send : HttpRequest → W → W * result (Z * result Bytes string) string).
Context (from_slice : Bytes → result Value string) (status_text : Z → string).
Context (l : HttpConfigLoader).

Definition get_json (path : string) (w : W) : W * result Value ConrogateError :=
  match send (auth_request l "GET" path) w with
  | (w, Err e) => (w, load_error ("HTTP request failed: " +:+ e))
  | (w, Ok (_, Err e)) => (w, load_error ("body read failed: " +:+ e))
  | (w, Ok (status, Ok body)) =>
      (w, match from_slice body with
          | Err e => load_error ("JSON parse failed: " +:+ e)
          | Ok json =>
              if (200 <=? status) && (status <? 300) then Ok json
              else load_error ("control API returned " +:+ status_text status +:+ ": " +:+ default "unknown"%string (get "msg" json ≫= as_str))
          end)
  end.

(** *** Pages *)

Section Pages.
Context {A : Type} (decode : Value → result A string) (what : string) (path : Z → Z → string).

(** [serde_json::from_value] for a vector. *)
Fixpoint decode_all (vs : list Value) : result (list A) string :=
  match vs with
  | [] => Ok []
  | v :: vs => match decode v with
               | Err e => Err e
               | Ok a => match decode_all vs with Ok l => Ok (a :: l) | Err e => Err e end
               end
  end.

Definition decode_list (v : Value) : result (list A) string :=
  match v with VArray vs => decode_all vs | _ => Err "invalid type: expected a sequence"%string end.

(** The rows of one page and the total. *)
Definition page_of (json : Value) : result (list A * Z) ConrogateError :=
  match get "data" json with
  | None => load_error "missing data field"
  | Some data =>
      match (match get "list" data with Some v => Some v | None => if is_array data then Some data else None end) with
      | None => load_error "missing list field"
      | Some list =>
          match decode_list list with
          | Err e => load_error (what +:+ " deserialize failed: " +:+ e)
          | Ok batch => Ok (batch, default 0 (get "total" data ≫= as_u64))
          end
      end
  end.

(** [loop]: [None] when [fuel] pages were not enough. *)
Fixpoint load_pages (fuel : nat) (page : Z) (all : list A) (w : W) : W * option (result (list A) ConrogateError) :=
  match fuel with
  | O => (w, None)
  | S fuel =>
      match get_json (path page 200) w with
      | (w, Err e) => (w, Some (Err e))
      | (w, Ok json) =>
          match page_of json with
          | Err e => (w, Some (Err e))
          | Ok (batch, total) =>
              let all := all ++ batch in
              if (total <=? Z.of_nat (length all)) || (Z.of_nat (length all) =? 0) then (w, Some (Ok all))
              else load_pages fuel (u32_wrap (page + 1)) all w
          end
      end
  end.
End Pages.

Definition page_query (prefix : string) (page page_size : Z) : string :=
  prefix +:+ "?page=" +:+ pretty page +:+ "&page_size=" +:+ pretty page_size.

Definition load_routes (decode : Value → result RouteDto string) (fuel : nat) :=
  load_pages decode "route" (page_query "/routes") fuel 1 [].
Definition load_upstreams (decode : Value → result UpstreamDto string) (fuel : nat) :=
  load_pages decode "upstream" (page_query "/upstreams") fuel 1 [].
Definition load_blacklist (decode : Value → result IpBlacklistDto string) (fuel : nat) :=
  load_pages decode "ip_blacklist" (page_query "/security/ip_blacklist") fuel 1 [].

(** *** Bindings *)

Definition load_plugin_bindings (decode : Value → result PluginBindingDto string) (route_id : Z) (w : W) :
    W * result (list PluginBindingDto) ConrogateError :=
  match get_json ("/routes/" +:+ pretty route_id +:+ "/plugins") w with
  | (w, Err e) => (w, Err e)
  | (w, Ok json) =>
      (w, match get "data" json with
          | None => load_error "missing data field"
          | Some data => match decode_list decode data with
                         | Ok l => Ok l
                         | Err e => load_error ("plugin bindings deserialize failed: " +:+ e)
                         end
          end)
  end.

(** One request for each route; the first failure is the answer. *)
Fixpoint load_all_plugin_bindings (decode : Value → result PluginBindingDto string) (routes : list RouteDto)
    (all : list PluginBindingDto) (w : W) : W * result (list PluginBindingDto) ConrogateError :=
  match routes with
  | [] => (w, Ok all)
  | route :: rest =>
      match load_plugin_bindings decode (r_id route) w with
      | (w, Err e) => (w, Err e)
      | (w, Ok bindings) => load_all_plugin_bindings decode rest (all ++ bindings) w
      end
  end.

(** ** A server of pages *)

Section Server.
Context {A : Type} (decode : Value → result A string) (what : string) (path : Z → Z → string).

(** The server holds [rows]; a row it cannot convert is counted but not listed.
    [inv] is the state in which it answers so. *)
Context (rows : list (option A)) (inv : W → Prop).

Definition serves : Prop := ∀ (k : nat) w, inv w → 200 * Z.of_nat k < 2 ^ 32 →
  ∃ w' json, get_json (path (Z.of_nat k + 1) 200) w = (w', Ok json) ∧ inv w' ∧
             page_of decode what json = Ok (listed rows (200 * k), Z.of_nat (length rows)).

(** What has been collected after [k] pages. *)
Definition collected (k : nat) : list A := omap id (take (200 * k) rows).

Lemma collected_S k : collected (S k) = collected k ++ listed rows (200 * k).
Proof.
  unfold collected, listed. rewrite <- omap_app. f_equal. replace (200 * S k)%nat with (200 * k + 200)%nat by lia.
  by rewrite take_take_drop.
Qed.

Lemma length_omap_id {B} (l' : list (option B)) : (length (omap id l') <= length l')%nat ∧
  (length (omap id l') = length l' ↔ Forall is_Some l').
Proof.
  induction l' as [|[b|] l' [IH1 IH2]]; csimpl; [by split; [lia|]; split; [constructor|]|..].
  - split; [lia|]. rewrite Forall_cons. split; [intros E; split; [by eexists|apply IH2; lia]|intros [_ Hf]; f_equal; by apply IH2].
  - split; [lia|]. rewrite Forall_cons. split; [lia|]. by intros [[? ?] _].
Qed.

Hypothesis server : serves.
Hypothesis small : Z.of_nat (length rows) < 2 ^ 32 - 200.

(** One turn of the loop. *)
Lemma load_page k fuel w :
  inv w → 200 * Z.of_nat k < 2 ^ 32 - 200 →
  ∃ w', inv w' ∧
    load_pages decode what path (S fuel) (Z.of_nat k + 1) (collected k) w =
    if (Z.of_nat (length rows) <=? Z.of_nat (length (collected (S k)))) || (Z.of_nat (length (collected (S k))) =? 0)
    then (w', Some (Ok (collected (S k))))
    else load_pages decode what path fuel (Z.of_nat (S k) + 1) (collected (S k)) w'.
Proof using server.
  intros Hw Hk. destruct (server k w Hw ltac:(lia)) as (w' & json & E & Hw' & Hp). exists w'. split; [done|].
  cbn [load_pages]. rewrite E, Hp, <- collected_S. unfold u32_wrap. rewrite Z.mod_small by lia.
  by replace (Z.of_nat k + 1 + 1) with (Z.of_nat (S k) + 1) by lia.
Qed.

(** When every row can be listed, as many pages as the rows fill give all of them. *)
Lemma load_pages_complete fuel k w :
  Forall is_Some rows → inv w → (length rows <= 200 * (k + fuel))%nat → (k = 0 ∨ 200 * k < length rows)%nat → (0 < fuel)%nat →
  ∃ w', inv w' ∧ load_pages decode what path fuel (Z.of_nat k + 1) (collected k) w = (w', Some (Ok (omap id rows))).
Proof using server small.
  intros Hall. revert k w. induction fuel as [|fuel IH]; intros k w Hw Hlen Hk Hf; [lia|].
  destruct (load_page k fuel w Hw ltac:(lia)) as (w' & Hw' & ->).
  assert (∀ n, Forall is_Some (take n rows)) as Htake by (intros; by apply Forall_take).
  assert (length (collected (S k)) = (200 * S k) `min` length rows)%nat as Hc.
  { unfold collected. rewrite (proj2 (proj2 (length_omap_id _)) (Htake _)), length_take. done. }
  destruct (decide (length rows <= 200 * S k)%nat) as [Hle|Hgt].
  - assert (collected (S k) = omap id rows) as Ec by (unfold collected; by rewrite take_ge by lia).
    destruct (Z.leb_spec (Z.of_nat (length rows)) (Z.of_nat (length (collected (S k))))); [|lia]. exists w'. by rewrite Ec.
  - destruct (Z.leb_spec (Z.of_nat (length rows)) (Z.of_nat (length (collected (S k))))); [lia|].
    destruct (Z.eqb_spec (Z.of_nat (length (collected (S k)))) 0); [lia|]. apply IH; [done|lia|lia|lia].
Qed.

(** With fewer pages than that it has not returned. *)
Lemma load_pages_short fuel k w :
  Forall is_Some rows → inv w → (200 * (k + fuel) < length rows)%nat →
  (load_pages decode what path fuel (Z.of_nat k + 1) (collected k) w).2 = None.
Proof using server small.
  intros Hall. revert k w. induction fuel as [|fuel IH]; intros k w Hw Hlen; [done|].
  destruct (load_page k fuel w Hw ltac:(lia)) as (w' & Hw' & ->).
  assert (length (collected (S k)) = 200 * S k)%nat as Hc.
  { unfold collected. rewrite (proj2 (proj2 (length_omap_id _)) (Forall_take _ _ _ Hall)), length_take. lia. }
  destruct (Z.leb_spec (Z.of_nat (length rows)) (Z.of_nat (length (collected (S k))))); [lia|].
  destruct (Z.eqb_spec (Z.of_nat (length (collected (S k)))) 0); [lia|]. apply IH; [done|lia].
Qed.

(** When nothing of the first page can be listed, the loop ends with nothing. *)
Lemma load_pages_gives_up w :
  inv w → collected 1 = [] → ∃ w', inv w' ∧ load_pages decode what path 1 1 [] w = (w', Some (Ok [])).
Proof using server.
  intros Hw He. destruct (load_page 0 0 w Hw ltac:(lia)) as (w' & Hw' & E). exists w'. split; [done|].
  change (Z.of_nat 0 + 1) with 1 in E. change (collected 0) with (@nil A) in E. rewrite E, He. by rewrite orb_true_r.
Qed.

(** When some row is counted but not listed, the loop goes on: after any number of
    pages short of the wrap-around of the offset it has not returned. *)
Lemma load_pages_runs_on fuel k w :
  ¬ Forall is_Some rows → (0 < length (collected 1))%nat → inv w → 200 * (Z.of_nat k + Z.of_nat fuel) < 2 ^ 32 →
  (load_pages decode what path fuel (Z.of_nat k + 1) (collected k) w).2 = None.
Proof using server.
  intros Hn H1. revert k w. induction fuel as [|fuel IH]; intros k w Hw Hlen; [done|].
  destruct (load_page k fuel w Hw ltac:(lia)) as (w' & Hw' & ->).
  assert (length (collected (S k)) < length rows)%nat as Hlt.
  { destruct (length_omap_id rows) as [Hle Hiff]. assert (length (omap id rows) < length rows)%nat as Hlt.
    { destruct (decide (length (omap id rows) = length rows)); [by exfalso; apply Hn, Hiff|lia]. }
    assert (length (collected (S k)) <= length (omap id rows))%nat; [|lia]. unfold collected.
    rewrite <- (take_drop (200 * S k) rows) at 2. rewrite omap_app, length_app. lia. }
  assert (length (collected 1) <= length (collected (S k)))%nat as Hge.
  { unfold collected. replace (200 * S k)%nat with (200 * 1 + 200 * k)%nat by lia.
    rewrite <- (take_take_drop rows (200 * 1) (200 * k)), omap_app, length_app. lia. }
  destruct (Z.leb_spec (Z.of_nat (length rows)) (Z.of_nat (length (collected (S k))))); [lia|].
  destruct (Z.eqb_spec (Z.of_nat (length (collected (S k)))) 0); [lia|]. apply IH; [done|lia].
Qed.

End Server.
End Loader.
End HttpLoader.

(** ** The loader against the API *)

Module LoaderApi.
Import Storage Convert Repos ServerAuth Api Listings HttpLoader.

Section WithApi.
Context `{DbEnv} `{Serde RouteMatchConditions} `{Serde ConfigSnapshot} (sha256_hash : Value → string).
Context {IpAddr IpNet : Type} `{IpLib IpAddr IpNet}.
Context `{Encode RouteDto} `{Encode UpstreamDto} `{Encode PluginBindingDto} `{Encode IpBlacklistDto}.
Context `{Encode ConfigVersionDto} `{Encode ConfigDiff} `{Encode Aggregator.MetricRow} `{Encode OverviewMetric}.
Context `{Encode HttpHandler.EventRow} `{Encode AuditLogRow} `{Encode NodeApplicationRow} `{Encode InstalledPluginDto}.
Context `{Encode UpstreamRouteBindingDto}.
Context (encode_f64 : F64.f64 → Value) (encode_time : Z → Value) (hash_order : gmap Z Z → list (Z * Z)).
Context (config_cache : option ConfigCache) (fresh : World → string) (st : AuthState).

(** The HTTP library that finds the handler of a URI, and the text of a JSON value. *)
Context {Bytes : Type} (dispatch : string → option call) (to_text : Value → Bytes) (from_slice : Bytes → result Value string).
Context (status_text : Z → string).

Definition json_of (r : Response) : Value :=
  VObject [("code"%string, encode (rs_code r)); ("msg"%string, encode (rs_msg r)); ("data"%string, default VNull (rs_data r));
           ("trace_id"%string, encode (rs_trace_id r))].

(** The control plane as the client sees it. *)
Definition send (req : HttpRequest) (w : World) : World * result (Z * result Bytes string) string :=
  match dispatch (hr_uri req) with
  | Some c =>
      let '(w', r) := api sha256_hash encode_f64 encode_time hash_order config_cache fresh st (Some (hr_authorization req)) None (inr c) w in
      (w', Ok (rs_status r, Ok (to_text (json_of r))))
  | None => (w, Err "no such route"%string)
  end.

(** *** Listings as pages *)

Section Listing.
Context (d : Db) (l : HttpConfigLoader) (role : Role) (operator : string).
Context (authorized : auth_middleware st (Some ("Bearer " +:+ hl_token l)) = Ok (role, operator)).

Lemma decode_all_encode {A} `{Encode A} (dec : Value → result A string) rs :
  (∀ r, r ∈ rs → dec (encode r) = Ok r) → decode_all dec (map encode rs) = Ok rs.
Proof.
  induction rs as [|r rs IH]; simpl; intros Hin; [done|]. rewrite Hin by (by left).
  rewrite IH; [done|]. intros r' Hr'. apply Hin. by right.
Qed.

Lemma listed_rows {A} (rws : list (option A)) r k : r ∈ listed rws k → Some r ∈ rws.
Proof.
  unfold listed. intros (o & Ho & E)%list_elem_of_omap. simpl in E. subst o.
  rewrite <- (take_drop k rws), <- (take_drop 200 (drop k rws)). set_solver.
Qed.

Lemma as_u64_nat n : Z.of_nat n < 2 ^ 64 → as_u64 (encode (Z.of_nat n)) = Some (Z.of_nat n).
Proof.
  intros Hn. apply parse_uint_pretty_Z. lia.
Qed.

(** A listing of the API is a server of pages. *)
Lemma page_serves {A} `{Encode A} (dec : Value → result A string) what prefix (call_of : PaginationQuery → call)
    (query : Z → Z → Q (PaginatedResult A)) (rws : Db → list (option A)) :
  (∀ v, from_slice (to_text v) = Ok v) →
  (∀ r, Some r ∈ rws d → dec (encode r) = Ok r) →
  (∀ p, 0 < p < 2 ^ 32 → dispatch (hr_uri (auth_request l "GET" (page_query prefix p 200))) = Some (call_of (mkPagination (Some p) (Some 200)))) →
  (∀ trace q, handle sha256_hash encode_f64 encode_time hash_order config_cache fresh role operator trace (call_of q) =
              respond fresh (query (Api.page_of q) (page_size_of q))) →
  (∀ k, 200 * Z.of_nat k < 2 ^ 32 → reads (query (Z.of_nat k + 1) 200)
     (λ d, mkPage (listed (rws d) (200 * k)) (Z.of_nat (length (rws d))) (Z.of_nat k + 1) 200)) →
  db_ok mysql d → Z.of_nat (length (rws d)) < 2 ^ 32 →
  serves send from_slice status_text l dec what (page_query prefix) (rws d) (λ w, w_db w = d).
Proof using authorized.
  intros Htext Hdec Hdis Hh Hq Hok Hlen k w Hw Hk. destruct (Hq k Hk w ltac:(by rewrite Hw)) as (w' & El & Ew'). rewrite Hw in El, Ew'.
  unfold get_json, send, api, trace_middleware, protected. rewrite Hdis by lia.
  change (hr_authorization (auth_request l "GET" _)) with ("Bearer " +:+ hl_token l)%string. rewrite authorized, Hh.
  unfold respond, Api.page_of, page_size_of. cbn [pq_page pq_page_size default from_option id].
  rewrite El. cbn [rs_status ok]. rewrite Htext. eexists _, _. split; [reflexivity|]. split; [exact Ew'|].
  unfold page_of, json_of. cbn [get List.find fst snd rs_data rs_code rs_msg rs_trace_id ok String.eqb Ascii.eqb Bool.eqb default fmap option_fmap option_map from_option id].
  unfold encode, encode_page. cbn [get List.find fst snd String.eqb Ascii.eqb Bool.eqb fmap option_fmap option_map].
  unfold decode_list, encode, encode_list. rewrite decode_all_encode by (intros; by eapply Hdec, listed_rows). cbn [mbind option_bind pg_total].
  by rewrite as_u64_nat by lia.
Qed.

End Listing.

Context (decode : Value → result RouteDto string).

(** Both sides agree on the text of a value, on the JSON of the routes of [d] and on
    the address of their pages. *)
Record agrees (d : Db) (l : HttpConfigLoader) : Prop := {
  ag_text : ∀ v, from_slice (to_text v) = Ok v;
  ag_decode : ∀ r, Some r ∈ route_rows d → decode (encode r) = Ok r;
  ag_dispatch : ∀ p, 0 < p < 2 ^ 32 → dispatch (hr_uri (auth_request l "GET" (page_query "/routes" p 200))) =
                     Some (ListRoutes (mkPagination (Some p) (Some 200))) }.

Section Agreed.
Context (d : Db) (l : HttpConfigLoader) (ag : agrees d l) (role : Role) (operator : string).
Context (authorized : auth_middleware st (Some ("Bearer " +:+ hl_token l)) = Ok (role, operator)).
Context (no_faults : ∀ n, fault n = None).

Lemma api_serves :
  db_ok mysql d → Z.of_nat (length (route_rows d)) < 2 ^ 32 →
  serves send from_slice status_text l decode "route" (page_query "/routes") (route_rows d) (λ w, w_db w = d).
Proof using ag authorized no_faults.
  intros Hok Hlen. apply (page_serves d l role operator authorized decode "route" "/routes" ListRoutes Repos.list_routes); try done; try apply ag.
  intros k Hk. by apply list_routes_reads.
Qed.

Definition pages_fill (fuel : nat) (rws : list (option RouteDto)) : Prop := (0 < fuel)%nat ∧ (length rws <= 200 * fuel)%nat.

(** C17. A separate gateway gets every route, when each row can be read: the loader
    asks the API for just as many pages of two hundred as the rows fill (one when
    there is no row) and returns all the live routes of the database, newest first,
    and nothing has changed. Rows that cannot be read are counted by the API but
    not listed. When there is one and some row of the first page can be read, the
    loader keeps asking: it has not returned after any number of pages short of the
    wrap-around of the page offset (more than twenty million); when no row of the
    first page can be read it stops there and answers that there are no routes,
    whatever the later pages hold. This is for an API that accepts the token,
    whose statements do not fail and whose JSON the loader reads as it was meant. *)
Theorem load_routes_complete w :
  w_db w = d → db_ok mysql d → Z.of_nat (length (route_rows d)) < 2 ^ 32 - 200 →
  (Forall is_Some (route_rows d) →
   ∀ fuel, (pages_fill fuel (route_rows d) →
      ∃ w', load_routes send from_slice status_text l decode fuel w = (w', Some (Ok (omap id (route_rows d)))) ∧ w_db w' = d) ∧
     (¬ pages_fill fuel (route_rows d) → (load_routes send from_slice status_text l decode fuel w).2 = None)) ∧
  (¬ Forall is_Some (route_rows d) → listed (route_rows d) 0 ≠ [] →
   ∀ fuel, 200 * Z.of_nat fuel < 2 ^ 32 → (load_routes send from_slice status_text l decode fuel w).2 = None) ∧
  (listed (route_rows d) 0 = [] → ∃ w', load_routes send from_slice status_text l decode 1 w = (w', Some (Ok [])) ∧ w_db w' = d).
Proof using ag authorized no_faults.
  intros Hw Hok Hlen. pose proof (api_serves Hok ltac:(lia)) as Hs.
  assert (collected (route_rows d) 1 = listed (route_rows d) 0) as Ec.
  { unfold collected, listed. by rewrite drop_0. }
  split_and!.
  - intros Hall fuel. split; [intros [Hf Hp]|intros Hp].
    + edestruct (load_pages_complete send from_slice status_text l decode "route" (page_query "/routes") (route_rows d)
        (λ w', w_db w' = d) Hs Hlen fuel 0 w Hall Hw) as (w' & Hw' & E); [lia|by left|done|]. exists w'. split; [exact E|exact Hw'].
    + destruct fuel as [|fuel]; [done|]. apply (load_pages_short send from_slice status_text l decode "route" (page_query "/routes")
        (route_rows d) (λ w', w_db w' = d) Hs Hlen (S fuel) 0 w Hall Hw). unfold pages_fill in Hp. lia.
  - intros Hn H1' fuel Hf. apply (load_pages_runs_on send from_slice status_text l decode "route" (page_query "/routes") (route_rows d)
      (λ w', w_db w' = d) Hs fuel 0 w Hn); [|done|lia].
    rewrite Ec. destruct (listed _ 0); [done|simpl; lia].
  - intros H1'. destruct (load_pages_gives_up send from_slice status_text l decode "route" (page_query "/routes") (route_rows d)
      (λ w', w_db w' = d) Hs w Hw) as (w' & Hw' & E); [by rewrite Ec|]. exists w'. split; [exact E|exact Hw'].
Qed.

End Agreed.
End WithApi.
End LoaderApi.

Module LoaderDemo.
Import Storage ServerAuth Api Listings HttpLoader LoaderApi ApiDemo.
#[local] Existing Instances demo_env demo_conditions demo_snapshots demo_ip demo_encode.

Definition loader : HttpConfigLoader := new "" " " "ann:s1:operator".

(** Finds the page in [/routes?page=<p>&page_size=200]. *)
Definition dispatch (uri : string) : option call :=
  match strip_prefix "/routes?page=" uri with
  | Some rest =>
      match split_on "&" rest with
      | [p; "page_size=200"%string] => (λ p, ListRoutes (mkPagination (Some p) (Some 200))) <$> parse_uint (2 ^ 32 - 1) p
      | _ => None
      end
  | None => None
  end.

Definition demo_route : RouteDto := mkRoute 1 "api" Http default_conditions 0 None None false false true 0 0.
Definition decode (_ : Value) : result RouteDto string := Ok demo_route.

Lemma demo_agrees : agrees (Bytes := Value) dispatch id Ok decode demo_db loader.
Proof.
  split; [done| |].
  - intros r. vm_compute. intros Hr. apply list_elem_of_singleton in Hr. injection Hr as ->. reflexivity.
  - intros p Hp. unfold dispatch.
    change (hr_uri (auth_request loader "GET" (page_query "/routes" p 200))) with
      ("/routes?page=" +:+ (pretty p +:+ String "&" "page_size=200"))%string.
    rewrite (proj2 (strip_prefix_app _ _ _)) by reflexivity.
    rewrite split_on_app by (apply count_char_pretty_Z; by split). cbn.
    rewrite parse_uint_pretty_Z by lia. reflexivity.
Defined.

(** One route, one page. *)
Lemma load_routes_complete_witness :
  ∃ w', load_routes (send hash null null order None fresh st dispatch id) Ok (λ _, "200 OK"%string) loader decode 1 w0 =
          (w', Some (Ok [demo_route])) ∧ w_db w' = demo_db.
Proof.
  assert (auth_middleware st (Some ("Bearer " +:+ hl_token loader)%string) = Ok (Operator, "ann"%string)) as Ea by (vm_compute; reflexivity).
  refine (proj1 (proj1 (load_routes_complete hash null null order None fresh st dispatch id Ok (λ _, "200 OK"%string) decode demo_db loader
    demo_agrees Operator "ann" Ea (λ n, eq_refl) w0 eq_refl _ _) _ 1%nat) _).
  - apply (bool_decide_unpack _). vm_compute. exact I.
  - vm_compute. reflexivity.
  - apply (bool_decide_unpack _). vm_compute. exact I.
  - split; [lia|]. apply Nat.leb_le. vm_compute. reflexivity.
Defined.

End LoaderDemo.
