(* ===== verification/Ingest.v ===== *)
(** What the control plane keeps of the reports of the gateways: the services
    [receive_events] and [receive_metrics] of Control.v over the tables of Reports.v. *)
From Stdlib Require Import ZArith Lia Ascii String.
From stdpp Require Import base tactics option list gmap strings pretty.
From S2P Require Import Prelude Text Errors Core F64 Telemetry HttpHandler Storage Repositories Reports Control.
#[local] Open Scope Z_scope.

Module Ingest.
Import Storage Reports Control.
Import HttpHandler(EventRow, mkEvent, ev_ts, ev_type, ev_route_id, ev_upstream_id, ev_trace_id, ev_detail).
#[local] Open Scope query_scope.

Section Ingest.
Context `{DbEnv}.

(** ** Insertions that leave out duplicates *)

Section Inserted.
Context {R K : Type} `{!Table R, !EqDecision K} (n : nat) (key : R → option K).

Lemma inserted_app l mks :
  ∃ new, foldl (inserted n key) l mks = l ++ new ∧ Forall (λ r, ∃ mk id, mk ∈ mks ∧ r = mk id) new.
Proof.
  revert l. induction mks as [|mk mks IH]; intros l; simpl; [exists []; by rewrite app_nil_r|].
  destruct (IH (inserted n key l mk)) as (new & -> & Hnew).
  assert (Forall (λ r, ∃ mk' id, mk' ∈ mk :: mks ∧ r = mk' id) new) as Hnew'.
  { eapply Forall_impl; [exact Hnew|]. intros r (mk' & id & Hm & ->). exists mk', id. split; [by right|done]. }
  unfold inserted. case_bool_decide; [by exists new|]. eexists (_ :: new). rewrite <- app_assoc. split; [done|].
  constructor; [|done]. eexists mk, _. split; [by left|done].
Qed.

Lemma inserted_keys l mks mk k :
  mk ∈ mks → (∀ id, key (mk id) = Some k) → Some k ∈ map key (foldl (inserted n key) l mks).
Proof.
  revert l. induction mks as [|mk' mks IH]; intros l Hin Hk; [set_solver|]. apply elem_of_cons in Hin as [<-|Hin]; [|by apply IH].
  simpl. destruct (inserted_app (inserted n key l mk) mks) as (new & -> & _). rewrite map_app, elem_of_app. left.
  unfold inserted. case_bool_decide as Hd; [by destruct Hd as [_ Hd]; rewrite Hk in Hd|].
  rewrite map_app, elem_of_app. right. simpl. rewrite Hk. by left.
Qed.

Lemma inserted_again l mks :
  (∀ mk, mk ∈ mks → ∃ k, Some k ∈ map key l ∧ ∀ id, key (mk id) = Some k) → foldl (inserted n key) l mks = l.
Proof.
  induction mks as [|mk mks IH]; intros Hk; simpl; [done|].
  assert (inserted n key l mk = l) as ->; [|apply IH; intros; apply Hk; by right].
  destruct (Hk mk ltac:(by left)) as (k & Hin & Ek). unfold inserted. rewrite Ek. by rewrite bool_decide_eq_true_2 by eauto.
Qed.
End Inserted.

(** ** Events *)

Definition event_id (e : EventRow) : option (string * Z * string) := (λ t, (t, column_time (ev_ts e), ev_type e)) <$> ev_trace_id e.

(** What the service compares before it stores: the time to the nanosecond. *)
Definition event_exact (e : EventRow) : option (string * Z * string) := (λ t, (t, ev_ts e, ev_type e)) <$> ev_trace_id e.

Lemma dedup_spec seen events :
  (∀ e, e ∈ dedup seen events → e ∈ events) ∧
  ∀ e k, e ∈ events → event_exact e = Some k → k ∈ seen ∨ ∃ e', e' ∈ dedup seen events ∧ event_exact e' = Some k.
Proof.
  revert seen. induction events as [|e events IH]; intros seen; simpl; [split; set_solver|].
  destruct (ev_trace_id e) as [t|] eqn:Et.
  - case_bool_decide as Hs.
    + destruct (IH seen) as [IH1 IH2]. split; [intros; right; by apply IH1|]. intros e' k [->|Hin]%elem_of_cons Hk; [|by eapply IH2].
      left. unfold event_exact in Hk. rewrite Et in Hk. by injection Hk as <-.
    + destruct (IH ((t, ev_ts e, ev_type e) :: seen)) as [IH1 IH2]. split; [set_solver|].
      intros e' k [->|Hin]%elem_of_cons Hk; [right; exists e; split; [by left|done]|].
      destruct (IH2 e' k Hin Hk) as [[->|Hs']%elem_of_cons|(e2 & He2 & Hk2)]; [|by left|right; exists e2; split; [by right|done]].
      right. exists e. split; [by left|]. unfold event_exact. by rewrite Et.
  - destruct (IH seen) as [IH1 IH2]. split; [set_solver|]. intros e' k [->|Hin]%elem_of_cons Hk.
    + unfold event_exact in Hk. by rewrite Et in Hk.
    + destruct (IH2 e' k Hin Hk) as [Hs|(e2 & He2 & Hk2)]; [by left|right; exists e2; split; [by right|done]].
Qed.

Lemma dedup_keeps events e k :
  e ∈ events → event_id e = Some k → ∃ e', e' ∈ dedup [] events ∧ event_id e' = Some k.
Proof.
  intros He Hk. unfold event_id in Hk. destruct (ev_trace_id e) as [t|] eqn:Et; [|done]. injection Hk as <-.
  assert (event_exact e = Some (t, ev_ts e, ev_type e)) as Hx by (unfold event_exact; by rewrite Et).
  destruct (proj2 (dedup_spec [] events) e _ He Hx) as [?|(e' & He' & Hk')]; [set_solver|]. exists e'. split; [done|].
  unfold event_exact in Hk'. unfold event_id. destruct (ev_trace_id e'); [|done]. by injection Hk' as -> -> ->.
Qed.

(** The row of an event, and the rows that a batch becomes. *)
Definition stored_event (e : EventRow) (t : Z) : Z → GatewayEventRow := time_kept (event_row_to_active_model e t).

Definition row_makers (events : list EventRow) (mks : list (Z → GatewayEventRow)) : Prop :=
  Forall2 (λ e mk, ∃ t, mk = stored_event e t) events mks.

Lemma convert_events_ok events w :
  ∃ w' mks, convert_events events w = (w', Ok mks) ∧ w_db w' = w_db w ∧ row_makers events (map time_kept mks).
Proof.
  assert (∀ events acc w, ∃ w' mks, for_each events acc (λ acc e, t <-- now;; qret (acc ++ [event_row_to_active_model e t])) w
            = (w', Ok (acc ++ mks)) ∧ w_db w' = w_db w ∧ row_makers events (map time_kept mks)) as Hloop.
  { clear. induction events as [|e events IH]; intros acc w; simpl.
    { exists w, []. rewrite app_nil_r. split; [done|]. split; [done|constructor]. }
    destruct (IH (acc ++ [event_row_to_active_model e (utc (w_tick w))]) (ticked w)) as (w' & mks & E & Ew & Hf).
    exists w', (event_row_to_active_model e (utc (w_tick w)) :: mks). rewrite <- app_assoc in E. split; [exact E|]. split; [exact Ew|].
    constructor; [by eexists|done]. }
  destruct (Hloop events [] w) as (w' & mks & E & Ew & Hf). by exists w', mks.
Qed.

Lemma event_key_of e t id : event_key (stored_event e t id) = event_id e.
Proof. reflexivity. Qed.

(** What an insertion of a batch did, when it succeeded. *)
Lemma insert_batch_ok events w w' :
  insert_batch events w = (w', Ok tt) →
  ∃ n mks, row_makers events mks ∧ d_events (w_db w') = foldl (inserted n event_key) (d_events (w_db w)) mks.
Proof.
  unfold insert_batch. destruct events as [|e events]; [intros [= <-]; exists 0%nat, []; by split; [constructor|]|].
  intros (w1 & mks & E1 & E2)%qbind_ok. destruct (convert_events_ok (e :: events) w) as (w1' & mks' & E1' & Ew & Hf).
  rewrite E1 in E1'. simplify_eq. exists (w_tick w1'), (map time_kept mks'). split; [done|]. apply stmt_ok in E2 as [E2 _].
  change (@rows GatewayEventRow events_table (w_db w1')) with (d_events (w_db w1')) in E2. rewrite Ew in E2.
  cbv zeta in E2. destruct none_inserted; [case_bool_decide; [done|]|]; by injection E2 as <-.
Qed.

Lemma insert_batch_again events w w' r :
  (∀ e, e ∈ events → ∃ k, event_id e = Some k ∧ Some k ∈ map event_key (d_events (w_db w))) →
  insert_batch events w = (w', r) → w_db w' = w_db w.
Proof.
  intros Hk. unfold insert_batch. destruct events as [|e events]; [by intros [= <- <-]|].
  destruct (convert_events_ok (e :: events) w) as (w1 & mks & E1 & Ew & Hf). unfold qbind. rewrite E1. unfold insert_many, at_tick, stmt.
  destruct (fault _); [by intros [= <- <-]|]. change (@rows GatewayEventRow events_table (w_db w1)) with (d_events (w_db w1)).
  rewrite (inserted_again _ event_key (d_events (w_db w1))).
  - destruct none_inserted; [rewrite bool_decide_eq_true_2 by done; by intros [= <- <-]|].
    replace (set_rows (d_events (w_db w1)) (w_db w1)) with (w_db w1) by (by destruct (w_db w1)).
    case_decide; by intros [= <- <-].
  - intros mk Hmk. apply list_elem_of_lookup in Hmk as [i Hi].
    destruct (Forall2_lookup_r _ _ _ _ _ Hf Hi) as (e' & He' & t & ->). apply list_elem_of_lookup_2 in He'.
    destruct (Hk e' He') as (k & Ek & Hin). exists k. rewrite Ew. split; [done|]. intros id. by rewrite event_key_of.
Qed.

(** C21. Events are kept once: a batch of at most a thousand events that is accepted
    adds only rows of its events and leaves the earlier ones, and every event with
    a trace id is then stored under its trace id, type and time, the time as its
    column keeps it (so events that differ only by less are kept as one); when all
    its events have one, delivering the batch again, whatever the answer, changes nothing. *)
Theorem events_once batch w w1 :
  receive_events batch w = (w1, Ok tt) →
  (Z.of_nat (length (eb_events batch)) <= REPORT_BATCH_LIMIT) ∧
  (∃ new, d_events (w_db w1) = d_events (w_db w) ++ new ∧
     Forall (λ row, ∃ e t id, e ∈ eb_events batch ∧ row = stored_event e t id) new) ∧
  (∀ e k, e ∈ eb_events batch → event_id e = Some k → Some k ∈ map event_key (d_events (w_db w1))) ∧
  (Forall (λ e, is_Some (ev_trace_id e)) (eb_events batch) →
   ∀ w2 w3 r, w_db w2 = w_db w1 → receive_events batch w2 = (w3, r) → w_db w3 = w_db w1).
Proof.
  unfold receive_events. case_Z; [done|]. intros E. destruct (dedup_spec [] (eb_events batch)) as [Hsub _].
  apply insert_batch_ok in E as (n & mks & Hf & Ed).
  assert (∀ e k, e ∈ eb_events batch → event_id e = Some k → Some k ∈ map event_key (d_events (w_db w1))) as Hstored.
  { intros e k He Hk. destruct (dedup_keeps _ e k He Hk) as (e' & He' & Hk').
    apply list_elem_of_lookup in He' as [i Hi]. destruct (Forall2_lookup_l _ _ _ _ _ Hf Hi) as (mk & Hmk & t & ->).
    rewrite Ed. apply (inserted_keys _ event_key _ _ (stored_event e' t)); [by eapply list_elem_of_lookup_2|].
    intros id. by rewrite event_key_of. }
  split_and!; [lia| |done|].
  - destruct (inserted_app n event_key (d_events (w_db w)) mks) as (new & En & Hnew). exists new. rewrite Ed. split; [done|].
    eapply Forall_impl; [exact Hnew|]. intros row (mk & id & Hmk & ->). apply list_elem_of_lookup in Hmk as [i Hi].
    destruct (Forall2_lookup_r _ _ _ _ _ Hf Hi) as (e & He & t & ->). exists e, t, id. split; [|done].
    apply Hsub. by eapply list_elem_of_lookup_2.
  - intros Htr w2 w3 r Ew E2. rewrite <- Ew in *. apply insert_batch_again in E2; [done|]. intros e He. apply Hsub in He.
    rewrite Forall_forall in Htr. destruct (Htr e He) as [t Ht]. exists (t, column_time (ev_ts e), ev_type e).
    assert (event_id e = Some (t, column_time (ev_ts e), ev_type e)) as Hk by (unfold event_id; by rewrite Ht). split; [done|]. by apply (Hstored e).
Qed.

(** ** Metrics *)

(** A sample within the widths of its fields. *)
Definition typed (row : Aggregator.MetricRow) : Prop :=
  Forall (λ z, 0 <= z < 2 ^ 32) [Aggregator.row_bucket_sec row; Aggregator.qps row; Aggregator.p50_ms row; Aggregator.p90_ms row; Aggregator.p99_ms row] ∧
  Forall (λ z, 0 <= z < 2 ^ 64)
    ([Aggregator.total_requests row; Aggregator.status_2xx row; Aggregator.status_3xx row; Aggregator.status_4xx row;
      Aggregator.status_5xx row; Aggregator.sessions row; Aggregator.bytes_in row; Aggregator.bytes_out row] ++
     option_list (Aggregator.route_id row)).

(** The bucket of a sample of a route. *)
Definition bucket (row : Aggregator.MetricRow) (route : Z) : Z * Z * Z * string :=
  (Aggregator.ts row, i32_wrap (Aggregator.row_bucket_sec row), i64_wrap route, Aggregator.gate_id row).

Lemma u32_i32_roundtrip z : 0 <= z < 2 ^ 32 → u32_wrap (i32_wrap z) = z.
Proof.
  intros Hz. unfold u32_wrap, i32_wrap. destruct (decide (z < 2 ^ 31)).
  - rewrite (Z.mod_small (z + 2 ^ 31)) by lia. rewrite Z.mod_small; lia.
  - replace (z + 2 ^ 31) with ((z - 2 ^ 31) + 1 * 2 ^ 32) by lia. rewrite Z.mod_add by lia. rewrite (Z.mod_small (z - 2 ^ 31)) by lia.
    replace (z - 2 ^ 31 - 2 ^ 31) with (z + (-1) * 2 ^ 32) by lia. rewrite Z.mod_add by lia. by apply Z.mod_small.
Qed.

Lemma metric_row_roundtrip row t id : typed row → metric_model_to_row (metric_row_to_active_model row t id) = Some row.
Proof.
  intros [H32 H64]. unfold metric_model_to_row, metric_row_to_active_model.
  cbn [mt_ts mt_bucket_sec mt_route_id mt_gate_id mt_qps mt_total_requests mt_avg_latency_ms mt_p50_ms mt_p90_ms mt_p99_ms mt_status_2xx
       mt_status_3xx mt_status_4xx mt_status_5xx mt_sessions mt_bytes_in mt_bytes_out].
  repeat (apply Forall_cons in H32 as [? H32]). repeat (apply Forall_cons in H64 as [? H64]). rewrite !u32_i32_roundtrip by done.
  rewrite !u64_i64_roundtrip by done. f_equal. destruct row as [? ? [r|]]; cbn in *; [|done].
  apply Forall_cons in H64 as [? _]. by rewrite u64_i64_roundtrip.
Qed.

Lemma same_bucket_iff row r m :
  Aggregator.route_id row = Some r → same_bucket row m = true ↔ metric_key m = Some (bucket row r).
Proof.
  intros Hr. unfold same_bucket, metric_key, bucket. rewrite Hr, !andb_true_iff, !Z.eqb_eq, String.eqb_eq, bool_decide_eq_true.
  destruct (mt_route_id m) as [r'|]; simpl; [|naive_solver]. split; [by intros [[[-> ->] ->] [= ->]]|by intros [= -> -> -> ->]].
Qed.

Lemma filter_key_unique {B K} `{!EqDecision K} (key : B → option K) (p : B → bool) k l :
  (∀ x, p x = true ↔ key x = Some k) → NoDup (omap key l) → (length (List.filter p l) <= 1)%nat.
Proof.
  intros Hp. induction l as [|x l IH]; csimpl; [lia|]. destruct (p x) eqn:E.
  - apply Hp in E as E'. rewrite E'. intros [Hn _]%NoDup_cons. simpl.
    assert (List.filter p l = []) as ->; [|done]. apply elem_of_nil_inv. intros y [Hy Ey%Hp]%filter_elem_of.
    apply Hn. apply list_elem_of_omap. by exists y.
  - intros Hnd. apply IH. destruct (key x); [by apply NoDup_cons in Hnd as [_ Hnd]|done].
Qed.

Lemma overwrite_key row m : metric_key (overwrite_metric row m) = metric_key m.
Proof. reflexivity. Qed.

Lemma filter_overwritten row r l :
  Aggregator.route_id row = Some r →
  List.filter (same_bucket row) (updated_many (same_bucket row) (overwrite_metric row) l) =
  map (overwrite_metric row) (List.filter (same_bucket row) l).
Proof.
  intros Hr. unfold updated_many. induction l as [|x l IH]; simpl; [done|]. destruct (same_bucket row x) eqn:Ex; simpl; [|by rewrite Ex].
  assert (same_bucket row (overwrite_metric row x) = true) as -> by (by apply (same_bucket_iff row r); [|rewrite overwrite_key; apply same_bucket_iff]).
  by rewrite IH.
Qed.

(** The stored rows of a bucket after a sample of that bucket. *)
Lemma upsert_metric_ok row r w w' :
  Aggregator.route_id row = Some r → typed row → upsert_metric tt row w = (w', Ok tt) →
  ∃ m, List.filter (same_bucket row) (d_metrics (w_db w')) = [m] ∧ metric_model_to_row m = Some row.
Proof.
  intros Hr Ht (w1 & c & E1 & E)%qbind_ok. apply now_ok in E1. apply qbind_ok in E as (w2 & found & E2 & E).
  assert (db_ok mysql (w_db w)) as Hok by (apply stmt_ok in E2 as [[= Ew _] Hok]; by rewrite <- E1, Ew).
  apply one_ok in E2 as [E2 ->]. rewrite E1 in E2, E. change (@rows MetricAggRow _ (w_db w)) with (d_metrics (w_db w)) in E.
  pose proof (filter_key_unique metric_key (same_bucket row) (bucket row r) (d_metrics (w_db w))
    (λ m, same_bucket_iff row r m Hr) (uk_metric _ _ Hok)) as Huniq.
  pose proof (find_elem_of (same_bucket row) (d_metrics (w_db w))) as Hfind. destruct (List.find _ _) as [m0|].
  - apply qbind_ok in E as (w3 & n & E3 & [= <-]). apply update_many_ok in E3 as [E3 _]. rewrite E2 in E3. rewrite E3. simpl.
    exists (overwrite_metric row m0). split.
    + assert (List.filter (same_bucket row) (d_metrics (w_db w)) = [m0]) as Ef.
      { assert (m0 ∈ List.filter (same_bucket row) (d_metrics (w_db w))) as Hin by by apply filter_elem_of.
        destruct (List.filter _ _) as [|x [|]]; simpl in *; [set_solver| |lia]. apply list_elem_of_singleton in Hin. by subst. }
      change [overwrite_metric row m0] with (map (overwrite_metric row) [m0]). rewrite <- Ef. by apply (filter_overwritten row r).
    + destruct Hfind as [_ Hm%(same_bucket_iff row r _ Hr)]. pose proof (metric_row_roundtrip row 0 0 Ht) as Hrt.
      unfold metric_key in Hm. destruct (mt_route_id m0) as [r0|] eqn:E0; [|done]. injection Hm as Hts Hb Hrr Hg.
      rewrite <- Hrt. unfold metric_model_to_row, overwrite_metric, metric_row_to_active_model. cbn. by rewrite E0, Hts, Hb, Hrr, Hg, Hr.
  - apply qbind_ok in E as (w3 & m & E3 & [= <-]). apply insert_ok in E3 as (-> & E3 & _). rewrite E2 in E3. rewrite E3. simpl.
    set (m := metric_row_to_active_model row c _). assert (metric_key m = Some (bucket row r)) as Hm by (unfold metric_key; simpl; by rewrite Hr).
    exists m. rewrite List.filter_app. split; [|by apply metric_row_roundtrip].
    assert (List.filter (same_bucket row) (d_metrics (w_db w)) = []) as ->.
    { apply elem_of_nil_inv. intros x [Hx Ex]%filter_elem_of. by rewrite (Hfind x Hx) in Ex. }
    simpl. assert (same_bucket row m = true) as -> by (by apply (same_bucket_iff row r)). done.
Qed.

(** A sample of another bucket, or of no route, leaves the rows of a bucket alone. *)
Lemma upsert_metric_other row w w' row' r' :
  upsert_metric tt row w = (w', Ok tt) → Aggregator.route_id row' = Some r' →
  (∀ r, Aggregator.route_id row = Some r → bucket row r ≠ bucket row' r') →
  List.filter (same_bucket row') (d_metrics (w_db w')) = List.filter (same_bucket row') (d_metrics (w_db w)).
Proof.
  intros (w1 & c & E1 & E)%qbind_ok Hr' Hne. apply now_ok in E1. apply qbind_ok in E as (w2 & found & E2 & E).
  apply one_ok in E2 as [E2 _]. assert (∀ m, same_bucket row m = true → same_bucket row' m = false) as Hf.
  { intros m Hm. destruct (same_bucket row' m) eqn:E'; [|done]. apply (same_bucket_iff row' r' _ Hr') in E'.
    destruct (Aggregator.route_id row) as [r|] eqn:Hr; [apply (same_bucket_iff row r _ Hr) in Hm; by destruct (Hne r eq_refl); congruence|].
    unfold same_bucket in Hm. rewrite Hr, !andb_true_iff, !bool_decide_eq_true in Hm. destruct Hm as (_ & _ & Hm).
    unfold metric_key in E'. by rewrite Hm in E'. }
  destruct found as [m0|].
  - apply qbind_ok in E as (w3 & n & E3 & [= <-]). apply update_many_ok in E3 as [E3 _]. rewrite E2, E1 in E3. rewrite E3.
    simpl. unfold updated_many. clear -Hf Hr'. induction (d_metrics (w_db w)) as [|x l IH]; simpl; [done|].
    destruct (same_bucket row x) eqn:Ex; simpl; [|by rewrite IH]. rewrite (Hf x Ex), IH.
    change (same_bucket row' (overwrite_metric row x)) with (same_bucket row' x). by rewrite (Hf x Ex).
  - apply qbind_ok in E as (w3 & m & E3 & [= <-]). apply insert_ok in E3 as (-> & E3 & _). rewrite E2, E1 in E3. rewrite E3.
    simpl. rewrite List.filter_app. simpl. set (m := metric_row_to_active_model row c _).
    assert (same_bucket row' m = false) as ->; [|by rewrite app_nil_r].
    destruct (same_bucket row' m) eqn:E'; [|done]. apply (same_bucket_iff row' r' _ Hr') in E'. unfold metric_key, m in E'. simpl in E'.
    destruct (Aggregator.route_id row) as [r|] eqn:Hr; [|done]. destruct (Hne r eq_refl). simpl in E'. unfold bucket in *. congruence.
Qed.

Lemma upsert_batch_other rows w w' row r :
  upsert_batch rows w = (w', Ok tt) → Aggregator.route_id row = Some r →
  (∀ x rx, x ∈ rows → Aggregator.route_id x = Some rx → bucket x rx ≠ bucket row r) →
  List.filter (same_bucket row) (d_metrics (w_db w')) = List.filter (same_bucket row) (d_metrics (w_db w)).
Proof.
  unfold upsert_batch. intros E Hr. revert w E. induction rows as [|x rows IH]; simpl; intros w; [by intros [= <-]|].
  intros (w1 & [] & E1 & E2)%qbind_ok Hne. rewrite (IH w1 E2) by (intros; eapply Hne; [by right|done]).
  apply (upsert_metric_other x w w1 row r E1 Hr). intros rx Hx. apply (Hne x rx); [by left|done].
Qed.

Lemma upsert_batch_ok pre row post w w' r :
  upsert_batch (pre ++ row :: post) w = (w', Ok tt) → Aggregator.route_id row = Some r → typed row →
  (∀ x rx, x ∈ post → Aggregator.route_id x = Some rx → bucket x rx ≠ bucket row r) →
  ∃ m, List.filter (same_bucket row) (d_metrics (w_db w')) = [m] ∧ metric_model_to_row m = Some row.
Proof.
  unfold upsert_batch. intros E Hr Ht Hne. revert w E. induction pre as [|x pre IH]; simpl; intros w (w1 & [] & E1 & E2)%qbind_ok;
    [|by apply (IH w1)].
  rewrite (upsert_batch_other post w1 w' row r E2 Hr Hne). by apply (upsert_metric_ok row r w).
Qed.

(** C22. Metrics are kept once for each bucket: an accepted batch has at most a
    thousand samples, and its header announces ten seconds or a minute (what its
    samples say of their own length is not checked: they are stored under it). Of
    the samples of a route, one whose numbers fit its fields and that is the last
    of the batch in its bucket (time, length, route and gateway) is then stored in
    exactly one row of that bucket, which reads back as the sample; the buckets of
    routes that the batch does not name are as before. The batch may also have
    samples of no route, whose rows the database keeps apart. *)
Theorem metrics_once batch w w1 :
  receive_metrics batch w = (w1, Ok tt) →
  Z.of_nat (length (mb_metrics batch)) <= REPORT_BATCH_LIMIT ∧ (mb_bucket_sec batch = 10 ∨ mb_bucket_sec batch = 60) ∧
  (∀ row r, Aggregator.route_id row = Some r →
     (∀ x rx, x ∈ mb_metrics batch → Aggregator.route_id x = Some rx → bucket x rx ≠ bucket row r) →
     List.filter (same_bucket row) (d_metrics (w_db w1)) = List.filter (same_bucket row) (d_metrics (w_db w))) ∧
  ∀ pre row post r, mb_metrics batch = pre ++ row :: post → Aggregator.route_id row = Some r → typed row →
    (∀ x rx, x ∈ post → Aggregator.route_id x = Some rx → bucket x rx ≠ bucket row r) →
    ∃ m, List.filter (same_bucket row) (d_metrics (w_db w1)) = [m] ∧ metric_model_to_row m = Some row.
Proof.
  unfold receive_metrics. destruct (Z.ltb_spec REPORT_BATCH_LIMIT (Z.of_nat (length (mb_metrics batch)))); [done|].
  destruct (negb (mb_bucket_sec batch =? 10) && negb (mb_bucket_sec batch =? 60)) eqn:Eb; [done|]. intros E. split_and!; [lia| | |].
  - apply andb_false_iff in Eb as [Eb|Eb]; apply negb_false_iff, Z.eqb_eq in Eb; auto.
  - intros row r Hr. by apply upsert_batch_other.
  - intros pre row post r Eq. rewrite Eq in E. intros. by eapply upsert_batch_ok.
Qed.

(** Without a route the bucket is never found again when the database does not match
    an absent value: every report adds a row. *)
Lemma unrouted_metric_added row w w' :
  null_eq = false → Aggregator.route_id row = None → upsert_metric tt row w = (w', Ok tt) →
  length (d_metrics (w_db w')) = S (length (d_metrics (w_db w))).
Proof.
  intros Hnull Hr (w1 & c & E1 & E)%qbind_ok. apply now_ok in E1. apply qbind_ok in E as (w2 & found & E2 & E).
  apply one_ok in E2 as [E2 ->]. assert (List.find (same_bucket row) (rows (w_db w1)) = None) as Hn.
  { pose proof (find_elem_of (same_bucket row) (rows (w_db w1))) as Hf. destruct (List.find _ _) as [m|]; [|done].
    destruct Hf as [_ Hf]. unfold same_bucket in Hf. rewrite Hr, Hnull, andb_false_r in Hf. done. }
  rewrite Hn in E. apply qbind_ok in E as (w3 & m & E3 & [= <-]). apply insert_ok in E3 as (_ & -> & _). rewrite E2, E1. simpl.
  rewrite length_app. simpl. lia.
Qed.

End Ingest.
End Ingest.

Module IngestDemo.
Import Storage Reports Control Ingest.

#[local] Instance demo_env : DbEnv :=
  {| mysql := false; new_id _ l := 1 + foldr Z.max 0 l; like _ _ := false; null_eq := false;
     none_inserted := Some "None of the records are inserted"%string; violation := "constraint violation"; column_time t := t; utc n := Z.of_nat n; fault _ := None; reply_lost _ := false |}.

Definition w0 : World := mkWorld empty_db (mkRedis ∅ []) 0.
Definition event : HttpHandler.EventRow := HttpHandler.mkEvent 5 "retry" (Some 1) None (Some "t1"%string) VNull.
Definition events : EventsBatch := mkEventsBatch "g1" "t0" [event; event].

(** The event is stored once; the second delivery is answered with an error and
    changes nothing. *)
Lemma events_once_witness :
  let w1 := (receive_events events w0).1 in
  length (d_events (w_db w1)) = 1%nat ∧ (receive_events events w1).2 = Err (DataMapping "None of the records are inserted") ∧
  w_db (receive_events events w1).1 = w_db w1.
Proof.
  intros w1. split; [vm_compute; reflexivity|]. split; [vm_compute; reflexivity|].
  assert (receive_events events w0 = (w1, Ok tt)) as E by (vm_compute; reflexivity).
  destruct (events_once events w0 w1 E) as (_ & _ & _ & Hagain).
  apply (Hagain ltac:(repeat constructor; by eexists) w1 _ (receive_events events w1).2 eq_refl).
  by destruct (receive_events events w1).
Defined.

Definition sample (qps : Z) : Aggregator.MetricRow :=
  Aggregator.mkMetricRow 60 10 (Some 1) "g1" qps 100 F64.one 1 2 3 90 0 5 5 0 10 20.
Definition unrouted : Aggregator.MetricRow :=
  Aggregator.mkMetricRow 60 10 None "g1" 3 100 F64.one 1 2 3 90 0 5 5 0 10 20.
Definition metrics : MetricsBatch := mkMetricsBatch "g1" "t0" 0 0 10 [unrouted; sample 7; sample 9].

Lemma metrics_once_witness :
  ∃ m, List.filter (same_bucket (sample 9)) (d_metrics (w_db (receive_metrics metrics w0).1)) = [m] ∧
       metric_model_to_row m = Some (sample 9).
Proof.
  assert (receive_metrics metrics w0 = ((receive_metrics metrics w0).1, Ok tt)) as E by (vm_compute; reflexivity).
  refine (proj2 (proj2 (proj2 (metrics_once metrics w0 _ E))) [unrouted; sample 7] (sample 9) [] 1 eq_refl eq_refl _ _); [|set_solver].
  repeat constructor; simpl; lia.
Defined.

End IngestDemo.
