(* ===== verification/Modes.v ===== *)
(** How a gateway gets its configuration: the two reloads of a running gateway, over
    HTTP (conrogate-cli/src/cmd_gate.rs) and from the database (Reload.v over the
    repositories), and what the server and the merged process load when they start
    (conrogate-gateway/src/server.rs, conrogate-cli/src/bootstrap.rs). *)
From Stdlib Require Import ZArith Lia Ascii String.
From stdpp Require Import base tactics option list gmap strings pretty.
From S2P Require Import Prelude Text Errors Core BalancerApi Selector F64 RouteMatcher Plugin Access TraceId ServerAuth Telemetry Effects HttpHandler.
From S2P Require Import Reload Storage Repositories Versions Snapshot Reports ConfigCache Control Api Rollback Listings HttpLoader.
#[local] Open Scope Z_scope.

Module Modes.
Import Reload HttpLoader.
Local Open Scope prog_scope.

Section Gateway.
Context {P Ctx Resp Body : Type} `{PT : PluginTrait P Ctx Resp Body}.
Context {Regex : Type} (regex_new : string → option Regex).
Context {IpAddr IpNet : Type} `{IpL : IpLib IpAddr IpNet}.
Context (registry : @Plugins.PluginRegistryImpl P).

Abbreviation runtime := (@Reload.runtime P Regex IpNet).

(** ** What the server offers to its loader *)

Definition reload_routes_with_bindings (routes : list RouteDto) (bindings : list PluginBindingDto) (s : runtime) : runtime :=
  match Plugins.build_chains registry bindings with
  | Ok chains =>
      effect regex_new (effect regex_new s (SetRouteChains chains))
        (LoadWithBindings routes bindings (Plugins.body_required_plugin_names registry))
  | Err _ => s
  end.

Definition reload_upstreams (upstreams : list UpstreamDto) (s : runtime) : runtime := effect regex_new s (LoadUpstreams upstreams).
Definition reload_blacklist (now : Z) (dtos : list IpBlacklistDto) (s : runtime) : runtime := effect regex_new s (ReloadBlacklist now dtos).

(** ** Over HTTP *)

Section Http.
Context {W Bytes : Type} (send : HttpRequest → W → W * result (Z * result Bytes string) string).
Context (from_slice : Bytes → result Value string) (status_text : Z → string) (clock : W → W * Z).
Context (decode_route : Value → result RouteDto string) (decode_upstream : Value → result UpstreamDto string).
Context (decode_binding : Value → result PluginBindingDto string) (decode_entry : Value → result IpBlacklistDto string).
Context (l : HttpConfigLoader).

(** The three loads, the first failure being the answer; [None] when [fuel] pages
    were not enough for one of them. *)
Definition load_config (fuel : nat) (w : W) : W * option (result (list RouteDto * list UpstreamDto * list PluginBindingDto) ConrogateError) :=
  match load_routes send from_slice status_text l decode_route fuel w with
  | (w, None) => (w, None)
  | (w, Some (Err e)) => (w, Some (Err e))
  | (w, Some (Ok routes)) =>
      match load_upstreams send from_slice status_text l decode_upstream fuel w with
      | (w, None) => (w, None)
      | (w, Some (Err e)) => (w, Some (Err e))
      | (w, Some (Ok upstreams)) =>
          match load_all_plugin_bindings send from_slice status_text l decode_binding routes [] w with
          | (w, Err e) => (w, Some (Err e))
          | (w, Ok bindings) => (w, Some (Ok (routes, upstreams, bindings)))
          end
      end
  end.

Definition reload_from_http (fuel : nat) (s : runtime) (w : W) : W * option runtime :=
  match load_config fuel w with
  | (w, None) => (w, None)
  | (w, Some r) =>
      let s := match r with
               | Ok (routes, upstreams, bindings) => reload_upstreams upstreams (reload_routes_with_bindings routes bindings s)
               | Err _ => s
               end in
      match load_blacklist send from_slice status_text l decode_entry fuel w with
      | (w, None) => (w, None)
      | (w, Some (Ok entries)) => let '(w, now) := clock w in (w, Some (reload_blacklist now entries s))
      | (w, Some (Err _)) => (w, Some s)
      end
  end.
End Http.

(** ** When the process starts *)

(** [unwrap_or_default]. *)
Definition ok_or_nil {A} (r : result (list A) ConrogateError) : list A := match r with Ok l => l | Err _ => [] end.

(** The bindings of the routes; a query that fails counts as no bindings. *)
Fixpoint initial_bindings (routes : list RouteDto) (acc : list PluginBindingDto) : prog (@ans P) (list PluginBindingDto) :=
  match routes with
  | [] => Done acc
  | route :: rest => rb <- ask (ListByRoute (r_id route));; initial_bindings rest (acc ++ ok_or_nil rb)
  end.

(** What both processes read before they serve. *)
Definition initial_config : prog (@ans P) (list RouteDto * list UpstreamDto * list PluginBindingDto) :=
  routes <- ask ListEnabledRoutes;;
  upstreams <- ask ListAllUpstreams;;
  let routes := ok_or_nil routes in let upstreams := ok_or_nil upstreams in
  bindings <- initial_bindings routes [];;
  Done (routes, upstreams, bindings).

(** [from_config_with_db]: a failure while building the chains leaves none. *)
Definition server_start : prog (@ans P) unit :=
  c <- initial_config;;
  let '(routes, upstreams, bindings) := c in
  let init_chains := match Plugins.build_chains registry bindings with Ok chains => chains | Err _ => ∅ end in
  ask (SetRouteChains init_chains);;;
  ask (LoadWithBindings routes bindings (Plugins.body_required_plugin_names registry));;;
  ask (LoadUpstreams upstreams);;;
  refresh_blacklist_from_db.

(** [bootstrap::run]: what the merged process loads before it serves. *)
Definition bootstrap_start : prog (@ans P) unit :=
  c <- initial_config;;
  let '(routes, upstreams, bindings) := c in
  ask (LoadUpstreams upstreams);;;
  ask (LoadWithBindings routes bindings (Plugins.body_required_plugin_names registry));;;
  refresh_blacklist_from_db.

(** ** The merged process keeps up to date *)

(** bootstrap.rs has its own copies of the functions of the server that Reload.v
    models ([load_config_snapshot], [load_config_from_db], here with a prefix). *)
Fixpoint route_bindings (routes : list RouteDto) (bindings : list PluginBindingDto) : prog (@ans P) (option (list PluginBindingDto)) :=
  match routes with
  | [] => Done (Some bindings)
  | route :: rest =>
      rb <- ask (ListByRoute (r_id route));;
      match rb with Ok rb => route_bindings rest (bindings ++ rb) | Err _ => Done None end
  end.

Definition bootstrap_config_from_db : prog (@ans P) (option ConfigSnapshot) :=
  r <- ask ListEnabledRoutes;;
  match r with
  | Err _ => Done None
  | Ok r =>
      u <- ask ListAllUpstreams;;
      match u with
      | Err _ => Done None
      | Ok u =>
          bindings <- route_bindings r [];;
          Done ((λ bindings, mkConfigSnapshot r u bindings) <$> bindings)
      end
  end.

Definition bootstrap_config_snapshot (cached : bool) : prog (@ans P) (option ConfigSnapshot) :=
  if cached then
    snap <- ask GetSnapshot;;
    match snap with Ok (Some snap) => Done (Some snap) | _ => bootstrap_config_from_db end
  else bootstrap_config_from_db.

(** One turn of [config_hot_reload_loop]. *)
Definition hot_reload_once (cached : bool) : prog (@ans P) unit :=
  loaded <- bootstrap_config_snapshot cached;;
  match loaded with
  | Some s =>
      match Plugins.build_chains registry (cs_plugin_bindings s) with
      | Ok chains =>
          ask (SetRouteChains chains);;;
          ask (LoadWithBindings (cs_routes s) (cs_plugin_bindings s) (Plugins.body_required_plugin_names registry));;;
          ask (LoadUpstreams (cs_upstreams s))
      | Err _ => Done tt
      end
  | None => Done tt
  end;;;
  list <- ask ListBlacklist;;
  match list with Ok list => now <- ask UtcNow;; ask (ReloadBlacklist now list) | Err _ => Done tt end.

(** How long a turn waits at most: the merged process and the separate gateway. *)
Definition merged_poll (poll_interval : Z) : Z := if as_secs poll_interval =? 0 then from_secs 10 else poll_interval.
Definition server_poll (poll_interval : Z) : Z := from_secs (Z.max (as_secs poll_interval) 1).

Lemma route_bindings_same routes acc tr r : runs (route_bindings routes acc) tr r ↔ runs (load_bindings routes acc) tr r.
Proof.
  revert acc tr. induction routes as [|route rest IH]; intros acc tr; [done|]. simpl. apply exist_proper. intros x. apply exist_proper.
  intros tr'. destruct x; [by rewrite IH|done].
Qed.

(** The copies do the same: a turn of the merged process and one of the server have
    the same runs. *)
Lemma hot_reload_same cached tr u : runs (hot_reload_once cached) tr u ↔ runs (reload_once registry cached) tr u.
Proof.
  assert (∀ tr r, runs bootstrap_config_from_db tr r ↔ runs (load_from_db (P := P)) tr r) as Hdb.
  { clear. intros tr r. unfold bootstrap_config_from_db, load_from_db. simpl. do 2 (apply exist_proper; intros ?). destruct x; simpl; [|done].
    apply and_iff_compat_l. do 2 (apply exist_proper; intros ?). destruct x; simpl; [|done]. apply and_iff_compat_l.
    rewrite !runs_bind. do 3 (apply exist_proper; intros ?). by rewrite route_bindings_same. }
  unfold hot_reload_once, reload_once. rewrite !runs_bind. do 3 (apply exist_proper; intros ?). apply and_iff_compat_l.
  apply and_iff_compat_r. unfold bootstrap_config_snapshot, Reload.load_config_snapshot. destruct cached; [|apply Hdb].
  simpl. apply exist_proper; intros snap. apply exist_proper; intros tr2. apply and_iff_compat_l.
  destruct snap as [[snap|]|]; [done|apply Hdb|apply Hdb].
Qed.

Lemma polls_wait d : 0 <= d → 0 < merged_poll d ∧ 0 < server_poll d.
Proof.
  intros Hd. unfold merged_poll, server_poll, as_secs, from_secs. destruct (Z.eqb_spec (d / 1000000000) 0); [lia|].
  split; [|lia]. destruct (decide (d = 0)) as [->|]; [done|lia].
Qed.

(** *** Chains at the start *)

(** Reads change nothing. *)
Lemma initial_bindings_runs routes acc tr bs s :
  runs (initial_bindings routes acc) tr bs → after regex_new s tr = s.
Proof.
  revert acc tr. induction routes as [|r routes IH]; intros acc tr; simpl; [by intros [-> _]|].
  intros (x & tr' & -> & H). by apply IH in H.
Qed.

Lemma initial_config_runs tr c s : runs initial_config tr c → after regex_new s tr = s.
Proof.
  simpl. intros (r & t1 & -> & u & t2 & -> & H). apply runs_bind in H as (t3 & bs & t4 & -> & H1 & [-> _]).
  apply (initial_bindings_runs _ _ _ _ s) in H1. by rewrite app_nil_r.
Qed.

Lemma refresh_keeps tr (s : runtime) :
  runs refresh_blacklist_from_db tr tt →
  rt_chains (after regex_new s tr) = rt_chains s ∧ rt_routes (after regex_new s tr) = rt_routes s ∧
  rt_selector (after regex_new s tr) = rt_selector s.
Proof. intros H. by destruct (refresh_runs regex_new tr s H) as [->|(now & l' & _ & ->)]. Qed.

(** C24. Which plugins guard the routes when a process starts to serve, from empty
    chains: the server loads the routes that could be read with the chain of each
    built from its enabled bindings, or with no chain at all when some binding
    cannot be built; the merged process loads the same routes and no chain: until
    the first successful turn of its reloading loop every request passes without
    any plugin, whatever is bound to its route. *)
Theorem startup_chains tr (s : runtime) :
  rt_chains s = ∅ →
  let s' := after regex_new s tr in
  (runs server_start tr tt → ∃ routes upstreams bindings tr1 tr2,
     tr = tr1 ++ tr2 ∧ runs initial_config tr1 (routes, upstreams, bindings) ∧
     rt_routes s' = RouteMatcher.load_with_bindings regex_new routes bindings (Plugins.body_required_plugin_names registry) ∧
     match Plugins.build_chains registry bindings with
     | Ok _ => ∀ id, Plugins.build_chain registry (List.filter (λ b, b_route_id b =? id) bindings) =
                     Ok (Plugins.get_route_chain (rt_chains s') id)
     | Err _ => ∀ id, Plugins.get_route_chain (rt_chains s') id = []
     end) ∧
  (runs bootstrap_start tr tt → ∃ routes upstreams bindings tr1 tr2,
     tr = tr1 ++ tr2 ∧ runs initial_config tr1 (routes, upstreams, bindings) ∧
     rt_routes s' = RouteMatcher.load_with_bindings regex_new routes bindings (Plugins.body_required_plugin_names registry) ∧
     ∀ id, Plugins.get_route_chain (rt_chains s') id = []).
Proof.
  intros Hs. cbv zeta. split.
  - intros (tr1 & [[routes ups] bs] & tr2 & -> & H1 & H)%runs_bind. exists routes, ups, bs, tr1, tr2. split; [done|]. split; [done|].
    rewrite after_app, (initial_config_runs _ _ s H1). cbn [bind ask perform runs] in H.
    destruct H as ([] & t1 & -> & [] & t2 & -> & [] & t3 & -> & H). simpl. set (s2 := mkRuntime _ _ _ _).
    destruct (refresh_keeps t3 s2 H) as (-> & -> & _). simpl. split; [done|].
    destruct (Plugins.build_chains registry bs) as [chains|e] eqn:E; [|done]. intros id. by apply Plugins.build_chains_by_route.
  - intros (tr1 & [[routes ups] bs] & tr2 & -> & H1 & H)%runs_bind. exists routes, ups, bs, tr1, tr2. split; [done|]. split; [done|].
    rewrite after_app, (initial_config_runs _ _ s H1). cbn [bind ask perform runs] in H.
    destruct H as ([] & t1 & -> & [] & t2 & -> & H). simpl. set (s2 := mkRuntime _ _ _ _).
    destruct (refresh_keeps t2 s2 H) as (-> & -> & _). simpl. by rewrite Hs.
Qed.

End Gateway.
End Modes.

(** ** Both modes on one database *)

Module Agreement.
Import Storage Convert Repos Snapshot Rollback Listings Reload HttpLoader LoaderApi Modes.
#[local] Existing Instances encode_page encode_list encode_int.

Section Database.
Context `{DbEnv} `{Serde RouteMatchConditions}.
Context {P Ctx Resp Body : Type} `{PT : PluginTrait P Ctx Resp Body}.
Context {Regex : Type} (regex_new : string → option Regex).
Context {IpAddr IpNet : Type} `{IpL : IpLib IpAddr IpNet}.

Abbreviation runtime := (@Reload.runtime P Regex IpNet).

Definition read_db {A} (q : Q A) (ws : World * runtime) : (World * runtime) * result A ConrogateError :=
  let '(w, r) := q ws.1 in ((w, ws.2), r).

(** The repositories and the running state behind the calls of a reload. *)
Definition serve_db (config_cache : option ConfigCache) (ws : World * runtime) (c : Reload.call) : (World * runtime) * ans c :=
  match c return (World * runtime) * ans c with
  | GetSnapshot => match config_cache with Some cache => read_db get_snapshot ws | None => (ws, Ok None) end
  | ListEnabledRoutes => read_db list_enabled ws
  | ListAllUpstreams => read_db list_upstreams_all ws
  | ListByRoute id => read_db (list_by_route id) ws
  | ListBlacklist => read_db list_blacklist ws
  | UtcNow => ((ticked ws.1, ws.2), utc (w_tick ws.1))
  | SetRouteChains c => ((ws.1, effect regex_new ws.2 (SetRouteChains c)), tt)
  | LoadWithBindings r b q => ((ws.1, effect regex_new ws.2 (LoadWithBindings r b q)), tt)
  | LoadUpstreams u => ((ws.1, effect regex_new ws.2 (LoadUpstreams u)), tt)
  | ReloadBlacklist t l => ((ws.1, effect regex_new ws.2 (ReloadBlacklist t l)), tt)
  end.

(** What is left when a program has run. *)
Definition run {A} (p : prog (@ans P) A) (w : World) (s : runtime) : World * runtime * A :=
  let '(ws, _, a) := exec (serve_db None) (w, s) p in (ws, a).

Lemma run_bind {A B} (p : prog (@ans P) A) (k : A → prog (@ans P) B) w s :
  run (Effects.bind p k) w s = let '(w', s', a) := run p w s in run (k a) w' s'.
Proof.
  unfold run. revert w s. induction p as [a|c f IH]; intros w s; cbn [Effects.bind exec]; [by destruct (exec _ _ (k a)) as [[[??]?]?]|].
  destruct (serve_db None (w, s) c) as [[w1 s1] x]. specialize (IH x w1 s1).
  destruct (exec _ (w1, s1) (Effects.bind _ _)) as [[[??]?]?], (exec _ (w1, s1) (f x)) as [[[??]?]?]. exact IH.
Qed.

Context (no_faults : ∀ n, fault n = None).

Lemma run_load_bindings rs acc w s :
  db_ok mysql (w_db w) →
  ∃ w', run (load_bindings rs acc) w s = (w', s, Some (acc ++ concat (map (λ r, Rollback.bindings_of (w_db w) (r_id r)) rs))) ∧ w_db w' = w_db w.
Proof using no_faults.
  revert acc w. induction rs as [|r rs IH]; intros acc w Hok; [exists w; unfold run; simpl; by rewrite app_nil_r|].
  destruct (list_by_route_reads no_faults (r_id r) w Hok) as (w1 & E1 & D1).
  destruct (IH (acc ++ Rollback.bindings_of (w_db w) (r_id r)) w1 ltac:(by rewrite D1)) as (w2 & E2 & D2).
  exists w2. split; [|congruence]. cbn [load_bindings]. rewrite run_bind. unfold run at 1, ask, perform. cbn [exec serve_db].
  unfold read_db. cbn [fst snd]. rewrite E1. rewrite E2, D1. simpl. by rewrite app_assoc.
Qed.

Lemma run_load_from_db w s :
  db_ok mysql (w_db w) →
  ∃ w', run (load_config_snapshot false) w s = (w', s, Some (snapshot_of (w_db w))) ∧ w_db w' = w_db w.
Proof using no_faults.
  intros Hok. destruct (list_enabled_reads no_faults w Hok) as (w1 & E1 & D1).
  destruct (list_upstreams_all_reads no_faults w1 ltac:(by rewrite D1)) as (w2 & E2 & D2).
  destruct (run_load_bindings (routes_of (w_db w)) [] w2 s ltac:(by rewrite D2, D1)) as (w3 & E3 & D3).
  exists w3. split; [|congruence]. unfold load_config_snapshot, load_from_db. rewrite run_bind.
  unfold run at 1, ask, perform. cbn [exec serve_db]. unfold read_db. cbn [fst snd]. rewrite E1. cbv iota.
  rewrite run_bind. unfold run at 1. cbn [exec serve_db]. unfold read_db. cbn [fst snd]. rewrite E2. cbv iota.
  rewrite run_bind, E3. unfold run. cbn [exec app]. unfold snapshot_of. by rewrite D2, D1.
Qed.

Lemma run_refresh w s :
  db_ok mysql (w_db w) →
  ∃ w' now, run refresh_blacklist_from_db w s = (w', reload_blacklist regex_new now (omap id (blacklist_rows (w_db w))) s, tt).
Proof using no_faults.
  intros Hok. destruct (list_blacklist_reads no_faults w Hok) as (w1 & E1 & D1).
  exists (ticked w1), (utc (w_tick w1)). unfold refresh_blacklist_from_db. rewrite run_bind.
  unfold run at 1, ask, perform. cbn [exec serve_db]. unfold read_db. cbn [fst snd]. rewrite E1. cbv iota.
  rewrite run_bind. unfold run at 1. cbn [exec serve_db fst snd]. by unfold run.
Qed.

(** A reload from the database takes the configuration that the tables hold. *)
Lemma run_reload_db registry w s :
  db_ok mysql (w_db w) →
  let snap := snapshot_of (w_db w) in
  ∃ w' now, run (reload_once registry false) w s =
    (w', reload_blacklist regex_new now (omap id (blacklist_rows (w_db w)))
      (match Plugins.build_chains registry (cs_plugin_bindings snap) with
       | Ok chains => reload_upstreams regex_new (cs_upstreams snap)
                        (reload_routes_with_bindings regex_new registry (cs_routes snap) (cs_plugin_bindings snap) s)
       | Err _ => s
       end), tt).
Proof using no_faults.
  intros Hok snap. destruct (run_load_from_db w s Hok) as (w1 & E1 & D1). rewrite <- D1.
  unfold reload_once. rewrite run_bind, E1, run_bind. fold snap.
  unfold reload_routes_with_bindings. destruct (Plugins.build_chains registry (cs_plugin_bindings snap)) as [chains|e].
  - unfold run at 1, ask, perform. cbn [exec serve_db Effects.bind fst snd]. apply run_refresh. by rewrite D1.
  - unfold run at 1. cbn [exec]. apply run_refresh. by rewrite D1.
Qed.

End Database.
Section Http.
Context `{DbEnv} `{Serde RouteMatchConditions} `{Serde ConfigSnapshot} (sha256_hash : Value → string).
Context {P Ctx Resp Body : Type} `{PT : PluginTrait P Ctx Resp Body}.
Context {Regex : Type} (regex_new : string → option Regex).
Context {IpAddr IpNet : Type} `{IpL : IpLib IpAddr IpNet}.
Context `{Encode RouteDto} `{Encode UpstreamDto} `{Encode PluginBindingDto} `{Encode IpBlacklistDto}.
Context `{Encode ConfigVersionDto} `{Encode ConfigDiff} `{Encode Aggregator.MetricRow} `{Encode OverviewMetric}.
Context `{Encode HttpHandler.EventRow} `{Encode AuditLogRow} `{Encode NodeApplicationRow} `{Encode InstalledPluginDto}.
Context `{Encode UpstreamRouteBindingDto}.
Context (encode_f64 : F64.f64 → Value) (encode_time : Z → Value) (hash_order : gmap Z Z → list (Z * Z)).
Context (config_cache : option ConfigCache) (fresh : World → string) (st : ServerAuth.AuthState).
Context {Bytes : Type} (dispatch : string → option Api.call) (to_text : Value → Bytes) (from_slice : Bytes → result Value string).
Context (status_text : Z → string).
Context (decode_route : Value → result RouteDto string) (decode_upstream : Value → result UpstreamDto string).
Context (decode_binding : Value → result PluginBindingDto string) (decode_entry : Value → result IpBlacklistDto string).

Definition control : HttpRequest → World → World * result (Z * result Bytes string) string :=
  send sha256_hash encode_f64 encode_time hash_order config_cache fresh st dispatch to_text.

(** Both sides agree on the text of values, on the JSON of what the listings hold and
    on the addresses of the four listings. *)
Record understood (l : HttpConfigLoader) (d : Db) : Prop := {
  un_text : ∀ v, from_slice (to_text v) = Ok v;
  un_route : ∀ r, Some r ∈ route_rows d → decode_route (encode r) = Ok r;
  un_upstream : ∀ u, Some u ∈ upstream_rows d → decode_upstream (encode u) = Ok u;
  un_binding : ∀ id b, b ∈ Rollback.bindings_of d id → decode_binding (encode b) = Ok b;
  un_entry : ∀ e, Some e ∈ blacklist_rows d → decode_entry (encode e) = Ok e;
  un_routes : ∀ p, 0 < p < 2 ^ 32 → dispatch (hr_uri (auth_request l "GET" (page_query "/routes" p 200))) =
                   Some (ListRoutes (mkPagination (Some p) (Some 200)));
  un_upstreams : ∀ p, 0 < p < 2 ^ 32 → dispatch (hr_uri (auth_request l "GET" (page_query "/upstreams" p 200))) =
                      Some (ListUpstreams (mkPagination (Some p) (Some 200)));
  un_blacklist : ∀ p, 0 < p < 2 ^ 32 → dispatch (hr_uri (auth_request l "GET" (page_query "/security/ip_blacklist" p 200))) =
                      Some (ListIpBlacklist None (mkPagination (Some p) (Some 200)));
  un_bindings : ∀ id, 0 <= id < 2 ^ 64 → dispatch (hr_uri (auth_request l "GET" ("/routes/" +:+ pretty id +:+ "/plugins"))) =
                      Some (ListPluginBindings id) }.

Context (d : Db) (l : HttpConfigLoader) (un : understood l d) (role : ServerAuth.Role) (operator : string).
Context (authorized : ServerAuth.auth_middleware st (Some ("Bearer " +:+ hl_token l)) = Ok (role, operator)).
Context (no_faults : ∀ n, fault n = None) (ok : db_ok mysql d).

(** All pages of a listing. *)
Lemma listing_loaded {A} `{Encode A} (dec : Value → result A string) what prefix (call_of : PaginationQuery → Api.call)
    (query : Z → Z → Q (PaginatedResult A)) (rws : Db → list (option A)) fuel w :
  (∀ r, Some r ∈ rws d → dec (encode r) = Ok r) →
  (∀ p, 0 < p < 2 ^ 32 → dispatch (hr_uri (auth_request l "GET" (page_query prefix p 200))) = Some (call_of (mkPagination (Some p) (Some 200)))) →
  (∀ trace q, Api.handle sha256_hash encode_f64 encode_time hash_order config_cache fresh role operator trace (call_of q) =
              Api.respond fresh (query (Api.page_of q) (Api.page_size_of q))) →
  (∀ k, 200 * Z.of_nat k < 2 ^ 32 → reads (query (Z.of_nat k + 1) 200)
     (λ d, mkPage (listed (rws d) (200 * k)) (Z.of_nat (length (rws d))) (Z.of_nat k + 1) 200)) →
  Forall is_Some (rws d) → Z.of_nat (length (rws d)) < 2 ^ 32 - 200 → (length (rws d) <= 200 * fuel)%nat → (0 < fuel)%nat → w_db w = d →
  ∃ w', load_pages control from_slice status_text l dec what (page_query prefix) fuel 1 [] w = (w', Some (Ok (omap id (rws d)))) ∧ w_db w' = d.
Proof using un authorized ok.
  intros Hdec Hdis Hh Hq Hall Hlen Hf Hf0 Hw.
  assert (serves control from_slice status_text l dec what (page_query prefix) (rws d) (λ w, w_db w = d)) as Hs.
  { apply (page_serves sha256_hash encode_f64 encode_time hash_order config_cache fresh st dispatch to_text from_slice status_text
      d l role operator authorized dec what prefix call_of query rws); try done; [apply un|lia]. }
  destruct (load_pages_complete control from_slice status_text l dec what (page_query prefix) (rws d) _ Hs Hlen fuel 0 w Hall Hw
    Hf (or_introl eq_refl) Hf0) as (w' & Hw' & E). exists w'. split; [exact E|exact Hw'].
Qed.

(** The bindings of one route, and of several. *)
Lemma bindings_loaded rid w :
  0 <= rid < 2 ^ 64 → w_db w = d →
  ∃ w', load_plugin_bindings control from_slice status_text l decode_binding rid w = (w', Ok (Rollback.bindings_of d rid)) ∧ w_db w' = d.
Proof using un authorized no_faults ok.
  intros Hid Hw. destruct (list_by_route_reads no_faults rid w ltac:(by rewrite Hw)) as (w' & E & D). rewrite Hw in E, D. exists w'. split; [|done].
  unfold load_plugin_bindings, get_json, control, send, Api.api, Api.trace_middleware, Api.protected. rewrite (un_bindings _ _ un) by done.
  change (hr_authorization (auth_request l "GET" _)) with ("Bearer " +:+ hl_token l)%string. rewrite authorized.
  cbn [Api.handle]. unfold Api.list_plugin_bindings, Api.respond, Control.list_plugin_bindings. rewrite E. cbn [rs_status Api.ok]. rewrite (un_text _ _ un).
  cbn [Z.leb Z.ltb Z.compare Pos.compare Pos.compare_cont andb]. unfold json_of.
  cbn [get List.find fst snd rs_data rs_code rs_msg rs_trace_id Api.ok String.eqb Ascii.eqb Bool.eqb default fmap option_fmap option_map from_option id].
  unfold decode_list, encode at 1, encode_list. by rewrite decode_all_encode by (intros b Hb; by eapply un_binding).
Qed.

Lemma all_bindings_loaded rs acc w :
  Forall (λ r, 0 <= r_id r < 2 ^ 64) rs → w_db w = d →
  ∃ w', load_all_plugin_bindings control from_slice status_text l decode_binding rs acc w =
          (w', Ok (acc ++ concat (map (λ r, Rollback.bindings_of d (r_id r)) rs))) ∧ w_db w' = d.
Proof using un authorized no_faults ok.
  intros Hrs. revert acc w. induction Hrs as [|r rs Hr _ IH]; intros acc w Hw; simpl; [exists w; by rewrite app_nil_r|].
  destruct (bindings_loaded (r_id r) w Hr Hw) as (w1 & -> & D1). destruct (IH (acc ++ Rollback.bindings_of d (r_id r)) w1 D1) as (w2 & -> & D2).
  exists w2. by rewrite app_assoc.
Qed.

(** The configuration as a separate gateway receives it. *)
Definition http_routes : list RouteDto := omap id (route_rows d).
Definition http_upstreams : list UpstreamDto := omap id (upstream_rows d).
Definition http_bindings : list PluginBindingDto := concat (map (λ r, Rollback.bindings_of d (r_id r)) http_routes).

Lemma http_routes_ids : Forall (λ r, 0 <= r_id r < 2 ^ 64) http_routes.
Proof.
  apply Forall_forall. intros r. unfold http_routes, route_rows. rewrite omap_id_map. intros (m & _ & E)%list_elem_of_omap.
  unfold route_model_to_dto in E. destruct (from_value _); [|done]. injection E as <-. apply u64_wrap_range.
Qed.

Definition few_rows : Prop :=
  Z.of_nat (length (route_rows d)) < 2 ^ 32 - 200 ∧ Z.of_nat (length (upstream_rows d)) < 2 ^ 32 - 200 ∧
  Z.of_nat (length (blacklist_rows d)) < 2 ^ 32 - 200.

(** Pages that are enough for every listing. *)
Definition pages : nat := S ((length (route_rows d) + length (upstream_rows d) + length (blacklist_rows d)) / 200).

Lemma pages_enough n : (n <= length (route_rows d) + length (upstream_rows d) + length (blacklist_rows d))%nat → (n <= 200 * pages)%nat.
Proof.
  intros Hn. unfold pages. pose proof (Nat.div_mod_eq (length (route_rows d) + length (upstream_rows d) + length (blacklist_rows d)) 200).
  pose proof (Nat.mod_upper_bound (length (route_rows d) + length (upstream_rows d) + length (blacklist_rows d)) 200). lia.
Qed.

Lemma config_loaded w :
  Forall is_Some (route_rows d) → few_rows → w_db w = d →
  ∃ w', load_config control from_slice status_text decode_route decode_upstream decode_binding l pages w =
          (w', Some (Ok (http_routes, http_upstreams, http_bindings))) ∧ w_db w' = d.
Proof using un authorized no_faults ok.
  intros Hall (Hr & Hu & _) Hw. unfold load_config.
  destruct (listing_loaded decode_route "route" "/routes" ListRoutes list_routes route_rows pages w) as (w1 & E1 & D1);
    try done; try apply un; [intros k Hk; by apply list_routes_reads|apply pages_enough; lia|unfold pages; lia|].
  unfold load_routes. rewrite E1.
  destruct (listing_loaded decode_upstream "upstream" "/upstreams" ListUpstreams list_upstreams upstream_rows pages w1) as (w2 & E2 & D2);
    try done; try apply un; [intros k Hk; by apply list_upstreams_reads| |apply pages_enough; lia|unfold pages; lia|].
  { unfold upstream_rows. apply Forall_fmap, Forall_true. intros m. by eexists. }
  unfold load_upstreams. rewrite E2. cbv beta iota.
  destruct (all_bindings_loaded http_routes [] w2 http_routes_ids D2) as (w3 & E3 & D3). fold http_routes. rewrite E3. by exists w3.
Qed.

Lemma entries_loaded w :
  few_rows → w_db w = d →
  ∃ w', load_blacklist control from_slice status_text l decode_entry pages w = (w', Some (Ok (omap id (blacklist_rows d)))) ∧ w_db w' = d.
Proof using un authorized no_faults ok.
  intros (_ & _ & Hb) Hw. unfold load_blacklist.
  apply (listing_loaded decode_entry "ip_blacklist" "/security/ip_blacklist" (ListIpBlacklist None) (list_blacklist_page None) blacklist_rows);
    try done; try apply un; [by destruct role|intros k Hk; by apply list_blacklist_page_reads| |apply pages_enough; lia|unfold pages; lia].
  unfold blacklist_rows. apply Forall_fmap, Forall_true. intros m. by eexists.
Qed.

(** *** What both sides have in common *)

(** The enabled ones of the listed routes are those the database mode reads. *)
Lemma http_routes_enabled : List.filter r_enabled http_routes ≡ₚ routes_of d.
Proof.
  unfold http_routes, route_rows, routes_of. rewrite omap_id_map, !stable_sort_perm.
  induction (d_routes d) as [|m ms IH]; csimpl; [done|]. destruct (live_route m) eqn:El; csimpl.
  - assert (∀ x, route_model_to_dto m = Some x → r_enabled x = rt_enabled m) as He.
    { intros x. unfold route_model_to_dto. destruct (from_value _); [|done]. by intros [= <-]. }
    destruct (route_model_to_dto m) as [x|] eqn:Ex; csimpl.
    + rewrite (He x eq_refl). destruct (rt_enabled m); csimpl; [|by rewrite IH]. rewrite Ex. by rewrite IH.
    + destruct (rt_enabled m); csimpl; [by rewrite Ex|done].
  - by rewrite andb_false_r.
Qed.

Lemma http_routes_distinct : NoDup (map r_id http_routes).
Proof using ok. unfold http_routes, route_rows. rewrite omap_id_map. by apply route_ids_distinct. Qed.

Lemma http_upstreams_perm : http_upstreams ≡ₚ upstreams_of d.
Proof. unfold http_upstreams, upstream_rows, upstreams_of. rewrite omap_id_map. by rewrite stable_sort_perm. Qed.

(** The bindings of a route among those of several. *)
Lemma bindings_of_route rs r :
  NoDup (map r_id rs) → Forall (λ r, 0 <= r_id r < 2 ^ 64) rs → r ∈ rs →
  List.filter (λ b, b_route_id b =? r_id r) (concat (map (λ r, Rollback.bindings_of d (r_id r)) rs)) = Rollback.bindings_of d (r_id r).
Proof.
  assert (∀ a b, 0 <= a < 2 ^ 64 → b ∈ Rollback.bindings_of d a → b_route_id b = a) as Hid.
  { intros a b Ha [-> _]%bindings_of_spec. by apply u64_i64_roundtrip. }
  assert (∀ a b, 0 <= a < 2 ^ 64 → List.filter (λ x, b_route_id x =? b) (Rollback.bindings_of d a) =
            if a =? b then Rollback.bindings_of d a else []) as Hone.
  { intros a b Ha. specialize (Hid a). destruct (Z.eqb_spec a b) as [<-|Hne].
    - induction (Rollback.bindings_of d a) as [|x l' IH]; simpl; [done|].
      rewrite (Hid x), Z.eqb_refl by (done || left). f_equal. apply IH. intros y Hy Hin. apply Hid; [done|by right].
    - induction (Rollback.bindings_of d a) as [|x l' IH]; simpl; [done|].
      rewrite (Hid x) by (done || left). destruct (Z.eqb_spec a b); [done|]. apply IH. intros y Hy Hin. apply Hid; [done|by right]. }
  intros Hnd Hrs. induction Hrs as [|x rs Hx Hrs IH]; simpl; intros Hin; [by apply elem_of_nil in Hin|].
  apply NoDup_cons in Hnd as [Hn Hnd]. rewrite List.filter_app, Hone by done. destruct (Z.eqb_spec (r_id x) (r_id r)) as [E|Hne].
  - assert (∀ rs', Forall (λ r, 0 <= r_id r < 2 ^ 64) rs' → r_id r ∉ map r_id rs' →
      List.filter (λ b, b_route_id b =? r_id r) (concat (map (λ r, Rollback.bindings_of d (r_id r)) rs')) = []) as Hnil.
    { induction 1 as [|y ys Hy _ IHy]; simpl; intros Hni; [done|]. apply not_elem_of_cons in Hni as [Hne Hni].
      rewrite List.filter_app, Hone, IHy by done. by destruct (Z.eqb_spec (r_id y) (r_id r)). }
    rewrite Hnil, app_nil_r, E by (done || by rewrite <- E). done.
  - apply elem_of_cons in Hin as [->|Hin]; [done|]. by apply IH.
Qed.

Lemma enabled_routes r : r ∈ routes_of d → r ∈ http_routes ∧ r_enabled r = true.
Proof. rewrite <- http_routes_enabled. by intros [? ?]%filter_elem_of. Qed.

Lemma routes_of_ids : NoDup (map r_id (routes_of d)) ∧ Forall (λ r, 0 <= r_id r < 2 ^ 64) (routes_of d).
Proof using ok.
  split; [by apply route_ids_distinct|]. apply Forall_forall. intros r [Hr _]%enabled_routes.
  pose proof http_routes_ids as H'. rewrite Forall_forall in H'. by apply H'.
Qed.

(** The bindings that the database mode reads. *)
Abbreviation db_bindings := (cs_plugin_bindings (snapshot_of d)).

Lemma same_bindings r :
  r ∈ routes_of d →
  List.filter (λ b, b_route_id b =? r_id r) http_bindings = List.filter (λ b, b_route_id b =? r_id r) db_bindings.
Proof using ok.
  intros Hr. destruct routes_of_ids as [Hnd Hid]. unfold http_bindings. cbn [cs_plugin_bindings snapshot_of].
  rewrite !bindings_of_route; [done|done|done|done|apply http_routes_distinct|apply http_routes_ids|by apply enabled_routes].
Qed.

Context (registry : @Plugins.PluginRegistryImpl P).

(** Both modes load the same table. *)
Lemma same_table :
  RouteMatcher.load_with_bindings regex_new http_routes http_bindings (Plugins.body_required_plugin_names registry) =
  RouteMatcher.load_with_bindings regex_new (routes_of d) db_bindings (Plugins.body_required_plugin_names registry).
Proof using ok.
  destruct routes_of_ids as [Hnd Hid]. apply RouteMatcher.load_with_bindings_ext; [apply http_routes_distinct|done| |].
  - assert (∀ l0, List.filter (RouteMatcher.loadable regex_new) l0 =
                  List.filter (RouteMatcher.loadable regex_new) (List.filter r_enabled l0)) as E.
    { intros l0. rewrite filter_filter. apply List.filter_ext. intros r. unfold RouteMatcher.loadable. by destruct (r_enabled r); rewrite ?andb_true_r, ?andb_false_r. }
    by rewrite (E http_routes), http_routes_enabled.
  - intros r Hr Hl. unfold RouteMatcher.bindings_of.
    assert (r ∈ routes_of d) as Hr'.
    { rewrite <- http_routes_enabled. apply filter_elem_of. split; [done|]. unfold RouteMatcher.loadable in Hl. by apply andb_prop in Hl as [? _]. }
    rewrite <- !(filter_filter b_enabled (λ b, b_route_id b =? r_id r)). by rewrite same_bindings.
Qed.

(** The chains of both modes, on the routes that are served. *)
Lemma same_chains chains1 chains2 r :
  Plugins.build_chains registry http_bindings = Ok chains1 → Plugins.build_chains registry db_bindings = Ok chains2 →
  r ∈ routes_of d → Plugins.get_route_chain chains1 (r_id r) = Plugins.get_route_chain chains2 (r_id r).
Proof using ok.
  intros E1 E2 Hr. apply (Plugins.build_chains_by_route _ _ _ (r_id r)) in E1, E2. rewrite same_bindings in E1 by done. congruence.
Qed.

(** Every binding of the enabled routes is among the bindings of all routes. *)
Lemma db_bindings_sub b : b ∈ db_bindings → b ∈ http_bindings.
Proof.
  cbn [cs_plugin_bindings snapshot_of]. unfold http_bindings. rewrite !list_elem_of_In, !in_concat.
  intros (l0 & (r & <- & Hr)%in_map_iff & Hb). exists (Rollback.bindings_of d (r_id r)). split; [|done].
  apply in_map_iff. exists r. split; [done|]. apply list_elem_of_In. apply enabled_routes. by apply list_elem_of_In.
Qed.

Definition clock (w : World) : World * Z := (ticked w, utc (w_tick w)).

(** C9. A gateway that pulls its configuration over HTTP serves the same requests as one
    that reads the database. On a database whose rows can be read, when no statement
    fails, both reloads return, and with the same blacklist entries. When every
    binding of a live route can be built they end with the same route table (so a
    request finds the same route with the same bindings), the same upstreams with the
    same nodes, and the same plugin chain on every route served, although one lists
    all routes newest first and the other the enabled ones by priority. When the
    bindings of the enabled routes can be built but one of a disabled route
    cannot, the gateway on the database takes the new configuration and the one on HTTP
    keeps its routes and chains, with the new upstreams under them. *)
Theorem modes_agree w s :
  w_db w = d → Forall is_Some (route_rows d) → few_rows →
  ∃ w1 s1 w2 s2,
    reload_from_http regex_new registry control from_slice status_text clock decode_route decode_upstream decode_binding decode_entry
      l pages s w = (w1, Some s1) ∧
    run regex_new (reload_once registry false) w s = (w2, s2, tt) ∧
    (∃ now1 now2, rt_blacklist s1 = blacklist_reload now1 (omap id (blacklist_rows d)) ∧
                  rt_blacklist s2 = blacklist_reload now2 (omap id (blacklist_rows d))) ∧
    ((∀ b, b ∈ http_bindings → Plugins.buildable registry b) →
     rt_routes s1 = rt_routes s2 ∧ rt_selector s1 = rt_selector s2 ∧
     ∀ r, r ∈ routes_of d → Plugins.get_route_chain (rt_chains s1) (r_id r) = Plugins.get_route_chain (rt_chains s2) (r_id r)) ∧
    ((∀ b, b ∈ db_bindings → Plugins.buildable registry b) → ¬ (∀ b, b ∈ http_bindings → Plugins.buildable registry b) →
     rt_routes s1 = rt_routes s ∧ rt_chains s1 = rt_chains s ∧ rt_selector s1 = rt_selector s2 ∧
     rt_routes s2 = RouteMatcher.load_with_bindings regex_new (routes_of d) db_bindings (Plugins.body_required_plugin_names registry)).
Proof using un authorized no_faults ok.
  intros Hw Hall Hfew. destruct (config_loaded w Hall Hfew Hw) as (w1 & E1 & D1). destruct (entries_loaded w1 Hfew D1) as (w2 & E2 & D2).
  destruct (run_reload_db regex_new no_faults registry w s ltac:(by rewrite Hw)) as (w3 & now2 & E3). rewrite Hw in E3.
  exists (clock w2).1. eexists. exists w3. eexists. split; [unfold reload_from_http; rewrite E1; cbv beta iota; rewrite E2; reflexivity|].
  split; [exact E3|].
  assert (Selector.load_upstreams (rt_selector s) http_upstreams = Selector.load_upstreams (rt_selector s) (upstreams_of d)) as Hup.
  { symmetry. apply load_upstreams_perm; [by apply upstream_ids_distinct|]. by rewrite http_upstreams_perm. }
  pose proof same_table as Ht. pose proof same_chains as Hc. unfold reload_routes_with_bindings.
  assert (∀ bs, (∃ c, Plugins.build_chains registry bs = Ok c) ↔ ∀ b, b ∈ bs → Plugins.buildable registry b) as Hb by (intros; apply Plugins.build_chains_ok).
  pose proof (Hb http_bindings) as Hb1. pose proof (Hb db_bindings) as Hb2. clear Hb. pose proof db_bindings_sub as Hsub.
  cbn [cs_routes cs_upstreams snapshot_of] in *.
  destruct (Plugins.build_chains registry http_bindings) as [c1|e1], (Plugins.build_chains registry db_bindings) as [c2|e2]; simpl.
  all: split; [by eexists _, _|]. all: split.
  - intros _. split_and!; [done|done|]. intros r Hr. by apply Hc.
  - intros _ []. apply Hb1. by eexists.
  - intros Hall1. exfalso. destruct (proj2 Hb2 ltac:(intros b Hin; by apply Hall1, Hsub)) as [c E]. discriminate E.
  - intros Hall2. exfalso. destruct (proj2 Hb2 Hall2) as [c E]. discriminate E.
  - intros Hall1. destruct (proj2 Hb1 Hall1) as [c E]. discriminate E.
  - intros _ _. done.
  - intros Hall1. destruct (proj2 Hb1 Hall1) as [c E]. discriminate E.
  - intros Hall2. destruct (proj2 Hb2 Hall2) as [c E]. discriminate E.
Qed.

End Http.
End Agreement.

Module ModesDemo.
Import Storage Listings Reload HttpLoader Modes Agreement AccessDemo.
#[local] Existing Instance toy_trait.
#[local] Existing Instance toy_lib.
#[local] Existing Instances ApiDemo.demo_env ApiDemo.demo_conditions ApiDemo.demo_snapshots ApiDemo.demo_encode.

(** Two routes, the second one disabled, each with a binding, and one upstream. *)
Definition tables : Db :=
  mkDb [mkUpRow 4 "users" 0 false 0 0 None] [mkNodeRow 1 4 "10.0.0.1:80" 1 true 0 0 None]
       [mkRouteRow 7 "api" 1 VNull 0 (Some 4) None false false true 0 0 None;
        mkRouteRow 8 "old" 1 VNull 5 (Some 4) None false false false 0 0 None]
       [mkBindingRow 1 7 "auth" VNull 0 true true 0 0 None; mkBindingRow 2 8 "cors" VNull 0 false true 0 0 None] [] [] [] [] [] [] [].

Definition route_dto : RouteDto := mkRoute 7 "api" Http default_conditions 0 (Some 4) None false false true 0 0.
Definition old_dto : RouteDto := mkRoute 8 "old" Http default_conditions 5 (Some 4) None false false false 0 0.
Definition upstream_dto : UpstreamDto := mkUpstream 4 "users" RoundRobin false [mkNode 1 4 "10.0.0.1:80" 1 true] 0 0.
Definition auth_dto : PluginBindingDto := mkBinding 1 7 "auth" VNull 0 true true.
Definition cors_dto : PluginBindingDto := mkBinding 2 8 "cors" VNull 0 false true.

#[local] Instance encode_route : Encode RouteDto := λ r, VString (r_name r).
#[local] Instance encode_binding : Encode PluginBindingDto := λ b, VString (b_plugin_name b).
Definition decode_route (v : Value) : result RouteDto string :=
  if bool_decide (as_str v = Some "api"%string) then Ok route_dto else Ok old_dto.
Definition decode_binding (v : Value) : result PluginBindingDto string :=
  if bool_decide (as_str v = Some "auth"%string) then Ok auth_dto else Ok cors_dto.
Definition decode_upstream (_ : Value) : result UpstreamDto string := Ok upstream_dto.
Definition decode_entry (_ : Value) : result IpBlacklistDto string := Err EmptyString.

(** The number of a page in its address. *)
Definition page_number (prefix uri : string) : option Z :=
  match strip_prefix (prefix +:+ "?page=") uri with
  | Some rest => match split_on "&" rest with [p; "page_size=200"%string] => parse_uint (2 ^ 32 - 1) p | _ => None end
  | None => None
  end.

Definition dispatch (uri : string) : option Api.call :=
  let page p := mkPagination (Some p) (Some 200) in
  match page_number "/routes" uri with
  | Some p => Some (ListRoutes (page p))
  | None => match page_number "/upstreams" uri with
  | Some p => Some (ListUpstreams (page p))
  | None => match page_number "/security/ip_blacklist" uri with
  | Some p => Some (ListIpBlacklist None (page p))
  | None =>
      match strip_prefix "/routes/" uri with
      | Some rest => match split_on "/" rest with [i; "plugins"%string] => ListPluginBindings <$> parse_uint (2 ^ 64 - 1) i | _ => None end
      | None => None
      end
  end end end.

Lemma page_number_query prefix p : 0 < p < 2 ^ 32 → page_number prefix (page_query prefix p 200) = Some p.
Proof.
  intros Hp. unfold page_number, page_query.
  replace (prefix +:+ "?page=" +:+ pretty p +:+ "&page_size=" +:+ pretty 200)%string with
    ((prefix +:+ "?page=") +:+ (pretty p +:+ String "&" "page_size=200"))%string by (rewrite <- string_app_assoc; reflexivity).
  rewrite (proj2 (strip_prefix_app _ _ _)) by reflexivity.
  rewrite split_on_app by (apply count_char_pretty_Z; by split). cbn.
  by rewrite parse_uint_pretty_Z by lia.
Qed.

Definition client : HttpConfigLoader := LoaderDemo.loader.

Lemma understood_demo : understood (Bytes := Value) dispatch id Ok decode_route decode_upstream decode_binding decode_entry client tables.
Proof.
  assert (∀ s, hr_uri (auth_request client "GET" s) = s) as Hu by done.
  split; [done| | | | | | | |].
  - intros r. vm_compute. intros Hr. apply elem_of_cons in Hr as [[= ->]|[[= ->]|[]%elem_of_nil]%elem_of_cons]; reflexivity.
  - intros u. vm_compute. intros Hr. apply list_elem_of_singleton in Hr. injection Hr as ->. reflexivity.
  - intros rid b Hb. assert (b = auth_dto ∨ b = cors_dto) as [->| ->]; [|by vm_compute..].
    unfold Rollback.bindings_of in Hb. cbn [d_bindings tables] in Hb. apply list_elem_of_omap in Hb as (row & Hr & [= <-]).
    rewrite stable_sort_perm in Hr. apply filter_elem_of in Hr as [Hr _].
    apply elem_of_cons in Hr as [->|[->|[]%elem_of_nil]%elem_of_cons]; vm_compute; auto.
  - intros e. vm_compute. intros Hr. by apply elem_of_nil in Hr.
  - intros p Hp. rewrite Hu. unfold dispatch. by rewrite page_number_query.
  - intros p Hp. rewrite Hu. unfold dispatch. rewrite (page_number_query "/upstreams") by done. reflexivity.
  - intros p Hp. rewrite Hu. unfold dispatch. rewrite (page_number_query "/security/ip_blacklist") by done. reflexivity.
  - intros i Hi. rewrite Hu. unfold dispatch.
    change (page_number "/routes" ("/routes/" +:+ pretty i +:+ "/plugins")) with (None : option Z).
    change (page_number "/upstreams" ("/routes/" +:+ pretty i +:+ "/plugins")) with (None : option Z).
    change (page_number "/security/ip_blacklist" ("/routes/" +:+ pretty i +:+ "/plugins")) with (None : option Z). cbv iota.
    rewrite (proj2 (strip_prefix_app "/routes/" _ (pretty i +:+ String "/" "plugins"))) by reflexivity.
    rewrite split_on_app by (apply count_char_pretty_Z; by split). cbn.
    by rewrite parse_uint_pretty_Z by lia.
Defined.
Definition start : World := mkWorld tables (mkRedis ∅ []) 0.
Definition registry : @Plugins.PluginRegistryImpl toy_plugin := PluginsDemo.demo_registry.
Definition runtime0 : @Reload.runtime toy_plugin string toy_net := ReloadDemo.demo_runtime.

Definition over_http : World * option (@Reload.runtime toy_plugin string toy_net) :=
  reload_from_http RouteMatcher.toy_new registry
    (control ApiDemo.hash ApiDemo.null ApiDemo.null ApiDemo.order None ApiDemo.fresh ApiDemo.st dispatch id) Ok (λ _, "200 OK"%string)
    clock decode_route decode_upstream decode_binding decode_entry client 1 runtime0 start.

(** Both routes are listed, one is served; both modes give it the plugin bound to it. *)
Lemma modes_agree_witness :
  ∃ w1 s1 w2 s2, over_http = (w1, Some s1) ∧
    run RouteMatcher.toy_new (reload_once registry false) start runtime0 = (w2, s2, tt) ∧
    rt_routes s1 = rt_routes s2 ∧ Plugins.get_route_chain (rt_chains s1) 7 = [mkToy "auth" true].
Proof.
  assert (ServerAuth.auth_middleware ApiDemo.st (Some ("Bearer " +:+ hl_token client)%string) = Ok (ServerAuth.Operator, "ann"%string)) as Ea
    by (vm_compute; reflexivity).
  assert (db_ok mysql tables) as Hok by (apply (bool_decide_unpack _); vm_compute; exact I).
  destruct (modes_agree (H := ApiDemo.demo_env) ApiDemo.hash RouteMatcher.toy_new ApiDemo.null ApiDemo.null ApiDemo.order None ApiDemo.fresh ApiDemo.st
    dispatch id Ok (λ _, "200 OK"%string) decode_route decode_upstream decode_binding decode_entry tables client understood_demo
    ServerAuth.Operator "ann" Ea (λ n, eq_refl) Hok registry start runtime0 eq_refl)
    as (w1 & s1 & w2 & s2 & E1 & E2 & _ & Hsame & _).
  - apply (bool_decide_unpack _). vm_compute. exact I.
  - split_and!; vm_compute; reflexivity.
  - exists w1, s1, w2, s2. split; [exact E1|]. split; [exact E2|].
    destruct Hsame as (Hr & _ & Hc).
    + intros b _ _ t _. by exists t.
    + split; [exact Hr|]. etransitivity; [apply (Hc route_dto); vm_compute; left|].
      assert (s2 = (run RouteMatcher.toy_new (reload_once registry false) start runtime0).1.2) as -> by (by rewrite E2).
      vm_compute. reflexivity.
Defined.

(** The database binds a plugin to the route; the server starts with it and the merged
    process without. *)
Lemma startup_chains_witness :
  let serve := serve_db RouteMatcher.toy_new None in
  let server := (exec serve (start, runtime0) (server_start registry)).1.2 in
  let merged := (exec serve (start, runtime0) (bootstrap_start registry)).1.2 in
  Plugins.get_route_chain (rt_chains (after RouteMatcher.toy_new runtime0 server)) 7 = [mkToy "auth" true] ∧
  Plugins.get_route_chain (rt_chains (after RouteMatcher.toy_new runtime0 merged)) 7 = [].
Proof.
  intros serve server merged. split; [vm_compute; reflexivity|].
  destruct (proj2 (startup_chains RouteMatcher.toy_new registry merged runtime0 eq_refl)) as (_ & _ & _ & _ & _ & _ & _ & _ & H);
    [|exact (H 7)].
  pose proof (exec_runs serve (bootstrap_start registry) (start, runtime0)) as Hr.
  by destruct (exec serve (start, runtime0) (bootstrap_start registry)).2.
Defined.
End ModesDemo.
