(* ===== verification/Propagation.v ===== *)
(** From the control plane to the data plane: the configuration cache under
    concurrent publishers and readers (conrogate-storage/src/config_cache.rs,
    conrogate-server/src/service.rs), and the loop in which a gateway reloads
    (conrogate-gateway/src/server.rs, conrogate-cli/src/bootstrap.rs): when it
    wakes, what it reads, and from when on it serves what was published. *)
From Stdlib Require Import ZArith Lia Ascii String.
From stdpp Require Import base tactics option list gmap strings pretty relations.
From S2P Require Import Prelude Text Errors Core BalancerApi Selector F64 RouteMatcher Plugin Access Effects.
From S2P Require Import Reload Storage Repositories Versions Snapshot Reports ConfigCache Control Rollback Modes.
#[local] Open Scope Z_scope.

(** ** The cache under concurrent publishers and readers *)

Module SharedCache.
Import Storage Cache Rollback.

Section Shared.
Context `{DbEnv} `{Serde ConfigSnapshot}.
Context (to_string : ConfigSnapshot → string) (from_str : string → result ConfigSnapshot string) (parse_error : string → string).

(** A client of the cache between two of its commands. *)
Inductive client :=
| Writing (attempts : nat) (version : Z) (s : ConfigSnapshot)
| Invalidating (version : Z)
| Reading
| ReadVersion (version : Z)
| Answered (version : option Z) (r : result (option ConfigSnapshot) ConrogateError).

(** What a reader that has asked for the version does next. *)
Definition next (r : result (option Z) ConrogateError) : client :=
  match r with
  | Ok (Some v) => ReadVersion v
  | Ok None => Answered None (Ok None)
  | Err e => Answered None (Err e)
  end.

(** One command of one client. A publisher comes with a version the history holds;
    the tables may change in any way that keeps the history; whether a command fails
    is up to the environment. *)
Inductive cstep : World * list client → World * list client → Prop :=
| k_edit w w' cs : w_redis w' = w_redis w → (∀ v s, stored (w_db w) v s → stored (w_db w') v s) → cstep (w, cs) (w', cs)
| k_publisher w cs v s : stored (w_db w) v s → cstep (w, cs) (w, Writing RETRY_MAX v s :: cs)
| k_reader w cs : cstep (w, cs) (w, Reading :: cs)
| k_write w w' cs1 cs2 n v s :
    write_snapshot v (to_string s) w = (w', Ok tt) → cstep (w, cs1 ++ Writing (S n) v s :: cs2) (w', cs1 ++ cs2)
| k_retry w w' cs1 cs2 n v s e :
    write_snapshot v (to_string s) w = (w', Err e) → cstep (w, cs1 ++ Writing (S n) v s :: cs2) (w', cs1 ++ Writing n v s :: cs2)
| k_give_up w cs1 cs2 v s : cstep (w, cs1 ++ Writing 0 v s :: cs2) (w, cs1 ++ Invalidating v :: cs2)
| k_invalidate w w' cs1 cs2 v r : redis_invalidate w = (w', r) → cstep (w, cs1 ++ Invalidating v :: cs2) (w', cs1 ++ cs2)
| k_get_version w w' cs1 cs2 r : redis_get_version parse_error w = (w', r) → cstep (w, cs1 ++ Reading :: cs2) (w', cs1 ++ next r :: cs2)
| k_get_snapshot w w' cs1 cs2 v r :
    read_snapshot from_str v w = (w', r) → cstep (w, cs1 ++ ReadVersion v :: cs2) (w', cs1 ++ Answered (Some v) r :: cs2).

(** A client that runs alone does what the services do: [write_cache] and
    [redis_get_snapshot]. *)
Lemma writer_alone v s w cs :
  let w' := (Control.write_cache (Some (redis_cache to_string from_str parse_error)) v s w).1 in
  rtc cstep (w, Writing RETRY_MAX v s :: cs) (w', cs).
Proof.
  unfold Control.write_cache. cbn [put_snapshot invalidate redis_cache]. unfold redis_put_snapshot.
  generalize (@None ConrogateError). generalize RETRY_MAX. intros n. revert w. induction n as [|n IH]; intros w last; simpl.
  - destruct (redis_invalidate w) as [w' r] eqn:E. eapply rtc_l; [apply (k_give_up _ [])|].
    eapply rtc_once, (k_invalidate _ _ [] cs v r). by rewrite E.
  - destruct (write_snapshot v (to_string s) w) as [w1 [[]|e]] eqn:E; [by eapply rtc_once, (k_write _ _ [])|].
    eapply rtc_l; [by eapply (k_retry _ _ [])|]. apply IH.
Qed.

Lemma reader_alone w cs :
  let '(w', r) := redis_get_snapshot from_str parse_error w in
  ∃ v, rtc cstep (w, Reading :: cs) (w', Answered v r :: cs).
Proof.
  unfold redis_get_snapshot, qbind. destruct (redis_get_version parse_error w) as [w1 [[v|]|e]] eqn:E.
  - destruct (read_snapshot from_str v w1) as [w2 r] eqn:E2. exists (Some v).
    eapply rtc_l; [by eapply (k_get_version _ _ [])|]. by eapply rtc_once, (k_get_snapshot _ _ []).
  - exists None. by eapply rtc_once, (k_get_version _ _ [] cs (Ok None)).
  - exists None. by eapply rtc_once, (k_get_version _ _ [] cs (Err e)).
Qed.

(** ** What the cache holds *)

(** Every snapshot in the cache is the one the history holds under its number, and
    the current number has its snapshot. *)
Record coherent (d : Db) (r : Redis) : Prop := {
  co_snapshots v text : rd_keys r !! snapshot_key v = Some text → ∃ s, stored d v s ∧ text = to_string s;
  co_version text : rd_keys r !! VERSION_KEY = Some text → ∃ v, 0 <= v < 2 ^ 64 ∧ text = pretty v ∧ is_Some (rd_keys r !! snapshot_key v) }.

Definition client_ok (d : Db) (r : Redis) (c : client) : Prop :=
  match c with
  | Writing _ v s => stored d v s
  | ReadVersion v => is_Some (rd_keys r !! snapshot_key v)
  | Answered v (Ok (Some s)) => ∃ v' s', v = Some v' ∧ stored d v' s' ∧ from_str (to_string s') = Ok s
  | Answered v (Ok None) => v = None
  | _ => True
  end.

(** Every reachable state of the cache and its clients, from an empty cache. *)
Inductive creachable : World * list client → Prop :=
| cr_start w : rd_keys (w_redis w) = ∅ → creachable (w, [])
| cr_step s s' : creachable s → cstep s s' → creachable s'.

Instance snapshot_key_inj : Inj (=) (=) snapshot_key.
Proof. intros a b E. unfold snapshot_key in E. by apply (inj (String.append _)), (inj pretty) in E. Qed.

Lemma stored_range d v s : stored d v s → 0 <= v < 2 ^ 64.
Proof. intros (row & _ & <- & _). apply u64_wrap_range. Qed.

(** A client stays right when the history is kept and no snapshot goes. *)
Lemma client_ok_mono d d' r r' c :
  (∀ v s, stored d v s → stored d' v s) →
  (∀ v, is_Some (rd_keys r !! snapshot_key v) → is_Some (rd_keys r' !! snapshot_key v)) →
  client_ok d r c → client_ok d' r' c.
Proof. intros Hd Hr. destruct c as [n v s|v| |v|v [[s|]|e]]; simpl; naive_solver. Qed.

Lemma write_coherent d r v s :
  stored d v s → coherent d r →
  let r' := mkRedis (<[snapshot_key v := to_string s]> (<[VERSION_KEY := pretty v]> (rd_keys r))) (rd_published r ++ [(NOTIFY_CHANNEL, pretty v)]) in
  coherent d r' ∧ ∀ v', is_Some (rd_keys r !! snapshot_key v') → is_Some (rd_keys r' !! snapshot_key v').
Proof.
  intros Hst [Hs Hv]. pose proof snapshot_key_version as Hne.
  assert (∀ v', (<[snapshot_key v := to_string s]> (<[VERSION_KEY := pretty v]> (rd_keys r))) !! snapshot_key v' =
            if decide (v = v') then Some (to_string s) else rd_keys r !! snapshot_key v') as Hl.
  { intros v'. case_decide as E; [subst; apply lookup_insert_eq|]. rewrite !lookup_insert_ne; [done|by intros ?%eq_sym%Hne|by intros ?%(inj snapshot_key)]. }
  split; [split|]; simpl.
  - intros v' text. rewrite Hl. case_decide as E; [|apply Hs]. intros [= <-]. subst. by exists s.
  - intros text. rewrite lookup_insert_ne by done. rewrite lookup_insert_eq. intros [= <-]. exists v. split; [by eapply stored_range|]. split; [done|].
    rewrite Hl, decide_True by done. by eexists.
  - intros v' Hv'. rewrite Hl. case_decide; [by eexists|done].
Qed.

(** The state invariant. *)
Definition cinv (s : World * list client) : Prop :=
  coherent (w_db s.1) (w_redis s.1) ∧ Forall (client_ok (w_db s.1) (w_redis s.1)) s.2.

Lemma coherent_same d d' r : (∀ v s, stored d v s → stored d' v s) → coherent d r → coherent d' r.
Proof. intros Hd [Hs Hv]. split; [|done]. intros v text (s & ? & ?)%Hs. eauto. Qed.

Lemma get_version_ok w w' r :
  redis_get_version parse_error w = (w', r) → coherent (w_db w) (w_redis w) →
  w_db w' = w_db w ∧ w_redis w' = w_redis w ∧ client_ok (w_db w') (w_redis w') (next r).
Proof.
  unfold redis_get_version, qbind. destruct (command _ _ w) as [w1 [o|e]] eqn:E; pose proof E as [Hd Hr]%redis_spec.
  - injection Hr as Hr <-. intros E2 [_ Hv]. destruct (rd_keys (w_redis w) !! VERSION_KEY) as [text|]; [|by injection E2 as <- <-].
    destruct (Hv text eq_refl) as (v & Hrange & -> & Hs). rewrite parse_uint_pretty_Z in E2 by lia. injection E2 as <- <-.
    split; [done|]. split; [done|]. simpl. by rewrite <- Hr.
  - intros [= <- <-] _. destruct Hr as [Hr|Hr]; by rewrite Hd, Hr.
Qed.

Lemma read_snapshot_ok v w w' r :
  read_snapshot from_str v w = (w', r) → coherent (w_db w) (w_redis w) → is_Some (rd_keys (w_redis w) !! snapshot_key v) →
  w_db w' = w_db w ∧ w_redis w' = w_redis w ∧ client_ok (w_db w') (w_redis w') (Answered (Some v) r).
Proof.
  unfold read_snapshot, qbind. destruct (command _ _ w) as [w1 [o|e]] eqn:E; pose proof E as [Hd Hr]%redis_spec.
  - injection Hr as Hr <-. intros E2 [Hc _] [text Ht]. destruct (Hc v text Ht) as (s & Hst & ->). rewrite Ht in E2.
    destruct (from_str (to_string s)) as [s'|e] eqn:Ef; injection E2 as <- <-; (split; [done|]; split; [done|]); simpl; [|done].
    exists v, s. by rewrite Hd.
  - intros [= <- <-] _ _. destruct Hr as [Hr|Hr]; by rewrite Hd, Hr.
Qed.

(** A command that leaves tables and Redis alone changes one client. *)
Lemma cinv_client w w' cs1 c cs2 cs' :
  w_db w' = w_db w → w_redis w' = w_redis w → Forall (client_ok (w_db w') (w_redis w')) cs' →
  cinv (w, cs1 ++ c :: cs2) → cinv (w', cs1 ++ cs' ++ cs2).
Proof.
  intros Hd Hr Hc [Hco Hcs]. unfold cinv in *. cbn [fst snd] in *. rewrite Hd, Hr in *. split; [done|].
  apply Forall_app in Hcs as [H1 [_ H2]%Forall_cons]. rewrite !Forall_app. done.
Qed.

(** A snapshot of the history is written, and one client changes. *)
Lemma cinv_written w w' cs1 c cs2 cs' v s :
  w_db w' = w_db w → stored (w_db w) v s → Forall (client_ok (w_db w) (w_redis w)) cs' →
  mkRedis (<[snapshot_key v := to_string s]> (<[VERSION_KEY := pretty v]> (rd_keys (w_redis w)))) (rd_published (w_redis w) ++ [(NOTIFY_CHANNEL, pretty v)])
    = w_redis w' →
  cinv (w, cs1 ++ c :: cs2) → cinv (w', cs1 ++ cs' ++ cs2).
Proof.
  intros Hd Hst Hc E [Hco Hcs]. cbn [fst snd] in *. apply Forall_app in Hcs as [H1 [_ H2]%Forall_cons].
  destruct (write_coherent _ _ v s Hst Hco) as [Hco' Hm]. unfold cinv. cbn [fst snd]. rewrite Hd, <- E. split; [done|].
  rewrite !Forall_app. split_and!; (eapply Forall_impl; [eassumption|]); intros c'; by apply client_ok_mono.
Qed.

(** The current version is deleted. *)
Lemma cinv_invalidated w w' cs1 c cs2 :
  w_db w' = w_db w → w_redis w' = mkRedis (base.delete VERSION_KEY (rd_keys (w_redis w))) (rd_published (w_redis w)) →
  cinv (w, cs1 ++ c :: cs2) → cinv (w', cs1 ++ cs2).
Proof.
  intros Hd Hr [Hco Hcs]. cbn [fst snd] in *. apply Forall_app in Hcs as [H1 [_ H2]%Forall_cons]. unfold cinv. cbn [fst snd]. rewrite Hd, Hr.
  assert (∀ v', base.delete VERSION_KEY (rd_keys (w_redis w)) !! snapshot_key v' = rd_keys (w_redis w) !! snapshot_key v') as Hl.
  { intros v'. apply lookup_delete_ne. intros ?%eq_sym. by eapply snapshot_key_version. }
  split; [split; simpl|].
  - intros v' text. rewrite Hl. apply Hco.
  - intros text. by rewrite lookup_delete_eq.
  - apply Forall_app. split; (eapply Forall_impl; [eassumption|]); intros c'; apply client_ok_mono; simpl; try done; intros v'; by rewrite Hl.
Qed.

Lemma cinv_step s s' : cinv s → cstep s s' → cinv s'.
Proof.
  intros Hi Hs. destruct Hs as [w w' cs Er Hd|w cs v s Hst|w cs|w w' cs1 cs2 n v s E|w w' cs1 cs2 n v s e E|w cs1 cs2 v s
    |w w' cs1 cs2 v r E|w w' cs1 cs2 r E|w w' cs1 cs2 v r E]; pose proof Hi as [Hco Hcs]; cbn [fst snd] in Hco, Hcs.
  - split; cbn [fst snd]; rewrite Er; [by eapply coherent_same|]. eapply Forall_impl; [exact Hcs|]. intros c. by apply client_ok_mono.
  - split; [done|]. by constructor.
  - split; [done|]. by constructor.
  - apply redis_spec in E as [Hd E]. injection E as E. apply (cinv_written w w' cs1 (Writing (S n) v s) cs2 [] v s); [done| |constructor|done|done].
    by apply Forall_app in Hcs as [_ [Hst _]%Forall_cons].
  - pose proof Hcs as [_ [Hst _]%Forall_cons]%Forall_app. apply redis_spec in E as [Hd [Hr|Hr]].
    + apply (cinv_client w w' cs1 (Writing (S n) v s) cs2 [Writing n v s]); [done|done| |done]. constructor; [|done]. simpl. by rewrite Hd.
    + apply (cinv_written w w' cs1 (Writing (S n) v s) cs2 [Writing n v s] v s); [done|done|by repeat constructor|done|done].
  - apply (cinv_client w w cs1 (Writing 0 v s) cs2 [Invalidating v]); try done. by constructor.
  - apply redis_spec in E as [Hd E].
    assert (w_redis w' = w_redis w ∨ w_redis w' = mkRedis (base.delete VERSION_KEY (rd_keys (w_redis w))) (rd_published (w_redis w))) as [Er|Er].
    { destruct r as [[]|e]; [injection E as <-; by right|exact E]. }
    + by apply (cinv_client w w' cs1 (Invalidating v) cs2 []).
    + by apply (cinv_invalidated w w' cs1 (Invalidating v) cs2).
  - apply get_version_ok in E as (Hd & Hr & Hn); [|done]. by apply (cinv_client w w' cs1 Reading cs2 [next r]); [..|constructor|].
  - pose proof Hcs as [_ [Hk _]%Forall_cons]%Forall_app. apply read_snapshot_ok in E as (Hd & Hr & Hn); [|done..].
    by apply (cinv_client w w' cs1 (ReadVersion v) cs2 [Answered (Some v) r]); [..|constructor|].
Qed.

Lemma creachable_inv s : creachable s → cinv s.
Proof.
  induction 1 as [w E|s s' _ IH Hs]; [|by eapply cinv_step]. split; [|by constructor]. cbn [fst snd]. split; intros *; rewrite E; by rewrite lookup_empty.
Qed.

(** C19. The cache never lies. However publishers, readers and edits of the tables
    interleave, command by command, and whichever commands fail (with or without
    effect on Redis): a snapshot in the
    cache is the one the version history holds under its number, the current
    version names one of them, and a reader that gets a configuration gets exactly
    that of a version which was published (as its text reads), the one it had asked
    for, even when others were published between its two commands; a reader that
    finds a version always finds its snapshot. *)
Theorem cache_never_lies w cs :
  creachable (w, cs) →
  (∀ v text, rd_keys (w_redis w) !! snapshot_key v = Some text → ∃ s, stored (w_db w) v s ∧ text = to_string s) ∧
  (∀ text, rd_keys (w_redis w) !! VERSION_KEY = Some text → ∃ v s, text = pretty v ∧ stored (w_db w) v s ∧ holds to_string (w_redis w) v s) ∧
  ∀ v r, Answered v r ∈ cs →
    match r with
    | Ok (Some s) => ∃ v' s', v = Some v' ∧ stored (w_db w) v' s' ∧ from_str (to_string s') = Ok s
    | Ok None => v = None
    | Err _ => True
    end.
Proof.
  intros [[Hs Hv] Hc]%creachable_inv. cbn [fst snd] in *. split; [done|]. split.
  - intros text Ht. destruct (Hv text Ht) as (v & _ & -> & text' & Ht'). destruct (Hs v text' Ht') as (s & Hst & ->).
    exists v, s. by split_and!.
  - intros v r Hin. rewrite Forall_forall in Hc. specialize (Hc _ Hin). by destruct r as [[s|]|e].
Qed.

End Shared.
End SharedCache.

Module SharedCacheDemo.
Import Storage Cache Rollback SharedCache RollbackDemo.
#[local] Existing Instances demo_env demo_conditions demo_snapshots.

(** Two publications, the second one after a route was deleted. The text of a
    snapshot is the number of its routes. *)
Definition first_snapshot : ConfigSnapshot := snapshot_of before.
Definition second : World := (Control.publish_config hash None 1 (Some "bob"%string) "t4" None changed).1.
Definition second_snapshot : ConfigSnapshot := snapshot_of (w_db changed).

Definition to_text (s : ConfigSnapshot) : string := pretty (Z.of_nat (length (cs_routes s))).
Definition from_text (s : string) : result ConfigSnapshot string :=
  Ok (if String.eqb s "1" then first_snapshot else second_snapshot).

Definition written2 : World := (write_snapshot 2 (to_text second_snapshot) second).1.
Definition written1 : World := (write_snapshot 1 (to_text first_snapshot) written2).1.
Definition asked : World := (redis_get_version id written1).1.
Definition read : World := (read_snapshot from_text 1 asked).1.

Lemma stored_mono d d' : (∀ row, row ∈ d_versions d → row ∈ d_versions d') → ∀ v s, stored d v s → stored d' v s.
Proof. intros Hm v s (row & Hrow & Hst). exists row. split; [by apply Hm|done]. Qed.

(** The second publisher stores its version after the first one and writes the cache
    before it. *)
Lemma late_writer :
  creachable to_text from_text id (read, [Answered (Some 1) (Ok (Some first_snapshot))]).
Proof.
  pose proof (λ a b, cr_step to_text from_text id a b) as step.
  assert (creachable to_text from_text id (published.1, [Writing RETRY_MAX 1 first_snapshot])) as H1.
  { eapply step; [eapply step; [by apply (cr_start _ _ _ w0)|apply (k_edit _ _ _ w0 published.1)]|apply k_publisher].
    - vm_compute. reflexivity.
    - apply stored_mono. intros row []%elem_of_nil.
    - eexists. split; [vm_compute; left|]. vm_compute. split_and!; congruence || reflexivity. }
  assert (creachable to_text from_text id (second, [Writing RETRY_MAX 2 second_snapshot; Writing RETRY_MAX 1 first_snapshot])) as H2.
  { eapply step; [eapply step; [exact H1|apply (k_edit _ _ _ published.1 second)]|apply k_publisher].
    - vm_compute. reflexivity.
    - apply stored_mono. intros row. vm_compute. intros ->%list_elem_of_singleton. left.
    - eexists. split; [vm_compute; right; left|]. vm_compute. split_and!; congruence || reflexivity. }
  eapply step; [|apply (k_get_snapshot _ _ _ asked read [] [])]; [|vm_compute; reflexivity].
  eapply step; [|apply (k_get_version _ _ _ written1 asked [] [] (Ok (Some 1)))]; [|vm_compute; reflexivity].
  eapply step; [|apply k_reader].
  eapply step; [|apply (k_write _ _ _ written2 written1 [] [] 2 1 first_snapshot)]; [|vm_compute; reflexivity].
  eapply step; [exact H2|]. apply (k_write _ _ _ second written2 [] [_] 2 2 second_snapshot). vm_compute. reflexivity.
Qed.

(** So the cache goes back: the latest version is the second one, and readers get
    the first. *)
Lemma cache_goes_back :
  ∃ w cs, creachable to_text from_text id (w, cs) ∧ max_version (d_versions (w_db w)) = Some 2 ∧
    rd_keys (w_redis w) !! VERSION_KEY = Some "1"%string.
Proof. exists read. eexists. split; [exact late_writer|]. split; vm_compute; reflexivity. Qed.

Lemma cache_never_lies_witness :
  (∃ v s, "1"%string = pretty v ∧ stored (w_db read) v s ∧ holds to_text (w_redis read) v s) ∧
  ∃ v s, Some 1 = Some v ∧ stored (w_db read) v s ∧ from_text (to_text s) = Ok first_snapshot.
Proof.
  destruct (cache_never_lies to_text from_text id read _ late_writer) as (_ & Hv & Hr). split.
  - apply Hv. vm_compute. reflexivity.
  - exact (Hr (Some 1) (Ok (Some first_snapshot)) ltac:(left)).
Defined.
End SharedCacheDemo.

(** ** The reload loop of a gateway *)

Module ReloadLoop.
Import Storage Cache Rollback Reload Modes.

Section Loop.
Context `{DbEnv} `{Serde RouteMatchConditions} `{Serde ConfigSnapshot}.
Context {P Ctx Resp Body : Type} `{PT : PluginTrait P Ctx Resp Body}.
Context {Regex : Type} (regex_new : string → option Regex).
Context {IpAddr IpNet : Type} `{IpL : IpLib IpAddr IpNet}.
Context (registry : @Plugins.PluginRegistryImpl P).
Context (to_string : ConfigSnapshot → string) (from_str : string → result ConfigSnapshot string) (parse_error : string → string).

(** The wait of the loop, and how long a turn takes at most. *)
Context (poll longest : Z).

Abbreviation runtime := (@Reload.runtime P Regex IpNet).

(** Where the loop stands: it waits until a moment at the latest, or it has asked
    the cache for the snapshot and ends its turn by then. *)
Inductive phase :=
| Waiting (due : Z)
| Loading (snap : result (option ConfigSnapshot) ConrogateError) (until : Z).

Definition deadline (p : phase) : Z := match p with Waiting due => due | Loading _ until => until end.

Record gate := mkGate { g_world : World; g_rt : runtime; g_clock : Z; g_phase : phase }.

(** The steps of a gateway with a cache on Redis and of the world around it, as long
    as nothing else is written to Redis and Redis can be read: other requests of the
    control plane change the tables, requests of clients change the balancers, time
    passes, the loop wakes (its timer, or a notification before that) and asks for
    the snapshot, and the turn ends in one of the ways the program allows for that
    answer, whatever else it reads. *)
Inductive calm : gate → gate → Prop :=
| g_request w w' rt t p : w_redis w' = w_redis w → calm (mkGate w rt t p) (mkGate w' rt t p)
| g_traffic w rt sel t p :
    sel_upstreams sel = sel_upstreams (rt_selector rt) →
    calm (mkGate w rt t p) (mkGate w (mkRuntime (rt_chains rt) (rt_routes rt) sel (rt_blacklist rt)) t p)
| g_pass w rt t d p : 0 <= d → t + d <= deadline p → calm (mkGate w rt t p) (mkGate w rt (t + d) p)
| g_wake w w' rt t due snap :
    t <= due → redis_get_snapshot from_str parse_error w = (w', Ok snap) →
    calm (mkGate w rt t (Waiting due)) (mkGate w' rt t (Loading (Ok snap) (t + longest)))
| g_finish w rt t until snap tr :
    t <= until → runs (reload_once registry true) (existT GetSnapshot snap :: tr) tt →
    calm (mkGate w rt t (Loading snap until)) (mkGate w (after regex_new rt (existT GetSnapshot snap :: tr)) t (Waiting (t + poll))).

(** The gateway serves a snapshot: its chains, its route table, its upstreams. *)
Record serves (rt : runtime) (snap : ConfigSnapshot) : Prop := {
  sv_chains : Plugins.build_chains registry (cs_plugin_bindings snap) = Ok (rt_chains rt);
  sv_routes : rt_routes rt = RouteMatcher.load_with_bindings regex_new (cs_routes snap) (cs_plugin_bindings snap)
                               (Plugins.body_required_plugin_names registry);
  sv_upstreams : sel_upstreams (rt_selector rt) = sel_upstreams (load_upstreams (rt_selector rt) (cs_upstreams snap)) }.

(** What a call for the snapshot answered. *)
Definition snap_answer (e : Effects.event (@ans P)) : option (result (option ConfigSnapshot) ConrogateError) :=
  match e with existT GetSnapshot a => Some a | _ => None end.

(** A turn that got a snapshot whose plugins can be built serves it. *)
Lemma turn_serves snap chains tr (rt : runtime) :
  Plugins.build_chains registry (cs_plugin_bindings snap) = Ok chains →
  runs (reload_once registry true) (existT GetSnapshot (Ok (Some snap)) :: tr) tt →
  serves (after regex_new rt (existT GetSnapshot (Ok (Some snap)) :: tr)) snap.
Proof.
  intros Hb (tr1 & o & tr2 & Etr & Hl & Hr)%runs_bind. unfold Reload.load_config_snapshot in Hl.
  destruct Hl as (a & tr3 & -> & Hl). cbn [app] in Etr.
  assert (a = Ok (Some snap)) as ->.
  { apply (f_equal (λ l, head l ≫= snap_answer)) in Etr. cbn in Etr. by injection Etr. }
  destruct Hl as [-> ->]. rewrite Etr. cbn [app]. apply runs_bind in Hr as (tr4 & [] & tr5 & -> & Hr & Hf).
  rewrite Hb in Hr. destruct Hr as ([] & t1 & -> & [] & t2 & -> & [] & t3 & -> & -> & _).
  cbn [app after foldl call_of projT1]. rewrite <- (app_nil_l tr5). unfold after. cbn [foldl effect app call_of].
  match goal with |- serves (foldl _ ?s tr5) _ => destruct (refresh_keeps regex_new tr5 s Hf) as (E1 & E2 & E3) end.
  unfold after in E1, E2, E3. split; rewrite ?E1, ?E2, ?E3; cbn; done.
Qed.
(** A turn that gets no snapshot, because none was published or Redis cannot be
    read, is a turn of a gateway without a cache: it reads the tables, published or
    not. *)
Lemma fallback_reads_tables (a : result (option ConfigSnapshot) ConrogateError) tr :
  (∀ snap, a ≠ Ok (Some snap)) →
  runs (reload_once (P := P) registry true) (existT GetSnapshot a :: tr) tt ↔ runs (reload_once registry false) tr tt.
Proof.
  intros Ha. unfold reload_once. rewrite !runs_bind. split.
  - intros (tr1 & o & tr2 & Etr & (a' & tr3 & -> & Hl) & Hr). cbn [app] in Etr.
    assert (a' = a) as -> by (apply (f_equal (λ l, head l ≫= snap_answer)) in Etr; cbn in Etr; by injection Etr).
    exists tr3, o, tr2. split; [by injection Etr|]. split; [|done]. destruct a as [[snap|]|e]; [by destruct (Ha snap)|exact Hl..].
  - intros (tr1 & o & tr2 & -> & Hl & Hr). exists (existT GetSnapshot a :: tr1), o, tr2. split; [done|]. split; [|done].
    exists a, tr1. split; [done|]. destruct a as [[snap|]|e]; [by destruct (Ha snap)|exact Hl..].
Qed.

Lemma traffic_serves rt sel snap :
  sel_upstreams sel = sel_upstreams (rt_selector rt) → serves rt snap →
  serves (mkRuntime (rt_chains rt) (rt_routes rt) sel (rt_blacklist rt)) snap.
Proof. intros E [Hc Hr Hu]. split; cbn; [done|done|]. rewrite E. exact Hu. Qed.

(** The loop never waits longer than [poll], nor loads longer than [longest]. *)
Definition timely (n : gate) : Prop :=
  match g_phase n with
  | Waiting due => g_clock n <= due <= g_clock n + poll
  | Loading _ until => g_clock n <= until <= g_clock n + longest
  end.

(** How far a snapshot has come, counted from the moment [t0] it was written. *)
Definition coming (snap : ConfigSnapshot) (t0 : Z) (n : gate) : Prop :=
  match g_phase n with
  | Waiting due => serves (g_rt n) snap ∨ due <= t0 + longest + poll
  | Loading a until =>
      (a = Ok (Some snap) ∧ (serves (g_rt n) snap ∨ until <= t0 + longest + poll + longest)) ∨ until <= t0 + longest
  end.

(** A calm stretch: the tables are edited, the loop waits, wakes and takes a turn at once. *)
Lemma wait_and_turn w1 w2 w3 (rt : runtime) o tr :
  0 <= poll → 0 <= longest → w_redis w2 = w_redis w1 → redis_get_snapshot from_str parse_error w2 = (w3, Ok o) →
  runs (reload_once registry true) (existT GetSnapshot (Ok o) :: tr) tt →
  rtc calm (mkGate w1 rt 0 (Waiting poll)) (mkGate w3 (after regex_new rt (existT GetSnapshot (Ok o) :: tr)) (poll + poll) (Waiting (poll + poll))).
Proof.
  intros Hp Hl Hw Ha Hr. eapply rtc_l; [exact (g_request w1 w2 rt 0 (Waiting poll) Hw)|].
  eapply rtc_l; [apply (g_pass w2 rt 0 poll); cbn; lia|].
  eapply rtc_l; [apply (g_wake w2 w3 rt poll poll o); [lia|exact Ha]|].
  eapply rtc_l; [apply (g_finish w3 rt poll (poll + longest) (Ok o) tr); [lia|exact Hr]|].
  eapply rtc_once. apply (g_pass w3 _ poll poll); cbn; lia.
Qed.

Lemma calm_timely n n' : 0 <= poll → 0 <= longest → timely n → calm n n' → timely n'.
Proof.
  intros Hp Hl Ht Hc. unfold timely in *. destruct Hc as [w w' rt t p _|w rt sel t p _|w rt t d p Hd Hle|w w' rt t due snap Hle _|w rt t until snap tr Hle _];
    cbn [g_phase g_clock] in *; try done; [destruct p; cbn [deadline] in Hle; lia|lia|lia].
Qed.

Context (v : Z) (snap : ConfigSnapshot) (chains : gmap Z (list P)).
Context (v_range : 0 <= v < 2 ^ 64) (text_reads : from_str (to_string snap) = Ok snap).
Context (buildable : Plugins.build_chains registry (cs_plugin_bindings snap) = Ok chains).

Abbreviation cached n := (holds to_string (w_redis (g_world n)) v snap).

Lemma redis_get_snapshot_keeps w : w_redis (redis_get_snapshot from_str parse_error w).1 = w_redis w.
Proof.
  assert (keeps (λ _ r, r) (redis_get_snapshot from_str parse_error)) as Hk; [|apply (Hk w)].
  unfold redis_get_snapshot, redis_get_version, read_snapshot, command. keeps.
Qed.

Lemma calm_cached n n' : cached n → calm n n' → cached n'.
Proof.
  intros Hh Hc. destruct Hc as [w w' rt t p E|w rt sel t p _|w rt t d p Hd Hle|w w' rt t due o Hle E|w rt t until o tr Hle _];
    cbn [g_world] in *; try done; [by rewrite E|].
  pose proof (redis_get_snapshot_keeps w) as Hk. rewrite E in Hk. cbn [fst] in Hk. by rewrite Hk.
Qed.

Lemma calm_coming t0 n n' : timely n → cached n → coming snap t0 n → calm n n' → coming snap t0 n'.
Proof using v_range text_reads buildable.
  intros Ht Hh Hi Hc. unfold coming, timely in *. destruct Hc as [w w' rt t p _|w rt sel t p E|w rt t d p Hd Hle|w w' rt t due o Hle E|w rt t until o tr Hle Hr];
    cbn [g_phase g_clock g_rt g_world] in *; try done.
  - destruct p as [due|a until]; [destruct Hi; [left; by apply traffic_serves|by right]|].
    destruct Hi as [[-> [Hs|?]]|?]; [|left; auto|by right]. left. split; [done|]. left. by apply traffic_serves.
  - pose proof (get_snapshot_held to_string from_str parse_error v snap w w' o text_reads v_range Hh E) as ->. left.
    split; [done|]. destruct Hi as [?|?]; [by left|right; lia].
  - destruct Hi as [[-> _]|?]; [left; by eapply turn_serves|right; lia].
Qed.

(** From the moment a snapshot is in the cache, a gateway whose loop runs serves it
    after the turn in progress, one wait and one turn, and keeps serving it. *)
Lemma calm_serves n n' :
  0 <= poll → 0 <= longest → timely n → cached n → rtc calm n n' →
  g_clock n + longest + poll + longest < g_clock n' → serves (g_rt n') snap.
Proof using v_range text_reads buildable.
  intros Hp Hl Ht Hh Hs Hlate.
  assert (coming snap (g_clock n) n) as Hi.
  { unfold coming, timely in *. destruct (g_phase n); right; lia. }
  revert Hi Hlate. generalize (g_clock n) as t0. intros t0 Hi Hlate.
  assert (timely n' ∧ coming snap t0 n') as [Ht' Hi'].
  { clear Hlate. induction Hs as [n|n n1 n2 Hc _ IH]; [done|]. apply IH; [by eapply calm_timely|by eapply calm_cached|by eapply calm_coming]. }
  unfold coming, timely in *. destruct (g_phase n') as [due|a until]; [destruct Hi'; [done|lia]|].
  destruct Hi' as [[_ [?|?]]|?]; [done|lia..].
Qed.
(** ** The loop goes on *)

(** A server that has nothing to say. *)
Definition mute (s : unit) (c : @Reload.call P) : unit * ans c :=
  match c return unit * ans c with
  | GetSnapshot => (s, Ok None)
  | ListEnabledRoutes | ListAllUpstreams | ListByRoute _ | ListBlacklist => (s, Err DatabaseInternal)
  | UtcNow => (s, 0)
  | SetRouteChains _ | LoadWithBindings _ _ _ | LoadUpstreams _ | ReloadBlacklist _ _ => (s, tt)
  end.

(** Whatever the cache answered, the turn can end. *)
Lemma turn_ends a : ∃ tr, runs (reload_once (P := P) registry true) (existT GetSnapshot a :: tr) tt.
Proof.
  unfold reload_once, Reload.load_config_snapshot, ask, perform. cbn [Effects.bind runs].
  match goal with |- ∃ tr, ∃ x tr', _ = _ ∧ runs (@?f x) tr' tt =>
    pose proof (exec_runs mute (f a) tt) as Hr; destruct (exec mute tt (f a)) as [[u tr] []] end.
  exists tr, a, tr. split; [done|exact Hr].
Qed.

(** One round of the loop, from a wait to the end of the next one. *)
Lemma loop_round w rt t due o w' :
  0 <= poll → 0 <= longest → t <= due → redis_get_snapshot from_str parse_error w = (w', Ok o) →
  ∃ rt', rtc calm (mkGate w rt t (Waiting due)) (mkGate w' rt' (due + poll) (Waiting (due + poll))).
Proof.
  intros Hp Hl Ht E. destruct (turn_ends (Ok o)) as [tr Hr]. eexists.
  eapply rtc_l; [apply (g_pass w rt t (due - t)); cbn [deadline]; lia|]. replace (t + (due - t)) with due by lia.
  eapply rtc_l; [apply (g_wake w w' rt due due o); [lia|exact E]|].
  eapply rtc_l; [apply (g_finish w' rt due (due + longest) (Ok o) tr); [lia|exact Hr]|].
  eapply rtc_once, (g_pass w' _ due poll); cbn [deadline]; lia.
Qed.

(** When Redis can be read, the loop of a gateway gets past every moment. *)
Lemma loop_goes_on n (T : Z) :
  0 < poll → 0 <= longest → (∀ k, fault k = None) → timely n → cached n → ∃ n', rtc calm n n' ∧ T <= g_clock n'.
Proof using v_range text_reads.
  intros Hp Hl Hf Ht Hh.
  assert (∀ k w rt t due, holds to_string (w_redis w) v snap → t <= due → ∃ n', rtc calm (mkGate w rt t (Waiting due)) n' ∧ due + Z.of_nat k * poll <= g_clock n') as Hrounds.
  { clear n Ht Hh. induction k as [|k IH]; intros w rt t due Hh Htd.
    - eexists. split; [eapply rtc_once, (g_pass w rt t (due - t)); cbn [deadline]; lia|]. cbn [g_clock]. lia.
    - destruct (redis_get_snapshot from_str parse_error w) as [w' r] eqn:E.
      assert (∃ o, r = Ok o) as [o ->].
      { revert E. unfold redis_get_snapshot, redis_get_version, read_snapshot, command, qbind, redis, qret. rewrite !Hf.
        destruct Hh as [Hver Hsnap]. cbn [w_redis ticked with_redis]. rewrite Hver, parse_uint_pretty_Z by lia.
        rewrite !Hf. cbn [w_redis ticked with_redis]. rewrite Hsnap, text_reads. intros [= _ <-]. by eexists. }
      destruct (loop_round w rt t due o w' ltac:(lia) Hl Htd E) as [rt' Hr].
      pose proof (redis_get_snapshot_keeps w) as Hk. rewrite E in Hk. cbn [fst] in Hk.
      destruct (IH w' rt' (due + poll) (due + poll)) as (n' & Hr' & Hle); [by rewrite Hk|lia|].
      exists n'. split; [by etrans|lia]. }
  assert (∀ x, x + Z.of_nat (Z.to_nat (Z.max 0 (T - x))) * poll >= T) as Hx by (intros x; nia).
  destruct n as [w rt t [due|a until]]; unfold timely in Ht; cbn [g_phase g_clock g_world] in *.
  - destruct (Hrounds (Z.to_nat (Z.max 0 (T - due))) w rt t due Hh ltac:(lia)) as (n' & Hr & Hle). exists n'. split; [done|]. specialize (Hx due). lia.
  - destruct (turn_ends a) as [tr Htr]. set (due := t + poll).
    destruct (Hrounds (Z.to_nat (Z.max 0 (T - due))) w (after regex_new rt (existT GetSnapshot a :: tr)) t due Hh ltac:(lia)) as (n' & Hr & Hle).
    exists n'. split; [|specialize (Hx due); lia]. eapply rtc_l; [|exact Hr]. apply (g_finish w rt t until a tr); [lia|done].
Qed.
End Loop.

(** ** Which cache a process opens *)

Section Open.
Context `{DbEnv} (client_open : string → result unit string).
Context (to_string : ConfigSnapshot → string) (from_str : string → result ConfigSnapshot string) (parse_error : string → string).

(** None without an address, and none when the client library refuses the address. *)
Definition open_cache (redis_url : string) : option ConfigCache :=
  if String.eqb redis_url "" then None
  else match client_open redis_url with
       | Ok _ => Some (redis_cache to_string from_str parse_error)
       | Err _ => None
       end.
End Open.

Section Published.
Context `{DbEnv} `{Serde RouteMatchConditions} `{Serde ConfigSnapshot} (sha256_hash : Value → string).
Context {P Ctx Resp Body : Type} `{PT : PluginTrait P Ctx Resp Body}.
Context {Regex : Type} (regex_new : string → option Regex).
Context {IpAddr IpNet : Type} `{IpL : IpLib IpAddr IpNet}.
Context (registry : @Plugins.PluginRegistryImpl P).
Context (to_string : ConfigSnapshot → string) (from_str : string → result ConfigSnapshot string) (parse_error : string → string).

(** C18. What is published is what is served, and soon: after a publication through a
    cache on Redis of a configuration that survives its text and whose plugin bindings
    can all be built by the gateway (the program checks neither the name nor the
    configuration of a plugin that is bound; a gateway that cannot build one keeps the
    configuration it has), as long as nothing else is written to Redis, a gateway that reads
    it serves the configuration as it was published (its plugin chains, its route
    table, its upstreams) once the turn of its reload loop in progress, one wait and
    one more turn are over, and keeps serving it whatever is edited in the tables
    meanwhile, whatever its clients do and whatever else a turn reads or fails to
    read. The exceptions are the publications the cache did not take: then it holds
    no version, or what it held before. *)
Theorem published_is_served poll longest base op trace remark w w1 v n n' chains :
  0 <= poll → 0 <= longest →
  Control.publish_config sha256_hash (Some (redis_cache to_string from_str parse_error)) base op trace remark w = (w1, Ok v) →
  from_str (to_string (snapshot_of (w_db w))) = Ok (snapshot_of (w_db w)) →
  Plugins.build_chains registry (cs_plugin_bindings (snapshot_of (w_db w))) = Ok chains →
  g_world n = w1 → timely (P := P) (Regex := Regex) (IpNet := IpNet) poll longest n →
  rtc (calm regex_new registry from_str parse_error poll longest) n n' →
  g_clock n + longest + poll + longest < g_clock n' →
  serves regex_new registry (g_rt n') (snapshot_of (w_db w)) ∨
  rd_keys (w_redis w1) !! VERSION_KEY = None ∨ w_redis w1 = w_redis w.
Proof.
  intros Hp Hl [Hv [Hh|?]]%publish_config_cached Hs Hb Hw Ht Hc Hlate; [left|by right]. rewrite <- Hw in Hh.
  by apply (calm_serves regex_new registry to_string from_str parse_error poll longest (cv_version v) (snapshot_of (w_db w)) chains
    Hv Hs Hb n n').
Qed.
End Published.
End ReloadLoop.

Module ReloadLoopDemo.
Import Storage Cache Repos Snapshot Rollback Reload Modes Agreement ReloadLoop RollbackDemo AccessDemo.
#[local] Existing Instances demo_env demo_conditions demo_snapshots.
#[local] Existing Instance toy_trait.
#[local] Existing Instance toy_lib.

Abbreviation to_text := RollbackDemo.to_string.
Abbreviation from_text := RollbackDemo.from_str.
Definition plugins : @Plugins.PluginRegistryImpl toy_plugin := PluginsDemo.demo_registry.
Definition runtime0 : @Reload.runtime toy_plugin string toy_net := ReloadDemo.demo_runtime.

(** The route is published through the cache and then deleted from the tables. *)
Definition through_cache : World := (Control.publish_config hash (Some cache) 0 (Some "ann"%string) "t1" None w0).1.
Definition edited : World := (Control.delete_route 1 (Some "bob"%string) "t2" through_cache).1.

(** The turn of the loop that finds the published snapshot. *)
Definition found : result (option ConfigSnapshot) ConrogateError := Ok (Some (snapshot_of (w_db w0))).
Definition turn : list (Effects.event (@ans toy_plugin)) :=
  (exec (serve_db RouteMatcher.toy_new (Some cache)) (edited, runtime0) (reload_once plugins true)).1.2.
Definition turn_rest : list (Effects.event (@ans toy_plugin)) := tail turn.
Definition asked : World := (redis_get_snapshot from_text id edited).1.

Lemma turn_runs : runs (reload_once plugins true) (existT GetSnapshot found :: turn_rest) tt.
Proof.
  replace (existT GetSnapshot found :: turn_rest) with turn by (vm_compute; reflexivity).
  pose proof (exec_runs (serve_db RouteMatcher.toy_new (Some cache)) (reload_once plugins true) (edited, runtime0)) as Hr.
  unfold turn. destruct (exec (serve_db RouteMatcher.toy_new (Some cache)) (edited, runtime0) (reload_once plugins true)) as [[s tr] []].
  exact Hr.
Qed.

Lemma asked_found : redis_get_snapshot from_text id edited = (asked, found).
Proof. rewrite (surjective_pairing (redis_get_snapshot from_text id edited)). f_equal. Qed.

Lemma edited_redis : w_redis edited = w_redis through_cache.
Proof. vm_compute. reflexivity. Qed.

Lemma publication_succeeds :
  ∃ v, Control.publish_config hash (Some (redis_cache to_text from_text id)) 0 (Some "ann"%string) "t1" None w0 = (through_cache, Ok v).
Proof. eexists. vm_compute. reflexivity. Qed.

Lemma chains_build : ∃ chains, Plugins.build_chains plugins (cs_plugin_bindings (snapshot_of (w_db w0))) = Ok chains.
Proof. eexists. vm_compute. reflexivity. Qed.

Lemma text_reads : from_text (to_text (snapshot_of (w_db w0))) = Ok (snapshot_of (w_db w0)).
Proof. reflexivity. Qed.

Lemma start_world w (rt : @Reload.runtime toy_plugin string toy_net) t p : g_world (mkGate w rt t p) = w.
Proof. reflexivity. Qed.

Lemma start_timely w (rt : @Reload.runtime toy_plugin string toy_net) : timely 5 1 (mkGate w rt 0 (Waiting 5)).
Proof. unfold timely. cbn. lia. Qed.

Definition at_publication : @gate toy_plugin string toy_net := mkGate through_cache runtime0 0 (Waiting 5).

Lemma ten_later :
  ∃ n', rtc (calm RouteMatcher.toy_new plugins from_text id 5 1) at_publication n' ∧ g_clock at_publication + 1 + 5 + 1 < g_clock n'.
Proof.
  eexists. split; [exact (wait_and_turn RouteMatcher.toy_new plugins from_text id 5 1 through_cache edited asked runtime0 _ turn_rest
    ltac:(lia) ltac:(lia) edited_redis asked_found turn_runs)|]. cbn. lia.
Qed.

(** At 10 the gateway serves the route as it was published, although the tables no
    longer have it. *)
Lemma published_is_served_witness :
  live_routes (w_db edited) = [] ∧
  ∃ n', rtc (calm RouteMatcher.toy_new plugins from_text id 5 1) at_publication n' ∧
    (serves RouteMatcher.toy_new plugins (g_rt n') (snapshot_of (w_db w0)) ∨
     rd_keys (w_redis through_cache) !! VERSION_KEY = None ∨ w_redis through_cache = w_redis w0).
Proof.
  split; [vm_compute; reflexivity|]. destruct publication_succeeds as [v Ep]. destruct chains_build as [chains Eb].
  destruct ten_later as (n' & Hrun & Hlate). exists n'. split; [exact Hrun|].
  exact (published_is_served hash RouteMatcher.toy_new plugins to_text from_text id 5 1 0 (Some "ann"%string) "t1" None w0
    through_cache v at_publication n' chains ltac:(lia) ltac:(lia) Ep text_reads Eb (start_world _ _ _ _) (start_timely _ _) Hrun Hlate).
Defined.
End ReloadLoopDemo.
