(* ===== verification/EndToEnd.v ===== *)
(** From the control plane to one request: what a published binding of the auth
    plugin means for the requests a gateway sends upstream, over the publication
    (Control, Rollback), its way to the gateways (Propagation), the plugin chains
    (Plugin, Builtins, AuthPlugin) and the HTTP handler (HttpHandler). *)
From Stdlib Require Import ZArith Lia Ascii String.
From stdpp Require Import base tactics option list gmap strings pretty relations.
From S2P Require Import Prelude Text Errors Core F64 Plugin Access Effects HttpHandler HttpPlugins AuthPlugin Builtins RouteMatcher Selector.
From S2P Require Import Reload Storage Repositories Versions Snapshot RouteStore ConfigCache Control Rollback Modes Propagation.
#[local] Open Scope Z_scope.

Module EndToEnd.
Import HttpHandler.

(** ** What is sent has passed the plugins *)

Section Sent.
Context {IpAddr IpNet : Type} `{IpL : IpLib IpAddr IpNet}.
Context {HeaderMap HeaderValue Uri : Type} `{HttpL : HttpLib HeaderMap HeaderValue Uri}.
Context {P : Type} (sha1_base64 : string → string).

Abbreviation handled := (list (Effects.event (@ans HeaderMap Uri P))).




End Sent.

(** ** What a published binding of the auth plugin guards *)

Section Guard.
Import Storage Repos Convert Cache Snapshot Rollback ReloadLoop Builtins.
Context `{DbEnv} `{Serde RouteMatchConditions} `{Serde ConfigSnapshot} (sha256_hash : Value → string).
Context {Key Header : Type} `{Jwt : Auth.JwtLib Key Header}.
Context {HeaderMap HeaderValue Uri : Type} `{HttpL : HttpLib HeaderMap HeaderValue Uri} `{HV : !HeaderValues HeaderMap HeaderValue}.
Context {IpAddr IpNet : Type} `{IpL : IpLib IpAddr IpNet}.
Context {Regex : Type} (regex_new : string → option Regex).
Context (cors_value : Value → result Cors.CorsPluginConfig string) (auth_value : Value → result Auth.AuthPluginConfig string).
Context (rewrite_value : Value → result HeaderRewrite.HeaderRewriteConfig string) (ip_value : Value → result IpAllowDenyConfig string).
Context (debug : string → string).
Context (found : Auth.AuthPluginConfig → @PluginContext HeaderMap → @Auth.JwksCache Key * @Auth.JwksCache Key * Auth.fetch_result * Z * Z).
Context (found_ok : ∀ cfg ctx, ∃ log log', Auth.reachable cfg (found cfg ctx).1.1.1.1 log ∧ Auth.reachable cfg (found cfg ctx).1.1.1.2 log').
Context (to_string : ConfigSnapshot → string) (from_str : string → result ConfigSnapshot string) (parse_error : string → string).
Context (sha1_base64 : string → string) (error_value : ErrorBody → Value).

#[local] Instance trait : PluginTrait (@builtin IpNet) (@PluginContext HeaderMap) (@PluginResponse HeaderMap) (Value + ErrorBody) :=
  builtin_trait cors_value auth_value rewrite_value ip_value debug found.
Abbreviation plugins := (registry cors_value auth_value rewrite_value ip_value debug found).



End Guard.
End EndToEnd.

Module EndToEndDemo.
Import Storage Cache Repos Convert Snapshot Rollback Reload Modes Agreement ReloadLoop HttpHandler HttpPlugins.PluginDemo Builtins BuiltinsDemo EndToEnd.
#[local] Existing Instances list_http list_values AccessDemo.toy_lib demo_jwt.

(** A route whose live binding of the auth plugin is to be published. *)
#[local] Instance demo_env : DbEnv :=
  {| mysql := false; new_id _ l := 1 + foldr Z.max 0 l; like _ _ := false; null_eq := false; none_inserted := None;
     violation := "constraint violation"; column_time t := t; utc n := Z.of_nat n; fault _ := None; reply_lost _ := false |}.
#[local] Instance demo_conditions : Serde RouteMatchConditions :=
  {| to_value _ := VNull; from_value _ := Ok default_conditions |}.

Definition route_row : RouteRow := mkRouteRow 1 "api" 1 VNull 0 (Some 1) None false false true 0 0 None.
Definition auth_row : BindingRow := mkBindingRow 1 1 "auth" (VObject []) 10 true true 0 0 None.
Definition tables : Db :=
  mkDb [mkUpRow 1 "a" 1 true 0 0 None] [mkNodeRow 1 1 "10.0.0.1:80" 1 true 0 0 None] [route_row] [auth_row] [] [] [] [] [] [] [].

#[local] Instance demo_snapshots : Serde ConfigSnapshot :=
  {| to_value _ := VNull; from_value _ := Ok (snapshot_of tables) |}.

Definition hash (_ : Value) : string := "00".
Definition to_text (_ : ConfigSnapshot) : string := "{..}".
Definition from_text (_ : string) : result ConfigSnapshot string := Ok (snapshot_of tables).
Definition cache : ConfigCache := Cache.redis_cache to_text from_text id.
Definition w0 : World := mkWorld tables (mkRedis ∅ []) 0.

(** The route is published through the cache and then deleted from the tables. *)
Definition through_cache : World := (Control.publish_config hash (Some cache) 0 (Some "ann"%string) "t1" None w0).1.
Definition edited : World := (Control.delete_route 1 (Some "bob"%string) "t2" through_cache).1.

(** The turn of the reload loop that finds it. *)
#[local] Existing Instance demo_trait.
Definition demo_plugins : @Plugins.PluginRegistryImpl (@builtin AccessDemo.toy_net) :=
  registry demo_cors_value demo_auth_value value_error value_error id demo_found.
Definition runtime0 : @Reload.runtime (@builtin AccessDemo.toy_net) string AccessDemo.toy_net :=
  mkRuntime ∅ RouteMatcher.empty_table Selector.demo_selector [].
Definition turn : list (Effects.event (@Reload.ans (@builtin AccessDemo.toy_net))) :=
  (exec (serve_db RouteMatcher.toy_new (Some cache)) (edited, runtime0) (reload_once demo_plugins true)).1.2.
Definition turn_rest : list (Effects.event (@Reload.ans (@builtin AccessDemo.toy_net))) := tail turn.
Definition reloaded_at : @Reload.runtime (@builtin AccessDemo.toy_net) string AccessDemo.toy_net :=
  after RouteMatcher.toy_new runtime0 (existT GetSnapshot (Ok (Some (snapshot_of tables))) :: turn_rest).







Lemma reloaded_chain : Plugins.get_route_chain (Reload.rt_chains reloaded_at) 1 = [AuthB demo_auth].
Proof. vm_compute. reflexivity. Qed.



















End EndToEndDemo.
