(* ===== verification/Lifecycle.v ===== *)
(** The life of the gateway server (conrogate-gateway/src/server.rs,
    [run_with_shutdown]; tls.rs): how it listens, what becomes of a connection, how
    many are served at once and what is left when it has been shut down. *)
From Stdlib Require Import ZArith Lia Ascii String.
From stdpp Require Import base tactics option list gmap strings.
From S2P Require Import Prelude Text Errors Core F64 TlsSni Config Effects.
#[local] Open Scope Z_scope.

Module Lifecycle.
Import Config.
Local Open Scope prog_scope.

(** ** TLS *)

Section Tls.
Context {Certs Key Acceptor : Type} (read_file : string → result string string).
Context (parse_certs : string → result (list Certs) string) (parse_key : string → result (option Key) string).
Context (with_single_cert : list Certs → Key → result Acceptor string).

(** The acceptor of the configured certificate; it offers h2 before http/1.1. *)
Definition build_tls_acceptor (c : TlsConfig) : result (Acceptor * list string) string :=
  match read_file (tls_cert_file c) with
  | Err e => Err ("read cert file '" +:+ tls_cert_file c +:+ "': " +:+ e)
  | Ok cert_pem =>
      match parse_certs cert_pem with
      | Err e => Err ("parse cert PEM: " +:+ e)
      | Ok [] => Err "no certificates found in cert file"%string
      | Ok certs =>
          match parse_key (tls_key c) with
          | Err e => Err ("parse private key PEM: " +:+ e)
          | Ok None => Err "no private key found in PEM"%string
          | Ok (Some key) =>
              match with_single_cert certs key with
              | Err e => Err ("build TLS server config: " +:+ e)
              | Ok acceptor => Ok (acceptor, ["h2"%string; "http/1.1"%string])
              end
          end
      end
  end.

(** What the accept loop is given: whether connections are tunnelled as they are, and
    the acceptor if TLS is terminated. An acceptor that cannot be built leaves plain
    TCP. *)
Definition listen_mode (c : TlsConfig) : bool * option (Acceptor * list string) :=
  (tls_enabled c && (tls_mode c =? "passthrough")%string,
   if tls_enabled c && (tls_mode c =? "terminate")%string then
     match build_tls_acceptor c with Ok a => Some a | Err _ => None end
   else None).
End Tls.

(** ** One connection *)

(** How HTTP is spoken on a connection: what the TLS handshake agreed on, or what the
    first bytes of a plain connection say. *)
Inductive wire := Http1 | Http2 | Detected.

Inductive call : Type :=
| TryAcquire                                     (* the adaptive limiter, which may refuse *)
| Acquire                                        (* the semaphore, which makes the connection wait *)
| Peek                                           (* up to 4096 bytes, left in the stream *)
| HandleTcp (listen_addr : string) (sni : option string) (client_ip : string)
| TlsAccept
| Serve (encrypted : bool) (how : wire)          (* the HTTP bridge, until the idle timeout *)
| DropPermit.

Definition ans (c : call) : Type :=
  match c with
  | TryAcquire | Acquire => bool
  | Peek => result (list Z) string
  | HandleTcp _ _ _ => result unit ConrogateError
  | TlsAccept => result (option string) string   (* the protocol of ALPN *)
  | Serve _ _ => option (result unit string)     (* [None]: the timeout *)
  | DropPermit => unit
  end.

Abbreviation M := (prog ans).
Definition ask (c : call) : M (ans c) := perform c.

(** The connection's view of the server. *)
Record listener := mkListener {
  ls_adaptive : bool; ls_passthrough : bool; ls_terminate : bool; ls_http : bool; ls_tcp : bool; ls_addr : string }.

(** [extract_sni_from_client_hello] on five bytes or more; the parser never panics
    ([extract_sni_total]). *)
Definition peeked_sni (r : result (list Z) string) : option string :=
  match r with
  | Ok buf => if 5 <=? Z.of_nat (length buf)
              then match extract_sni_from_client_hello buf with Ret sni => sni | Panic => None end
              else None
  | Err _ => None
  end.

(** [serve_tls_connection]: the choice of the protocol. *)
Definition negotiated (alpn : option string) : wire := if bool_decide (alpn = Some "h2"%string) then Http2 else Http1.

(** What the task does while it holds the permit. *)
Definition admitted (l : listener) (client_ip : string) : M unit :=
  if ls_passthrough l then
    buf <- ask Peek;;
    if ls_tcp l then ask (HandleTcp (ls_addr l) (peeked_sni buf) client_ip);;; Done tt else Done tt
  else if negb (ls_http l) then Done tt
  else if ls_terminate l then
    r <- ask TlsAccept;;
    match r with
    | Ok alpn => ask (Serve true (negotiated alpn));;; Done tt
    | Err _ => Done tt
    end
  else ask (Serve false Detected);;; Done tt.

(** The task of a connection; the permit is given back when it is dropped, on every
    way out. *)
Definition connection (l : listener) (client_ip : string) : M unit :=
  granted <- (if ls_adaptive l then ask TryAcquire else ask Acquire);;
  if (granted : bool) then admitted l client_ip;;; ask DropPermit else Done tt.

(** What the accept loop gives every connection of a configuration. *)
Definition listener_of {A} (mode : bool * option A) (adaptive http tcp : bool) (addr : string) : listener :=
  mkListener adaptive mode.1 (if mode.2 then true else false) http tcp addr.

(** ** What a connection does *)

Definition made (tr : list (event ans)) (c : call) : Prop := c ∈ map call_of tr.
Definition answered (tr : list (event ans)) (c : call) (x : ans c) : Prop := existT c x ∈ tr.

(** Goes through the calls of a run. *)
Ltac walk H :=
  repeat (simpl in H;
    match type of H with
    | ∃ _ _, _ = _ :: _ ∧ _ => let x := fresh "x" in let t := fresh "t" in destruct H as (x & t & -> & H)
    | _ = [] ∧ _ = _ => destruct H as [-> H]; simplify_eq
    | runs (if ?b then _ else _) _ _ => destruct b eqn:?
    | runs (match ?b with Ok _ => _ | Err _ => _ end) _ _ => destruct b eqn:?
    end).

(** What may be called with the permit: at most one of the protocols, each only in its
    mode. *)
Definition proper (l : listener) (client_ip : string) (tr : list (event ans)) : Prop :=
  (∀ encrypted how, made tr (Serve encrypted how) →
     ls_passthrough l = false ∧ encrypted = ls_terminate l ∧
     if encrypted then ∃ alpn, answered tr TlsAccept (Ok alpn) ∧ how = negotiated alpn else how = Detected) ∧
  (∀ addr sni ip, made tr (HandleTcp addr sni ip) →
     ls_passthrough l = true ∧ addr = ls_addr l ∧ ip = client_ip ∧ ∃ r, answered tr Peek r ∧ sni = peeked_sni r).

Lemma admitted_proper l client_ip tr u : runs (admitted l client_ip) tr u → proper l client_ip tr.
Proof.
  unfold admitted. intros H. walk H; simplify_eq.
  all: split; unfold made, answered; simpl; [intros e' how E|intros a' sni ip E].
  all: set_unfold in E; destruct_or? E; simplify_eq.
  all: repeat (split; [congruence|]); eexists; (split; [|reflexivity]); repeat constructor.
Qed.

(** The calls that take a permit or give it back. *)
Definition is_permit (c : call) : bool := match c with TryAcquire | Acquire | DropPermit => true | _ => false end.
Definition acquire_of (l : listener) : call := if ls_adaptive l then TryAcquire else Acquire.

Lemma admitted_no_permit l client_ip tr u : runs (admitted l client_ip) tr u → Forall (λ e, is_permit (call_of e) = false) tr.
Proof. unfold admitted. intros H. walk H; by repeat constructor. Qed.

(** ** The server *)

(** A connection's task: what is left of its program and whether it holds a permit;
    or it returned, or it was dropped where it stood. *)
Inductive task := Running (p : M unit) (held : bool) | Ended | Dropped.

Inductive phase :=
| Accepting
| Draining (since : Z)
| Stopped (since until : Z)
| Failed (e : string).                           (* [accept] failed, and the server with it *)

Record server := mkServer { sv_now : Z; sv_phase : phase; sv_permits : Z; sv_tasks : list task }.

Definition start (max_connections now : Z) : server := mkServer now Accepting max_connections [].

(** The free permits of the semaphore, which the adaptive limiter does not use, after
    a permit has been dropped. *)
Definition give_back (l : listener) (held : bool) (permits : Z) : Z :=
  if held && negb (ls_adaptive l) then permits + 1 else permits.

(** One step of a task: a call and its answer. *)
Inductive task_step (l : listener) (permits : Z) : task → Z → task → Prop :=
| ts_try k held b : task_step l permits (Running (Call TryAcquire k) held) permits (Running (k b) b)
| ts_acquire k held : 0 < permits → task_step l permits (Running (Call Acquire k) held) (permits - 1) (Running (k true) true)
| ts_drop k held : task_step l permits (Running (Call DropPermit k) held) (give_back l held permits) (Running (k tt) false)
| ts_call c k held x : is_permit c = false → task_step l permits (Running (Call c k) held) permits (Running (k x) held)
| ts_end held : task_step l permits (Running (Done tt) held) (give_back l held permits) Ended.

(** [connections.shutdown()], and what happens to the tasks when the set of them is
    dropped: each one that runs is dropped, with the permit it holds. *)
Definition drop_task (t : task) : task := match t with Running _ _ => Dropped | t => t end.
Definition holds (t : task) : bool := match t with Running _ held => held | _ => false end.
Definition held_permits (ts : list task) : Z := Z.of_nat (length (List.filter holds ts)).
Definition drop_all (l : listener) (s : server) (ph : phase) : server :=
  mkServer (sv_now s) ph (sv_permits s + (if ls_adaptive l then 0 else held_permits (sv_tasks s))) (map drop_task (sv_tasks s)).

(** [run_with_shutdown], interleaved with its connections: [drain] is
    [long_conn_drain]. *)
Inductive server_step (l : listener) (drain : Z) (s : server) : server → Prop :=
| st_accept client_ip : sv_phase s = Accepting →
    server_step l drain s (mkServer (sv_now s) Accepting (sv_permits s) (sv_tasks s ++ [Running (connection l client_ip) false]))
| st_accept_error e : sv_phase s = Accepting → server_step l drain s (drop_all l s (Failed e))
| st_task n t permits' t' : sv_tasks s !! n = Some t → task_step l (sv_permits s) t permits' t' →
    server_step l drain s (mkServer (sv_now s) (sv_phase s) permits' (<[n := t']> (sv_tasks s)))
| st_signal : sv_phase s = Accepting → server_step l drain s (mkServer (sv_now s) (Draining (sv_now s)) (sv_permits s) (sv_tasks s))
| st_tick d : 0 <= d → server_step l drain s (mkServer (sv_now s + d) (sv_phase s) (sv_permits s) (sv_tasks s))
| st_drained since : sv_phase s = Draining since → since + drain <= sv_now s →
    server_step l drain s (drop_all l s (Stopped since (sv_now s))).

Inductive reachable (l : listener) (drain max_connections : Z) : server → Prop :=
| re_start now : reachable l drain max_connections (start max_connections now)
| re_step s s' : reachable l drain max_connections s → server_step l drain s s' → reachable l drain max_connections s'.

(** A program that takes a permit only while it has none, and ends without one. *)
Fixpoint balanced (l : listener) (held : bool) (p : M unit) : Prop :=
  match p with
  | Done _ => held = false
  | Call c k =>
      match c return (ans c → Prop) → Prop with
      | TryAcquire => λ P, held = false ∧ ls_adaptive l = true ∧ ∀ b, P b
      | Acquire => λ P, held = false ∧ ls_adaptive l = false ∧ ∀ b, P b
      | DropPermit => λ P, held = true ∧ P tt
      | _ => λ P, ∀ x, P x
      end (λ x, balanced l
                  (match c return ans c → bool with TryAcquire | Acquire => λ b, b | DropPermit => λ _, false | _ => λ _, held end x)
                  (k x))
  end.

Lemma connection_balanced l client_ip : balanced l false (connection l client_ip).
Proof.
  unfold connection, admitted, acquire_of.
  destruct (ls_adaptive l) eqn:?; simpl; (split; [done|split; [done|]]); intros []; simpl; [|done| |done].
  all: destruct (ls_passthrough l); simpl; [intros r; destruct (ls_tcp l); by repeat (simpl; intros)|].
  all: destruct (ls_http l); simpl; [|done]; destruct (ls_terminate l); simpl; [|done]; intros []; by simpl.
Qed.

Definition task_ok (l : listener) (t : task) : Prop := match t with Running p held => balanced l held p | _ => True end.

(** What a task holds counts towards the semaphore. *)
Definition counted (l : listener) (t : task) : Z := if holds t && negb (ls_adaptive l) then 1 else 0.

Lemma task_step_ok l permits t permits' t' : task_step l permits t permits' t' → task_ok l t →
  task_ok l t' ∧ permits' + counted l t' = permits + counted l t ∧ (0 <= permits → 0 <= permits') ∧ t' ≠ Dropped ∧
  (∃ p held, t = Running p held).
Proof.
  intros [k held b|k held Hp|k held|c k held x Hc|held] Hok; simpl in Hok; unfold counted, give_back; simpl.
  - destruct Hok as (-> & -> & Hok). split_and!; [apply Hok|by rewrite !andb_false_r|done|done|eauto].
  - destruct Hok as (-> & -> & Hok). split_and!; [apply Hok|simpl; lia|lia|done|eauto].
  - destruct Hok as [-> Hok]. simpl. split_and!; [done|destruct (ls_adaptive l); simpl; lia|destruct (ls_adaptive l); simpl; lia|done|eauto].
  - split_and!; [by destruct c|lia|done|done|eauto].
  - subst held. simpl. split_and!; [done|lia|done|done|eauto].
Qed.

Definition total (l : listener) (ts : list task) : Z := if ls_adaptive l then 0 else held_permits ts.

Lemma total_insert l ts n t t' : ts !! n = Some t → total l (<[n := t']> ts) = total l ts - counted l t + counted l t'.
Proof.
  unfold total, counted, held_permits. intros H. destruct (ls_adaptive l); [rewrite !andb_false_r; lia|]. rewrite !andb_true_r.
  revert n H. induction ts as [|u ts IH]; intros [|n] H; simpl in *; [done|done| |].
  - injection H as ->. destruct (holds t), (holds t'); simpl; lia.
  - specialize (IH n H). destruct (holds u); simpl; lia.
Qed.

Lemma total_app l ts t : total l (ts ++ [t]) = total l ts + counted l t.
Proof.
  unfold total, counted, held_permits. destruct (ls_adaptive l); [by rewrite andb_false_r|].
  rewrite List.filter_app, length_app. simpl. destruct (holds t); simpl; lia.
Qed.

Lemma total_dropped l ts : total l (map drop_task ts) = 0.
Proof.
  unfold total, held_permits. destruct (ls_adaptive l); [done|]. induction ts as [|t ts IH]; [done|]. by destruct t.
Qed.

Definition live (t : task) : Prop := ∃ p held, t = Running p held.

(** What the phase says of the tasks and the clock. *)
Definition phase_ok (drain : Z) (s : server) : Prop :=
  match sv_phase s with
  | Accepting => Dropped ∉ sv_tasks s
  | Draining since => Dropped ∉ sv_tasks s ∧ since <= sv_now s
  | Stopped since until => Forall (λ t, ¬ live t) (sv_tasks s) ∧ since + drain <= until <= sv_now s
  | Failed _ => Forall (λ t, ¬ live t) (sv_tasks s)
  end.

Record server_ok (l : listener) (drain max_connections : Z) (s : server) : Prop := {
  so_tasks : Forall (task_ok l) (sv_tasks s);
  so_count : sv_permits s + total l (sv_tasks s) = max_connections;
  so_nonneg : 0 <= sv_permits s;
  so_phase : phase_ok drain s }.

Lemma dropped_not_live ts : Forall (λ t, ¬ live t) (map drop_task ts).
Proof. apply Forall_map, Forall_true. intros [p held| |] (? & ? & ?); done. Qed.

Lemma drop_all_ok l drain max s ph : server_ok l drain max s →
  (Forall (λ t, ¬ live t) (map drop_task (sv_tasks s)) → phase_ok drain (drop_all l s ph)) → server_ok l drain max (drop_all l s ph).
Proof.
  intros [Ht Hc Hn Hp] H. split; simpl.
  - apply Forall_map, Forall_true. by intros [].
  - rewrite total_dropped. fold (total l (sv_tasks s)). lia.
  - unfold held_permits. destruct (ls_adaptive l); lia.
  - apply H, dropped_not_live.
Qed.

Lemma phase_ok_insert drain s n t permits' t' :
  sv_tasks s !! n = Some t → live t → t' ≠ Dropped → phase_ok drain s →
  phase_ok drain (mkServer (sv_now s) (sv_phase s) permits' (<[n := t']> (sv_tasks s))).
Proof.
  intros Hn Hl Ht. unfold phase_ok. simpl.
  assert (Dropped ∉ sv_tasks s → Dropped ∉ <[n:=t']> (sv_tasks s)) as Hd.
  { intros H1 H2. apply list_elem_of_lookup in H2 as [m H2]. apply list_lookup_insert_Some in H2 as [(_ & ? & _)|[_ H2]]; [done|].
    apply H1. by eapply list_elem_of_lookup_2. }
  assert (Forall (λ u, ¬ live u) (sv_tasks s) → False) as Hf.
  { intros H. rewrite Forall_lookup in H. by eapply H. }
  destruct (sv_phase s); naive_solver.
Qed.

Lemma server_step_ok l drain max s s' : server_step l drain s s' → server_ok l drain max s → server_ok l drain max s'.
Proof.
  intros [ip Hp|e Hp|n t permits' t' Hn Ht|Hp|d Hd|since Hp Hd] Hok; pose proof Hok as [Hts Hc Hnn Hph].
  - unfold phase_ok in Hph. rewrite Hp in Hph. split; simpl; [|rewrite total_app; unfold counted; simpl; lia|done|].
    + apply Forall_app. split; [done|]. repeat constructor. apply connection_balanced.
    + unfold phase_ok. simpl. rewrite elem_of_app, list_elem_of_singleton. naive_solver.
  - by apply drop_all_ok.
  - pose proof (proj1 (Forall_lookup _ _) Hts _ _ Hn) as Htok.
    destruct (task_step_ok _ _ _ _ _ Ht Htok) as (H1 & H2 & H3 & H4 & H5). split; simpl.
    + by apply Forall_insert.
    + rewrite (total_insert _ _ _ t) by done. lia.
    + by apply H3.
    + by eapply phase_ok_insert.
  - unfold phase_ok in Hph. rewrite Hp in Hph. split; simpl; [done..|]. by split; [|simpl].
  - split; simpl; [done..|]. unfold phase_ok in *. simpl. destruct (sv_phase s); naive_solver lia.
  - apply drop_all_ok; [done|]. intros H. unfold phase_ok. simpl. split; [done|lia].
Qed.

Lemma server_reachable_ok l drain max s : 0 <= max → reachable l drain max s → server_ok l drain max s.
Proof.
  intros Hmax. induction 1 as [now|s s' Hr IH Hs]; [|by eapply server_step_ok].
  split; simpl; [constructor|unfold total, held_permits; destruct (ls_adaptive l); simpl; lia|done|apply not_elem_of_nil].
Qed.

Lemma closed_step l drain s s' : server_step l drain s s' → sv_phase s ≠ Accepting →
  sv_phase s' ≠ Accepting ∧ length (sv_tasks s') = length (sv_tasks s).
Proof. intros [] Hp; simpl; rewrite ?length_insert, ?length_map; done. Qed.

Lemma closed_steps l drain s s' : rtc (server_step l drain) s s' → sv_phase s ≠ Accepting →
  sv_phase s' ≠ Accepting ∧ length (sv_tasks s') = length (sv_tasks s).
Proof.
  induction 1 as [s|s s1 s2 Hs _ IH]; [done|]. intros [H1 H2]%(closed_step _ _ _ _ Hs). destruct (IH H1) as [H3 H4]. split; congruence.
Qed.

(** Nothing that a connection does can hold the shutdown up. *)
Lemma drain_ends l drain s since : 0 <= drain → sv_phase s = Draining since → since <= sv_now s →
  ∃ s', rtc (server_step l drain) s s' ∧ sv_phase s' = Stopped since (sv_now s + drain).
Proof.
  intros Hd Hp Hn. set (s1 := mkServer (sv_now s + drain) (sv_phase s) (sv_permits s) (sv_tasks s)).
  exists (drop_all l s1 (Stopped since (sv_now s1))). split; [|done].
  eapply rtc_l; [by apply st_tick|]. apply rtc_once, (st_drained _ _ s1); [done|simpl; lia].
Qed.

(** C10. The life of the server, for every interleaving of connections that come,
    wait, are served and end, of the clock and of the shutdown: when the limit is the
    configured number (not the adaptive one), the permits of the
    semaphore that are free and those that connections hold are always the
    configured number together, so never more connections than that are served at
    once; no connection is cut off while the server accepts or drains; after the
    signal no connection is accepted any more; a server that has stopped did so no
    earlier than the whole grace period after the signal, has no connection left
    that runs, and all permits are back; and from every state in which it drains it
    can reach that end by the clock alone, whatever its connections wait for. *)
Theorem server_life l drain max s :
  0 <= max → 0 <= drain → reachable l drain max s →
  (ls_adaptive l = false → sv_permits s + held_permits (sv_tasks s) = max ∧ held_permits (sv_tasks s) <= max) ∧
  (Dropped ∈ sv_tasks s → (∃ since until, sv_phase s = Stopped since until) ∨ ∃ e, sv_phase s = Failed e) ∧
  (∀ s', sv_phase s ≠ Accepting → rtc (server_step l drain) s s' → length (sv_tasks s') = length (sv_tasks s)) ∧
  (∀ since until, sv_phase s = Stopped since until →
     since + drain <= until ∧ Forall (λ t, ¬ live t) (sv_tasks s) ∧ sv_permits s = max) ∧
  (∀ since, sv_phase s = Draining since →
     ∃ s', rtc (server_step l drain) s s' ∧ sv_phase s' = Stopped since (sv_now s + drain)).
Proof.
  intros Hmax Hdrain Hr. destruct (server_reachable_ok _ _ _ _ Hmax Hr) as [Ht Hc Hn Hp]. unfold phase_ok in Hp. split_and!.
  - intros Ha. unfold total in Hc. rewrite Ha in Hc. lia.
  - intros Hd. destruct (sv_phase s); [done|naive_solver|eauto|eauto].
  - intros s' Hna Hs. by eapply closed_steps.
  - intros since until E. rewrite E in Hp. destruct Hp as [Hf Hu]. split_and!; [lia|done|]. rewrite <- Hc.
    cut (total l (sv_tasks s) = 0); [lia|]. unfold total, held_permits. destruct (ls_adaptive l); [done|].
    clear -Hf. induction Hf as [|t ts H Hf IH]; [done|]. destruct t as [p held| |]; [destruct H; by exists p, held|done..].
  - intros since E. rewrite E in Hp. apply drain_ends; [done|done|apply Hp].
Qed.

(** The answer to a connection's first call. *)
Definition permit_answer (l : listener) (b : bool) : event ans :=
  if ls_adaptive l then existT TryAcquire b else existT Acquire b.

Lemma made_around l b mid tail c :
  is_permit c = false → Forall (λ e, is_permit (call_of e) = true) tail → made (permit_answer l b :: mid ++ tail) c → made mid c.
Proof.
  unfold made. rewrite map_cons, map_app, elem_of_cons, elem_of_app. intros Hc Ht [->|[H|H]]; [|done|].
  - exfalso. revert Hc. unfold permit_answer. by destruct (ls_adaptive l).
  - apply list_elem_of_fmap in H as (e & -> & He). rewrite Forall_forall in Ht. specialize (Ht e He). congruence.
Qed.

Lemma answered_around l b mid tail c x : answered mid c x → answered (permit_answer l b :: mid ++ tail) c x.
Proof. unfold answered. rewrite elem_of_cons, elem_of_app. auto. Qed.

Lemma proper_around l client_ip b mid tail :
  proper l client_ip mid → Forall (λ e, is_permit (call_of e) = true) tail → proper l client_ip (permit_answer l b :: mid ++ tail).
Proof.
  intros [H1 H2] Ht. split.
  - intros e how (? & ? & Hw)%made_around%H1; [|done..]. split_and!; [done..|]. destruct e; [|done].
    destruct Hw as (alpn & ? & ?). exists alpn. split; [by apply answered_around|done].
  - intros a sni ip (? & ? & ? & r & ? & ?)%made_around%H2; [|done..]. split_and!; [done..|]. exists r. split; [by apply answered_around|done].
Qed.

Lemma connection_runs l client_ip tr u : runs (connection l client_ip) tr u →
  (tr = [permit_answer l false] ∨
   ∃ mid, tr = permit_answer l true :: mid ++ [existT DropPermit tt] ∧ Forall (λ e, is_permit (call_of e) = false) mid) ∧
  proper l client_ip tr.
Proof.
  intros H. assert (∃ b tr', tr = permit_answer l b :: tr' ∧ runs (if b : bool then admitted l client_ip;;; ask DropPermit else Done tt) tr' u)
    as (b & tr' & -> & H').
  { unfold connection, permit_answer in *. destruct (ls_adaptive l); destruct H as (b & tr' & -> & H); by exists b, tr'. }
  destruct b.
  - apply runs_bind in H' as (mid & [] & tl & -> & Hm & H'). destruct H' as ([] & tl' & -> & H'). destruct H' as [-> ->].
    split; [right; exists mid; split; [done|by eapply admitted_no_permit]|].
    apply proper_around; [by eapply admitted_proper|by repeat constructor].
  - destruct H' as [-> ->]. split; [by left|]. rewrite <- (app_nil_r []). apply proper_around; [|constructor].
    split; intros *; by intros ?%not_elem_of_nil.
Qed.

Lemma listener_terminates {Certs Key Acceptor} read_file parse_certs parse_key with_single_cert c adaptive http tcp addr :
  ls_terminate (listener_of (listen_mode (Certs := Certs) (Key := Key) (Acceptor := Acceptor) read_file parse_certs parse_key
    with_single_cert c) adaptive http tcp addr) = true ↔
  tls_enabled c = true ∧ tls_mode c = "terminate"%string ∧
    ∃ a, build_tls_acceptor read_file parse_certs parse_key with_single_cert c = Ok a.
Proof.
  unfold listener_of, listen_mode. cbn [ls_terminate snd]. destruct (tls_enabled c); simpl; [|naive_solver].
  destruct (String.eqb_spec (tls_mode c) "terminate"); [|naive_solver].
  destruct (build_tls_acceptor _ _ _ _ c); naive_solver.
Qed.

(** C11. Every connection is served in the mode its listener was configured for,
    whatever the peer, the certificates and the limiter do: its first call asks for
    a permit, and it makes no other call if that is refused; a permit granted is
    given back exactly once, last; HTTP is spoken only outside passthrough, inside
    TLS exactly if the acceptor could be built, and then only after a handshake,
    in the protocol that ALPN agreed on; in passthrough the tunnel gets the server
    name found in the bytes peeked. (So a gateway that is to terminate TLS and
    whose certificate cannot be loaded serves the same traffic in clear.) *)
Theorem connection_as_configured {Certs Key Acceptor} read_file parse_certs parse_key with_single_cert
    c adaptive http tcp addr client_ip tr u :
  let mode := listen_mode (Certs := Certs) (Key := Key) (Acceptor := Acceptor) read_file parse_certs parse_key with_single_cert c in
  let l := listener_of mode adaptive http tcp addr in
  runs (connection l client_ip) tr u →
  (tr = [permit_answer l false] ∨
   ∃ mid, tr = permit_answer l true :: mid ++ [existT DropPermit tt] ∧ Forall (λ e, is_permit (call_of e) = false) mid) ∧
  (∀ encrypted how, made tr (Serve encrypted how) →
     ¬ (tls_enabled c = true ∧ tls_mode c = "passthrough"%string) ∧
     (encrypted = true ↔ tls_enabled c = true ∧ tls_mode c = "terminate"%string ∧
        ∃ a, build_tls_acceptor read_file parse_certs parse_key with_single_cert c = Ok a) ∧
     if encrypted then ∃ alpn, answered tr TlsAccept (Ok alpn) ∧ how = negotiated alpn else how = Detected) ∧
  (∀ a sni ip, made tr (HandleTcp a sni ip) →
     tls_enabled c = true ∧ tls_mode c = "passthrough"%string ∧ a = addr ∧ ip = client_ip ∧
     ∃ r, answered tr Peek r ∧ sni = peeked_sni r).
Proof.
  intros mode l H. destruct (connection_runs _ _ _ _ H) as [Hs [Hserve Htcp]]. split; [exact Hs|split].
  - intros e how He. destruct (Hserve _ _ He) as (Hp & -> & Hw). split; [|split; [apply listener_terminates|exact Hw]].
    intros [E1 E2]. revert Hp. subst l mode. unfold listen_mode. simpl. by rewrite E1, E2.
  - intros a sni ip Ht. destruct (Htcp _ _ _ Ht) as (Hp & -> & -> & Hr). revert Hp. subst l mode. unfold listen_mode. simpl.
    intros [E1 E2%String.eqb_eq]%andb_prop. done.
Qed.
End Lifecycle.

Module LifecycleDemo.
Import Lifecycle Config.

Definition demo_listener : listener := mkListener false false false true false "127.0.0.1:8080".
Definition admit_first : M unit := bind (admitted demo_listener "10.0.0.1") (λ _, ask DropPermit).

(** One permit and two connections, of which the first is served and the second waits
    when the signal comes. *)
Definition demo_stopped : server := mkServer 30 (Stopped 0 30) 1 [Dropped; Dropped].

Lemma demo_reachable : reachable demo_listener 30 1 demo_stopped.
Proof.
  pose proof (re_start demo_listener 30 1 0) as R.
  pose proof (re_step _ _ _ _ _ R (st_accept _ _ (start 1 0) "10.0.0.1" eq_refl)) as R1.
  pose proof (re_step _ _ _ _ _ R1 (st_accept _ _ (mkServer 0 Accepting 1 _) "10.0.0.2" eq_refl)) as R2.
  assert (task_step demo_listener 1 (Running (connection demo_listener "10.0.0.1") false) 0 (Running admit_first true)) as T
    by exact (ts_acquire demo_listener 1 _ false ltac:(lia)).
  pose proof (re_step _ _ _ _ _ R2 (st_task _ _ (mkServer 0 Accepting 1 [_; _]) 0 _ _ _ eq_refl T)) as R3.
  pose proof (re_step _ _ _ _ _ R3 (st_signal _ _ (mkServer 0 Accepting 0 _) eq_refl)) as R4.
  pose proof (re_step _ _ _ _ _ R4 (st_tick _ _ (mkServer 0 (Draining 0) 0 _) 30 ltac:(lia))) as R5.
  exact (re_step _ _ _ _ _ R5 (st_drained demo_listener 30 (mkServer 30 (Draining 0) 0 _) 0 eq_refl ltac:(simpl; lia))).
Qed.

Lemma server_life_witness :
  reachable demo_listener 30 1 demo_stopped ∧ 0 + 30 <= 30 ∧ held_permits (sv_tasks demo_stopped) <= 1.
Proof.
  split; [exact demo_reachable|].
  destruct (server_life demo_listener 30 1 demo_stopped) as (H1 & _ & _ & H2 & _); [lia|lia|exact demo_reachable|].
  split; [exact (proj1 (H2 0 30 eq_refl))|exact (proj2 (H1 eq_refl))].
Defined.

(** A gateway that terminates TLS, and a client that offers h2. *)
Definition demo_tls : TlsConfig := mkTls true "terminate" "cert.pem" "key".
Definition demo_mode : bool * option (unit * list string) :=
  listen_mode (Certs := unit) (Key := unit) (λ _, Ok "pem"%string) (λ _, Ok [tt]) (λ _, Ok (Some tt)) (λ _ _, Ok tt) demo_tls.
Definition demo_serve (s : unit) (c : call) : unit * ans c :=
  (tt, match c return ans c with
       | TryAcquire | Acquire => true
       | Peek => Ok []
       | HandleTcp _ _ _ => Ok tt
       | TlsAccept => Ok (Some "h2"%string)
       | Serve _ _ => Some (Ok tt)
       | DropPermit => tt
       end).
Definition demo_trace : list (event ans) :=
  (exec demo_serve tt (connection (listener_of demo_mode false true false "0.0.0.0:443") "10.0.0.1")).1.2.

Lemma connection_as_configured_witness :
  map call_of demo_trace = [Acquire; TlsAccept; Serve true Http2; DropPermit] ∧
  ∃ alpn, answered demo_trace TlsAccept (Ok alpn) ∧ Http2 = negotiated alpn.
Proof.
  split; [reflexivity|].
  destruct (connection_as_configured (Certs := unit) (Key := unit) (λ _, Ok "pem"%string) (λ _, Ok [tt]) (λ _, Ok (Some tt)) (λ _ _, Ok tt)
    demo_tls false true false "0.0.0.0:443" "10.0.0.1" demo_trace tt) as (_ & H & _); [apply exec_runs|].
  apply (H true Http2). vm_compute. do 2 right. left.
Defined.
End LifecycleDemo.
