(* ===== verification/Serve.v ===== *)
(** The merged process: the main task of [conrogate serve]
    (conrogate-cli/src/cmd_serve.rs, bootstrap.rs) next to the gateway server of
    Lifecycle.v, and the shutdown message between them. *)
From Stdlib Require Import ZArith Lia Ascii String.
From stdpp Require Import base tactics option list strings relations.
From S2P Require Import Prelude Errors Effects Lifecycle.
#[local] Open Scope Z_scope.

Module Serve.
Local Open Scope prog_scope.

(** ** The main task *)

Inductive call : Type :=
| Setup                          (* connections, components, the gateway's task *)
| RecvShutdown                   (* the message on the broadcast channel *)
| AwaitGate (timeout : Z)
| ShutdownTasks (timeout : Z)
| CtrlC
| SendShutdown
| Sleep (d : Z).

Definition ans (c : call) : Type := match c with Setup | CtrlC => result unit string | _ => unit end.
Abbreviation M := (prog ans).
Definition ask (c : call) : M (ans c) := perform c.

(** [bootstrap::run]: it hands the sender of the channel back when it returns. *)
Definition bootstrap_run (long_conn_drain : Z) : M (result unit string) :=
  r <- ask Setup;;
  match r with
  | Err e => Done (Err e)
  | Ok _ =>
      ask RecvShutdown;;;
      ask (AwaitGate (long_conn_drain + from_secs 5));;;
      ask (ShutdownTasks (from_secs 10));;;
      Done (Ok tt)
  end.

Definition async_run (long_conn_drain : Z) : M (result unit string) :=
  r <- bootstrap_run long_conn_drain;;
  match r with
  | Err e => Done (Err e)
  | Ok _ =>
      s <- ask CtrlC;;
      match s with
      | Err e => Done (Err e)
      | Ok _ => ask SendShutdown;;; ask (Sleep (from_secs 35));;; Done (Ok tt)
      end
  end.

(** ** The process *)

(** What is left of the main task, whether the message was sent, and the gateway once
    it runs. *)
Record process := mkProcess { pr_main : M (result unit string); pr_sent : bool; pr_server : option Lifecycle.server }.

Section Process.
Context (l : Lifecycle.listener) (drain max_connections : Z).

(** A step of the main task: everything but the message may be answered at any time. *)
Inductive main_step : M (result unit string) → bool → M (result unit string) → bool → Prop :=
| ms_recv k : main_step (Call RecvShutdown k) true (k tt) true
| ms_send k sent : main_step (Call SendShutdown k) sent (k tt) true
| ms_call c k sent x : c ≠ RecvShutdown → c ≠ SendShutdown → main_step (Call c k) sent (k x) sent.

(** The gateway is spawned by the set-up; its shutdown future is the same message. *)
Inductive process_step : process → process → Prop :=
| ps_spawn k sent u now :
    process_step (mkProcess (Call Setup k) sent None) (mkProcess (k (Ok u)) sent (Some (Lifecycle.start max_connections now)))
| ps_setup_fails k sent e : process_step (mkProcess (Call Setup k) sent None) (mkProcess (k (Err e)) sent None)
| ps_main p sent p' sent' sv : main_step p sent p' sent' → (∀ k, p ≠ Call Setup k) →
    process_step (mkProcess p sent sv) (mkProcess p' sent' sv)
| ps_gate p sent s s' : Lifecycle.server_step l drain s s' →
    (Lifecycle.sv_phase s = Lifecycle.Accepting → ∀ since, Lifecycle.sv_phase s' = Lifecycle.Draining since → sent = true) →
    process_step (mkProcess p sent (Some s)) (mkProcess p sent (Some s')).

Definition booted (long_conn_drain : Z) : process := mkProcess (async_run long_conn_drain) false None.

(** The two ways the main task can be left. *)
Definition waits (p : M (result unit string)) : Prop := ∃ k, p = Call RecvShutdown k.
Definition serving (s : Lifecycle.server) : Prop :=
  Lifecycle.sv_phase s = Lifecycle.Accepting ∨ ∃ e, Lifecycle.sv_phase s = Lifecycle.Failed e.

(** What every state satisfies: the channel is silent, and the main task has not got
    past waiting for it. *)
Definition stuck (long_conn_drain : Z) (q : process) : Prop :=
  pr_sent q = false ∧ from_option serving True (pr_server q) ∧
  ((pr_main q = async_run long_conn_drain ∧ pr_server q = None) ∨ (waits (pr_main q) ∧ is_Some (pr_server q)) ∨
   ∃ e, pr_main q = Done (Err e) ∧ pr_server q = None).

Lemma serving_step s s' : serving s → Lifecycle.server_step l drain s s' →
  (∀ since, Lifecycle.sv_phase s' ≠ Lifecycle.Draining since) → serving s'.
Proof.
  unfold serving. intros Hs [ip Ha|e Ha|n t permits' t' _ _|Ha|d _|since Hp _] Hn; simpl in *; [by left|eauto|done|by destruct (Hn (Lifecycle.sv_now s))|done|].
  destruct Hs as [Hs|[e Hs]]; congruence.
Qed.

(** How a program that is about to be set up goes on. *)
Definition after_setup (p : M (result unit string)) (x : result unit string) : M (result unit string) :=
  match p with
  | Call c k => match c return (ans c → M (result unit string)) → M (result unit string) with Setup => λ k, k x | _ => λ _, p end k
  | Done _ => p
  end.

Lemma stuck_setup d k : (Call Setup k = async_run d ∨ (waits (Call Setup k)) ∨ ∃ e, Call Setup k = Done (Err e)) →
  waits (k (Ok tt)) ∧ ∀ e, k (Err e) = Done (Err e).
Proof.
  intros [Hp|[[k' Hp]|[e Hp]]]; [|done|done].
  assert (∀ x, k x = after_setup (async_run d) x) as Hk by (intros x; by rewrite <- Hp).
  split; [rewrite Hk; by eexists|]. intros e. by rewrite Hk.
Qed.

Lemma stuck_step d q q' : stuck d q → process_step q q' → stuck d q'.
Proof.
  intros (Hsent & Hserv & Hmain) Hstep. unfold stuck, waits in *.
  destruct Hstep as [k sent u now|k sent e|p sent p' sent' sv Hm Hns|p sent s s' Hg Hsig]; simpl in *; subst sent.
  - destruct (stuck_setup d k) as [Hw _]; [naive_solver|]. destruct u. split_and!; [done|by left|]. right. left. eauto.
  - destruct (stuck_setup d k) as [_ He]; [naive_solver|]. rewrite He. split_and!; [done|done|]. right. right. eauto.
  - exfalso. destruct Hmain as [[-> _]|[[[k ->] _]|(e & -> & _)]].
    + by eapply Hns.
    + inversion Hm; subst; done.
    + inversion Hm.
  - assert (∀ since, Lifecycle.sv_phase s' ≠ Lifecycle.Draining since) as Hnd.
    { intros since E. destruct Hserv as [Ha|[e He]]; [by specialize (Hsig Ha since E)|].
      destruct Hg; simpl in *; congruence. }
    split_and!; [done|by eapply serving_step|].
    destruct Hmain as [[_ ?]|[[Hw _]|(e & _ & ?)]]; [done| |done]. right. left. eauto.
Qed.

(** C12. The merged process never shuts down gracefully, whatever its connections, the
    clock and the signals it is sent do: in every state it can reach, the message
    that is to stop the gateway has not been sent, because the only task that
    would send it waits for it inside [bootstrap_run]; the main task has not come to
    listen for the interrupt, and the gateway, once started, accepts connections
    until accepting fails. *)
Theorem serve_never_drains long_conn_drain q :
  rtc process_step (booted long_conn_drain) q →
  pr_sent q = false ∧ (∀ k, pr_main q ≠ Call CtrlC k) ∧ (∀ k, pr_main q ≠ Call SendShutdown k) ∧
  ∀ s, pr_server q = Some s → waits (pr_main q) ∧ serving s.
Proof.
  intros Hr. assert (stuck long_conn_drain q) as (Hs & Hserv & Hmain).
  { assert (stuck long_conn_drain (booted long_conn_drain)) as H0 by (unfold stuck; simpl; eauto).
    clear -Hr H0. induction Hr as [q|q q1 q' Hs _ IH]; [done|]. by eapply IH, stuck_step. }
  split; [done|]. unfold waits in *. destruct Hmain as [[-> Hn]|[[[k ->] Hn]|(e & -> & Hn)]];
    (split; [done|split; [done|]]); intros s E; rewrite E in *; [done|eauto|done].
Qed.
End Process.
End Serve.

Module ServeDemo.
Import Serve.

(** The process after its set-up. *)
Definition demo_started : process :=
  mkProcess (after_setup (async_run (from_secs 30)) (Ok tt)) false (Some (Lifecycle.start 10000 0)).

Lemma serve_never_drains_witness :
  waits (pr_main demo_started) ∧ serving (Lifecycle.start 10000 0).
Proof.
  assert (rtc (process_step LifecycleDemo.demo_listener (from_secs 30) 10000) (booted (from_secs 30)) demo_started) as Hr.
  { apply rtc_once. exact (ps_spawn LifecycleDemo.demo_listener (from_secs 30) 10000 _ false tt 0). }
  exact (proj2 (proj2 (proj2 (serve_never_drains LifecycleDemo.demo_listener (from_secs 30) 10000 (from_secs 30) demo_started Hr)))
    (Lifecycle.start 10000 0) eq_refl).
Defined.
End ServeDemo.
