(* ===== verification/Commands.v ===== *)
(** The commands of the binary (conrogate-cli/src/main.rs, cmd_gate.rs,
    cmd_control.rs, cmd_migrate.rs, and the control plane inside bootstrap.rs):
    which parts of the system each command starts, in which order, from which
    settings, and what makes it fail. What a part then does is modelled in its own
    file; here it is a call with an answer. *)
From Stdlib Require Import ZArith Lia Ascii String.
From stdpp Require Import base tactics option list gmap strings pretty.
From S2P Require Import Prelude Text Errors F64 Effects Config.
#[local] Open Scope Z_scope.

Module Commands.
Import Config.
Local Open Scope prog_scope.
Local Open Scope Z_scope.

(** How a gateway reaches the control plane. *)
Record control_access := mkAccess { ca_url : string; ca_prefix : string; ca_token : string }.

Inductive call : Type :=
| BuildRuntime (worker_threads : option Z)
| CreateMainPool (url : string)
| CreateReadPool (url : string)
| RunMigrations (url : string)
| SeedDemoData (name address : string)
| ServerFromDb                                            (* from_config_with_db *)
| ServerFromConfig                                        (* from_config *)
| SpawnHeartbeat (a : control_access) (gate_id : string)
| ReloadFromHttp (a : control_access)
| SpawnPolling (a : control_access) (interval : Z)
| RunServer
| OpenConfigCache (url : string)
| Bind (addr : string)
| ServeControl (api_prefix token : string) (cached graceful : bool)
| RunMerged.                                              (* cmd_serve::async_run, in Serve *)

Definition ans (c : call) : Type :=
  match c with
  | BuildRuntime _ | Bind _ | ServeControl _ _ _ _ | RunMerged => result unit string
  | CreateMainPool _ | CreateReadPool _ | RunMigrations _ | SeedDemoData _ _ | RunServer | OpenConfigCache _ =>
      result unit ConrogateError
  | _ => unit
  end.
Abbreviation M := (prog ans).
Definition ask (c : call) : M (ans c) := perform c.

(** The [?] of anyhow, with or without a text of its own. *)
Definition or_fail {A E} (show : E → string) (p : M (result A E)) (k : A → M (result unit string)) : M (result unit string) :=
  r <- p;; match r with Ok a => k a | Err e => Done (Err (show e)) end.

Definition in_runtime (workers : option Z) (k : M (result unit string)) : M (result unit string) :=
  or_fail (λ e, "tokio runtime build failed: " +:+ e) (ask (BuildRuntime workers)) (λ _, k).

(** ** [conrogate gate] *)

Definition access_of (g : GateConfig) : control_access :=
  let r := gt_refresh g in mkAccess (rf_control_api_url r) (rf_control_api_prefix r) (rf_control_api_token r).

Definition run_server : M (result unit string) :=
  or_fail (λ e, "gateway server error: " +:+ display e) (ask RunServer) (λ _, Done (Ok tt)).

Definition run_without_db (c : Config) : M (result unit string) :=
  let a := access_of (cf_gate c) in
  ask ServerFromConfig;;;
  (if is_empty (ca_url a) then Done tt
   else ask (ReloadFromHttp a);;; ask (SpawnPolling a (rf_config_poll_interval (gt_refresh (cf_gate c)))));;;
  run_server.

Definition gate_async_run (c : Config) : M (result unit string) :=
  if (rf_config_source (gt_refresh (cf_gate c)) =? "http")%string then run_without_db c
  else
    db <- ask (CreateReadPool (read_database_url (cf_db c)));;
    match db with
    | Err _ => run_without_db c
    | Ok _ =>
        let a := access_of (cf_gate c) in
        ask ServerFromDb;;;
        (if is_empty (ca_url a) then Done tt else ask (SpawnHeartbeat a (cm_instance_id (cf_common c))));;;
        run_server
    end.

Definition gate_run (c : Config) : M (result unit string) :=
  in_runtime (if 0 <? gt_worker_threads (cf_gate c) then Some (gt_worker_threads (cf_gate c)) else None) (gate_async_run c).

(** The URI and the fields of the heartbeat that is sent every thirty seconds; the
    version is always zero. *)
Definition heartbeat_interval : Z := from_secs 30.
Definition heartbeat_uri (a : control_access) : string := ca_url a +:+ ca_prefix a +:+ "/reports/heartbeat".
Definition heartbeat_fields (a : control_access) : list (string * string) :=
  [("Content-Type", "application/json"); ("Authorization", "Bearer " +:+ ca_token a)]%string.
Definition heartbeat (gate_id : string) (now : Z) : string * Z * Z := (gate_id, 0, now).

(** ** [conrogate control] *)

(** The cache, if its URL is set and it can be opened. *)
Definition config_cache (url : string) : M bool :=
  if is_empty url then Done false
  else r <- ask (OpenConfigCache url);; Done (match r with Ok _ => true | Err _ => false end).

Definition listen_addr (l : ControlListenConfig) : string := cl_host l +:+ ":" +:+ pretty (cl_port l).

Definition control_async_run (c : Config) : M (result unit string) :=
  let l := ct_listen (cf_control c) in
  or_fail display (ask (CreateMainPool (database_url (cf_db c)))) (λ _,
    cached <- config_cache (rf_config_cache_redis_url (gt_refresh (cf_gate c)));;
    or_fail id (ask (Bind (listen_addr l))) (λ _,
      or_fail id (ask (ServeControl (cl_api_prefix l) (au_token (ct_auth (cf_control c))) cached true)) (λ _, Done (Ok tt)))).

Definition control_run (c : Config) : M (result unit string) := in_runtime None (control_async_run c).

(** [start_control_plane] of the merged process: its task ends without a result. *)
Definition start_control_plane (control : ControlConfig) (redis_url : string) : M unit :=
  let l := ct_listen control in
  cached <- config_cache redis_url;;
  b <- ask (Bind (listen_addr l));;
  match b with
  | Err _ => Done tt
  | Ok _ => ask (ServeControl (cl_api_prefix l) (au_token (ct_auth control)) cached false);;; Done tt
  end.

(** ** [conrogate migrate] and the dispatch *)

Definition migrate_async_run (c : Config) (seed : bool) (name address : string) : M (result unit string) :=
  or_fail display (ask (RunMigrations (database_url (cf_db c)))) (λ _,
    if seed then
      or_fail display (ask (CreateMainPool (database_url (cf_db c)))) (λ _,
        or_fail (λ e, "seed demo data failed: " +:+ display e) (ask (SeedDemoData name address)) (λ _, Done (Ok tt)))
    else Done (Ok tt)).

Definition migrate_run (c : Config) (seed : bool) (name address : string) : M (result unit string) :=
  in_runtime None (migrate_async_run c seed name address).

Definition serve_run (c : Config) : M (result unit string) :=
  in_runtime (if 0 <? gt_worker_threads (cf_gate c) then Some (gt_worker_threads (cf_gate c)) else None) (ask RunMerged).

Inductive Command := Serve | Gate | Control | Migrate (seed : bool) (seed_name seed_address : string).

Section Main.
(** The environment after the .env file has been read. *)
Context (env : string → option string) (parse_f64 : string → option F64.f64).

Definition main (cmd : Command) : M (result unit string) :=
  match from_env env parse_f64 with
  | Err e => Done (Err ("config load failed: " +:+ display e))
  | Ok c =>
      match validate c with
      | Err e => Done (Err ("config validation failed: " +:+ display e))
      | Ok _ =>
          match cmd with
          | Serve => serve_run c
          | Gate => gate_run c
          | Control => control_run c
          | Migrate seed name address => migrate_run c seed name address
          end
      end
  end.
End Main.

(** ** What a trace shows *)

Abbreviation trace := (list (event ans)).
Definition calls (tr : trace) : list call := map call_of tr.

(** The answer was not an error. *)
Definition fine (e : event ans) : bool :=
  match e with
  | existT c x =>
      match c return ans c → bool with
      | BuildRuntime _ | Bind _ | ServeControl _ _ _ _ | RunMerged => λ r, match r with Ok _ => true | Err _ => false end
      | CreateMainPool _ | CreateReadPool _ | RunMigrations _ | SeedDemoData _ _ | RunServer | OpenConfigCache _ =>
          λ r, match r with Ok _ => true | Err _ => false end
      | _ => λ _, true
      end x
  end.

Ltac step_run H :=
  lazymatch type of H with
  | runs (Done _) _ _ => destruct H as [-> ->]
  | runs (Call _ _) _ _ => destruct H as (? & ? & -> & H)
  | runs (if ?b then _ else _) _ _ => destruct b eqn:?
  | runs (match ?r with Ok _ => _ | Err _ => _ end) _ _ => destruct r as [[]|?]
  | runs (bind (if ?b then _ else _) _) _ _ => destruct b eqn:?
  end.
Ltac run_all H := repeat (cbn [bind] in H; step_run H).

(** Whether a call that satisfies [P] was made, and whether one was answered well. *)
Definition called (P : call → bool) (tr : trace) : bool := existsb P (calls tr).
Definition succeeded (P : call → bool) (tr : trace) : bool := existsb (λ e, P (call_of e) && fine e) tr.

Definition is_run (c : call) : bool := match c with RunServer => true | _ => false end.
Definition is_pool (c : call) : bool := match c with CreateReadPool _ => true | _ => false end.
Definition is_from_db (c : call) : bool := match c with ServerFromDb => true | _ => false end.
Definition is_from_config (c : call) : bool := match c with ServerFromConfig => true | _ => false end.
Definition is_heartbeat (c : call) : bool := match c with SpawnHeartbeat _ _ => true | _ => false end.
Definition is_http (c : call) : bool := match c with ReloadFromHttp _ | SpawnPolling _ _ => true | _ => false end.
Definition is_migration (c : call) : bool := match c with RunMigrations _ => true | _ => false end.
Definition is_seed (c : call) : bool := match c with SeedDemoData _ _ => true | _ => false end.
Definition is_cache (c : call) : bool := match c with OpenConfigCache _ => true | _ => false end.
Definition is_serving (c : call) : bool := match c with ServeControl _ _ _ _ => true | _ => false end.

(** A gateway that comes to run has one of two lives: from a database that it
    could connect to, with heartbeats when it knows the control plane, or over
    HTTP, with a first loading and polling when it knows the control plane and
    never a heartbeat. Nothing but the runtime stops it before, and it ends well
    only if the server does. *)
Lemma gate_lives c tr r :
  runs (gate_run c) tr r → called is_run tr = true →
  let known := negb (is_empty (ca_url (access_of (cf_gate c)))) in
  let db := negb (rf_config_source (gt_refresh (cf_gate c)) =? "http")%string && succeeded is_pool tr in
  (called is_from_db tr, called is_from_config tr, called is_heartbeat tr, called is_http tr) =
    (if db then (true, false, known, false) else (false, true, false, known)) ∧
  (r = Ok tt ↔ succeeded is_run tr = true).
Proof.
  unfold gate_run, gate_async_run, run_without_db, run_server, in_runtime, or_fail, ask, perform. intros H. run_all H.
  all: cbn; intros; try done; (split; [done|split; done]).
Qed.

Lemma gate_stops c tr r : runs (gate_run c) tr r → called is_run tr = false → ∃ e, r = Err ("tokio runtime build failed: " +:+ e).
Proof.
  unfold gate_run, gate_async_run, run_without_db, run_server, in_runtime, or_fail, ask, perform. intros H. run_all H.
  all: cbn; try done; eauto.
Qed.

(** The control plane is served when the database can be connected to and the
    address bound; a cache that cannot be opened is only left out. *)
Lemma control_serves c tr r :
  runs (control_run c) tr r →
  (called is_cache tr = true → is_empty (rf_config_cache_redis_url (gt_refresh (cf_gate c))) = false) ∧
  (called is_serving tr = true →
     ServeControl (cl_api_prefix (ct_listen (cf_control c))) (au_token (ct_auth (cf_control c))) (succeeded is_cache tr) true ∈ calls tr) ∧
  (r = Ok tt ↔ succeeded is_serving tr = true).
Proof.
  unfold control_run, control_async_run, config_cache, in_runtime, or_fail, ask, perform. intros H. run_all H.
  all: cbn; split_and!; try done; intros; rewrite ?elem_of_cons; rewrite ?orb_false_r; auto 10.
Qed.

(** In the merged process the control plane is served exactly when its address could
    be bound; a failure ends its task and nothing else. *)
Definition is_bind (c : call) : bool := match c with Bind _ => true | _ => false end.

Lemma merged_control_serves control url tr u :
  runs (start_control_plane control url) tr u → called is_bind tr = true ∧ called is_serving tr = succeeded is_bind tr.
Proof.
  unfold start_control_plane, config_cache, ask, perform. intros H. run_all H. all: cbn; by rewrite ?orb_false_r.
Qed.

(** Demonstration data is written only on request, into a migrated database. *)
Lemma migrate_seeds c seed name address tr r :
  runs (migrate_run c seed name address) tr r →
  (called is_seed tr = true → seed = true ∧ succeeded is_migration tr = true) ∧
  (r = Ok tt → succeeded is_migration tr = true ∧ (seed = true → succeeded is_seed tr = true)).
Proof.
  unfold migrate_run, migrate_async_run, in_runtime, or_fail, ask, perform. intros H. run_all H.
  all: cbn; split_and!; done.
Qed.

(** Nothing is started, whatever the command, from a configuration that does not
    load or is not valid. *)
Lemma main_checks env parse_f64 cmd tr r :
  runs (main env parse_f64 cmd) tr r → tr ≠ [] → ∃ c, from_env env parse_f64 = Ok c ∧ validate c = Ok tt.
Proof.
  unfold main. destruct (from_env env parse_f64) as [c|e]; [|by intros [-> _]].
  destruct (validate c) as [[]|e] eqn:E; [by exists c|by intros [-> _]].
Qed.
End Commands.
