(* ===== verification/Tasks.v ===== *)
(** The background work of the gateway: the channel that carries events to the task
    that stores them (conrogate-gateway/src/telemetry.rs, server.rs,
    conrogate-cli/src/bootstrap.rs), and the manager that ends such tasks
    (task_manager.rs). *)
From Stdlib Require Import ZArith Lia Ascii String SpecFloat.
From stdpp Require Import base tactics option list gmap strings pretty.
From S2P Require Import Prelude Text Errors Core F64 Telemetry HttpHandler Storage Repositories Reports Control Ingest.
#[local] Open Scope Z_scope.

Module Events.
Import Storage Reports Ingest.
Import HttpHandler(EventRow, ev_ts, ev_type, ev_route_id, ev_upstream_id, ev_trace_id, ev_detail).
#[local] Open Scope query_scope.

Section Events.
Context `{DbEnv} (capacity : nat) (batch_size : Z).

(** The channel, the batch of the consumer, and the database. *)
Record pipeline := mkPipeline { pl_queue : list EventRow; pl_batch : list EventRow; pl_world : World }.

(** [record_event]: [try_send] drops what does not fit. *)
Definition record_event (e : EventRow) (p : pipeline) : pipeline :=
  if bool_decide (length (pl_queue p) < capacity)%nat
  then mkPipeline (pl_queue p ++ [e]) (pl_batch p) (pl_world p) else p.

(** The batch is cleared whether or not it could be inserted. *)
Definition flush_batch (p : pipeline) : pipeline :=
  mkPipeline (pl_queue p) [] (insert_batch (pl_batch p) (pl_world p)).1.

(** The two arms of the consumer's loop. *)
Definition receive (p : pipeline) : pipeline :=
  match pl_queue p with
  | [] => p
  | e :: rest =>
      let p := mkPipeline rest (pl_batch p ++ [e]) (pl_world p) in
      if Z.max 1 batch_size <=? Z.of_nat (length (pl_batch p)) then flush_batch p else p
  end.
Definition tick (p : pipeline) : pipeline := match pl_batch p with [] => p | _ => flush_batch p end.

Inductive input := Recorded (e : EventRow) | Received | Ticked.

Definition step (p : pipeline) (i : input) : pipeline :=
  match i with Recorded e => record_event e p | Received => receive p | Ticked => tick p end.

Definition run (inputs : list input) (p : pipeline) : pipeline := foldl step p inputs.

Definition recorded (inputs : list input) : list EventRow := omap (λ i, match i with Recorded e => Some e | _ => None end) inputs.

(** ** What becomes of the batches *)

Definition inserted_all (batches : list (list EventRow)) (w : World) : World := foldl (λ w b, (insert_batch b w).1) w batches.

(** Each batch with the answer of the database. *)
Fixpoint deliveries (batches : list (list EventRow)) (w : World) : list (list EventRow * result unit ConrogateError) :=
  match batches with
  | [] => []
  | b :: rest => (b, (insert_batch b w).2) :: deliveries rest (insert_batch b w).1
  end.

(** Whatever the answer, an insertion only adds rows, and only of its events. *)
Lemma insert_batch_grows events w :
  ∃ new, d_events (w_db (insert_batch events w).1) = d_events (w_db w) ++ new ∧
    Forall (λ row, ∃ e t id, e ∈ events ∧ row = stored_event e t id) new.
Proof.
  assert (∀ w1 : World, w_db w1 = w_db w → ∃ new, d_events (w_db w1) = d_events (w_db w) ++ new ∧
    Forall (λ row, ∃ e t id, e ∈ events ∧ row = stored_event e t id) new) as Hsame.
  { intros w1 ->. exists []. by rewrite app_nil_r. }
  destruct (insert_batch events w) as [w' [[]|e]] eqn:E; simpl.
  - apply insert_batch_ok in E as (n & mks & Hf & ->). destruct (inserted_app n event_key (d_events (w_db w)) mks) as (new & -> & Hn).
    exists new. split; [done|]. eapply Forall_impl; [exact Hn|]. intros row (mk & id & Hmk & ->).
    apply list_elem_of_lookup in Hmk as [i Hi]. destruct (Forall2_lookup_r _ _ _ _ _ Hf Hi) as (x & Hx & t & ->).
    exists x, t, id. split; [by eapply list_elem_of_lookup_2|done].
  - apply Hsame. revert E. unfold insert_batch. destruct events as [|x events]; [done|].
    destruct (convert_events_ok (x :: events) w) as (w1 & mks & E1 & Ew & Hf). unfold qbind. rewrite E1. unfold insert_many, at_tick, stmt.
    destruct (fault _); [by intros [= <- <-]|]. cbv zeta. destruct none_inserted; [case_bool_decide; [by intros [= <- <-]|]|];
      (case_decide; [done|by intros [= <- <-]]).
Qed.

Lemma insert_batch_stored events w e k :
  (insert_batch events w).2 = Ok tt → e ∈ events → event_id e = Some k →
  Some k ∈ map event_key (d_events (w_db (insert_batch events w).1)).
Proof.
  destruct (insert_batch events w) as [w' r] eqn:E. simpl. intros -> He Hk. apply insert_batch_ok in E as (n & mks & Hf & ->).
  apply list_elem_of_lookup in He as [i Hi]. destruct (Forall2_lookup_l _ _ _ _ _ Hf Hi) as (mk & Hmk & t & ->).
  eapply inserted_keys; [by eapply list_elem_of_lookup_2|]. intros id. by rewrite event_key_of.
Qed.

Lemma deliveries_stored batches w :
  ∃ new, d_events (w_db (inserted_all batches w)) = d_events (w_db w) ++ new ∧
    Forall (λ row, ∃ e t id, e ∈ concat batches ∧ row = stored_event e t id) new ∧
    ∀ b e k, (b, Ok tt) ∈ deliveries batches w → e ∈ b → event_id e = Some k →
      Some k ∈ map event_key (d_events (w_db (inserted_all batches w))).
Proof.
  revert w. induction batches as [|b batches IH]; intros w; simpl.
  { exists []. rewrite app_nil_r. split_and!; [done|constructor|]. intros b e k Hb. by apply not_elem_of_nil in Hb. }
  destruct (insert_batch_grows b w) as (new1 & E1 & F1). destruct (IH (insert_batch b w).1) as (new2 & E2 & F2 & Hk).
  change (foldl _ (insert_batch b w).1 batches) with (inserted_all batches (insert_batch b w).1).
  exists (new1 ++ new2). split_and!.
  - by rewrite E2, E1, app_assoc.
  - apply Forall_app. split; (eapply Forall_impl; [eassumption|]); intros row (e & t & id & He & ->); exists e, t, id;
      rewrite elem_of_app; auto.
  - intros b' e k [Eb|Hb]%elem_of_cons He Hid; [|by eapply Hk]. injection Eb as -> Er.
    rewrite E2, map_app, elem_of_app. left. by apply (insert_batch_stored b w e).
Qed.

(** ** Nothing is lost between the channel and the table *)

(** [accepted]: the events that fitted into the channel; [batches]: what was handed to
    the database, in this order. *)
Record flow (w : World) (rec accepted : list EventRow) (batches : list (list EventRow)) (p : pipeline) : Prop := {
  fl_sub : accepted `sublist_of` rec;
  fl_room : (length (pl_queue p) ≤ capacity)%nat;
  fl_fits : (length rec ≤ capacity)%nat → accepted = rec;
  fl_order : accepted = concat batches ++ pl_batch p ++ pl_queue p;
  fl_sizes : Forall (λ b, b ≠ [] ∧ Z.of_nat (length b) <= Z.max 1 batch_size) batches;
  fl_pending : Z.of_nat (length (pl_batch p)) < Z.max 1 batch_size;
  fl_world : pl_world p = inserted_all batches w }.

Lemma flow_flush w rec accepted batches q b u :
  accepted `sublist_of` rec → (length q ≤ capacity)%nat → ((length rec ≤ capacity)%nat → accepted = rec) →
  accepted = concat batches ++ b ++ q → b ≠ [] → Z.of_nat (length b) <= Z.max 1 batch_size →
  Forall (λ b, b ≠ [] ∧ Z.of_nat (length b) <= Z.max 1 batch_size) batches → u = inserted_all batches w →
  flow w rec accepted (batches ++ [b]) (flush_batch (mkPipeline q b u)).
Proof.
  intros Hs Hr Hf Ho Hb Hl Hsz ->. split; simpl; [done|done|done| |apply Forall_app; split; [done|by repeat constructor]|lia|].
  - rewrite concat_app, Ho. simpl. by rewrite app_nil_r, app_assoc.
  - unfold inserted_all. by rewrite foldl_app.
Qed.

Lemma flow_record w rec accepted batches p e : flow w rec accepted batches p →
  ∃ accepted', flow w (rec ++ [e]) accepted' batches (record_event e p).
Proof.
  intros [Hs Hr Hf Ho Hsz Hp Hw]. unfold record_event. case_bool_decide as Hc.
  - exists (accepted ++ [e]). split; simpl; try done.
    + by apply sublist_app.
    + rewrite length_app. simpl. lia.
    + intros Hl. rewrite length_app in Hl. simpl in Hl. rewrite Hf by lia. done.
    + rewrite Ho. by rewrite !app_assoc.
  - exists accepted. split; try done.
    + by apply sublist_inserts_r.
    + intros Hl. exfalso. apply Hc. rewrite length_app in Hl. simpl in Hl. rewrite Ho in Hf.
      specialize (Hf ltac:(lia)). apply (f_equal length) in Hf. rewrite !length_app in Hf. lia.
Qed.

Lemma flow_step w rec p i : (∃ accepted batches, flow w rec accepted batches p) →
  ∃ accepted batches, flow w (rec ++ recorded [i]) accepted batches (step p i).
Proof.
  intros (accepted & batches & Hfl). destruct i as [e| |]; simpl.
  { destruct (flow_record w rec accepted batches p e Hfl) as [a' Ha]. by exists a', batches. }
  all: rewrite app_nil_r; exists accepted; destruct p as [q b u]; pose proof Hfl as [Hs Hr Hf Ho Hsz Hp Hw]; simpl in *.
  - unfold receive. simpl. destruct q as [|e q]; [by exists batches|]. cbn [pl_batch].
    assert (accepted = concat batches ++ (b ++ [e]) ++ q) as Ho' by (rewrite Ho; by rewrite <- (app_assoc b)).
    case_Z; rewrite length_app in *; simpl in *.
    + exists (batches ++ [b ++ [e]]). apply flow_flush; try done; [lia|by destruct b|rewrite length_app; simpl; lia].
    + exists batches. split; simpl; try done; [lia|]. rewrite length_app. simpl. lia.
  - unfold tick. simpl. destruct b as [|e b]; [by exists batches|]. exists (batches ++ [e :: b]). apply flow_flush; try done. simpl in *. lia.
Qed.

(** C23. Events on their way to the table: for every interleaving of reports, of the
    consumer and of its timer, whatever the database answers, the events that
    fitted into the channel (all of them, as long as no more than its capacity were
    reported) are, in the order reported, those of the batches handed to the
    database, then the batch being filled, then the channel; no batch is empty or
    longer than configured and the pending one is always shorter; the table only
    grew, by rows of those events; and every event with a trace id whose batch was
    accepted is stored. *)
Theorem events_flow inputs w :
  let p := run inputs (mkPipeline [] [] w) in
  ∃ accepted batches,
    (accepted `sublist_of` recorded inputs ∧ ((length (recorded inputs) ≤ capacity)%nat → accepted = recorded inputs)) ∧
    accepted = concat batches ++ pl_batch p ++ pl_queue p ∧ (length (pl_queue p) ≤ capacity)%nat ∧
    Forall (λ b, b ≠ [] ∧ Z.of_nat (length b) <= Z.max 1 batch_size) batches ∧
    Z.of_nat (length (pl_batch p)) < Z.max 1 batch_size ∧
    pl_world p = inserted_all batches w ∧
    (∃ new, d_events (w_db (pl_world p)) = d_events (w_db w) ++ new ∧
       Forall (λ row, ∃ e t id, e ∈ accepted ∧ row = stored_event e t id) new) ∧
    ∀ b e k, (b, Ok tt) ∈ deliveries batches w → e ∈ b → event_id e = Some k →
      Some k ∈ map event_key (d_events (w_db (pl_world p))).
Proof.
  intros p. assert (∃ accepted batches, flow w (recorded inputs) accepted batches p) as (accepted & batches & [Hs Hr Hf Ho Hsz Hp Hw]).
  { subst p. induction inputs as [|i inputs IH] using rev_ind.
    - exists [], []. split; simpl; try done; lia.
    - unfold run, recorded. rewrite foldl_app, omap_app. by apply flow_step. }
  destruct (deliveries_stored batches w) as (new & En & Fn & Hk). exists accepted, batches.
  split_and!; try done; rewrite Hw; [|exact Hk]. exists new. split; [done|]. eapply Forall_impl; [exact Fn|].
  intros row (e & t & id & He & ->). exists e, t, id. split; [|done]. rewrite Ho, elem_of_app. by left.
Qed.
End Events.
End Events.

(** ** What plugins report *)

Module PluginReports.
Import HttpHandler(EventRow, mkEvent).
Import Events Ingest.

(** The calls a plugin can make on the services it is given. *)
Inductive service_call :=
| Increment (name : string)
| Gauge (name : string) (value : F64.f64)
| Log (level message : string).

Section Reports.
Context `{Storage.DbEnv} (capacity : nat).
(** The text of a number in JSON. *)
Context (json_f64 : F64.f64 → string).

(** [json!] of a float: null when it is infinite or not a number. *)
Definition json_number (x : F64.f64) : Value :=
  match x with S754_nan | S754_infinity _ => VNull | _ => VNumber (json_f64 x) end.

Definition row_of (now : Z) (c : service_call) : EventRow :=
  match c with
  | Increment name => mkEvent now "plugin.metric.increment" None None None (VObject [("name", VString name); ("value", VNumber "1")])
  | Gauge name value => mkEvent now "plugin.metric.gauge" None None None (VObject [("name", VString name); ("value", json_number value)])
  | Log level message => mkEvent now "plugin.log" None None None (VObject [("level", VString level); ("message", VString message)])
  end%string.

(** Each call puts one event on the way of all events. *)
Definition plugin_call (now : Z) (c : service_call) (p : pipeline) : pipeline := record_event capacity (row_of now c) p.

(** The level of the process log a plugin's message gets. *)
Inductive Level := ERROR | WARN | INFO | DEBUG | TRACE.
Definition log_level (level : string) : Level :=
  let l := to_lowercase level in
  if (l =? "error")%string then ERROR
  else if (l =? "warn")%string || (l =? "warning")%string then WARN
  else if (l =? "debug")%string then DEBUG
  else if (l =? "trace")%string then TRACE
  else INFO.

Lemma log_level_case a b : eq_ignore_ascii_case a b = true → log_level a = log_level b.
Proof. unfold eq_ignore_ascii_case, log_level. intros E%bool_decide_eq_true. by rewrite E. Qed.

(** A plugin that reports more than the channel holds loses its own reports and
    those of everyone else: nothing waits and nothing is replaced. *)
Lemma plugin_calls_fill now cs p :
  let p' := foldl (λ p c, plugin_call now c p) p cs in
  pl_queue p' = pl_queue p ++ take (capacity - length (pl_queue p)) (map (row_of now) cs) ∧
  pl_batch p' = pl_batch p ∧ pl_world p' = pl_world p.
Proof.
  revert p. induction cs as [|c cs IH]; intros p; cbn [foldl map]; [by rewrite take_nil, app_nil_r|].
  destruct (IH (plugin_call now c p)) as (Hq & Hb & Hw). rewrite Hq, Hb, Hw.
  change (plugin_call now c p) with (record_event capacity (row_of now c) p). unfold record_event.
  case_bool_decide as Hc; simpl; split_and!; try done.
  - rewrite length_app. simpl. replace (capacity - length (pl_queue p))%nat with (S (capacity - (length (pl_queue p) + 1)))%nat by lia.
    by rewrite <-app_assoc.
  - replace (capacity - length (pl_queue p))%nat with 0%nat by lia. done.
Qed.

(** The events have no trace id, so none of them is taken for a repetition of
    another when they are stored. *)
Lemma plugin_event_id now c : event_id (row_of now c) = None.
Proof. by destruct c. Qed.
End Reports.
End PluginReports.

Module TaskManager.

(** A registered task: the token it listens to and, once the manager shuts down, what
    became of its handle. *)
Inductive handle := Spawned | Joined | Aborted | Detached.
Record Task := mkTask { tk_name : string; tk_cancelled : bool; tk_handle : handle }.

Definition TaskManager : Type := list Task.
Definition new : TaskManager := [].
Definition spawn (name : string) (tasks : TaskManager) : TaskManager := tasks ++ [mkTask name false Spawned].

(** [token.cancel()] for every token, the newest first: the order of the calls and the
    tasks afterwards. *)
Definition cancel_all (tasks : TaskManager) : list string * TaskManager :=
  (map tk_name (rev tasks), map (λ t, mkTask (tk_name t) true (tk_handle t)) tasks).

(** The handles are awaited in the order of registration; [ends] is when the task of a
    handle ends ([None]: it never does). A wait that times out drops the handle, and
    the task goes on. *)
Fixpoint await_all (deadline now : Z) (handles : list (Task * option Z)) : Z * list Task :=
  match handles with
  | [] => (now, [])
  | (t, ends) :: rest =>
      let '(now', h) :=
        if deadline <=? now then (now, Aborted)
        else match ends with
             | Some e => if e <=? deadline then (Z.max now e, Joined) else (deadline, Detached)
             | None => (deadline, Detached)
             end in
      let '(end_, ts) := await_all deadline now' rest in
      (end_, mkTask (tk_name t) (tk_cancelled t) h :: ts)
  end.

(** [shutdown]: when it returns, the order of the cancellations, and the tasks. *)
Definition shutdown (timeout now : Z) (ends : list (option Z)) (tasks : TaskManager) : Z * list string * list Task :=
  let '(order, tasks) := cancel_all tasks in
  let '(end_, ts) := await_all (now + timeout) now (zip tasks ends) in (end_, order, ts).

(** A task that ends before the deadline, and one that is waited for. *)
Definition ends_before (deadline : Z) (e : option Z) : Prop := ∃ x, e = Some x ∧ x < deadline.
Definition in_time (deadline : Z) (e : option Z) : bool := match e with Some e => e <=? deadline | None => false end.

Lemma await_late deadline now hs : deadline <= now → await_all deadline now hs = (now, map (λ h, mkTask (tk_name h.1) (tk_cancelled h.1) Aborted) hs).
Proof.
  intros Hd. induction hs as [|[t e] hs IH]; [done|]. simpl. rewrite (proj2 (Z.leb_le _ _)) by done. by rewrite IH.
Qed.

Lemma await_bounded deadline now hs : now <= deadline → now <= (await_all deadline now hs).1 <= deadline.
Proof.
  revert now. induction hs as [|[t e] hs IH]; intros now Hn; [simpl; lia|]. simpl.
  case_Z; [rewrite await_late by done; simpl; lia|].
  destruct e as [e|]; [destruct (Z.leb_spec e deadline)|].
  - specialize (IH (Z.max now e) ltac:(lia)). destruct (await_all _ _ hs). simpl in *. lia.
  - rewrite await_late by lia. simpl. lia.
  - rewrite await_late by lia. simpl. lia.
Qed.

Lemma await_joined deadline now hs :
  now < deadline → Forall (λ h, ends_before deadline h.2) hs →
  await_all deadline now hs =
    (foldl Z.max now (omap snd hs), map (λ h, mkTask (tk_name h.1) (tk_cancelled h.1) Joined) hs).
Proof.
  intros Hn Hf. revert now Hn. induction Hf as [|[t e] hs (e' & He & Hlt) Hf IH]; intros now Hn; [done|]. simpl in He. subst e. cbn [await_all].
  rewrite (proj2 (Z.leb_gt _ _)) by done. rewrite (proj2 (Z.leb_le _ _)) by lia. rewrite IH by lia. done.
Qed.

Lemma await_stuck deadline now pre t e post :
  now < deadline → Forall (λ h, ends_before deadline h.2) pre → in_time deadline e = false →
  await_all deadline now (pre ++ (t, e) :: post) =
    (deadline, map (λ h, mkTask (tk_name h.1) (tk_cancelled h.1) Joined) pre ++ mkTask (tk_name t) (tk_cancelled t) Detached ::
       map (λ h, mkTask (tk_name h.1) (tk_cancelled h.1) Aborted) post).
Proof.
  intros Hn Hf He. revert now Hn. induction Hf as [|[t' e'] pre (x & Hx & Hlt) Hf IH]; intros now Hn.
  - simpl. rewrite (proj2 (Z.leb_gt _ _)) by done.
    destruct e as [e|]; simpl in He; [rewrite He|]; by rewrite await_late.
  - simpl in Hx. subst e'. cbn [app await_all map fst]. rewrite (proj2 (Z.leb_gt _ _)) by done. rewrite (proj2 (Z.leb_le _ _)) by lia.
    rewrite IH by lia. done.
Qed.

Lemma await_tasks deadline now hs :
  map tk_name (await_all deadline now hs).2 = map (λ h, tk_name h.1) hs ∧
  map tk_cancelled (await_all deadline now hs).2 = map (λ h, tk_cancelled h.1) hs.
Proof.
  revert now. induction hs as [|[t e] hs IH]; intros now; [done|]. cbn [await_all map fst].
  match goal with |- context [let '(_, _) := ?x in _] => destruct x as [now' h] end.
  destruct (IH now') as [IH1 IH2]. destruct (await_all deadline now' hs) as [? ts]. simpl in *. by rewrite IH1, IH2.
Qed.

(** The handles as the manager awaits them. *)
Definition awaited (tasks : TaskManager) (ends : list (option Z)) : list (Task * option Z) :=
  zip (map (λ t, mkTask (tk_name t) true (tk_handle t)) tasks) ends.

Lemma awaited_fst {B} (f : Task → B) tasks ends : length ends = length tasks →
  map (λ h, f h.1) (awaited tasks ends) = map (λ t, f (mkTask (tk_name t) true (tk_handle t))) tasks.
Proof.
  unfold awaited. revert ends. induction tasks as [|t tasks IH]; intros [|e ends] Hl; simpl in *; try done. by rewrite IH by lia.
Qed.

Lemma awaited_snd tasks ends : length ends = length tasks → map snd (awaited tasks ends) = ends.
Proof.
  unfold awaited. revert ends. induction tasks as [|t tasks IH]; intros [|e ends] Hl; simpl in *; try done. by rewrite IH by lia.
Qed.

(** Ending the background tasks: every task is told to stop, the one registered
    last first, and the manager returns within the timeout whatever the tasks do; if
    all of them end before the deadline it has waited for every one of them, and
    returns when the last has ended. If one does not, those registered before it
    have been waited for, those after it are aborted even if they had ended, and the
    one itself is left running when the manager reports that all have stopped. *)
Theorem shutdown_bounded timeout now ends tasks :
  0 < timeout → length ends = length tasks →
  let '(end_, order, ts) := shutdown timeout now ends tasks in
  order = rev (map tk_name tasks) ∧ map tk_name ts = map tk_name tasks ∧ Forall (λ t, tk_cancelled t = true) ts ∧
  now <= end_ <= now + timeout ∧
  (Forall (ends_before (now + timeout)) ends →
     Forall (λ t, tk_handle t = Joined) ts ∧ end_ = foldl Z.max now (omap id ends)) ∧
  ∀ pre e post, ends = pre ++ e :: post → Forall (ends_before (now + timeout)) pre →
    in_time (now + timeout) e = false →
    map tk_handle ts = map (λ _, Joined) pre ++ Detached :: map (λ _, Aborted) post.
Proof.
  intros Ht Hl. unfold shutdown, cancel_all. fold (awaited tasks ends).
  pose proof (await_tasks (now + timeout) now (awaited tasks ends)) as [En Ec].
  pose proof (await_bounded (now + timeout) now (awaited tasks ends) ltac:(lia)) as Hb.
  pose proof (await_joined (now + timeout) now (awaited tasks ends) ltac:(lia)) as Hj.
  pose proof (await_stuck (now + timeout) now) as Hs. pose proof (awaited_snd tasks ends Hl) as Es.
  rewrite (awaited_fst tk_name) in En by done. rewrite (awaited_fst tk_cancelled) in Ec by done.
  destruct (await_all _ _ (awaited tasks ends)) as [end_ ts] eqn:E. simpl in *. split_and!.
  - by rewrite map_rev.
  - done.
  - apply Forall_forall. intros t Hin. apply (list_elem_of_fmap_2 tk_cancelled) in Hin.
    change (tk_cancelled <$> ts) with (map tk_cancelled ts) in Hin. rewrite Ec in Hin. by apply list_elem_of_fmap in Hin as (? & -> & _).
  - lia.
  - lia.
  - intros Hf. rewrite <- Es in Hf. rewrite List.Forall_map in Hf. specialize (Hj Hf). injection Hj as -> ->. split.
    + apply Forall_map, Forall_true. done.
    + f_equal. transitivity (omap id (map snd (awaited tasks ends))); [|by rewrite Es]. clear.
      induction (awaited tasks ends) as [|[t [e|]] hs IH]; csimpl; [done|by rewrite IH|exact IH].
  - intros pre e post -> Hf He. destruct (map_eq_app _ _ _ _ Es) as (l1 & l2 & Ea & E1 & E2).
    destruct l2 as [|[t e'] l2]; [done|]. simpl in E2. injection E2 as -> <-. rewrite <- E1 in Hf. rewrite List.Forall_map in Hf.
    rewrite Ea, (Hs l1 t e l2) in E by (done || lia). injection E as <- <-. rewrite map_app. simpl. rewrite <- E1, !map_map. done.
Qed.
End TaskManager.

(** The nodes of an upstream by its name (discovery.rs). *)
Module Discovery.

Record StaticDiscovery := mkDiscovery { upstreams : list UpstreamDto }.
Definition new : StaticDiscovery := mkDiscovery [].
Definition load (us : list UpstreamDto) (_ : StaticDiscovery) : StaticDiscovery := mkDiscovery us.

Definition find_nodes (d : StaticDiscovery) (upstream_id : Z) : list UpstreamNodeDto :=
  default [] (u_nodes <$> List.find (λ u, u_id u =? upstream_id) (upstreams d)).

Definition resolve (d : StaticDiscovery) (service_name : string) : result (list UpstreamNodeDto) ConrogateError :=
  match strip_prefix "upstream:" service_name ≫= parse_uint u64_max with
  | Some id => Ok (find_nodes d id)
  | None => Err (Internal ("invalid service name: " +:+ service_name))
  end.

(** What was loaded last is found under its id; an id that nothing was loaded for has
    no nodes, and only a name of another shape is an error. *)
Lemma resolve_loaded us d id : 0 <= id <= u64_max →
  resolve (load us d) ("upstream:" +:+ pretty id) =
    Ok (match List.find (λ u, u_id u =? id) us with Some u => u_nodes u | None => [] end).
Proof.
  intros Hid. unfold resolve. rewrite (proj2 (strip_prefix_app _ _ _) eq_refl). simpl. rewrite parse_uint_pretty_Z by done.
  unfold find_nodes. simpl. by destruct (List.find _ us).
Qed.

Lemma resolve_malformed d s : strip_prefix "upstream:" s = None → ∃ msg, resolve d s = Err (Internal msg).
Proof. intros H. unfold resolve. rewrite H. by eexists. Qed.
End Discovery.

Module TasksDemo.
Import TaskManager.

(** The second of three tasks never ends. *)
Definition demo_tasks : TaskManager := spawn "event-consumer" (spawn "metric-aggregator" (spawn "config-hot-reload" new)).

Lemma shutdown_bounded_witness :
  (shutdown 10 100 [Some 101; None; Some 102] demo_tasks).1 = (110, ["event-consumer"; "metric-aggregator"; "config-hot-reload"]%string) ∧
  map tk_handle (shutdown 10 100 [Some 101; None; Some 102] demo_tasks).2 = [Joined; Detached; Aborted].
Proof.
  split; [reflexivity|].
  pose proof (shutdown_bounded 10 100 [Some 101; None; Some 102] demo_tasks ltac:(lia) eq_refl) as H.
  refine (proj2 (proj2 (proj2 (proj2 (proj2 H)))) [Some 101] None [Some 102] eq_refl _ eq_refl).
  repeat constructor. exists 101. split; [reflexivity|lia].
Defined.
End TasksDemo.
